(** * Liveline frame composition

    A shallow embedding of the draw orchestration module ([drawFrame],
    [drawMultiFrame], [drawCandleFrame]) and of the bars module
    ([drawBars]), and the properties of the composers.

    JavaScript numbers are read as real numbers (exact arithmetic); a canvas
    2D context is a record holding the part of the drawing state the
    composers depend on (global alpha, translation, the save stack) and the
    log of the calls made, each stamped with the state in force.  The
    drawing functions that the composers import ([drawLine], [drawGrid],
    [drawDot], [drawCrosshair], ...) are external: a call to one of them is
    a log entry, assumed to leave the drawing state as it found it, and the
    values they hand back are fields of [Externals]. *)

From Stdlib Require Import Reals Lra Psatz List Bool String Arith.
Import ListNotations.
Open Scope R_scope.

(* ================================================================== *)
(** * Part I.  The model                                               *)
(* ================================================================== *)

(** ** Comparisons on numbers, as booleans *)

Definition Rltb (x y : R) : bool := if Rlt_dec x y then true else false.
Definition Rleb (x y : R) : bool := if Rle_dec x y then true else false.
Definition Rgtb (x y : R) : bool := if Rgt_dec x y then true else false.
Definition Rgeb (x y : R) : bool := if Rge_dec x y then true else false.
Definition Reqb (x y : R) : bool := if Req_dec_T x y then true else false.

(** ** Constants of the draw orchestration module *)

Definition SHAKE_DECAY_RATE : R := 0.002.
Definition SHAKE_MIN_AMPLITUDE : R := 0.2.
Definition FADE_EDGE_WIDTH : R := 40.
Definition CROSSHAIR_FADE_MIN_PX : R := 5.

(** ** Progress / ramp math

    [revealRamp] is the closure defined, with the same body, at the top of
    each of the three composers; [reveal] is the variable it closes over. *)

Definition revealRamp (reveal start end_ : R) : R :=
  let t := Rmax 0 (Rmin 1 ((reveal - start) / (end_ - start))) in
  t * t * (3 - 2 * t).

(** ** Shake state *)

Record ShakeState := { amplitude : R }.

Definition createShakeState : ShakeState := {| amplitude := 0 |}.

(** The decay block of [drawFrame] ("Exponential decay"): one tick of
    [dt] milliseconds.  [Math.pow] with a positive base is [Rpower]. *)
Definition decayShake (dt : R) (shake : ShakeState) : ShakeState :=
  let decayRate := Rpower SHAKE_DECAY_RATE (dt / 1000) in
  let a := amplitude shake * decayRate in
  if Rltb a SHAKE_MIN_AMPLITUDE then {| amplitude := 0 |} else {| amplitude := a |}.

(** The decay step applied once per tick along a sequence of ticks. *)
Definition decayTicks (dts : list R) (shake : ShakeState) : ShakeState :=
  fold_left (fun s dt => decayShake dt s) dts shake.

Definition sumR (l : list R) : R := fold_right Rplus 0 l.

(** The amplitude left by one decay step over the whole elapsed time. *)
Definition decayedOver (total a : R) : R :=
  let v := a * Rpower SHAKE_DECAY_RATE (total / 1000) in
  if Rltb v SHAKE_MIN_AMPLITUDE then 0 else v.

(** ** Data points *)

Record LivelinePoint := { lp_time : R; lp_value : R }.

Record CandlePoint := {
  time : R;
  open : R;
  high : R;
  low : R;
  close : R
}.

Record BarPoint := { bar_time : R; bar_value : R }.

(** The ordering invariant of a candle (assumed by the composer). *)
Definition candle_ok (c : CandlePoint) : Prop :=
  low c <= Rmin (open c) (close c) /\
  Rmin (open c) (close c) <= Rmax (open c) (close c) /\
  Rmax (open c) (close c) <= high c.

(** ** Candle composer: line presence and colour blend

    The locals [fullLineMode], [revealLine], [lp], [colorBlend],
    [candleAlpha] and [ohlcScale] of [drawCandleFrame], as functions of the
    two options they are computed from. *)

Definition fullLineMode (lineModeProg : R) : bool := Rgeb lineModeProg 0.99.

Definition revealLine (lineModeProg reveal : R) : R :=
  if fullLineMode lineModeProg
  then 1 - reveal
  else (1 - reveal) * (1 - reveal) * (1 - reveal).

Definition lp (lineModeProg reveal : R) : R :=
  Rmax lineModeProg (revealLine lineModeProg reveal).

Definition colorBlend (lineModeProg reveal : R) : R :=
  if Rgtb (lp lineModeProg reveal) 0.001
  then lineModeProg / lp lineModeProg reveal
  else 1.

Definition candleAlpha (lineModeProg reveal : R) : R :=
  reveal * (1 - lp lineModeProg reveal).

Definition ohlcScale (reveal : R) : R := reveal * reveal * (3 - 2 * reveal).

Definition collapseC (ohlcScale : R) (c : CandlePoint) : CandlePoint :=
  if Rgeb ohlcScale 0.99 then c
  else {| time := time c;
          open := close c + (open c - close c) * ohlcScale;
          high := close c + (high c - close c) * ohlcScale;
          low := close c + (low c - close c) * ohlcScale;
          close := close c |}.

(** ** Layout and palette (declared in the types module; the fields the
    composers read) *)

Record Padding := { pad_top : R; pad_right : R; pad_bottom : R; pad_left : R }.

Record ChartLayout := {
  w : R;
  h : R;
  pad : Padding;
  chartW : R;
  chartH : R;
  leftEdge : R;
  rightEdge : R;
  toX : R -> R;
  toY : R -> R
}.

Record LivelinePalette := {
  line : string;
  gridLabel : string;
  dashLine : string;
  crosshairLine : string;
  tooltipBg : string;
  tooltipText : string
}.

Record ArrowState := { up : R; down : R }.

Record MultiSeriesHoverEntry := {
  he_color : string;
  he_label : string;
  he_value : R
}.

Inductive BarMode := BarDefault | BarOverlay.

Record BarLayout := {
  bottom : R;      (* y pixel where the bars are anchored *)
  maxHeight : R;
  maxValue : R
}.

(** A pixel point [[x, y]] as returned by [drawLine]. *)
Definition Point : Type := R * R.

Definition lastOf {A : Type} (l : list A) : option A :=
  match rev l with
  | [] => None
  | x :: _ => Some x
  end.

(** The arguments of a [drawLine] call.  The last three are passed by the
    candle composer only. *)
Record LineArgs := {
  la_layout : ChartLayout;
  la_palette : LivelinePalette;
  la_visible : list LivelinePoint;
  la_smoothValue : R;
  la_now : R;
  la_showFill : bool;
  la_scrubX : option R;
  la_scrubAmount : R;
  la_reveal : R;
  la_now_ms : R;
  la_colorBlend : option R;
  la_notFullLineMode : option bool;
  la_fillScale : option R
}.

(** ** External collaborators

    The types the composers only forward, and the values returned by the two
    imported functions whose result the composers use: [drawLine] (the pixel
    points of the line, possibly undefined) and [spawnOnSwing] (the burst
    intensity). *)

Class Externals := {
  ReferenceLine : Type;
  OrderbookData : Type;
  OrderbookState : Type;
  GridState : Type;
  TimeAxisState : Type;
  ParticleState : Type;
  DegenOptions : Type;
  Momentum : Type;
  drawLine_pts : LineArgs -> option (list Point);
  spawnOnSwing_burst :
    ParticleState -> Momentum -> R -> R -> R -> string -> R ->
    option DegenOptions -> R
}.

(** ** The canvas context *)

Inductive Style :=
| Color (css : string)
| LinearGradient (x0 y0 x1 y1 : R) (stops : list (R * string)).

(** The two fonts set by the code; the bar label font carries its size. *)
Inductive Font :=
| SeriesLabelFont
| BarLabelFont (px : R).

(** Text handed to [fillText]: a string, or [formatBarValue(v)]. *)
Inductive Text :=
| Str (s : string)
| BarValueText (v : R).

Section CanvasModel.

Context {E : Externals}.

Inductive Call :=
(* operations of the 2D context itself *)
| BeginPath
| ClosePath
| Rect (x y width height : R)
| Clip
| MoveTo (x y : R)
| LineTo (x y : R)
| ArcTo (x1 y1 x2 y2 radius : R)
| Stroke
| Fill
| FillRect (x y width height : R)
| FillText (text : Text) (x y : R)
| SetLineDash (segments : list R)
| SetStrokeStyle (css : string)
| SetLineWidth (width : R)
| SetFillStyle (s : Style)
| SetCompositeOperation (op : string)
| SetFont (f : Font)
| SetTextAlign (a : string)
| SetTextBaseline (b : string)
(* calls to the imported drawing modules *)
| DrawReferenceLine (layout : ChartLayout) (palette : LivelinePalette)
    (rl : ReferenceLine)
| DrawGrid (layout : ChartLayout) (palette : LivelinePalette)
    (formatValue : R -> string) (gs : GridState) (dt : R)
| DrawOrderbook (layout : ChartLayout) (palette : LivelinePalette)
    (data : OrderbookData) (dt : R) (st : OrderbookState) (swingMagnitude : R)
| DrawLine (args : LineArgs)
| DrawTimeAxis (layout : ChartLayout) (palette : LivelinePalette)
    (windowSecs targetWindowSecs : R) (formatTime : R -> string)
    (tas : TimeAxisState) (dt : R)
| DrawDot (x y : R) (palette : LivelinePalette) (showPulse : bool)
    (dotScrub now_ms : R)
| DrawArrows (x y : R) (m : Momentum) (palette : LivelinePalette)
    (arrows : ArrowState) (dt now_ms : R)
| SpawnOnSwing (ps : ParticleState) (m : Momentum) (x y swingMagnitude : R)
    (color : string) (dt : R) (options : option DegenOptions)
| DrawParticles (ps : ParticleState) (dt : R)
| DrawCrosshair (layout : ChartLayout) (palette : LivelinePalette)
    (hoverX hoverValue hoverTime : R) (formatValue formatTime : R -> string)
    (scrubOpacity tooltipY liveDotX : R) (tooltipOutline : bool)
| DrawMultiDot (x y : R) (color : string) (pulse : bool) (now_ms radius : R)
| DrawSimpleDot (x y : R) (color : string) (radius : R)
| DrawMultiCrosshair (layout : ChartLayout) (palette : LivelinePalette)
    (hoverX hoverTime : R) (entries : list MultiSeriesHoverEntry)
    (formatValue formatTime : R -> string)
    (scrubOpacity tooltipY : R) (tooltipOutline : bool) (liveDotX : R)
| DrawCandlesticks (layout : ChartLayout) (candles : list CandlePoint)
    (candleWidth liveTime now_ms hoverX scrubAmount liveBirthAlpha
     liveBullBlend : R) (accentCol : option string) (lp : R)
| DrawClosePrice (layout : ChartLayout) (palette : LivelinePalette)
    (candle : CandlePoint) (scrubAmount liveBullBlend : R)
| DrawCandleCrosshair (layout : ChartLayout) (palette : LivelinePalette)
    (hoverX : R) (candle : CandlePoint) (hoverTime : R)
    (formatValue formatTime : R -> string) (scrubAmount : R)
| DrawLineModeCrosshair (layout : ChartLayout) (palette : LivelinePalette)
    (hoverX value hoverTime : R)
    (formatValue formatTime : R -> string) (scrubAmount : R)
| DrawEmpty (width height : R) (pad : Padding) (palette : LivelinePalette)
    (alpha now_ms : R) (skipGradient : bool) (emptyText : option string).

(** The part of the drawing state that [save] and [restore] move and that
    the composers set: the global alpha and the translation. *)
Record DrawState := {
  globalAlpha : R;
  translateX : R;
  translateY : R
}.

Record Ctx := {
  cur : DrawState;
  stack : list DrawState;
  log : list (DrawState * Call)
}.

Definition save (c : Ctx) : Ctx :=
  {| cur := cur c; stack := cur c :: stack c; log := log c |}.

(** [restore] on an empty stack does nothing. *)
Definition restore (c : Ctx) : Ctx :=
  match stack c with
  | [] => c
  | s :: rest => {| cur := s; stack := rest; log := log c |}
  end.

(** Assigning [globalAlpha]: a value outside [0,1] is ignored by the
    canvas. *)
Definition setGlobalAlpha (a : R) (c : Ctx) : Ctx :=
  if Rleb 0 a && Rleb a 1
  then {| cur := {| globalAlpha := a;
                    translateX := translateX (cur c);
                    translateY := translateY (cur c) |};
          stack := stack c; log := log c |}
  else c.

Definition translate (x y : R) (c : Ctx) : Ctx :=
  {| cur := {| globalAlpha := globalAlpha (cur c);
               translateX := translateX (cur c) + x;
               translateY := translateY (cur c) + y |};
     stack := stack c; log := log c |}.

(** Any other call is logged with the state in force. *)
Definition call (k : Call) (c : Ctx) : Ctx :=
  {| cur := cur c; stack := stack c; log := log c ++ [(cur c, k)] |}.

(** [drawLine]: a logged call that hands back the pixel points. *)
Definition drawLine (args : LineArgs) (c : Ctx) : option (list Point) * Ctx :=
  (drawLine_pts args, call (DrawLine args) c).

(** The blocks that appear, with the same text, in more than one composer. *)

(** "Left edge fade — gradient erase" (all three composers). *)
Definition leftEdgeFade (layout : ChartLayout) (c : Ctx) : Ctx :=
  let fadeW := FADE_EDGE_WIDTH in
  let c := save c in
  let c := call (SetCompositeOperation "destination-out") c in
  let fadeGrad :=
    LinearGradient (pad_left (pad layout)) 0 (pad_left (pad layout) + fadeW) 0
      [(0, "rgba(0, 0, 0, 1)"%string); (1, "rgba(0, 0, 0, 0)"%string)] in
  let c := call (SetFillStyle fadeGrad) c in
  let c := call (FillRect 0 0 (pad_left (pad layout) + fadeW) (h layout)) c in
  restore c.

End CanvasModel.

(** ** The bars module *)

Module Bars.

Record BarDrawOptions := {
  bars : list BarPoint;
  barWidthSecs : R;
  fillColor : string;
  labelColor : string;
  scrubX : option R;
  scrubAmount : R;
  revealProgress : R;
  showLabels : bool
}.

Section DrawBars.

Context {E : Externals}.
Variables (layout : ChartLayout) (barLayout : BarLayout) (opts : BarDrawOptions).

(** The locals computed before the loop. *)
Definition pxPerSec : R := chartW layout / (rightEdge layout - leftEdge layout).
Definition barPxWidth : R := Rmax 1 (barWidthSecs opts * pxPerSec - 2).
Definition halfBar : R := barPxWidth / 2.
Definition cornerR : R := if Rgtb barPxWidth 6 then 1.5 else 0.

(** The body of the first loop, for the bar [b]; [baseAlpha] is the global
    alpha read before the loop. *)
Definition drawBar (baseAlpha : R) (b : BarPoint) (c : Ctx) : Ctx :=
  if Rleb (bar_value b) 0 then c else
  let centerX := toX layout (bar_time b + barWidthSecs opts / 2) in
  let x := centerX - halfBar in
  (* Skip bars fully outside visible area *)
  if Rltb (x + barPxWidth) (pad_left (pad layout))
     || Rgtb x (pad_left (pad layout) + chartW layout) then c else
  let rawHeight := (bar_value b / maxValue barLayout) * maxHeight barLayout in
  (* During reveal, bars grow from zero height *)
  let barH := rawHeight * revealProgress opts in
  if Rltb barH 0.5 then c else
  let barY := bottom barLayout - barH in
  (* Scrub dimming: bars to the right of scrubX are dimmed *)
  let c :=
    match scrubX opts with
    | Some sx =>
        if Rgtb (scrubAmount opts) 0.05 then
          let barCenter := centerX in
          if Rgtb barCenter sx
          then setGlobalAlpha (baseAlpha * (1 - scrubAmount opts * 0.6)) c
          else setGlobalAlpha baseAlpha c
        else c
    | None => c
    end in
  if Rgtb cornerR 0 && Rgtb barH (cornerR * 2) then
    (* Rounded top corners only *)
    let c := call BeginPath c in
    let c := call (MoveTo x (bottom barLayout)) c in
    let c := call (LineTo x (barY + cornerR)) c in
    let c := call (ArcTo x barY (x + cornerR) barY cornerR) c in
    let c := call (LineTo (x + barPxWidth - cornerR) barY) c in
    let c := call (ArcTo (x + barPxWidth) barY (x + barPxWidth) (barY + cornerR)
                     cornerR) c in
    let c := call (LineTo (x + barPxWidth) (bottom barLayout)) c in
    let c := call ClosePath c in
    call Fill c
  else
    call (FillRect x barY barPxWidth barH) c.

(** The body of the label loop. *)
Definition drawBarLabel (fontSize : R) (b : BarPoint) (c : Ctx) : Ctx :=
  if Rleb (bar_value b) 0 then c else
  let centerX := toX layout (bar_time b + barWidthSecs opts / 2) in
  if Rltb centerX (pad_left (pad layout))
     || Rgtb centerX (pad_left (pad layout) + chartW layout) then c else
  let barH := (bar_value b / maxValue barLayout) * maxHeight barLayout
              * revealProgress opts in
  if Rltb barH (fontSize + 6) then c else
  call (FillText (BarValueText (bar_value b)) centerX (bottom barLayout - 3)) c.

Definition drawBars (c : Ctx) : Ctx :=
  match bars opts with
  | [] => c
  | _ :: _ =>
    if Rleb (maxValue barLayout) 0 then c else
    let baseAlpha := globalAlpha (cur c) in
    let c := call (SetFillStyle (Color (fillColor opts))) c in
    let c := fold_left (fun c b => drawBar baseAlpha b c) (bars opts) c in
    (* Labels (optional) — drawn inside the bar, near the top *)
    let c :=
      if showLabels opts && Rgtb (revealProgress opts) 0.5 then
        let c := save c in
        let fontSize := if Rgtb (w layout) 500 then 9 else 8 in
        let c := call (SetFont (BarLabelFont fontSize)) c in
        let c := call (SetTextAlign "center") c in
        let c := call (SetTextBaseline "bottom") c in
        let c := call (SetFillStyle (Color (labelColor opts))) c in
        let c := setGlobalAlpha
                   (baseAlpha * Rmin 1 ((revealProgress opts - 0.5) * 4)) c in
        let c := fold_left (fun c b => drawBarLabel fontSize b c) (bars opts) c in
        restore c
      else c in
    setGlobalAlpha baseAlpha c
  end.

End DrawBars.

(** The bars blocks of the composers ("Bars — overlay mode" and "Bars —
    default mode"), the same text in [drawFrame] and [drawCandleFrame];
    the arguments are the options the block reads. *)
Section BarsBlocks.

Context {E : Externals}.
Variables (layout : ChartLayout) (palette : LivelinePalette).
Variables (obars : option (list BarPoint)) (obarLayout : option BarLayout)
          (obarWidthSecs : option R) (obarMode : option BarMode)
          (obarFillColor : option string) (obarShowLabels : option bool).
Variables (oscrubAmount : R) (ohoverX : option R) (reveal : R).

(** [opts.bars && opts.barLayout && opts.barWidthSecs && opts.barMode === mode
    && opts.barFillColor]: a number is truthy when it is not 0, a string when
    it is not empty. *)
Definition barsEnabled (mode : BarMode)
  : option (list BarPoint * BarLayout * R * string) :=
  match obars, obarLayout, obarWidthSecs, obarMode, obarFillColor with
  | Some bs, Some bl, Some ws, Some m, Some fc =>
      if Reqb ws 0 then None else
      match m, mode, fc with
      | _, _, EmptyString => None
      | BarOverlay, BarOverlay, _ => Some (bs, bl, ws, fc)
      | BarDefault, BarDefault, _ => Some (bs, bl, ws, fc)
      | _, _, _ => None
      end
  | _, _, _, _, _ => None
  end.

Definition barOptions (bs : list BarPoint) (ws : R) (fc : string)
  : BarDrawOptions :=
  {| bars := bs;
     barWidthSecs := ws;
     fillColor := fc;
     labelColor := gridLabel palette;
     scrubX := if Rgtb oscrubAmount 0.05 then ohoverX else None;
     scrubAmount := oscrubAmount;
     revealProgress := if Rltb reveal 1 then revealRamp reveal 0.1 0.8 else 1;
     showLabels := match obarShowLabels with Some b => b | None => false end |}.

Definition barsOverlay (c : Ctx) : Ctx :=
  match barsEnabled BarOverlay with
  | Some (bs, bl, ws, fc) =>
      let barAlpha := if Rltb reveal 1 then revealRamp reveal 0.1 0.6 else 1 in
      if Rgtb barAlpha 0.01 then
        let c := save c in
        let c := if Rltb barAlpha 1 then setGlobalAlpha barAlpha c else c in
        let c := drawBars layout bl (barOptions bs ws fc) c in
        restore c
      else c
  | None => c
  end.

Definition barsDefault (c : Ctx) : Ctx :=
  match barsEnabled BarDefault with
  | Some (bs, bl, ws, fc) =>
      let barAlpha := if Rltb reveal 1 then revealRamp reveal 0.15 0.7 else 1 in
      if Rgtb barAlpha 0.01 then
        let c := save c in
        let c := call BeginPath c in
        let c := call (Rect (pad_left (pad layout)) (bottom bl - maxHeight bl)
                         (chartW layout) (maxHeight bl)) c in
        let c := call Clip c in
        let c := if Rltb barAlpha 1 then setGlobalAlpha barAlpha c else c in
        let c := drawBars layout bl (barOptions bs ws fc) c in
        restore c
      else c
  | None => c
  end.

End BarsBlocks.

End Bars.

(** ** [drawFrame]: the single-series composer *)

Module Frame.

Record DrawOptions {E : Externals} := {
  visible : list LivelinePoint;
  smoothValue : R;
  now : R;
  momentum : Momentum;
  arrowState : ArrowState;
  showGrid : bool;
  showMomentum : bool;
  showPulse : bool;
  showFill : bool;
  referenceLine : option ReferenceLine;
  hoverX : option R;
  hoverValue : option R;
  hoverTime : option R;
  scrubAmount : R;
  windowSecs : R;
  formatValue : R -> string;
  formatTime : R -> string;
  gridState : GridState;
  timeAxisState : TimeAxisState;
  dt : R;
  targetWindowSecs : R;
  tooltipY : R;
  tooltipOutline : bool;
  orderbookData : option OrderbookData;
  orderbookState : option OrderbookState;
  particleState : option ParticleState;
  particleOptions : option DegenOptions;
  swingMagnitude : R;
  shakeState : option ShakeState;
  chartReveal : R;
  pauseProgress : R;
  now_ms : R;
  bars : option (list BarPoint);
  barWidthSecs : option R;
  barMode : option BarMode;
  barFillColor : option string;
  barLayout : option BarLayout;
  barShowLabels : option bool
}.

Section DrawFrame.

Context {E : Externals}.
Variables (layout : ChartLayout) (palette : LivelinePalette) (opts : DrawOptions).

Definition reveal : R := chartReveal opts.
Definition pause : R := pauseProgress opts.

(** 1. Reference line (behind everything) — fades with reveal *)
Definition referenceLineLayer (c : Ctx) : Ctx :=
  match referenceLine opts with
  | Some rl =>
      if Rgtb reveal 0.01 then
        let c := save c in
        let c := if Rltb reveal 1 then setGlobalAlpha reveal c else c in
        let c := call (DrawReferenceLine layout palette rl) c in
        restore c
      else c
  | None => c
  end.

(** 2. Grid — fades in delayed (15%–70% of reveal) *)
Definition gridLayer (c : Ctx) : Ctx :=
  if showGrid opts then
    let gridAlpha := if Rltb reveal 1 then revealRamp reveal 0.15 0.7 else 1 in
    if Rgtb gridAlpha 0.01 then
      let c := save c in
      let c := if Rltb gridAlpha 1 then setGlobalAlpha gridAlpha c else c in
      let c := call (DrawGrid layout palette (formatValue opts) (gridState opts)
                       (dt opts)) c in
      restore c
    else c
  else c.

(** 2b. Orderbook (behind line) — fades with reveal *)
Definition orderbookLayer (c : Ctx) : Ctx :=
  match orderbookData opts, orderbookState opts with
  | Some data, Some st =>
      if Rgtb reveal 0.01 then
        let c := save c in
        let c := if Rltb reveal 1 then setGlobalAlpha reveal c else c in
        let c := call (DrawOrderbook layout palette data (dt opts) st
                         (swingMagnitude opts)) c in
        restore c
      else c
  | _, _ => c
  end.

(** 2c. Bars — overlay mode (behind line) *)
Definition barsOverlayLayer (c : Ctx) : Ctx :=
  Bars.barsOverlay layout palette (bars opts) (barLayout opts)
    (barWidthSecs opts) (barMode opts) (barFillColor opts) (barShowLabels opts)
    (scrubAmount opts) (hoverX opts) reveal c.

(** 3. Line + fill (with scrub dimming + reveal morphing) *)
Definition lineArgs : LineArgs :=
  let scrubX := if Rgtb (scrubAmount opts) 0.05 then hoverX opts else None in
  {| la_layout := layout; la_palette := palette; la_visible := visible opts;
     la_smoothValue := smoothValue opts; la_now := now opts;
     la_showFill := showFill opts; la_scrubX := scrubX;
     la_scrubAmount := scrubAmount opts; la_reveal := reveal;
     la_now_ms := now_ms opts;
     la_colorBlend := None; la_notFullLineMode := None; la_fillScale := None |}.

Definition lineLayer (c : Ctx) : option (list Point) * Ctx :=
  drawLine lineArgs c.

(** 4. Time axis — same timing as grid *)
Definition timeAxisLayer (c : Ctx) : Ctx :=
  let timeAlpha := if Rltb reveal 1 then revealRamp reveal 0.15 0.7 else 1 in
  if Rgtb timeAlpha 0.01 then
    let c := save c in
    let c := if Rltb timeAlpha 1 then setGlobalAlpha timeAlpha c else c in
    let c := call (DrawTimeAxis layout palette (windowSecs opts)
                     (targetWindowSecs opts) (formatTime opts)
                     (timeAxisState opts) (dt opts)) c in
    restore c
  else c.

(** 5. Dot — dims during scrub, fades in with reveal (0.3 → 1.0) *)
Definition dotScrubOf (lastPt : Point) : R :=
  let dotScrub := scrubAmount opts in
  match hoverX opts with
  | Some hx =>
      if Rgtb dotScrub 0 then
        let distToLive := fst lastPt - hx in
        let fadeStart := Rmin 80 (chartW layout * 0.3) in
        if Rltb distToLive CROSSHAIR_FADE_MIN_PX then 0
        else if Rgeb distToLive fadeStart then scrubAmount opts
        else ((distToLive - CROSSHAIR_FADE_MIN_PX)
              / (fadeStart - CROSSHAIR_FADE_MIN_PX)) * scrubAmount opts
      else dotScrub
  | None => dotScrub
  end.

Definition dotLayer (lastPt : Point) (c : Ctx) : Ctx :=
  let dotScrub := dotScrubOf lastPt in
  (* Dot appears once shape is recognizable (reveal > 0.3) *)
  let dotAlpha := if Rltb reveal 0.3 then 0 else (reveal - 0.3) / 0.7 in
  let showPulse := showPulse opts && Rgtb reveal 0.6 && Rltb pause 0.5 in
  if Rgtb dotAlpha 0.01 then
    let c := save c in
    let c := if Rltb dotAlpha 1 then setGlobalAlpha dotAlpha c else c in
    let c := call (DrawDot (fst lastPt) (snd lastPt) palette showPulse dotScrub
                     (now_ms opts)) c in
    restore c
  else c.

(** 5b. Arrows — appear late in reveal (60%+), fade with pause *)
Definition arrowsLayer (lastPt : Point) (c : Ctx) : Ctx :=
  if showMomentum opts then
    let arrowReveal := if Rltb reveal 1 then revealRamp reveal 0.6 1 else 1 in
    let arrowAlpha := arrowReveal * (1 - pause) in
    if Rgtb arrowAlpha 0.01 then
      let c := save c in
      let c := if Rltb arrowAlpha 1 then setGlobalAlpha arrowAlpha c else c in
      let c := call (DrawArrows (fst lastPt) (snd lastPt) (momentum opts) palette
                       (arrowState opts) (dt opts) (now_ms opts)) c in
      restore c
    else c
  else c.

(** 6. Particles — only when fully revealed; a burst re-arms the shake. *)
Definition particlesLayer (lastPt : Point) (shake : option ShakeState) (c : Ctx)
  : Ctx * option ShakeState :=
  match particleState opts with
  | Some ps =>
      if Rgtb reveal 0.9 then
        let burstIntensity :=
          spawnOnSwing_burst ps (momentum opts) (fst lastPt) (snd lastPt)
            (swingMagnitude opts) (line palette) (dt opts) (particleOptions opts) in
        let c := call (SpawnOnSwing ps (momentum opts) (fst lastPt) (snd lastPt)
                         (swingMagnitude opts) (line palette) (dt opts)
                         (particleOptions opts)) c in
        let shake :=
          match shake with
          | Some s =>
              if Rgtb burstIntensity 0
              then Some {| amplitude :=
                             (3 + swingMagnitude opts * 4) * burstIntensity |}
              else Some s
          | None => None
          end in
        let c := call (DrawParticles ps (dt opts)) c in
        (c, shake)
      else (c, shake)
  | None => (c, shake)
  end.

(** 6b. Bars — default mode (separate bottom strip) *)
Definition barsDefaultLayer (c : Ctx) : Ctx :=
  Bars.barsDefault layout palette (bars opts) (barLayout opts)
    (barWidthSecs opts) (barMode opts) (barFillColor opts) (barShowLabels opts)
    (scrubAmount opts) (hoverX opts) reveal c.

(** 8. Crosshair — fade out well before reaching live dot *)
Definition scrubOpacityOf (lastPt : Point) (hx : R) : R :=
  let distToLive := fst lastPt - hx in
  let fadeStart := Rmin 80 (chartW layout * 0.3) in
  if Rltb distToLive CROSSHAIR_FADE_MIN_PX then 0
  else if Rgeb distToLive fadeStart then scrubAmount opts
  else ((distToLive - CROSSHAIR_FADE_MIN_PX)
        / (fadeStart - CROSSHAIR_FADE_MIN_PX)) * scrubAmount opts.

Definition crosshairLayer (pts : option (list Point)) (c : Ctx) : Ctx :=
  match hoverX opts, hoverValue opts, hoverTime opts, pts with
  | Some hx, Some hv, Some ht, Some ps =>
      match lastOf ps with
      | Some lastPt =>
          let scrubOpacity := scrubOpacityOf lastPt hx in
          if Rgtb scrubOpacity 0.01 then
            call (DrawCrosshair layout palette hx hv ht
                    (formatValue opts) (formatTime opts)
                    scrubOpacity (tooltipY opts) (fst lastPt)
                    (tooltipOutline opts)) c
          else c
      | None => c
      end
  | _, _, _, _ => c
  end.

(** Stages 1 to 8, between the shake offset and its restore. *)
Definition layers (shake : option ShakeState) (c : Ctx)
  : Ctx * option ShakeState :=
  let c := referenceLineLayer c in
  let c := gridLayer c in
  let c := orderbookLayer c in
  let c := barsOverlayLayer c in
  let '(pts, c) := lineLayer c in
  let c := timeAxisLayer c in
  let '(c, shake) :=
    match pts with
    | Some ps =>
        match lastOf ps with
        | Some lastPt =>
            let c := dotLayer lastPt c in
            let c := arrowsLayer lastPt c in
            particlesLayer lastPt shake c
        | None => (c, shake)
        end
    | None => (c, shake)
    end in
  let c := barsDefaultLayer c in
  let c := leftEdgeFade layout c in
  let c := crosshairLayer pts c in
  (c, shake).

(** [drawFrame]; [random1] and [random2] are the values of the two
    [Math.random()] calls (read only when the shake is armed).  The result
    is the context and the shake state after the call. *)
Definition drawFrame (random1 random2 : R) (c : Ctx) : Ctx * option ShakeState :=
  (* 0. Chart shake — apply offset, decay amplitude *)
  let shake := shakeState opts in
  let armed :=
    match shake with
    | Some s => Rgtb (amplitude s) SHAKE_MIN_AMPLITUDE
    | None => false
    end in
  let shakeX :=
    match shake with
    | Some s => if armed then (random1 - 0.5) * 2 * amplitude s else 0
    | None => 0
    end in
  let shakeY :=
    match shake with
    | Some s => if armed then (random2 - 0.5) * 2 * amplitude s else 0
    | None => 0
    end in
  let c := if armed then translate shakeX shakeY (save c) else c in
  let shake :=
    match shake with
    | Some s => Some (decayShake (dt opts) s)
    | None => None
    end in
  let '(c, shake') := layers shake c in
  (* Restore shake translate *)
  let c :=
    match shake with
    | Some _ =>
        if negb (Reqb shakeX 0) || negb (Reqb shakeY 0) then restore c else c
    | None => c
    end in
  (c, shake').

End DrawFrame.

End Frame.

(** ** [drawMultiFrame]: the multi-series composer *)

Module MultiFrame.

Record MultiSeriesEntry := {
  visible : list LivelinePoint;
  smoothValue : R;
  palette : LivelinePalette;
  label : option string;
  alpha : option R   (* series visibility alpha (0 = hidden, 1 = visible) *)
}.

(** An element of the local array [allPts]. *)
Record SeriesPts := {
  sp_pts : list Point;
  sp_palette : LivelinePalette;
  sp_label : option string;
  sp_alpha : R
}.

Record MultiSeriesDrawOptions {E : Externals} := {
  series : list MultiSeriesEntry;
  now : R;
  showGrid : bool;
  showPulse : bool;
  referenceLine : option ReferenceLine;
  hoverX : option R;
  hoverTime : option R;
  hoverEntries : list MultiSeriesHoverEntry;
  scrubAmount : R;
  windowSecs : R;
  formatValue : R -> string;
  formatTime : R -> string;
  gridState : GridState;
  timeAxisState : TimeAxisState;
  dt : R;
  targetWindowSecs : R;
  tooltipY : R;
  tooltipOutline : bool;
  chartReveal : R;
  pauseProgress : R;
  now_ms : R;
  primaryPalette : LivelinePalette
}.

Section DrawMultiFrame.

Context {E : Externals}.
Variables (layout : ChartLayout) (opts : MultiSeriesDrawOptions).

Definition reveal : R := chartReveal opts.

(** 1. Reference line *)
Definition referenceLineLayer (c : Ctx) : Ctx :=
  match referenceLine opts with
  | Some rl =>
      if Rgtb reveal 0.01 then
        let c := save c in
        let c := if Rltb reveal 1 then setGlobalAlpha reveal c else c in
        let c := call (DrawReferenceLine layout (primaryPalette opts) rl) c in
        restore c
      else c
  | None => c
  end.

(** 2. Grid *)
Definition gridLayer (c : Ctx) : Ctx :=
  if showGrid opts then
    let gridAlpha := if Rltb reveal 1 then revealRamp reveal 0.15 0.7 else 1 in
    if Rgtb gridAlpha 0.01 then
      let c := save c in
      let c := if Rltb gridAlpha 1 then setGlobalAlpha gridAlpha c else c in
      let c := call (DrawGrid layout (primaryPalette opts) (formatValue opts)
                       (gridState opts) (dt opts)) c in
      restore c
    else c
  else c.

(** 3. Draw each series line (back to front, no fill, with scrub dimming) *)
Definition seriesLineArgs (s : MultiSeriesEntry) : LineArgs :=
  let scrubX := if Rgtb (scrubAmount opts) 0.05 then hoverX opts else None in
  {| la_layout := layout; la_palette := palette s; la_visible := visible s;
     la_smoothValue := smoothValue s; la_now := now opts;
     la_showFill := false; la_scrubX := scrubX;
     la_scrubAmount := scrubAmount opts; la_reveal := reveal;
     la_now_ms := now_ms opts;
     la_colorBlend := None; la_notFullLineMode := None; la_fillScale := None |}.

Definition seriesAlphaOf (s : MultiSeriesEntry) : R :=
  match alpha s with Some a => a | None => 1 end.

Definition secondaryFade (si : nat) : R :=
  if (0 <? si)%nat && Rltb reveal 1 then Rmin 1 (reveal * 2) else 1.

(** The body of the loop over [opts.series], for the series [s] at index
    [si]. *)
Definition drawSeries (si : nat) (s : MultiSeriesEntry)
    (st : Ctx * list SeriesPts) : Ctx * list SeriesPts :=
  let '(c, allPts) := st in
  let seriesAlpha := seriesAlphaOf s in
  let combinedAlpha := secondaryFade si * seriesAlpha in
  if Rltb combinedAlpha 0.01 then (c, allPts) else
  let c := save c in
  let c := if Rltb combinedAlpha 1 then setGlobalAlpha combinedAlpha c else c in
  let '(pts, c) := drawLine (seriesLineArgs s) c in
  let c := restore c in
  match pts with
  | Some (p :: ps) =>
      (c, allPts ++ [{| sp_pts := p :: ps; sp_palette := palette s;
                        sp_label := label s; sp_alpha := seriesAlpha |}])
  | _ => (c, allPts)
  end.

Fixpoint seriesLoop (si : nat) (ss : list MultiSeriesEntry)
    (st : Ctx * list SeriesPts) : Ctx * list SeriesPts :=
  match ss with
  | [] => st
  | s :: rest => seriesLoop (S si) rest (drawSeries si s st)
  end.

(** 4. Time axis *)
Definition timeAxisLayer (c : Ctx) : Ctx :=
  let timeAlpha := if Rltb reveal 1 then revealRamp reveal 0.15 0.7 else 1 in
  if Rgtb timeAlpha 0.01 then
    let c := save c in
    let c := if Rltb timeAlpha 1 then setGlobalAlpha timeAlpha c else c in
    let c := call (DrawTimeAxis layout (primaryPalette opts) (windowSecs opts)
                     (targetWindowSecs opts) (formatTime opts)
                     (timeAxisState opts) (dt opts)) c in
    restore c
  else c.

(** 5. Endpoint dots + labels for each series.  An entry of [allPts] always
    has at least one point; the [None] branch below is not reached. *)
Definition drawEndpoint (dotAlpha : R) (showPulse : bool) (entry : SeriesPts)
    (c : Ctx) : Ctx :=
  if Rltb (sp_alpha entry) 0.01 then c else
  match lastOf (sp_pts entry) with
  | None => c
  | Some lastPt =>
      let c := save c in
      let c := setGlobalAlpha (dotAlpha * sp_alpha entry) c in
      (* Use pulsing dot when enabled and series is mostly visible *)
      let c :=
        if showPulse && Rgtb (sp_alpha entry) 0.5
        then call (DrawMultiDot (fst lastPt) (snd lastPt)
                     (line (sp_palette entry)) true (now_ms opts) 3) c
        else call (DrawSimpleDot (fst lastPt) (snd lastPt)
                     (line (sp_palette entry)) 3) c in
      (* Label at endpoint *)
      let c :=
        match sp_label entry with
        | None | Some EmptyString => c
        | Some text =>
            let c := call (SetFont SeriesLabelFont) c in
            let c := call (SetTextAlign "left") c in
            let c := call (SetFillStyle (Color (line (sp_palette entry)))) c in
            call (FillText (Str text) (fst lastPt + 6) (snd lastPt + 3.5)) c
        end in
      restore c
  end.

Definition endpointsLayer (allPts : list SeriesPts) (c : Ctx) : Ctx :=
  match allPts with
  | [] => c
  | _ :: _ =>
      if Rgtb reveal 0.3 then
        let dotAlpha := (reveal - 0.3) / 0.7 in
        let showPulse :=
          showPulse opts && Rgtb reveal 0.6 && Rltb (pauseProgress opts) 0.5 in
        fold_left (fun c entry => drawEndpoint dotAlpha showPulse entry c)
                  allPts c
      else c
  end.

(** 7. Multi-series crosshair — fade out near live dots *)

(** Find rightmost live dot X (skip hidden series): the loop that starts
    from [maxLiveDotX = 0]. *)
Definition maxLiveDotXOf (allPts : list SeriesPts) : R :=
  fold_left
    (fun maxLiveDotX entry =>
       if Rltb (sp_alpha entry) 0.01 then maxLiveDotX else
       match lastOf (sp_pts entry) with
       | Some lastPt =>
           let lastX := fst lastPt in
           if Rgtb lastX maxLiveDotX then lastX else maxLiveDotX
       | None => maxLiveDotX
       end)
    allPts 0.

Definition scrubOpacityOf (maxLiveDotX hx : R) : R :=
  let distToLive := maxLiveDotX - hx in
  let fadeStart := Rmin 80 (chartW layout * 0.3) in
  if Rltb distToLive CROSSHAIR_FADE_MIN_PX then 0
  else if Rgeb distToLive fadeStart then scrubAmount opts
  else ((distToLive - CROSSHAIR_FADE_MIN_PX)
        / (fadeStart - CROSSHAIR_FADE_MIN_PX)) * scrubAmount opts.

Definition crosshairLayer (allPts : list SeriesPts) (c : Ctx) : Ctx :=
  match hoverX opts, hoverTime opts, hoverEntries opts, allPts with
  | Some hx, Some ht, _ :: _, _ :: _ =>
      if Rgtb (scrubAmount opts) 0.01 then
        let maxLiveDotX := maxLiveDotXOf allPts in
        let scrubOpacity := scrubOpacityOf maxLiveDotX hx in
        if Rgtb scrubOpacity 0.01 then
          call (DrawMultiCrosshair layout (primaryPalette opts) hx ht
                  (hoverEntries opts) (formatValue opts) (formatTime opts)
                  scrubOpacity (tooltipY opts) (tooltipOutline opts)
                  maxLiveDotX) c
        else c
      else c
  | _, _, _, _ => c
  end.

Definition drawMultiFrame (c : Ctx) : Ctx :=
  let c := referenceLineLayer c in
  let c := gridLayer c in
  let '(c, allPts) := seriesLoop 0 (series opts) (c, []) in
  let c := timeAxisLayer c in
  let c := endpointsLayer allPts c in
  (* 6. Left edge fade *)
  let c := leftEdgeFade layout c in
  crosshairLayer allPts c.

End DrawMultiFrame.

End MultiFrame.

(** ** [drawCandleFrame]: the candlestick / line-mode composer *)

Module CandleFrame.

Record CandleDrawOptions {E : Externals} := {
  candles : list CandlePoint;
  displayCandleWidth : R;
  oldCandles : list CandlePoint;
  oldWidth : R;
  morphT : R;
  liveCandle : option CandlePoint;
  closePriceCandle : option CandlePoint;
  liveTime : R;
  liveBirthAlpha : R;
  liveBullBlend : R;
  lineModeProg : R;
  chartReveal : R;
  now_ms : R;
  now : R;
  pauseProgress : R;
  showGrid : bool;
  scrubAmount : R;
  hoverX : option R;
  hoverValue : option R;
  hoverTime : option R;
  hoveredCandle : option CandlePoint;
  formatValue : R -> string;
  formatTime : R -> string;
  gridState : GridState;
  timeAxisState : TimeAxisState;
  dt : R;
  targetWindowSecs : R;
  tooltipY : R;
  tooltipOutline : bool;
  lineVisible : list LivelinePoint;
  lineSmoothValue : R;
  emptyText : option string;
  loadingAlpha : R;
  showEmptyOverlay : bool;
  bars : option (list BarPoint);
  barWidthSecs : option R;
  barMode : option BarMode;
  barFillColor : option string;
  barLayout : option BarLayout;
  barShowLabels : option bool
}.

Section DrawCandleFrame.

Context {E : Externals}.
Variables (layout : ChartLayout) (palette : LivelinePalette)
          (opts : CandleDrawOptions).

Definition reveal : R := chartReveal opts.

(** The locals [lp], [colorBlend] and [candleAlpha] at these options. *)
Definition lpOf : R := lp (lineModeProg opts) reveal.
Definition colorBlendOf : R := colorBlend (lineModeProg opts) reveal.
Definition candleAlphaOf : R := candleAlpha (lineModeProg opts) reveal.

(** 1. Grid — fades in (25%–60% of reveal) *)
Definition gridLayer (c : Ctx) : Ctx :=
  let gridAlpha := revealRamp reveal 0.25 0.6 in
  if showGrid opts && Rgtb gridAlpha 0.01 then
    let c := save c in
    let c := if Rltb gridAlpha 1 then setGlobalAlpha gridAlpha c else c in
    let c := call (DrawGrid layout palette (formatValue opts) (gridState opts)
                     (dt opts)) c in
    restore c
  else c.

(** 1b. Bars — overlay mode (behind line + candles) *)
Definition barsOverlayLayer (c : Ctx) : Ctx :=
  Bars.barsOverlay layout palette (bars opts) (barLayout opts)
    (barWidthSecs opts) (barMode opts) (barFillColor opts) (barShowLabels opts)
    (scrubAmount opts) (hoverX opts) reveal c.

(** 2. Line — morph line that transforms from loading squiggly into data. *)
Definition lineArgs : LineArgs :=
  let scrubX := if Rgtb (scrubAmount opts) 0.05 then hoverX opts else None in
  {| la_layout := layout; la_palette := palette;
     la_visible := lineVisible opts;
     la_smoothValue := lineSmoothValue opts; la_now := now opts;
     la_showFill := Rgtb (lineModeProg opts) 0.01; la_scrubX := scrubX;
     la_scrubAmount := scrubAmount opts; la_reveal := chartReveal opts;
     la_now_ms := now_ms opts;
     la_colorBlend := Some colorBlendOf;
     la_notFullLineMode := Some (negb (fullLineMode (lineModeProg opts)));
     la_fillScale := Some (lineModeProg opts) |}.

Definition lineLayer (c : Ctx) : option (list Point) * Ctx :=
  if Rgtb lpOf 0.01 && (2 <=? List.length (lineVisible opts))%nat then
    let c := save c in
    let c := setGlobalAlpha lpOf c in
    let '(linePts, c) := drawLine lineArgs c in
    (linePts, restore c)
  else (None, c).

(** 3. Close price line — fades in (40%–80% of reveal) *)
Definition closePriceLayer (c : Ctx) : Ctx :=
  let closeAlpha := revealRamp reveal 0.4 0.8 in
  let closeSource :=
    match closePriceCandle opts with
    | Some cc => Some cc
    | None => liveCandle opts
    end in
  match closeSource with
  | Some cs =>
      if Rgtb closeAlpha 0.01 then
        (* Candle-colored close line (fades out with lineModeProg) *)
        let c :=
          if Rltb lpOf 0.99 then
            let c := save c in
            let c := setGlobalAlpha (closeAlpha * (1 - lpOf)) c in
            let c := call (DrawClosePrice layout palette cs (scrubAmount opts)
                             (liveBullBlend opts)) c in
            restore c
          else c in
        (* Accent-colored dash line (fades in with lineModeProg) *)
        if Rgtb lpOf 0.01 && negb (fullLineMode (lineModeProg opts)) then
          let dashY := toY layout (close cs) in
          if Rgeb dashY (pad_top (pad layout))
             && Rleb dashY (h layout - pad_bottom (pad layout)) then
            let c := save c in
            let c := call (SetLineDash [4; 4]) c in
            let c := call (SetStrokeStyle (dashLine palette)) c in
            let c := call (SetLineWidth 1) c in
            let c := setGlobalAlpha
                       (closeAlpha * lpOf * (1 - scrubAmount opts * 0.2)) c in
            let c := call BeginPath c in
            let c := call (MoveTo (pad_left (pad layout)) dashY) c in
            let c := call (LineTo (w layout - pad_right (pad layout)) dashY) c in
            let c := call Stroke c in
            let c := call (SetLineDash []) c in
            restore c
          else c
        else c
      else c
  | None => c
  end.

(** 4. Candles — alpha = chartReveal * (1 - lp) *)
Definition candlesLayer (c : Ctx) : Ctx :=
  let candleAlpha := candleAlphaOf in
  if Rgtb candleAlpha 0.01 then
    let ohlcScale := ohlcScale reveal in
    let revealCandles :=
      if Rltb ohlcScale 0.99 then map (collapseC ohlcScale) (candles opts)
      else candles opts in
    let revealOld :=
      if Rltb ohlcScale 0.99 && (0 <? List.length (oldCandles opts))%nat
      then map (collapseC ohlcScale) (oldCandles opts)
      else oldCandles opts in
    let liveT := match liveCandle opts with Some lc => time lc | None => -1 end in
    let hx := match hoverX opts with Some x => x | None => 0 end in
    let c := save c in
    let c := call BeginPath c in
    let c := call (Rect (pad_left (pad layout) - 1) (pad_top (pad layout))
                     (chartW layout + 2) (chartH layout)) c in
    let c := call Clip c in
    let accentCol := if Rgtb lpOf 0.01 then Some (line palette) else None in
    let c :=
      if Rgeb (morphT opts) 0 && (0 <? List.length revealOld)%nat then
        let c := setGlobalAlpha ((1 - morphT opts) * candleAlpha) c in
        let c := call (DrawCandlesticks layout revealOld (oldWidth opts)
                         (-1) (now_ms opts) hx (scrubAmount opts)
                         1 (-1) accentCol lpOf) c in
        let c := setGlobalAlpha (morphT opts * candleAlpha) c in
        let c := call (DrawCandlesticks layout revealCandles
                         (displayCandleWidth opts) liveT (now_ms opts) hx
                         (scrubAmount opts) (liveBirthAlpha opts)
                         (liveBullBlend opts) accentCol lpOf) c in
        setGlobalAlpha 1 c
      else
        let c := if Rltb candleAlpha 1 then setGlobalAlpha candleAlpha c else c in
        call (DrawCandlesticks layout revealCandles
                (displayCandleWidth opts) liveT (now_ms opts) hx
                (scrubAmount opts) (liveBirthAlpha opts)
                (liveBullBlend opts) accentCol lpOf) c in
    restore c
  else c.

(** 4b. Bars — default mode (separate bottom strip) *)
Definition barsDefaultLayer (c : Ctx) : Ctx :=
  Bars.barsDefault layout palette (bars opts) (barLayout opts)
    (barWidthSecs opts) (barMode opts) (barFillColor opts) (barShowLabels opts)
    (scrubAmount opts) (hoverX opts) reveal c.

(** 5. Live dot — position from drawLine's returned pts. *)
Definition liveDotLayer (linePts : option (list Point)) (c : Ctx) : Ctx :=
  match linePts with
  | Some ps =>
      match lastOf ps with
      | Some lastPt =>
          if Rgtb lpOf 0.5 && Rgtb reveal 0.3 then
            let dotAlpha := ((lpOf - 0.5) * 2) * ((reveal - 0.3) / 0.7) in
            let showPulse := Rgtb lpOf 0.8 && Rgtb reveal 0.6 in
            if Rgtb dotAlpha 0.01 then
              let c := save c in
              let c := setGlobalAlpha dotAlpha c in
              let c := call (DrawDot (fst lastPt) (snd lastPt) palette showPulse
                               (scrubAmount opts) (now_ms opts)) c in
              restore c
            else c
          else c
      | None => c
      end
  | None => c
  end.

(** 6. Time axis — fades in (25%–60% of reveal) *)
Definition timeAxisLayer (c : Ctx) : Ctx :=
  let timeAlpha := revealRamp reveal 0.25 0.6 in
  if Rgtb timeAlpha 0.01 then
    let c := save c in
    let c := if Rltb timeAlpha 1 then setGlobalAlpha timeAlpha c else c in
    let c := call (DrawTimeAxis layout palette (targetWindowSecs opts)
                     (targetWindowSecs opts) (formatTime opts)
                     (timeAxisState opts) (dt opts)) c in
    restore c
  else c.

(** 8. Reverse morph empty overlay — only when collapsing to empty state *)
Definition emptyOverlayLayer (c : Ctx) : Ctx :=
  if showEmptyOverlay opts then
    let bgAlpha := 1 - chartReveal opts in
    if Rgtb bgAlpha 0.01 then
      let bgEmptyAlpha := (1 - loadingAlpha opts) * bgAlpha in
      if Rgtb bgEmptyAlpha 0.01 then
        call (DrawEmpty (w layout) (h layout) (pad layout) palette bgEmptyAlpha
                (now_ms opts) true (emptyText opts)) c
      else c
    else c
  else c.

(** 9. Crosshair — only when mostly revealed (70%+) *)
Definition crosshairLayer (c : Ctx) : Ctx :=
  match hoveredCandle opts, hoverX opts with
  | Some hc, Some hx =>
      if Rgtb (chartReveal opts) 0.7 && Rgtb (scrubAmount opts) 0.01 then
        let ht := match hoverTime opts with Some t => t | None => 0 end in
        if Rgtb (lineModeProg opts) 0.5 then
          call (DrawLineModeCrosshair layout palette hx (close hc) ht
                  (formatValue opts) (formatTime opts) (scrubAmount opts)) c
        else
          call (DrawCandleCrosshair layout palette hx hc ht
                  (formatValue opts) (formatTime opts) (scrubAmount opts)) c
      else c
  | _, _ => c
  end.

Definition drawCandleFrame (c : Ctx) : Ctx :=
  let c := gridLayer c in
  let c := barsOverlayLayer c in
  let '(linePts, c) := lineLayer c in
  let c := closePriceLayer c in
  let c := candlesLayer c in
  let c := barsDefaultLayer c in
  let c := liveDotLayer linePts c in
  let c := timeAxisLayer c in
  (* 7. Left edge fade — gradient erase *)
  let c := leftEdgeFade layout c in
  let c := emptyOverlayLayer c in
  crosshairLayer c.

End DrawCandleFrame.

End CandleFrame.

(** ** Reading the log *)

Section LogReading.

Context {E : Externals}.

(** The function a logged call goes to: the 2D context itself (["ctx"]) or
    one of the imported drawing functions, under its source name. *)
Definition callee (k : Call) : string :=
  match k with
  | DrawReferenceLine _ _ _ => "drawReferenceLine"
  | DrawGrid _ _ _ _ _ => "drawGrid"
  | DrawOrderbook _ _ _ _ _ _ => "drawOrderbook"
  | DrawLine _ => "drawLine"
  | DrawTimeAxis _ _ _ _ _ _ _ => "drawTimeAxis"
  | DrawDot _ _ _ _ _ _ => "drawDot"
  | DrawArrows _ _ _ _ _ _ _ => "drawArrows"
  | SpawnOnSwing _ _ _ _ _ _ _ _ => "spawnOnSwing"
  | DrawParticles _ _ => "drawParticles"
  | DrawCrosshair _ _ _ _ _ _ _ _ _ _ _ => "drawCrosshair"
  | DrawMultiDot _ _ _ _ _ _ => "drawMultiDot"
  | DrawSimpleDot _ _ _ _ => "drawSimpleDot"
  | DrawMultiCrosshair _ _ _ _ _ _ _ _ _ _ _ => "drawMultiCrosshair"
  | DrawCandlesticks _ _ _ _ _ _ _ _ _ _ _ => "drawCandlesticks"
  | DrawClosePrice _ _ _ _ _ => "drawClosePrice"
  | DrawCandleCrosshair _ _ _ _ _ _ _ _ => "drawCandleCrosshair"
  | DrawLineModeCrosshair _ _ _ _ _ _ _ _ => "drawLineModeCrosshair"
  | DrawEmpty _ _ _ _ _ _ _ _ => "drawEmpty"
  | _ => "ctx"
  end.

(** The calls made between the context [c] and a later context [c']. *)
Definition newCalls (c c' : Ctx) : list (DrawState * Call) :=
  skipn (List.length (log c)) (log c').

(** No call among [l] goes to one of the functions [names]. *)
Definition noCallTo (names : list string) (l : list (DrawState * Call)) : Prop :=
  Forall (fun e => ~ In (callee (snd e)) names) l.

(** Some call among [l] goes to the function [name]. *)
Definition someCallTo (name : string) (l : list (DrawState * Call)) : Prop :=
  Exists (fun e => callee (snd e) = name) l.

Definition sameTransform (s s' : DrawState) : Prop :=
  translateX s = translateX s' /\ translateY s = translateY s'.

(** From [c] to [c']: calls were logged, all under the translation of [c]
    and all satisfying [Q]; the stack is as it was and the translation too. *)
Definition steps (Q : Call -> Prop) (c c' : Ctx) : Prop :=
  sameTransform (cur c') (cur c) /\
  stack c' = stack c /\
  exists l, log c' = log c ++ l /\
            Forall (fun e => sameTransform (fst e) (cur c) /\ Q (snd e)) l.

(** The same, with the whole current state as it was. *)
Definition emits (Q : Call -> Prop) (c c' : Ctx) : Prop :=
  cur c' = cur c /\
  stack c' = stack c /\
  exists l, log c' = log c ++ l /\
            Forall (fun e => sameTransform (fst e) (cur c) /\ Q (snd e)) l.

(** [Q] holds of every call to one of the functions [names]. *)
Definition allows (Q : Call -> Prop) (names : list string) : Prop :=
  forall k, In (callee k) names -> Q k.

(** The log of [c'] continues the log of [c]. *)
Definition extendsLog (c c' : Ctx) : Prop :=
  exists l, log c' = log c ++ l.

(** The call [k] is among [l]. *)
Definition hasCall (k : Call) (l : list (DrawState * Call)) : Prop :=
  Exists (fun e => snd e = k) l.

(** The functions [drawFrame] may call, other than [drawLine], [drawGrid],
    [drawDot] and [drawCrosshair]. *)
Definition frame_other_callees : list string :=
  ["ctx"; "drawReferenceLine"; "drawOrderbook"; "drawTimeAxis";
   "drawArrows"; "spawnOnSwing"; "drawParticles"]%string.

End LogReading.

Arguments newCalls : simpl never.

(** ** Sample inputs *)

Module Sample.

(** Collaborators that return a two-point line and no burst. *)
Definition externals : Externals :=
  {| ReferenceLine := unit;
     OrderbookData := unit;
     OrderbookState := unit;
     GridState := unit;
     TimeAxisState := unit;
     ParticleState := unit;
     DegenOptions := unit;
     Momentum := unit;
     drawLine_pts := fun _ => Some [(120, 80); (300, 60)];
     spawnOnSwing_burst := fun _ _ _ _ _ _ _ _ => 0 |}.

Definition layout : ChartLayout :=
  {| w := 400; h := 200;
     pad := {| pad_top := 10; pad_right := 10; pad_bottom := 10; pad_left := 10 |};
     chartW := 380; chartH := 180;
     leftEdge := 0; rightEdge := 60;
     toX := fun t => 10 + t * (380 / 60);
     toY := fun v => 190 - v |}.

Definition palette : LivelinePalette :=
  {| line := "#3b82f6"; gridLabel := "#888888"; dashLine := "#aaaaaa";
     crosshairLine := "#999999"; tooltipBg := "#ffffff";
     tooltipText := "#111111" |}.

(** A fresh context: alpha 1, no translation, nothing saved or logged. *)
Definition blank : Ctx (E := externals) :=
  {| cur := {| globalAlpha := 1; translateX := 0; translateY := 0 |};
     stack := [];
     log := [] |}.

(** Options of [drawFrame] with the chart not yet revealed and a shake of
    the given amplitude. *)
Definition frameOptions (revealed shakeAmplitude : R)
  : Frame.DrawOptions (E := externals) :=
  {| Frame.visible := [ {| lp_time := 1; lp_value := 80 |};
                        {| lp_time := 2; lp_value := 60 |} ];
     Frame.smoothValue := 60;
     Frame.now := 2;
     Frame.momentum := (tt : @Momentum externals);
     Frame.arrowState := {| up := 0; down := 0 |};
     Frame.showGrid := true;
     Frame.showMomentum := true;
     Frame.showPulse := true;
     Frame.showFill := true;
     Frame.referenceLine := None;
     Frame.hoverX := None;
     Frame.hoverValue := None;
     Frame.hoverTime := None;
     Frame.scrubAmount := 0;
     Frame.windowSecs := 60;
     Frame.formatValue := fun _ => "v"%string;
     Frame.formatTime := fun _ => "t"%string;
     Frame.gridState := (tt : @GridState externals);
     Frame.timeAxisState := (tt : @TimeAxisState externals);
     Frame.dt := 16;
     Frame.targetWindowSecs := 60;
     Frame.tooltipY := 14;
     Frame.tooltipOutline := true;
     Frame.orderbookData := None;
     Frame.orderbookState := None;
     Frame.particleState := None;
     Frame.particleOptions := None;
     Frame.swingMagnitude := 0;
     Frame.shakeState := Some {| amplitude := shakeAmplitude |};
     Frame.chartReveal := revealed;
     Frame.pauseProgress := 0;
     Frame.now_ms := 2000;
     Frame.bars := None;
     Frame.barWidthSecs := None;
     Frame.barMode := None;
     Frame.barFillColor := None;
     Frame.barLayout := None;
     Frame.barShowLabels := None |}.

(** One bar of value 50 out of 100, in a strip 40 px high above y = 190. *)
Definition barLayout : BarLayout :=
  {| bottom := 190; maxHeight := 40; maxValue := 100 |}.

Definition barOptions (progress : R) : Bars.BarDrawOptions :=
  {| Bars.bars := [ {| bar_time := 10; bar_value := 50 |} ];
     Bars.barWidthSecs := 5;
     Bars.fillColor := "#3b82f6";
     Bars.labelColor := "#888888";
     Bars.scrubX := None;
     Bars.scrubAmount := 0;
     Bars.revealProgress := progress;
     Bars.showLabels := false |}.

(** Options of [drawCandleFrame] with a hovered candle and a full scrub. *)
Definition candle : CandlePoint :=
  {| time := 1; open := 2; high := 5; low := 1; close := 4 |}.

Definition candleOptions (revealed lineMode : R)
  : CandleFrame.CandleDrawOptions (E := externals) :=
  {| CandleFrame.candles := [candle];
     CandleFrame.displayCandleWidth := 1;
     CandleFrame.oldCandles := [];
     CandleFrame.oldWidth := 1;
     CandleFrame.morphT := -1;
     CandleFrame.liveCandle := Some candle;
     CandleFrame.closePriceCandle := None;
     CandleFrame.liveTime := 1;
     CandleFrame.liveBirthAlpha := 1;
     CandleFrame.liveBullBlend := 1;
     CandleFrame.lineModeProg := lineMode;
     CandleFrame.chartReveal := revealed;
     CandleFrame.now_ms := 2000;
     CandleFrame.now := 2;
     CandleFrame.pauseProgress := 0;
     CandleFrame.showGrid := true;
     CandleFrame.scrubAmount := 1;
     CandleFrame.hoverX := Some 200;
     CandleFrame.hoverValue := Some 4;
     CandleFrame.hoverTime := Some 1;
     CandleFrame.hoveredCandle := Some candle;
     CandleFrame.formatValue := fun _ => "v"%string;
     CandleFrame.formatTime := fun _ => "t"%string;
     CandleFrame.gridState := (tt : @GridState externals);
     CandleFrame.timeAxisState := (tt : @TimeAxisState externals);
     CandleFrame.dt := 16;
     CandleFrame.targetWindowSecs := 60;
     CandleFrame.tooltipY := 14;
     CandleFrame.tooltipOutline := true;
     CandleFrame.lineVisible := [ {| lp_time := 1; lp_value := 80 |};
                                  {| lp_time := 2; lp_value := 60 |} ];
     CandleFrame.lineSmoothValue := 60;
     CandleFrame.emptyText := None;
     CandleFrame.loadingAlpha := 0;
     CandleFrame.showEmptyOverlay := false;
     CandleFrame.bars := None;
     CandleFrame.barWidthSecs := None;
     CandleFrame.barMode := None;
     CandleFrame.barFillColor := None;
     CandleFrame.barLayout := None;
     CandleFrame.barShowLabels := None |}.

(** Options of [drawMultiFrame] with two series, the second at alpha 0.5,
    and a hover 100 px left of the live points. *)
Definition multiOptions (revealed : R)
  : MultiFrame.MultiSeriesDrawOptions (E := externals) :=
  {| MultiFrame.series :=
       [ {| MultiFrame.visible := [ {| lp_time := 1; lp_value := 80 |} ];
            MultiFrame.smoothValue := 80;
            MultiFrame.palette := palette;
            MultiFrame.label := Some "A"%string;
            MultiFrame.alpha := None |};
         {| MultiFrame.visible := [ {| lp_time := 1; lp_value := 60 |} ];
            MultiFrame.smoothValue := 60;
            MultiFrame.palette := palette;
            MultiFrame.label := None;
            MultiFrame.alpha := Some 0.5 |} ];
     MultiFrame.now := 2;
     MultiFrame.showGrid := true;
     MultiFrame.showPulse := false;
     MultiFrame.referenceLine := None;
     MultiFrame.hoverX := Some 200;
     MultiFrame.hoverTime := Some 1;
     MultiFrame.hoverEntries :=
       [ {| he_color := "#3b82f6"; he_label := "A"; he_value := 80 |} ];
     MultiFrame.scrubAmount := 1;
     MultiFrame.windowSecs := 60;
     MultiFrame.formatValue := fun _ => "v"%string;
     MultiFrame.formatTime := fun _ => "t"%string;
     MultiFrame.gridState := (tt : @GridState externals);
     MultiFrame.timeAxisState := (tt : @TimeAxisState externals);
     MultiFrame.dt := 16;
     MultiFrame.targetWindowSecs := 60;
     MultiFrame.tooltipY := 14;
     MultiFrame.tooltipOutline := true;
     MultiFrame.chartReveal := revealed;
     MultiFrame.pauseProgress := 0;
     MultiFrame.now_ms := 2000;
     MultiFrame.primaryPalette := palette |}.

(** [frameOptions] with a hover at [hx] and a full scrub. *)
Definition hoveredFrameOptions (hx : R) : Frame.DrawOptions (E := externals) :=
  let o := frameOptions 1 0 in
  {| Frame.visible := Frame.visible o;
     Frame.smoothValue := Frame.smoothValue o;
     Frame.now := Frame.now o;
     Frame.momentum := Frame.momentum o;
     Frame.arrowState := Frame.arrowState o;
     Frame.showGrid := Frame.showGrid o;
     Frame.showMomentum := Frame.showMomentum o;
     Frame.showPulse := Frame.showPulse o;
     Frame.showFill := Frame.showFill o;
     Frame.referenceLine := Frame.referenceLine o;
     Frame.hoverX := Some hx;
     Frame.hoverValue := Some 70;
     Frame.hoverTime := Some 1;
     Frame.scrubAmount := 1;
     Frame.windowSecs := Frame.windowSecs o;
     Frame.formatValue := Frame.formatValue o;
     Frame.formatTime := Frame.formatTime o;
     Frame.gridState := Frame.gridState o;
     Frame.timeAxisState := Frame.timeAxisState o;
     Frame.dt := Frame.dt o;
     Frame.targetWindowSecs := Frame.targetWindowSecs o;
     Frame.tooltipY := Frame.tooltipY o;
     Frame.tooltipOutline := Frame.tooltipOutline o;
     Frame.orderbookData := Frame.orderbookData o;
     Frame.orderbookState := Frame.orderbookState o;
     Frame.particleState := Frame.particleState o;
     Frame.particleOptions := Frame.particleOptions o;
     Frame.swingMagnitude := Frame.swingMagnitude o;
     Frame.shakeState := None;
     Frame.chartReveal := Frame.chartReveal o;
     Frame.pauseProgress := Frame.pauseProgress o;
     Frame.now_ms := Frame.now_ms o;
     Frame.bars := Frame.bars o;
     Frame.barWidthSecs := Frame.barWidthSecs o;
     Frame.barMode := Frame.barMode o;
     Frame.barFillColor := Frame.barFillColor o;
     Frame.barLayout := Frame.barLayout o;
     Frame.barShowLabels := Frame.barShowLabels o |}.

End Sample.

(** The functions [drawCandleFrame] may call, other than [drawGrid],
    [drawLine], [drawCandlesticks], [drawDot] and the two crosshairs. *)
Definition candle_other_callees : list string :=
  ["ctx"; "drawClosePrice"; "drawTimeAxis"; "drawEmpty"]%string.

(** ** The formulas of the specification *)

(** The crosshair proximity fade, in the words of the specification
    (section 4.3). *)
Definition crosshairFade (distToLive fadeStart scrubAmount : R) : R :=
  if Rltb distToLive 5 then 0
  else if Rgeb distToLive fadeStart then scrubAmount
  else scrubAmount * (distToLive - 5) / (fadeStart - 5).

Definition fadeStartOf (chartWidth : R) : R := Rmin 80 (chartWidth * 0.3).

(** The functions [drawMultiFrame] may call, other than [drawLine] and
    [drawMultiCrosshair]. *)
Definition multi_other_callees : list string :=
  ["ctx"; "drawReferenceLine"; "drawGrid"; "drawTimeAxis";
   "drawMultiDot"; "drawSimpleDot"]%string.

Section SeriesFormula.

Context {E : Externals}.
Variables (layout : ChartLayout) (opts : MultiFrame.MultiSeriesDrawOptions).

Definition withAlpha (a : R) (st : DrawState) : DrawState :=
  {| globalAlpha := a;
     translateX := translateX st;
     translateY := translateY st |}.

(** The [drawLine] calls of the multi-series composer, in the words of the
    specification: the series at index [si] is drawn at the effective alpha
    [seriesAlpha * f], [f] being its secondary fade, unless that is below
    0.01. *)
Fixpoint seriesLineCalls (st : DrawState) (si : nat)
    (ss : list MultiFrame.MultiSeriesEntry) : list (DrawState * Call) :=
  match ss with
  | [] => []
  | s :: rest =>
      let effective :=
        MultiFrame.seriesAlphaOf s * MultiFrame.secondaryFade opts si in
      (if Rltb effective 0.01 then []
       else [(withAlpha effective st,
              DrawLine (MultiFrame.seriesLineArgs layout opts s))])
      ++ seriesLineCalls st (S si) rest
  end.

End SeriesFormula.

Section BarFormula.

Context {E : Externals}.
Variables (layout : ChartLayout) (barLayout : BarLayout)
          (opts : Bars.BarDrawOptions).

(** The height of a bar, in the words of the specification. *)
Definition barHeight (b : BarPoint) : R :=
  (bar_value b / maxValue barLayout) * maxHeight barLayout
  * Bars.revealProgress opts.

(** The shape of a bar of height [hgt] standing on [bottomY]: a rectangle,
    or the path with rounded top corners. *)
Definition barShape (x bottomY width hgt radius : R) : list Call :=
  let top := bottomY - hgt in
  if Rgtb radius 0 && Rgtb hgt (radius * 2) then
    [ BeginPath;
      MoveTo x bottomY;
      LineTo x (top + radius);
      ArcTo x top (x + radius) top radius;
      LineTo (x + width - radius) top;
      ArcTo (x + width) top (x + width) (top + radius) radius;
      LineTo (x + width) bottomY;
      ClosePath;
      Fill ]
  else [ FillRect x top width hgt ].

(** The left edge of the bar [b]. *)
Definition barLeft (b : BarPoint) : R :=
  toX layout (bar_time b + Bars.barWidthSecs opts / 2)
  - Bars.halfBar layout opts.

(** The bar [b] is drawn: positive value, not wholly outside the chart,
    at least half a pixel high. *)
Definition barDrawn (b : BarPoint) : bool :=
  negb (Rleb (bar_value b) 0)
  && negb (Rltb (barLeft b + Bars.barPxWidth layout opts)
                (pad_left (pad layout))
           || Rgtb (barLeft b) (pad_left (pad layout) + chartW layout))
  && negb (Rltb (barHeight b) 0.5).

Definition barCalls (b : BarPoint) : list Call :=
  if barDrawn b
  then barShape (barLeft b) (bottom barLayout) (Bars.barPxWidth layout opts)
         (barHeight b) (Bars.cornerR layout opts)
  else [].

(** The y coordinates a call touches. *)
Definition callYs (k : Call) : list R :=
  match k with
  | MoveTo _ y | LineTo _ y => [y]
  | ArcTo _ y1 _ y2 _ => [y1; y2]
  | FillRect _ y _ height => [y; y + height]
  | _ => []
  end.

(** The calls that draw a bar shape. *)
Definition isShapeCall (k : Call) : bool :=
  match k with
  | BeginPath | ClosePath | MoveTo _ _ | LineTo _ _ | ArcTo _ _ _ _ _
  | Fill | FillRect _ _ _ _ => true
  | _ => false
  end.

End BarFormula.
From Stdlib Require Import Ascii.

(** ** More sample inputs *)

Module Sample2.

(** Collaborators whose [spawnOnSwing] returns a burst of intensity 1/2. *)
Definition externals : Externals :=
  {| ReferenceLine := unit;
     OrderbookData := unit;
     OrderbookState := unit;
     GridState := unit;
     TimeAxisState := unit;
     ParticleState := unit;
     DegenOptions := unit;
     Momentum := unit;
     drawLine_pts := fun _ => Some [(120, 80); (300, 60)];
     spawnOnSwing_burst := fun _ _ _ _ _ _ _ _ => 1 / 2 |}.

Definition blank : Ctx (E := externals) :=
  {| cur := {| globalAlpha := 1; translateX := 0; translateY := 0 |};
     stack := [];
     log := [] |}.

(** A fully revealed frame with a particle state, a swing of magnitude 1
    and a shake at rest. *)
Definition frameOptions : Frame.DrawOptions (E := externals) :=
  {| Frame.visible := [ {| lp_time := 1; lp_value := 80 |};
                        {| lp_time := 2; lp_value := 60 |} ];
     Frame.smoothValue := 60;
     Frame.now := 2;
     Frame.momentum := (tt : @Momentum externals);
     Frame.arrowState := {| up := 0; down := 0 |};
     Frame.showGrid := true;
     Frame.showMomentum := true;
     Frame.showPulse := true;
     Frame.showFill := true;
     Frame.referenceLine := None;
     Frame.hoverX := None;
     Frame.hoverValue := None;
     Frame.hoverTime := None;
     Frame.scrubAmount := 0;
     Frame.windowSecs := 60;
     Frame.formatValue := fun _ => "v"%string;
     Frame.formatTime := fun _ => "t"%string;
     Frame.gridState := (tt : @GridState externals);
     Frame.timeAxisState := (tt : @TimeAxisState externals);
     Frame.dt := 16;
     Frame.targetWindowSecs := 60;
     Frame.tooltipY := 14;
     Frame.tooltipOutline := true;
     Frame.orderbookData := None;
     Frame.orderbookState := None;
     Frame.particleState := Some (tt : @ParticleState externals);
     Frame.particleOptions := None;
     Frame.swingMagnitude := 1;
     Frame.shakeState := Some {| amplitude := 0 |};
     Frame.chartReveal := 1;
     Frame.pauseProgress := 0;
     Frame.now_ms := 2000;
     Frame.bars := None;
     Frame.barWidthSecs := None;
     Frame.barMode := None;
     Frame.barFillColor := None;
     Frame.barLayout := None;
     Frame.barShowLabels := None |}.

(** Collaborators whose [drawLine] hands back no points. *)
Definition noLine : Externals :=
  {| ReferenceLine := unit;
     OrderbookData := unit;
     OrderbookState := unit;
     GridState := unit;
     TimeAxisState := unit;
     ParticleState := unit;
     DegenOptions := unit;
     Momentum := unit;
     drawLine_pts := fun _ => None;
     spawnOnSwing_burst := fun _ _ _ _ _ _ _ _ => 0 |}.

Definition noLineBlank : Ctx (E := noLine) :=
  {| cur := {| globalAlpha := 1; translateX := 0; translateY := 0 |};
     stack := [];
     log := [] |}.

(** A fully revealed frame, hovered at x = 100 under a full scrub. *)
Definition noLineOptions : Frame.DrawOptions (E := noLine) :=
  {| Frame.visible := [ {| lp_time := 1; lp_value := 80 |};
                        {| lp_time := 2; lp_value := 60 |} ];
     Frame.smoothValue := 60;
     Frame.now := 2;
     Frame.momentum := (tt : @Momentum noLine);
     Frame.arrowState := {| up := 0; down := 0 |};
     Frame.showGrid := true;
     Frame.showMomentum := true;
     Frame.showPulse := true;
     Frame.showFill := true;
     Frame.referenceLine := None;
     Frame.hoverX := Some 100;
     Frame.hoverValue := Some 70;
     Frame.hoverTime := Some 1;
     Frame.scrubAmount := 1;
     Frame.windowSecs := 60;
     Frame.formatValue := fun _ => "v"%string;
     Frame.formatTime := fun _ => "t"%string;
     Frame.gridState := (tt : @GridState noLine);
     Frame.timeAxisState := (tt : @TimeAxisState noLine);
     Frame.dt := 16;
     Frame.targetWindowSecs := 60;
     Frame.tooltipY := 14;
     Frame.tooltipOutline := true;
     Frame.orderbookData := None;
     Frame.orderbookState := None;
     Frame.particleState := Some (tt : @ParticleState noLine);
     Frame.particleOptions := None;
     Frame.swingMagnitude := 1;
     Frame.shakeState := None;
     Frame.chartReveal := 1;
     Frame.pauseProgress := 0;
     Frame.now_ms := 2000;
     Frame.bars := None;
     Frame.barWidthSecs := None;
     Frame.barMode := None;
     Frame.barFillColor := None;
     Frame.barLayout := None;
     Frame.barShowLabels := None |}.

(** Three bars under a scrub at x = 100 (the second and third bar lie right
    of it), labels on. *)
Definition scrubbedBars : Bars.BarDrawOptions :=
  {| Bars.bars := [ {| bar_time := 10; bar_value := 50 |};
                    {| bar_time := 20; bar_value := 100 |};
                    {| bar_time := 30; bar_value := 0 |} ];
     Bars.barWidthSecs := 5;
     Bars.fillColor := "#3b82f6";
     Bars.labelColor := "#888888";
     Bars.scrubX := Some 100;
     Bars.scrubAmount := 1;
     Bars.revealProgress := 1;
     Bars.showLabels := true |}.

(** The fully revealed candle options of [Sample], a quarter of the way
    through a width morph from candles of width 2. *)
Definition morphingOptions
  : CandleFrame.CandleDrawOptions (E := Sample.externals) :=
  {| CandleFrame.candles := CandleFrame.candles (Sample.candleOptions 1 0);
     CandleFrame.displayCandleWidth := CandleFrame.displayCandleWidth (Sample.candleOptions 1 0);
     CandleFrame.oldCandles := [Sample.candle];
     CandleFrame.oldWidth := 2;
     CandleFrame.morphT := 1 / 4;
     CandleFrame.liveCandle := CandleFrame.liveCandle (Sample.candleOptions 1 0);
     CandleFrame.closePriceCandle := CandleFrame.closePriceCandle (Sample.candleOptions 1 0);
     CandleFrame.liveTime := CandleFrame.liveTime (Sample.candleOptions 1 0);
     CandleFrame.liveBirthAlpha := CandleFrame.liveBirthAlpha (Sample.candleOptions 1 0);
     CandleFrame.liveBullBlend := CandleFrame.liveBullBlend (Sample.candleOptions 1 0);
     CandleFrame.lineModeProg := CandleFrame.lineModeProg (Sample.candleOptions 1 0);
     CandleFrame.chartReveal := CandleFrame.chartReveal (Sample.candleOptions 1 0);
     CandleFrame.now_ms := CandleFrame.now_ms (Sample.candleOptions 1 0);
     CandleFrame.now := CandleFrame.now (Sample.candleOptions 1 0);
     CandleFrame.pauseProgress := CandleFrame.pauseProgress (Sample.candleOptions 1 0);
     CandleFrame.showGrid := CandleFrame.showGrid (Sample.candleOptions 1 0);
     CandleFrame.scrubAmount := CandleFrame.scrubAmount (Sample.candleOptions 1 0);
     CandleFrame.hoverX := CandleFrame.hoverX (Sample.candleOptions 1 0);
     CandleFrame.hoverValue := CandleFrame.hoverValue (Sample.candleOptions 1 0);
     CandleFrame.hoverTime := CandleFrame.hoverTime (Sample.candleOptions 1 0);
     CandleFrame.hoveredCandle := CandleFrame.hoveredCandle (Sample.candleOptions 1 0);
     CandleFrame.formatValue := CandleFrame.formatValue (Sample.candleOptions 1 0);
     CandleFrame.formatTime := CandleFrame.formatTime (Sample.candleOptions 1 0);
     CandleFrame.gridState := CandleFrame.gridState (Sample.candleOptions 1 0);
     CandleFrame.timeAxisState := CandleFrame.timeAxisState (Sample.candleOptions 1 0);
     CandleFrame.dt := CandleFrame.dt (Sample.candleOptions 1 0);
     CandleFrame.targetWindowSecs := CandleFrame.targetWindowSecs (Sample.candleOptions 1 0);
     CandleFrame.tooltipY := CandleFrame.tooltipY (Sample.candleOptions 1 0);
     CandleFrame.tooltipOutline := CandleFrame.tooltipOutline (Sample.candleOptions 1 0);
     CandleFrame.lineVisible := CandleFrame.lineVisible (Sample.candleOptions 1 0);
     CandleFrame.lineSmoothValue := CandleFrame.lineSmoothValue (Sample.candleOptions 1 0);
     CandleFrame.emptyText := CandleFrame.emptyText (Sample.candleOptions 1 0);
     CandleFrame.loadingAlpha := CandleFrame.loadingAlpha (Sample.candleOptions 1 0);
     CandleFrame.showEmptyOverlay := CandleFrame.showEmptyOverlay (Sample.candleOptions 1 0);
     CandleFrame.bars := CandleFrame.bars (Sample.candleOptions 1 0);
     CandleFrame.barWidthSecs := CandleFrame.barWidthSecs (Sample.candleOptions 1 0);
     CandleFrame.barMode := CandleFrame.barMode (Sample.candleOptions 1 0);
     CandleFrame.barFillColor := CandleFrame.barFillColor (Sample.candleOptions 1 0);
     CandleFrame.barLayout := CandleFrame.barLayout (Sample.candleOptions 1 0);
     CandleFrame.barShowLabels := CandleFrame.barShowLabels (Sample.candleOptions 1 0) |}.

(** The candle options of [Sample] in full line mode at reveal 0.8: a
    hovered candle and a full scrub, but no hover x. *)
Definition unhoveredCandleOptions
  : CandleFrame.CandleDrawOptions (E := Sample.externals) :=
  let o := Sample.candleOptions 0.8 1 in
  {| CandleFrame.candles := CandleFrame.candles o;
     CandleFrame.displayCandleWidth := CandleFrame.displayCandleWidth o;
     CandleFrame.oldCandles := CandleFrame.oldCandles o;
     CandleFrame.oldWidth := CandleFrame.oldWidth o;
     CandleFrame.morphT := CandleFrame.morphT o;
     CandleFrame.liveCandle := CandleFrame.liveCandle o;
     CandleFrame.closePriceCandle := CandleFrame.closePriceCandle o;
     CandleFrame.liveTime := CandleFrame.liveTime o;
     CandleFrame.liveBirthAlpha := CandleFrame.liveBirthAlpha o;
     CandleFrame.liveBullBlend := CandleFrame.liveBullBlend o;
     CandleFrame.lineModeProg := CandleFrame.lineModeProg o;
     CandleFrame.chartReveal := CandleFrame.chartReveal o;
     CandleFrame.now_ms := CandleFrame.now_ms o;
     CandleFrame.now := CandleFrame.now o;
     CandleFrame.pauseProgress := CandleFrame.pauseProgress o;
     CandleFrame.showGrid := CandleFrame.showGrid o;
     CandleFrame.scrubAmount := CandleFrame.scrubAmount o;
     CandleFrame.hoverX := None;
     CandleFrame.hoverValue := CandleFrame.hoverValue o;
     CandleFrame.hoverTime := CandleFrame.hoverTime o;
     CandleFrame.hoveredCandle := CandleFrame.hoveredCandle o;
     CandleFrame.formatValue := CandleFrame.formatValue o;
     CandleFrame.formatTime := CandleFrame.formatTime o;
     CandleFrame.gridState := CandleFrame.gridState o;
     CandleFrame.timeAxisState := CandleFrame.timeAxisState o;
     CandleFrame.dt := CandleFrame.dt o;
     CandleFrame.targetWindowSecs := CandleFrame.targetWindowSecs o;
     CandleFrame.tooltipY := CandleFrame.tooltipY o;
     CandleFrame.tooltipOutline := CandleFrame.tooltipOutline o;
     CandleFrame.lineVisible := CandleFrame.lineVisible o;
     CandleFrame.lineSmoothValue := CandleFrame.lineSmoothValue o;
     CandleFrame.emptyText := CandleFrame.emptyText o;
     CandleFrame.loadingAlpha := CandleFrame.loadingAlpha o;
     CandleFrame.showEmptyOverlay := CandleFrame.showEmptyOverlay o;
     CandleFrame.bars := CandleFrame.bars o;
     CandleFrame.barWidthSecs := CandleFrame.barWidthSecs o;
     CandleFrame.barMode := CandleFrame.barMode o;
     CandleFrame.barFillColor := CandleFrame.barFillColor o;
     CandleFrame.barLayout := CandleFrame.barLayout o;
     CandleFrame.barShowLabels := CandleFrame.barShowLabels o |}.

End Sample2.

(** ** Predicates on the collected series of [drawMultiFrame] *)

Section MultiCollected.

Context {E : Externals}.
Variables (layout : ChartLayout) (opts : MultiFrame.MultiSeriesDrawOptions).

(** What holds of an element of [allPts]: it is visible, and it comes from
    a series of the options whose line has at least one point. *)
Definition collectedFrom (ss : list MultiFrame.MultiSeriesEntry)
    (e : MultiFrame.SeriesPts) : Prop :=
  MultiFrame.sp_pts e <> [] /\
  ~ MultiFrame.sp_alpha e < 0.01 /\
  exists s, In s ss /\
    MultiFrame.sp_alpha e = MultiFrame.seriesAlphaOf s /\
    MultiFrame.sp_palette e = MultiFrame.palette s /\
    MultiFrame.sp_label e = MultiFrame.label s /\
    drawLine_pts (MultiFrame.seriesLineArgs layout opts s)
    = Some (MultiFrame.sp_pts e).

End MultiCollected.


(** ** The alpha of a bar of [drawBars] *)

Section BarStamps.

Variables (layout : ChartLayout) (opts : Bars.BarDrawOptions).

(** The alpha a bar is filled under, [baseAlpha] being the alpha on entry:
    dimmed right of the scrub position. *)
Definition barFillAlpha (baseAlpha : R) (b : BarPoint) : R :=
  match Bars.scrubX opts with
  | Some sx =>
      if Rgtb (Bars.scrubAmount opts) 0.05
         && Rgtb (toX layout (bar_time b + Bars.barWidthSecs opts / 2)) sx
      then baseAlpha * (1 - Bars.scrubAmount opts * 0.6)
      else baseAlpha
  | None => baseAlpha
  end.

End BarStamps.

(** ** The calls of the left-edge fade *)

Section EdgeFadeCalls.

Context {E : Externals}.

(** The three calls that the "Left edge fade" block makes between its save
    and its restore. *)
Definition leftEdgeFadeCalls (layout : ChartLayout) : list Call :=
  [ SetCompositeOperation "destination-out";
    SetFillStyle
      (LinearGradient (pad_left (pad layout)) 0
         (pad_left (pad layout) + FADE_EDGE_WIDTH) 0
         [(0, "rgba(0, 0, 0, 1)"%string); (1, "rgba(0, 0, 0, 0)"%string)]);
    FillRect 0 0 (pad_left (pad layout) + FADE_EDGE_WIDTH) (h layout) ].

End EdgeFadeCalls.

(** ** The crosshair module ([drawCrosshair], [drawMultiCrosshair])

    The two functions of the crosshair module draw on the 2D context
    directly.  The context is modelled as for the composers: the current
    drawing state, the save stack, and the log of the calls made, each with
    the state it was made under. *)

Module Crosshair.

Definition dquote : string := String "034"%char EmptyString.

(** ['400 13px "SF Mono", Menlo, monospace'] *)
Definition tooltipFont : string :=
  ("400 13px " ++ dquote ++ "SF Mono" ++ dquote ++ ", Menlo, monospace")%string.

(** The separator: two spaces, a middle dot (U+00B7, as its two UTF-8
    bytes), two spaces. *)
Definition separator : string :=
  ("  " ++ String "194"%char (String "183"%char EmptyString) ++ "  ")%string.

(** The operations of the 2D context that the module uses. *)
Inductive Op :=
| SetStrokeStyle (css : string)
| SetLineWidth (width : R)
| SetLineJoin (join : string)
| SetFillStyle (css : string)
| SetFont (font : string)
| SetTextAlign (align : string)
| BeginPath
| MoveTo (x y : R)
| LineTo (x y : R)
| Arc (x y radius startAngle endAngle : R)
| Stroke
| Fill
| StrokeText (text : string) (x y : R)
| FillText (text : string) (x y : R).

Record Canvas := {
  state : DrawState;
  saved : list DrawState;
  ops : list (DrawState * Op)
}.

Definition save (c : Canvas) : Canvas :=
  {| state := state c; saved := state c :: saved c; ops := ops c |}.

(** [restore] on an empty stack does nothing. *)
Definition restore (c : Canvas) : Canvas :=
  match saved c with
  | [] => c
  | s :: rest => {| state := s; saved := rest; ops := ops c |}
  end.

(** Assigning [globalAlpha]: a value outside [0,1] is ignored by the
    canvas. *)
Definition setGlobalAlpha (a : R) (c : Canvas) : Canvas :=
  if Rleb 0 a && Rleb a 1
  then {| state := {| globalAlpha := a;
                      translateX := translateX (state c);
                      translateY := translateY (state c) |};
          saved := saved c; ops := ops c |}
  else c.

(** Any other operation is logged with the state in force. *)
Definition op (k : Op) (c : Canvas) : Canvas :=
  {| state := state c; saved := saved c; ops := ops c ++ [(state c, k)] |}.

Section DrawCrosshair.

Variables (layout : ChartLayout) (palette : LivelinePalette).

(** [ctx.measureText(text).width] under the tooltip font. *)
Variable textWidth : string -> R.

(** The blocks that both functions have, with the same text. *)

(** "Vertical line" *)
Definition verticalLine (hoverX scrubOpacity : R) (c : Canvas) : Canvas :=
  let c := save c in
  let c := setGlobalAlpha (scrubOpacity * 0.5) c in
  let c := op (SetStrokeStyle (crosshairLine palette)) c in
  let c := op (SetLineWidth 1) c in
  let c := op BeginPath c in
  let c := op (MoveTo hoverX (pad_top (pad layout))) c in
  let c := op (LineTo hoverX (h layout - pad_bottom (pad layout))) c in
  let c := op Stroke c in
  restore c.

Definition dotRadius (scrubOpacity : R) : R := 4 * Rmin (scrubOpacity * 3) 1.

(** "Center on crosshair, clamp to chart bounds" *)
Definition tooltipX (hoverX totalW : R) (liveDotX : option R) : R :=
  let tx := hoverX - totalW / 2 in
  let minX := pad_left (pad layout) + 4 in
  let dotRightEdge :=
    match liveDotX with
    | Some x => x + 7
    | None => w layout - pad_right (pad layout)
    end in
  let maxX := dotRightEdge - totalW in
  let tx := if Rltb tx minX then minX else tx in
  if Rgtb tx maxX then maxX else tx.

(** [pad.top + (tooltipY ?? 14) + 10] *)
Definition tooltipTextY (tooltipY : option R) : R :=
  pad_top (pad layout)
  + (match tooltipY with Some y => y | None => 14 end) + 10.

Definition drawCrosshair (hoverX hoverValue hoverTime : R)
    (formatValue formatTime : R -> string) (scrubOpacity : R)
    (tooltipY liveDotX : option R) (tooltipOutline : option bool)
    (c : Canvas) : Canvas :=
  if Rltb scrubOpacity 0.01 then c else
  let y := toY layout hoverValue in
  (* Vertical line (solid, like Kalshi) *)
  let c := verticalLine hoverX scrubOpacity c in
  (* Dot at intersection — solid accent color, always fully opaque. *)
  let dotRadius := dotRadius scrubOpacity in
  let c :=
    if Rgtb dotRadius 0.5 then
      let c := setGlobalAlpha 1 c in
      let c := op BeginPath c in
      let c := op (Arc hoverX y dotRadius 0 (PI * 2)) c in
      let c := op (SetFillStyle (line palette)) c in
      op Fill c
    else c in
  (* Skip text for small containers (text is ~200px wide) *)
  if Rltb scrubOpacity 0.1 || Rltb (w layout) 300 then c else
  let valueText := formatValue hoverValue in
  let timeText := formatTime hoverTime in
  let c := save c in
  let c := setGlobalAlpha scrubOpacity c in
  let c := op (SetFont tooltipFont) c in
  let valueW := textWidth valueText in
  let sepW := textWidth separator in
  let timeW := textWidth timeText in
  let totalW := valueW + sepW + timeW in
  let tx := tooltipX hoverX totalW liveDotX in
  let ty := tooltipTextY tooltipY in
  let c := op (SetTextAlign "left") c in
  (* Text outline for readability against the chart *)
  let c :=
    match tooltipOutline with
    | Some true =>
        let c := op (SetStrokeStyle (tooltipBg palette)) c in
        let c := op (SetLineWidth 3) c in
        let c := op (SetLineJoin "round") c in
        let c := op (StrokeText valueText tx ty) c in
        op (StrokeText (separator ++ timeText) (tx + valueW) ty) c
    | _ => c
    end in
  (* Value (dark) *)
  let c := op (SetFillStyle (tooltipText palette)) c in
  let c := op (FillText valueText tx ty) c in
  (* Separator + time (lighter) *)
  let c := op (SetFillStyle (gridLabel palette)) c in
  let c := op (FillText (separator ++ timeText) (tx + valueW) ty) c in
  restore c.

(** A segment of the multi-series tooltip. *)
Record Seg := {
  seg_text : string;
  seg_color : string;
  seg_isDot : bool
}.

(** The segments pushed for one entry. *)
Definition entrySegments (formatValue : R -> string)
    (e : MultiSeriesHoverEntry) : list Seg :=
  let label :=
    match he_label e with
    | EmptyString => EmptyString
    | l => (l ++ " ")%string
    end in
  [ {| seg_text := separator; seg_color := gridLabel palette;
       seg_isDot := false |};
    (* Inline dot (drawn as circle, not text) *)
    {| seg_text := " "; seg_color := he_color e; seg_isDot := true |} ]
  ++ match label with
     | EmptyString => []
     | _ => [ {| seg_text := label; seg_color := gridLabel palette;
                 seg_isDot := false |} ]
     end
  ++ [ {| seg_text := formatValue (he_value e);
          seg_color := tooltipText palette; seg_isDot := false |} ].

Definition segmentsOf (formatValue formatTime : R -> string) (hoverTime : R)
    (entries : list MultiSeriesHoverEntry) : list Seg :=
  {| seg_text := formatTime hoverTime; seg_color := gridLabel palette;
     seg_isDot := false |}
  :: flat_map (entrySegments formatValue) entries.

Definition segWidth (seg : Seg) : R :=
  if seg_isDot seg then 12 else textWidth (seg_text seg).

(** One turn of the outline loop: the running x and the canvas. *)
Definition outlineSeg (ty : R) (st : R * Canvas) (sw : Seg * R)
  : R * Canvas :=
  let '(ox, c) := st in
  let '(seg, width) := sw in
  let c := if seg_isDot seg then c
           else op (StrokeText (seg_text seg) ox ty) c in
  (ox + width, c).

(** One turn of the fill loop. *)
Definition fillSeg (ty : R) (st : R * Canvas) (sw : Seg * R) : R * Canvas :=
  let '(ox, c) := st in
  let '(seg, width) := sw in
  let c :=
    if seg_isDot seg then
      (* Draw small colored circle inline *)
      let c := op BeginPath c in
      let c := op (Arc (ox + 4) (ty - 4) 3.5 0 (PI * 2)) c in
      let c := op (SetFillStyle (seg_color seg)) c in
      op Fill c
    else
      let c := op (SetFillStyle (seg_color seg)) c in
      op (FillText (seg_text seg) ox ty) c in
  (ox + width, c).

(** One turn of the loop over the entries that draws the dots. *)
Definition entryDot (hoverX dotRadius : R) (c : Canvas)
    (entry : MultiSeriesHoverEntry) : Canvas :=
  let y := toY layout (he_value entry) in
  let c := op BeginPath c in
  let c := op (Arc hoverX y dotRadius 0 (PI * 2)) c in
  let c := op (SetFillStyle (he_color entry)) c in
  op Fill c.

Definition drawMultiCrosshair (hoverX hoverTime : R)
    (entries : list MultiSeriesHoverEntry)
    (formatValue formatTime : R -> string) (scrubOpacity : R)
    (tooltipY : option R) (tooltipOutline : option bool)
    (liveDotX : option R) (c : Canvas) : Canvas :=
  if Rltb scrubOpacity 0.01 || (List.length entries =? 0)%nat then c else
  (* Vertical line (solid, matching single-series) *)
  let c := verticalLine hoverX scrubOpacity c in
  (* Dots at each series intersection *)
  let dotRadius := dotRadius scrubOpacity in
  let c :=
    if Rgtb dotRadius 0.5 then
      let c := setGlobalAlpha 1 c in
      fold_left (entryDot hoverX dotRadius) entries c
    else c in
  if Rltb scrubOpacity 0.1 || Rltb (w layout) 300 then c else
  (* Inline text at top — same style as single-series crosshair *)
  let c := save c in
  let c := setGlobalAlpha scrubOpacity c in
  let c := op (SetFont tooltipFont) c in
  let c := op (SetTextAlign "left") c in
  let segments := segmentsOf formatValue formatTime hoverTime entries in
  (* Measure total width *)
  let segWidths := map segWidth segments in
  let totalW := fold_left Rplus segWidths 0 in
  let tx := tooltipX hoverX totalW liveDotX in
  let ty := tooltipTextY tooltipY in
  (* Outline pass *)
  let c :=
    match tooltipOutline with
    | Some false => c
    | _ =>
        let c := op (SetStrokeStyle (tooltipBg palette)) c in
        let c := op (SetLineWidth 3) c in
        let c := op (SetLineJoin "round") c in
        snd (fold_left (outlineSeg ty) (combine segments segWidths) (tx, c))
    end in
  (* Fill pass *)
  let c := snd (fold_left (fillSeg ty) (combine segments segWidths) (tx, c)) in
  restore c.

End DrawCrosshair.

(** The calls of one turn of the outline loop and of the fill loop, for a
    segment whose left end is at [x]. *)
Definition segOutline (ty x : R) (seg : Seg) : list Op :=
  if seg_isDot seg then [] else [StrokeText (seg_text seg) x ty].

Definition segFill (ty x : R) (seg : Seg) : list Op :=
  if seg_isDot seg
  then [ BeginPath; Arc (x + 4) (ty - 4) 3.5 0 (PI * 2);
         SetFillStyle (seg_color seg); Fill ]
  else [ SetFillStyle (seg_color seg); FillText (seg_text seg) x ty ].

(** A blank canvas and a text of 7 px a character. *)
Definition blank : Canvas :=
  {| state := {| globalAlpha := 1 / 2; translateX := 0; translateY := 0 |};
     saved := [];
     ops := [] |}.

Definition charWidth (s : string) : R := 7 * INR (String.length s).

(** Two hovered series, the second without a label. *)
Definition entries : list MultiSeriesHoverEntry :=
  [ {| he_color := "#ff0000"; he_label := "A"; he_value := 80 |};
    {| he_color := "#00ff00"; he_label := EmptyString; he_value := 60 |} ].

End Crosshair.
(* ================================================================== *)
(** * Part II.  Properties                                             *)
(* ================================================================== *)

(** ** Tactics for the comparisons *)

Ltac unfold_cmp :=
  unfold Rltb, Rleb, Rgtb, Rgeb, Reqb in *.

Ltac case_cmp :=
  unfold_cmp;
  repeat match goal with
  | |- context [Rlt_dec ?a ?b] => destruct (Rlt_dec a b)
  | |- context [Rle_dec ?a ?b] => destruct (Rle_dec a b)
  | |- context [Rgt_dec ?a ?b] => destruct (Rgt_dec a b)
  | |- context [Rge_dec ?a ?b] => destruct (Rge_dec a b)
  | |- context [Req_dec_T ?a ?b] => destruct (Req_dec_T a b)
  | H : context [Rlt_dec ?a ?b] |- _ => destruct (Rlt_dec a b)
  | H : context [Rle_dec ?a ?b] |- _ => destruct (Rle_dec a b)
  | H : context [Rgt_dec ?a ?b] |- _ => destruct (Rgt_dec a b)
  | H : context [Rge_dec ?a ?b] |- _ => destruct (Rge_dec a b)
  | H : context [Req_dec_T ?a ?b] |- _ => destruct (Req_dec_T a b)
  end.

Ltac case_minmax :=
  unfold Rmax, Rmin in *; case_cmp.

(** ** The ramp *)

Section Ramp.

Variables start end_ : R.
Hypothesis Hse : start < end_.

Lemma ramp_ratio_le (p q : R) :
  p <= q -> (p - start) / (end_ - start) <= (q - start) / (end_ - start).
Proof.
  intros Hpq. unfold Rdiv. apply Rmult_le_compat_r; [|lra].
  left. apply Rinv_0_lt_compat. lra.
Qed.

Lemma ramp_ratio_diff (p q : R) :
  (q - start) / (end_ - start) - (p - start) / (end_ - start)
  = (q - p) / (end_ - start).
Proof. field. lra. Qed.

Lemma smooth_mono (a b : R) :
  0 <= a -> a <= b -> b <= 1 ->
  a * a * (3 - 2 * a) <= b * b * (3 - 2 * b).
Proof.
  intros Ha Hab Hb.
  assert (H : b * b * (3 - 2 * b) - a * a * (3 - 2 * a)
              = (b - a) * (3 * (a + b) - 2 * (a * a + a * b + b * b))) by ring.
  assert (0 <= 3 * (a + b) - 2 * (a * a + a * b + b * b)) by nra.
  assert (0 <= (b - a) * (3 * (a + b) - 2 * (a * a + a * b + b * b))).
  { apply Rmult_le_pos; lra. }
  lra.
Qed.

Lemma smooth_lipschitz (a b : R) :
  0 <= a -> a <= b -> b <= 1 ->
  b * b * (3 - 2 * b) - a * a * (3 - 2 * a) <= 3 / 2 * (b - a).
Proof.
  intros Ha Hab Hb.
  assert (H : b * b * (3 - 2 * b) - a * a * (3 - 2 * a)
              = (b - a) * (3 * (a + b) - 2 * (a * a + a * b + b * b))) by ring.
  assert (3 * (a + b) - 2 * (a * a + a * b + b * b) <= 3 / 2).
  { assert (E : 3 / 2 - (3 * (a + b) - 2 * (a * a + a * b + b * b))
                 = 3 / 2 * ((a + b - 1) * (a + b - 1))
                   + 1 / 2 * ((a - b) * (a - b))) by field.
    pose proof (Rle_0_sqr (a + b - 1)) as S1.
    pose proof (Rle_0_sqr (a - b)) as S2.
    unfold Rsqr in S1, S2. lra. }
  rewrite H. rewrite (Rmult_comm (3 / 2)).
  apply Rmult_le_compat_l; lra.
Qed.

Lemma clamp_bounds (x : R) : 0 <= Rmax 0 (Rmin 1 x) <= 1.
Proof. case_minmax; lra. Qed.

Lemma clamp_mono (x y : R) :
  x <= y -> Rmax 0 (Rmin 1 x) <= Rmax 0 (Rmin 1 y).
Proof. intros. case_minmax; lra. Qed.

Lemma clamp_lipschitz (x y : R) :
  x <= y -> Rmax 0 (Rmin 1 y) - Rmax 0 (Rmin 1 x) <= y - x.
Proof. intros. case_minmax; lra. Qed.

Lemma revealRamp_mono (p q : R) :
  p <= q -> revealRamp p start end_ <= revealRamp q start end_.
Proof.
  intros Hpq. unfold revealRamp; cbv zeta.
  pose proof (ramp_ratio_le p q Hpq) as Hr.
  pose proof (clamp_mono _ _ Hr) as Hc.
  pose proof (clamp_bounds ((p - start) / (end_ - start))) as [Hp0 _].
  pose proof (clamp_bounds ((q - start) / (end_ - start))) as [_ Hq1].
  apply smooth_mono; assumption.
Qed.

Lemma revealRamp_before (p : R) : p <= start -> revealRamp p start end_ = 0.
Proof.
  intros Hp. unfold revealRamp; cbv zeta.
  assert (Hr : (p - start) / (end_ - start) <= 0).
  { pose proof (ramp_ratio_le p start Hp) as H.
    replace ((start - start) / (end_ - start)) with 0 in H by (field; lra).
    exact H. }
  assert (Ht : Rmax 0 (Rmin 1 ((p - start) / (end_ - start))) = 0)
    by (case_minmax; lra).
  rewrite Ht. ring.
Qed.

Lemma revealRamp_after (p : R) : end_ <= p -> revealRamp p start end_ = 1.
Proof.
  intros Hp. unfold revealRamp; cbv zeta.
  assert (Hr : 1 <= (p - start) / (end_ - start)).
  { pose proof (ramp_ratio_le end_ p Hp) as H.
    replace ((end_ - start) / (end_ - start)) with 1 in H by (field; lra).
    exact H. }
  assert (Ht : Rmax 0 (Rmin 1 ((p - start) / (end_ - start))) = 1)
    by (case_minmax; lra).
  rewrite Ht. ring.
Qed.

Lemma revealRamp_range (p : R) : 0 <= revealRamp p start end_ <= 1.
Proof.
  unfold revealRamp; cbv zeta.
  pose proof (clamp_bounds ((p - start) / (end_ - start))) as [H0 H1].
  set (t := Rmax 0 (Rmin 1 ((p - start) / (end_ - start)))) in *.
  split; [nra|].
  pose proof (smooth_mono t 1 H0 H1 (Rle_refl 1)). lra.
Qed.

Lemma revealRamp_step (p q : R) :
  p <= q ->
  revealRamp q start end_ - revealRamp p start end_
  <= 3 / 2 / (end_ - start) * (q - p).
Proof.
  intros Hpq. unfold revealRamp; cbv zeta.
  pose proof (ramp_ratio_le p q Hpq) as Hr.
  pose proof (clamp_mono _ _ Hr) as Hc.
  pose proof (clamp_lipschitz _ _ Hr) as Hl.
  rewrite ramp_ratio_diff in Hl.
  pose proof (clamp_bounds ((p - start) / (end_ - start))) as [Hp0 _].
  pose proof (clamp_bounds ((q - start) / (end_ - start))) as [_ Hq1].
  pose proof (smooth_lipschitz _ _ Hp0 Hc Hq1) as Hs.
  unfold Rdiv in *. nra.
Qed.

End Ramp.

(** A function with a Lipschitz bound at [x] is continuous at [x]. *)
Lemma lipschitz_continuity_pt (f : R -> R) (k x : R) :
  0 < k ->
  (forall y, Rabs (f y - f x) <= k * Rabs (y - x)) ->
  continuity_pt f x.
Proof.
  intros Hk Hlip eps Heps.
  exists (eps / k). split.
  - apply Rdiv_lt_0_compat; assumption.
  - intros y [_ Hd]. simpl in *. unfold R_dist in *.
    apply Rle_lt_trans with (k * Rabs (y - x)); [apply Hlip|].
    apply Rlt_le_trans with (k * (eps / k)).
    + apply Rmult_lt_compat_l; assumption.
    + right. field. lra.
Qed.

(** From a monotone function with bounded increments to a Lipschitz bound. *)
Lemma mono_step_lipschitz (f : R -> R) (k : R) :
  (forall p q, p <= q -> f p <= f q) ->
  (forall p q, p <= q -> f q - f p <= k * (q - p)) ->
  forall x y, Rabs (f y - f x) <= k * Rabs (y - x).
Proof.
  intros Hm Hs x y.
  destruct (Rle_lt_dec x y) as [Hxy|Hxy].
  - pose proof (Hm _ _ Hxy). pose proof (Hs _ _ Hxy).
    rewrite !Rabs_right by lra. lra.
  - assert (Hyx : y <= x) by lra.
    pose proof (Hm _ _ Hyx). pose proof (Hs _ _ Hyx).
    rewrite !Rabs_left1 by lra. lra.
Qed.

Lemma revealRamp_continuity (start end_ : R) :
  start < end_ -> continuity (fun p => revealRamp p start end_).
Proof.
  intros Hse x.
  apply lipschitz_continuity_pt with (k := 3 / 2 / (end_ - start)).
  - apply Rdiv_lt_0_compat; lra.
  - intros y.
    apply (mono_step_lipschitz (fun p => revealRamp p start end_)).
    + intros p q. apply revealRamp_mono; assumption.
    + intros p q. apply revealRamp_step; assumption.
Qed.

(** C5: [revealRamp] (the spec's rampSmoothstep with the progress made
    explicit) clamps [(progress - start) / (end - start)] to [0,1] and applies
    [t^2 (3 - 2t)]; for [start < end] it is non-decreasing in the progress, is
    0 at or before [start], 1 at or after [end], and is continuous, in
    particular at [start] and at [end]. *)
Theorem revealRamp_smoothstep (start end_ : R) (Hse : start < end_) :
  (forall p, exists t, 0 <= t <= 1 /\
             t = Rmax 0 (Rmin 1 ((p - start) / (end_ - start))) /\
             revealRamp p start end_ = t * t * (3 - 2 * t)) /\
  (forall p q, 0 <= p <= 1 -> 0 <= q <= 1 -> p <= q ->
               revealRamp p start end_ <= revealRamp q start end_) /\
  (forall p, p <= start -> revealRamp p start end_ = 0) /\
  (forall p, end_ <= p -> revealRamp p start end_ = 1) /\
  continuity_pt (fun p => revealRamp p start end_) start /\
  continuity_pt (fun p => revealRamp p start end_) end_.
Proof.
  split; [|split; [|split; [|split; [|split]]]].
  - intros p. exists (Rmax 0 (Rmin 1 ((p - start) / (end_ - start)))).
    split; [apply clamp_bounds|]. split; reflexivity.
  - intros p q _ _ Hpq. apply revealRamp_mono; assumption.
  - intros p. apply revealRamp_before; assumption.
  - intros p. apply revealRamp_after; assumption.
  - apply revealRamp_continuity; assumption.
  - apply revealRamp_continuity; assumption.
Qed.

Lemma revealRamp_smoothstep_witness :
  0.15 < 0.7 /\ revealRamp 0 0.15 0.7 = 0 /\ revealRamp 1 0.15 0.7 = 1.
Proof.
  assert (H : 0.15 < 0.7) by lra.
  destruct (revealRamp_smoothstep 0.15 0.7 H) as (_ & _ & H0 & H1 & _).
  split; [exact H|]. split; [apply H0; lra | apply H1; lra].
Defined.

(** ** Candle composer: blend factors and the OHLC collapse *)

Lemma lp_ge_lineModeProg (lineModeProg reveal : R) :
  lineModeProg <= lp lineModeProg reveal.
Proof. unfold lp. apply Rmax_l. Qed.

Lemma colorBlend_unit (lineModeProg reveal : R) :
  0 <= lineModeProg -> 0 <= colorBlend lineModeProg reveal <= 1.
Proof.
  intros H0. unfold colorBlend.
  pose proof (lp_ge_lineModeProg lineModeProg reveal) as Hge.
  set (l := lp lineModeProg reveal) in *.
  unfold Rgtb. destruct (Rgt_dec l 0.001) as [Hl|Hl]; [|lra].
  assert (Hpos : 0 < l) by lra.
  split.
  - apply Rmult_le_pos; [assumption|]. left. apply Rinv_0_lt_compat; assumption.
  - apply Rmult_le_reg_r with l; [assumption|].
    unfold Rdiv. rewrite Rmult_assoc, Rinv_l by lra. lra.
Qed.

(** C4 (as amended): past the [lp > 0.001] gate the ratio
    [lineModeProg / lp] cannot exceed 1, because [lp] is a maximum that
    includes [lineModeProg]; for every non-negative [lineModeProg] and every
    [reveal], [colorBlend] lies in [0,1]. *)
Theorem colorBlend_in_unit_interval (lineModeProg reveal : R) :
  0 <= lineModeProg ->
  0 <= colorBlend lineModeProg reveal <= 1.
Proof. apply colorBlend_unit. Qed.

Lemma colorBlend_in_unit_interval_witness :
  0 <= 0.002 /\ 0 <= colorBlend 0.002 1 <= 1.
Proof.
  split; [lra|]. apply (colorBlend_in_unit_interval 0.002 1). lra.
Defined.

(** C4, the claim as stated, refuted: no input in range passes the gate
    with a blend above 1. *)
Lemma colorBlend_never_exceeds_one :
  ~ (exists lineModeProg reveal,
       0 <= lineModeProg <= 1 /\ 0 <= reveal <= 1 /\
       lp lineModeProg reveal > 0.001 /\
       lineModeProg / lp lineModeProg reveal > 1).
Proof.
  intros (m & r & [Hm0 Hm1] & _ & Hgate & Hbig).
  pose proof (colorBlend_unit m r Hm0) as [_ Hle].
  unfold colorBlend, Rgtb in Hle.
  destruct (Rgt_dec (lp m r) 0.001); lra.
Qed.

Lemma collapseC_ok (s : R) (c : CandlePoint) :
  0 <= s -> candle_ok c -> candle_ok (collapseC s c).
Proof.
  intros Hs (Hl & Hm & Hh). unfold collapseC, Rgeb.
  destruct (Rge_dec s 0.99); [repeat split; assumption|].
  unfold candle_ok in *; simpl.
  assert (low c <= open c /\ low c <= close c) as [Hlo Hlc].
  { revert Hl. unfold Rmin. destruct (Rle_dec (open c) (close c)); lra. }
  assert (open c <= high c /\ close c <= high c) as [Hoh Hch].
  { revert Hh. unfold Rmax. destruct (Rle_dec (open c) (close c)); lra. }
  assert (0 <= (open c - low c) * s) by (apply Rmult_le_pos; lra).
  assert (0 <= (close c - low c) * s) by (apply Rmult_le_pos; lra).
  assert (0 <= (high c - open c) * s) by (apply Rmult_le_pos; lra).
  assert (0 <= (high c - close c) * s) by (apply Rmult_le_pos; lra).
  repeat split.
  - unfold Rmin. destruct (Rle_dec _ _); lra.
  - unfold Rmin, Rmax. destruct (Rle_dec _ _); lra.
  - unfold Rmax. destruct (Rle_dec _ _); lra.
Qed.

(** C10: the OHLC collapse keeps the candle ordering invariant for every
    [ohlcScale] in [0,1], and leaves [close] and [time] as they were. *)
Theorem collapseC_preserves_candle (s : R) (c : CandlePoint) :
  0 <= s <= 1 ->
  candle_ok c ->
  candle_ok (collapseC s c) /\
  close (collapseC s c) = close c /\
  time (collapseC s c) = time c.
Proof.
  intros [Hs _] Hc. split; [apply collapseC_ok; assumption|].
  unfold collapseC. destruct (Rgeb s 0.99); split; reflexivity.
Qed.

Lemma collapseC_preserves_candle_witness :
  candle_ok (collapseC 0.5 {| time := 7; open := 2; high := 5; low := 1; close := 4 |}).
Proof.
  refine (proj1 (collapseC_preserves_candle 0.5
            {| time := 7; open := 2; high := 5; low := 1; close := 4 |} _ _)).
  - lra.
  - unfold candle_ok; simpl. unfold Rmin, Rmax.
    destruct (Rle_dec 2 4); lra.
Defined.

Lemma collapseC_map_ok (s : R) (cs : list CandlePoint) :
  0 <= s -> Forall candle_ok cs -> Forall candle_ok (map (collapseC s) cs).
Proof.
  intros Hs H. induction H; simpl; constructor; auto using collapseC_ok.
Qed.

Lemma ohlcScale_range (reveal : R) :
  0 <= reveal <= 1 -> 0 <= ohlcScale reveal <= 1.
Proof.
  intros [H0 H1]. unfold ohlcScale. split; [nra|].
  pose proof (smooth_mono reveal 1 H0 H1 (Rle_refl 1)). lra.
Qed.

(** ** Shake decay *)

Lemma decay_rate_pos (x : R) : 0 < Rpower SHAKE_DECAY_RATE x.
Proof. unfold Rpower. apply exp_pos. Qed.

Lemma ln_decay_rate_neg : ln SHAKE_DECAY_RATE < 0.
Proof.
  rewrite <- ln_1. unfold SHAKE_DECAY_RATE. apply ln_increasing; lra.
Qed.

Lemma decay_rate_le_1 (x : R) : 0 <= x -> Rpower SHAKE_DECAY_RATE x <= 1.
Proof.
  intros Hx. unfold Rpower. rewrite <- exp_0.
  pose proof ln_decay_rate_neg as Hln.
  destruct (Req_dec_T (x * ln SHAKE_DECAY_RATE) 0) as [E|E].
  - rewrite E. lra.
  - left. apply exp_increasing. nra.
Qed.

Lemma decay_rate_split (d t : R) :
  Rpower SHAKE_DECAY_RATE ((d + t) / 1000)
  = Rpower SHAKE_DECAY_RATE (d / 1000) * Rpower SHAKE_DECAY_RATE (t / 1000).
Proof.
  rewrite <- Rpower_plus. f_equal. field.
Qed.

Lemma decayShake_amplitude (dt : R) (s : ShakeState) :
  amplitude (decayShake dt s) = decayedOver dt (amplitude s).
Proof.
  unfold decayShake, decayedOver; cbv zeta.
  destruct (Rltb _ _); reflexivity.
Qed.

Lemma decayedOver_compose (d t a : R) :
  0 <= t -> decayedOver t (decayedOver d a) = decayedOver (d + t) a.
Proof.
  intros Ht. unfold decayedOver; cbv zeta.
  rewrite decay_rate_split.
  pose proof (decay_rate_pos (t / 1000)) as Hp.
  assert (H1 : Rpower SHAKE_DECAY_RATE (t / 1000) <= 1).
  { apply decay_rate_le_1. lra. }
  set (rd := Rpower SHAKE_DECAY_RATE (d / 1000)) in *.
  set (rt := Rpower SHAKE_DECAY_RATE (t / 1000)) in *.
  unfold Rltb, SHAKE_MIN_AMPLITUDE.
  destruct (Rlt_dec (a * rd) 0.2) as [Hs|Hs].
  - destruct (Rlt_dec (0 * rt) 0.2) as [_|N]; [|exfalso; lra].
    destruct (Rlt_dec (a * (rd * rt)) 0.2) as [_|N]; [reflexivity|].
    exfalso. apply N.
    destruct (Rle_lt_dec 0 (a * rd)); nra.
  - destruct (Rlt_dec (a * rd * rt) 0.2) as [H2|H2];
      destruct (Rlt_dec (a * (rd * rt)) 0.2) as [H3|H3];
      try reflexivity; try (exfalso; nra); ring.
Qed.

Lemma sumR_nonneg (dts : list R) :
  Forall (fun dt => 0 < dt) dts -> 0 <= sumR dts.
Proof.
  induction 1; simpl; lra.
Qed.

Lemma decayTicks_closed_form (dts : list R) :
  Forall (fun dt => 0 < dt) dts -> dts <> [] ->
  forall s, amplitude (decayTicks dts s) = decayedOver (sumR dts) (amplitude s).
Proof.
  induction 1 as [|d rest Hd Hrest IH]; intros Hne s; [congruence|].
  destruct rest as [|d' rest'].
  - simpl. rewrite decayShake_amplitude. f_equal. lra.
  - change (decayTicks (d :: d' :: rest') s)
      with (decayTicks (d' :: rest') (decayShake d s)).
    rewrite IH by discriminate.
    rewrite decayShake_amplitude.
    rewrite decayedOver_compose by (apply sumR_nonneg; assumption).
    reflexivity.
Qed.

Lemma sumR_pos (dts : list R) :
  Forall (fun dt => 0 < dt) dts -> dts <> [] -> 0 < sumR dts.
Proof.
  intros H Hne. destruct H as [|d rest Hd Hrest]; [congruence|].
  simpl. pose proof (sumR_nonneg rest Hrest). lra.
Qed.

(** C2: shake decay is time-proportional.  Whatever the initial amplitude,
    two sequences of positive tick deltas with the same sum, each decayed
    step by step (multiply by [0.002^(dt/1000)], snap to 0 below 0.2), end in
    the same shake state. *)
Theorem shake_decay_time_proportional
    (s : ShakeState) (dts1 dts2 : list R) :
  Forall (fun dt => 0 < dt) dts1 ->
  Forall (fun dt => 0 < dt) dts2 ->
  sumR dts1 = sumR dts2 ->
  decayTicks dts1 s = decayTicks dts2 s.
Proof.
  intros H1 H2 Hsum.
  destruct dts1 as [|a1 r1]; destruct dts2 as [|a2 r2].
  - reflexivity.
  - exfalso. pose proof (sumR_pos (a2 :: r2) H2 ltac:(discriminate)) as P.
    rewrite <- Hsum in P. simpl in P. lra.
  - exfalso. pose proof (sumR_pos (a1 :: r1) H1 ltac:(discriminate)) as P.
    rewrite Hsum in P. simpl in P. lra.
  - assert (E : amplitude (decayTicks (a1 :: r1) s)
                = amplitude (decayTicks (a2 :: r2) s)).
    { rewrite !decayTicks_closed_form by (assumption || discriminate).
      rewrite Hsum. reflexivity. }
    destruct (decayTicks (a1 :: r1) s), (decayTicks (a2 :: r2) s).
    simpl in E. rewrite E. reflexivity.
Qed.

Lemma shake_decay_time_proportional_witness :
  decayTicks [16; 16; 18] {| amplitude := 10 |}
  = decayTicks [50] {| amplitude := 10 |}.
Proof.
  apply shake_decay_time_proportional.
  - repeat constructor; lra.
  - repeat constructor; lra.
  - simpl. lra.
Defined.

(* ------------------------------------------------------------------ *)
(** ** The canvas log *)

Section LogLemmas.

Context {E : Externals}.

Lemma sameTransform_refl (s : DrawState) : sameTransform s s.
Proof. split; reflexivity. Qed.

Lemma sameTransform_trans (a b c : DrawState) :
  sameTransform a b -> sameTransform b c -> sameTransform a c.
Proof. intros [H1 H2] [H3 H4]. split; congruence. Qed.

Lemma sameTransform_sym (a b : DrawState) :
  sameTransform a b -> sameTransform b a.
Proof. intros [H1 H2]. split; congruence. Qed.

Lemma newCalls_app (c c' : Ctx) (l : list (DrawState * Call)) :
  log c' = log c ++ l -> newCalls c c' = l.
Proof.
  intros H. unfold newCalls. rewrite H.
  rewrite skipn_app, skipn_all, Nat.sub_diag. reflexivity.
Qed.

Variable Q : Call -> Prop.

Lemma steps_refl (c : Ctx) : steps Q c c.
Proof.
  split; [apply sameTransform_refl|]. split; [reflexivity|].
  exists []. split; [symmetry; apply app_nil_r | constructor].
Qed.

Lemma steps_trans (c1 c2 c3 : Ctx) :
  steps Q c1 c2 -> steps Q c2 c3 -> steps Q c1 c3.
Proof.
  intros (T1 & S1 & l1 & L1 & F1) (T2 & S2 & l2 & L2 & F2).
  split; [eapply sameTransform_trans; eassumption|].
  split; [congruence|].
  exists (l1 ++ l2). split.
  - rewrite L2, L1, app_assoc. reflexivity.
  - apply Forall_app. split; [assumption|].
    eapply Forall_impl; [|exact F2].
    intros e [He Hq]. split; [|assumption].
    eapply sameTransform_trans; eassumption.
Qed.

Lemma steps_call (c c' : Ctx) (k : Call) :
  steps Q c c' -> Q k -> steps Q c (call k c').
Proof.
  intros H Hk. eapply steps_trans; [exact H|].
  split; [apply sameTransform_refl|]. split; [reflexivity|].
  exists [(cur c', k)]. split; [reflexivity|].
  constructor; [|constructor]. split; [apply sameTransform_refl | exact Hk].
Qed.

Lemma steps_setGlobalAlpha (c c' : Ctx) (a : R) :
  steps Q c c' -> steps Q c (setGlobalAlpha a c').
Proof.
  intros H. eapply steps_trans; [exact H|].
  unfold setGlobalAlpha. destruct (Rleb 0 a && Rleb a 1); [|apply steps_refl].
  split; [split; reflexivity|]. split; [reflexivity|].
  exists []. split; [symmetry; apply app_nil_r | constructor].
Qed.

(** A [save] ... [restore] scope puts the current state back. *)
Lemma emits_scope (c c' : Ctx) :
  steps Q (save c) c' -> emits Q c (restore c').
Proof.
  intros (T & S & l & L & F). unfold restore. rewrite S. simpl.
  split; [reflexivity|]. split; [reflexivity|].
  exists l. split; assumption.
Qed.

Lemma emits_steps (c c' : Ctx) : emits Q c c' -> steps Q c c'.
Proof.
  intros (C & S & l & L & F).
  split; [rewrite C; apply sameTransform_refl|]. split; [assumption|].
  exists l. split; assumption.
Qed.

Lemma steps_then_emits (c c1 c2 : Ctx) :
  steps Q c c1 -> emits Q c1 c2 -> steps Q c c2.
Proof. intros H1 H2. eapply steps_trans; [exact H1 | apply emits_steps, H2]. Qed.

Lemma emits_refl (c : Ctx) : emits Q c c.
Proof.
  split; [reflexivity|]. split; [reflexivity|].
  exists []. split; [symmetry; apply app_nil_r | constructor].
Qed.

Lemma emits_trans (c1 c2 c3 : Ctx) :
  emits Q c1 c2 -> emits Q c2 c3 -> emits Q c1 c3.
Proof.
  intros H1 H2.
  destruct (steps_trans c1 c2 c3 (emits_steps _ _ H1) (emits_steps _ _ H2))
    as (_ & S & Hl).
  destruct H1 as (C1 & _), H2 as (C2 & _).
  split; [congruence|]. split; assumption.
Qed.

Lemma emits_call (c c' : Ctx) (k : Call) :
  emits Q c c' -> Q k -> emits Q c (call k c').
Proof.
  intros H Hk.
  destruct (steps_call c c' k (emits_steps _ _ H) Hk) as (_ & S & Hl).
  destruct H as (C & _).
  split; [exact C|]. split; assumption.
Qed.

Lemma emits_newCalls (c c' : Ctx) :
  emits Q c c' -> Forall (fun e => Q (snd e)) (newCalls c c').
Proof.
  intros (_ & _ & l & L & F). rewrite (newCalls_app _ _ _ L).
  eapply Forall_impl; [|exact F]. intros e [_ H]. exact H.
Qed.

Lemma emits_log (c c' : Ctx) :
  emits Q c c' -> log c' = log c ++ newCalls c c'.
Proof.
  intros (_ & _ & l & L & _). rewrite (newCalls_app _ _ _ L). exact L.
Qed.

End LogLemmas.

Section LogExtension.

Context {E : Externals}.

Lemma extendsLog_refl (c : Ctx) : extendsLog c c.
Proof. exists []. symmetry. apply app_nil_r. Qed.

Lemma extendsLog_trans (c1 c2 c3 : Ctx) :
  extendsLog c1 c2 -> extendsLog c2 c3 -> extendsLog c1 c3.
Proof.
  intros [l1 H1] [l2 H2]. exists (l1 ++ l2).
  rewrite H2, H1, app_assoc. reflexivity.
Qed.

Lemma extendsLog_call (k : Call) (c : Ctx) : extendsLog c (call k c).
Proof. exists [(cur c, k)]. reflexivity. Qed.

Lemma emits_extendsLog (Q : Call -> Prop) (c c' : Ctx) :
  emits Q c c' -> extendsLog c c'.
Proof. intros (_ & _ & l & L & _). exists l. exact L. Qed.

Lemma extendsLog_newCalls (c c' : Ctx) :
  extendsLog c c' -> log c' = log c ++ newCalls c c'.
Proof. intros [l L]. rewrite (newCalls_app _ _ _ L). exact L. Qed.

(** A call made between [c1] and [c2] is among the calls made between an
    earlier [c] and a later [c3]. *)
Lemma Exists_newCalls_between (P : DrawState * Call -> Prop) (c c1 c2 c3 : Ctx) :
  extendsLog c c1 -> extendsLog c1 c2 -> extendsLog c2 c3 ->
  Exists P (newCalls c1 c2) -> Exists P (newCalls c c3).
Proof.
  intros [l1 L1] H12 [l3 L3] HP.
  pose proof (extendsLog_newCalls _ _ H12) as L2.
  assert (L : log c3 = log c ++ (l1 ++ newCalls c1 c2 ++ l3)).
  { rewrite L3, L2, L1, <- !app_assoc. reflexivity. }
  rewrite (newCalls_app _ _ _ L).
  apply Exists_app. right. apply Exists_app. left. exact HP.
Qed.

Lemma newCalls_call (k : Call) (c : Ctx) :
  newCalls c (call k c) = [(cur c, k)].
Proof. apply newCalls_app. reflexivity. Qed.

Lemma leftEdgeFade_applied (layout : ChartLayout) (c : Ctx) :
  extendsLog c (leftEdgeFade layout c) /\
  hasCall (SetCompositeOperation "destination-out")
          (newCalls c (leftEdgeFade layout c)).
Proof.
  assert (L : exists l, log (leftEdgeFade layout c)
                        = log c ++ (cur c, SetCompositeOperation "destination-out") :: l).
  { unfold leftEdgeFade; cbv zeta. unfold restore. simpl.
    rewrite <- !app_assoc. simpl. eexists. reflexivity. }
  destruct L as [l L]. split.
  - eexists. exact L.
  - rewrite (newCalls_app _ _ _ L). left. reflexivity.
Qed.

End LogExtension.

Lemma emits_weaken {E : Externals} (Q Q' : Call -> Prop) (c c' : Ctx) :
  (forall k, Q k -> Q' k) -> emits Q c c' -> emits Q' c c'.
Proof.
  intros H (C & S & l & L & F). split; [exact C|]. split; [exact S|].
  exists l. split; [exact L|].
  eapply Forall_impl; [|exact F]. intros e [T q]. split; auto.
Qed.

(** Peeling a context expression: the goal [steps Q c0 t] or [emits Q c0 t]
    is reduced along the shape of [t]. *)
Ltac peel :=
  lazymatch goal with
  | |- steps _ (save _) (save _) => apply steps_refl
  | |- steps _ ?c ?c => apply steps_refl
  | |- emits _ ?c ?c => apply emits_refl
  | |- steps _ _ (call _ _) => apply steps_call; [peel|]
  | |- emits _ _ (call _ _) => apply emits_call; [peel|]
  | |- steps _ _ (setGlobalAlpha _ _) => apply steps_setGlobalAlpha; peel
  | |- steps _ _ (restore _) =>
      eapply steps_then_emits; [|apply emits_scope; peel]; peel
  | |- emits _ _ (restore _) =>
      eapply emits_trans; [|apply emits_scope; peel]; peel
  | |- steps _ _ (if ?b then _ else _) => destruct b eqn:?; peel
  | |- emits _ _ (if ?b then _ else _) => destruct b eqn:?; peel
  | |- steps _ _ (match ?x with _ => _ end) => destruct x eqn:?; peel
  | |- emits _ _ (match ?x with _ => _ end) => destruct x eqn:?; peel
  | |- _ => idtac
  end.

(* ------------------------------------------------------------------ *)
(** ** The shared blocks: edge fade and bars *)

Section SharedBlocks.

Context {E : Externals}.
Variable Q : Call -> Prop.
Hypothesis Qctx : allows Q ["ctx"%string].

Ltac ctx_call := apply Qctx; simpl; auto.

Lemma leftEdgeFade_emits (layout : ChartLayout) (c : Ctx) :
  emits Q c (leftEdgeFade layout c).
Proof. unfold leftEdgeFade; cbv zeta. peel; ctx_call. Qed.

Lemma fold_steps {A : Type} (f : A -> Ctx -> Ctx) (l : list A) :
  (forall a c, steps Q c (f a c)) ->
  forall c, steps Q c (fold_left (fun c a => f a c) l c).
Proof.
  intros Hf. induction l as [|a l IH]; intros c; simpl.
  - apply steps_refl.
  - eapply steps_trans; [apply Hf | apply IH].
Qed.

Lemma drawBar_steps layout bl o baseAlpha b (c : Ctx) :
  steps Q c (Bars.drawBar layout bl o baseAlpha b c).
Proof. unfold Bars.drawBar; cbv zeta. peel; ctx_call. Qed.

Lemma drawBarLabel_steps layout bl o fontSize b (c : Ctx) :
  steps Q c (Bars.drawBarLabel layout bl o fontSize b c).
Proof. unfold Bars.drawBarLabel; cbv zeta. peel; ctx_call. Qed.

Lemma drawBars_steps layout bl o (c : Ctx) :
  steps Q c (Bars.drawBars layout bl o c).
Proof.
  unfold Bars.drawBars; cbv zeta.
  destruct (Bars.bars o) as [|b0 bs] eqn:Hbars; [apply steps_refl|].
  destruct (Rleb (maxValue bl) 0); [apply steps_refl|].
  apply steps_setGlobalAlpha.
  assert (H1 : steps Q c
            (fold_left (fun c0 b => Bars.drawBar layout bl o
                                      (globalAlpha (cur c)) b c0)
               (b0 :: bs) (call (SetFillStyle (Color (Bars.fillColor o))) c))).
  { eapply steps_trans; [|apply fold_steps; intros; apply drawBar_steps].
    peel; ctx_call. }
  destruct (Bars.showLabels o && Rgtb (Bars.revealProgress o) 0.5); [|exact H1].
  eapply steps_then_emits; [exact H1|].
  apply emits_scope.
  eapply steps_trans; [|apply fold_steps; intros; apply drawBarLabel_steps].
  peel; ctx_call.
Qed.

Section Blocks.

Variables (layout : ChartLayout) (palette : LivelinePalette).
Variables (obars : option (list BarPoint)) (obarLayout : option BarLayout)
          (obarWidthSecs : option R) (obarMode : option BarMode)
          (obarFillColor : option string) (obarShowLabels : option bool).
Variables (oscrubAmount : R) (ohoverX : option R) (reveal : R).

Lemma barsOverlay_emits (c : Ctx) :
  emits Q c (Bars.barsOverlay layout palette obars obarLayout obarWidthSecs
               obarMode obarFillColor obarShowLabels oscrubAmount ohoverX
               reveal c).
Proof.
  unfold Bars.barsOverlay; cbv zeta.
  destruct (Bars.barsEnabled _ _ _ _ _ _) as [[[[bs bl] ws] fc]|];
    [|apply emits_refl].
  destruct (Rgtb _ 0.01); [|apply emits_refl].
  apply emits_scope.
  eapply steps_trans; [|apply drawBars_steps].
  peel.
Qed.

Lemma barsDefault_emits (c : Ctx) :
  emits Q c (Bars.barsDefault layout palette obars obarLayout obarWidthSecs
               obarMode obarFillColor obarShowLabels oscrubAmount ohoverX
               reveal c).
Proof.
  unfold Bars.barsDefault; cbv zeta.
  destruct (Bars.barsEnabled _ _ _ _ _ _) as [[[[bs bl] ws] fc]|];
    [|apply emits_refl].
  destruct (Rgtb _ 0.01); [|apply emits_refl].
  apply emits_scope.
  eapply steps_trans; [|apply drawBars_steps].
  peel; ctx_call.
Qed.

End Blocks.

End SharedBlocks.

(* ------------------------------------------------------------------ *)
(** ** [drawFrame]: what the layers log *)

Section FrameLayers.

Context {E : Externals}.
Variables (layout : ChartLayout) (palette : LivelinePalette)
          (opts : Frame.DrawOptions).
Variable Q : Call -> Prop.

Ltac allowed H := apply H; simpl; tauto.

Lemma frame_referenceLine_emits (c : Ctx) :
  allows Q ["drawReferenceLine"%string] ->
  emits Q c (Frame.referenceLineLayer layout palette opts c).
Proof. intros H. unfold Frame.referenceLineLayer; cbv zeta. peel; allowed H. Qed.

Lemma frame_grid_emits (c : Ctx) :
  allows Q ["drawGrid"%string] ->
  emits Q c (Frame.gridLayer layout palette opts c).
Proof. intros H. unfold Frame.gridLayer; cbv zeta. peel; allowed H. Qed.

Lemma frame_orderbook_emits (c : Ctx) :
  allows Q ["drawOrderbook"%string] ->
  emits Q c (Frame.orderbookLayer layout palette opts c).
Proof. intros H. unfold Frame.orderbookLayer; cbv zeta. peel; allowed H. Qed.

Lemma frame_timeAxis_emits (c : Ctx) :
  allows Q ["drawTimeAxis"%string] ->
  emits Q c (Frame.timeAxisLayer layout palette opts c).
Proof. intros H. unfold Frame.timeAxisLayer; cbv zeta. peel; allowed H. Qed.

Lemma frame_dot_emits (lastPt : Point) (c : Ctx) :
  allows Q ["drawDot"%string] ->
  emits Q c (Frame.dotLayer layout palette opts lastPt c).
Proof. intros H. unfold Frame.dotLayer; cbv zeta. peel; allowed H. Qed.

Lemma frame_arrows_emits (lastPt : Point) (c : Ctx) :
  allows Q ["drawArrows"%string] ->
  emits Q c (Frame.arrowsLayer palette opts lastPt c).
Proof. intros H. unfold Frame.arrowsLayer; cbv zeta. peel; allowed H. Qed.

Lemma frame_particles_emits (lastPt : Point) shake (c : Ctx) :
  allows Q ["spawnOnSwing"; "drawParticles"]%string ->
  emits Q c (fst (Frame.particlesLayer palette opts lastPt shake c)).
Proof.
  intros H. unfold Frame.particlesLayer; cbv zeta.
  destruct (Frame.particleState opts); [|apply emits_refl].
  destruct (Rgtb _ 0.9); [|apply emits_refl].
  simpl. peel; allowed H.
Qed.

Lemma frame_crosshair_emits pts (c : Ctx) :
  allows Q ["drawCrosshair"%string] ->
  emits Q c (Frame.crosshairLayer layout palette opts pts c).
Proof. intros H. unfold Frame.crosshairLayer; cbv zeta. peel; allowed H. Qed.

(** The layers, around the one unconditional [drawLine] call and the
    edge fade. *)
Lemma frame_layers_split shake (c : Ctx) :
  allows Q frame_other_callees ->
  (forall c, emits Q c (Frame.gridLayer layout palette opts c)) ->
  (forall p c, emits Q c (Frame.dotLayer layout palette opts p c)) ->
  (forall pts c, emits Q c (Frame.crosshairLayer layout palette opts pts c)) ->
  exists c1 c3,
    emits Q c c1 /\
    emits Q (call (DrawLine (Frame.lineArgs layout palette opts)) c1) c3 /\
    emits Q (leftEdgeFade layout c3)
            (fst (Frame.layers layout palette opts shake c)) /\
    fst (Frame.layers layout palette opts shake c)
    = Frame.crosshairLayer layout palette opts
        (drawLine_pts (Frame.lineArgs layout palette opts))
        (leftEdgeFade layout c3).
Proof.
  intros HQ Hgrid Hdot Hcross0.
  assert (Hctx : allows Q ["ctx"%string]).
  { intros k Hk. apply HQ. simpl in *. tauto. }
  unfold Frame.layers, Frame.lineLayer, drawLine; cbv zeta.
  exists (Frame.barsOverlayLayer layout palette opts
            (Frame.orderbookLayer layout palette opts
               (Frame.gridLayer layout palette opts
                  (Frame.referenceLineLayer layout palette opts c)))).
  cbv beta iota zeta.
  set (c1 := Frame.barsOverlayLayer _ _ _ _).
  set (c2 := call _ c1).
  set (pts := drawLine_pts _).
  assert (H1 : emits Q c c1).
  { unfold c1.
    eapply emits_trans;
      [|unfold Frame.barsOverlayLayer; apply barsOverlay_emits; exact Hctx].
    eapply emits_trans; [|apply frame_orderbook_emits].
    eapply emits_trans; [|apply Hgrid].
    apply frame_referenceLine_emits.
    all: intros k Hk; apply HQ; simpl in *; tauto. }
  assert (Htime : emits Q c2 (Frame.timeAxisLayer layout palette opts c2)).
  { apply frame_timeAxis_emits. intros k Hk; apply HQ; simpl in *; tauto. }
  set (c3 := Frame.timeAxisLayer layout palette opts c2) in *.
  assert (Hbars : forall c4, emits Q c2 c4 ->
            emits Q c2 (Frame.barsDefaultLayer layout palette opts c4)).
  { intros c4 H4. eapply emits_trans; [exact H4|].
    unfold Frame.barsDefaultLayer. apply barsDefault_emits; exact Hctx. }
  assert (Hcross : forall c5,
            emits Q c5 (Frame.crosshairLayer layout palette opts pts c5)).
  { intros c5. apply Hcross0. }
  destruct pts as [ps|] eqn:Hpts; [destruct (lastOf ps) as [lastPt|]|].
  - destruct (Frame.particlesLayer palette opts lastPt shake _)
      as [c4 s4] eqn:Hp.
    simpl. exists (Frame.barsDefaultLayer layout palette opts c4).
    split; [exact H1|]. split; [|split; [apply Hcross | reflexivity]].
    apply Hbars.
    eapply emits_trans; [exact Htime|].
    eapply emits_trans; [apply Hdot|].
    eapply emits_trans;
      [apply frame_arrows_emits; intros k Hk; apply HQ; simpl in *; tauto|].
    match type of Hp with
    | Frame.particlesLayer _ _ _ _ ?cx = _ =>
        pose proof (frame_particles_emits lastPt shake cx) as Hpe
    end.
    rewrite Hp in Hpe. apply Hpe.
    intros k Hk; apply HQ; simpl in *; tauto.
  - simpl. exists (Frame.barsDefaultLayer layout palette opts c3).
    split; [exact H1|]. split; [|split; [apply Hcross | reflexivity]].
    apply Hbars. exact Htime.
  - simpl. exists (Frame.barsDefaultLayer layout palette opts c3).
    split; [exact H1|]. split; [|split; [apply Hcross | reflexivity]].
    apply Hbars. exact Htime.
Qed.

End FrameLayers.

(* ------------------------------------------------------------------ *)
(** ** Deciding the comparisons *)

Lemma Rltb_true (x y : R) : x < y -> Rltb x y = true.
Proof. intros. unfold Rltb. destruct (Rlt_dec x y); [reflexivity|contradiction]. Qed.

Lemma Rltb_false (x y : R) : ~ x < y -> Rltb x y = false.
Proof. intros. unfold Rltb. destruct (Rlt_dec x y); [contradiction|reflexivity]. Qed.

Lemma Rgtb_true (x y : R) : x > y -> Rgtb x y = true.
Proof. intros. unfold Rgtb. destruct (Rgt_dec x y); [reflexivity|contradiction]. Qed.

Lemma Rgtb_false (x y : R) : ~ x > y -> Rgtb x y = false.
Proof. intros. unfold Rgtb. destruct (Rgt_dec x y); [contradiction|reflexivity]. Qed.

Lemma Rgeb_true (x y : R) : x >= y -> Rgeb x y = true.
Proof. intros. unfold Rgeb. destruct (Rge_dec x y); [reflexivity|contradiction]. Qed.

Lemma Rgeb_false (x y : R) : ~ x >= y -> Rgeb x y = false.
Proof. intros. unfold Rgeb. destruct (Rge_dec x y); [contradiction|reflexivity]. Qed.

Lemma Rleb_true (x y : R) : x <= y -> Rleb x y = true.
Proof. intros. unfold Rleb. destruct (Rle_dec x y); [reflexivity|contradiction]. Qed.

Lemma Rleb_false (x y : R) : ~ x <= y -> Rleb x y = false.
Proof. intros. unfold Rleb. destruct (Rle_dec x y); [contradiction|reflexivity]. Qed.

Lemma Reqb_true (x y : R) : x = y -> Reqb x y = true.
Proof. intros. unfold Reqb. destruct (Req_dec_T x y); [reflexivity|contradiction]. Qed.

Lemma Reqb_false (x y : R) : x <> y -> Reqb x y = false.
Proof. intros. unfold Reqb. destruct (Req_dec_T x y); [contradiction|reflexivity]. Qed.

Lemma Rgtb_spec (x y : R) : Rgtb x y = true <-> x > y.
Proof.
  split; [|apply Rgtb_true]. unfold Rgtb.
  destruct (Rgt_dec x y); [tauto|discriminate].
Qed.

Lemma Rltb_spec (x y : R) : Rltb x y = true <-> x < y.
Proof.
  split; [|apply Rltb_true]. unfold Rltb.
  destruct (Rlt_dec x y); [tauto|discriminate].
Qed.

(* ------------------------------------------------------------------ *)
(** ** [drawFrame] at reveal 0 and under shake *)

Section FrameFacts.

Context {E : Externals}.
Variables (layout : ChartLayout) (palette : LivelinePalette)
          (opts : Frame.DrawOptions).

Lemma frame_grid_hidden (c : Ctx) :
  Frame.chartReveal opts = 0 -> Frame.gridLayer layout palette opts c = c.
Proof.
  intros H0. unfold Frame.gridLayer, Frame.reveal; cbv zeta. rewrite H0.
  destruct (Frame.showGrid opts); [|reflexivity].
  rewrite (Rltb_true 0 1) by lra.
  rewrite revealRamp_before by lra.
  rewrite Rgtb_false by lra. reflexivity.
Qed.

Lemma frame_dot_hidden (lastPt : Point) (c : Ctx) :
  Frame.chartReveal opts = 0 -> Frame.dotLayer layout palette opts lastPt c = c.
Proof.
  intros H0. unfold Frame.dotLayer, Frame.reveal; cbv zeta. rewrite H0.
  rewrite (Rltb_true 0 0.3) by lra.
  rewrite Rgtb_false by lra. reflexivity.
Qed.

(** The context [drawFrame] hands to the layers, and what it does with the
    context they return. *)
Lemma drawFrame_log (random1 random2 : R) (c : Ctx) :
  exists c0 shake,
    log c0 = log c /\
    log (fst (Frame.drawFrame layout palette opts random1 random2 c))
    = log (fst (Frame.layers layout palette opts shake c0)).
Proof.
  unfold Frame.drawFrame; cbv zeta.
  match goal with
  | |- context [Frame.layers layout palette opts ?s ?c0] =>
      exists c0, s; split;
      [| destruct (Frame.layers layout palette opts s c0) as [cL sL] eqn:HL ]
  end.
  - destruct (match Frame.shakeState opts with Some s => _ | None => false end);
      reflexivity.
  - simpl. destruct (Frame.shakeState opts); [|reflexivity].
    destruct (negb _ || negb _); [|reflexivity].
    unfold restore. destruct (stack cL); reflexivity.
Qed.

End FrameFacts.

Section FrameShake.

Context {E : Externals}.
Variables (layout : ChartLayout) (palette : LivelinePalette)
          (opts : Frame.DrawOptions).

Lemma allows_True (names : list string) : allows (fun _ : Call => True) names.
Proof. intros k _. exact I. Qed.

(** The layers leave the stack and the current state as they found them. *)
Lemma frame_layers_neutral shake (c : Ctx) :
  emits (fun _ => True) c (fst (Frame.layers layout palette opts shake c)).
Proof.
  destruct (frame_layers_split layout palette opts (fun _ => True) shake c)
    as (c1 & c3 & H1 & H3 & H4 & _).
  - apply allows_True.
  - intros c0. apply frame_grid_emits, allows_True.
  - intros p c0. apply frame_dot_emits, allows_True.
  - intros p c0. apply frame_crosshair_emits, allows_True.
  - eapply emits_trans; [|exact H4].
    eapply emits_trans; [|apply leftEdgeFade_emits, allows_True].
    eapply emits_trans; [|exact H3].
    apply emits_call; [exact H1 | exact I].
Qed.

(** The shake offset lies within the amplitude. *)
Lemma shake_offset_bounds (random a : R) :
  0 <= random < 1 -> 0 <= a ->
  - a <= (random - 0.5) * 2 * a <= a.
Proof. intros [H0 H1] Ha. split; nra. Qed.

(** [drawFrame] with the shake armed: every call of the frame is made under
    the shake offset; the save of the offset is undone at the end exactly
    when one of the two offsets is not 0. *)
Lemma drawFrame_shake (random1 random2 : R) (s : ShakeState) (c : Ctx) :
  Frame.shakeState opts = Some s ->
  amplitude s > SHAKE_MIN_AMPLITUDE ->
  let shakeX := (random1 - 0.5) * 2 * amplitude s in
  let shakeY := (random2 - 0.5) * 2 * amplitude s in
  let c' := fst (Frame.drawFrame layout palette opts random1 random2 c) in
  Forall (fun e => translateX (fst e) = translateX (cur c) + shakeX /\
                   translateY (fst e) = translateY (cur c) + shakeY)
         (newCalls c c') /\
  (shakeX <> 0 \/ shakeY <> 0 -> stack c' = stack c /\ cur c' = cur c) /\
  (shakeX = 0 /\ shakeY = 0 -> stack c' = cur c :: stack c).
Proof.
  intros Hs Harmed shakeX shakeY.
  unfold Frame.drawFrame; cbv zeta. rewrite Hs.
  rewrite (Rgtb_true _ _ Harmed). cbv beta iota.
  fold shakeX shakeY.
  set (c0 := translate shakeX shakeY (save c)).
  pose proof (frame_layers_neutral (Some (decayShake (Frame.dt opts) s)) c0)
    as Hn.
  destruct (Frame.layers layout palette opts _ c0) as [cL sL].
  simpl in Hn. destruct Hn as (Hcur & Hstack & l & Hlog & Hall).
  assert (Hl : Forall (fun e => translateX (fst e) = translateX (cur c) + shakeX /\
                                translateY (fst e) = translateY (cur c) + shakeY) l).
  { eapply Forall_impl; [|exact Hall]. intros e [[Hx Hy] _].
    simpl in Hx, Hy. split; assumption. }
  simpl in Hstack, Hlog.
  assert (Hnew : forall cF, log cF = log cL ->
            Forall (fun e => translateX (fst e) = translateX (cur c) + shakeX /\
                             translateY (fst e) = translateY (cur c) + shakeY)
                   (newCalls c cF)).
  { intros cF HF. rewrite (newCalls_app c cF l); [exact Hl|].
    rewrite HF. exact Hlog. }
  assert (Hres : restore cL = {| cur := cur c; stack := stack c; log := log cL |}).
  { unfold restore. rewrite Hstack. reflexivity. }
  destruct (Req_dec_T shakeX 0) as [Ex|Ex]; destruct (Req_dec_T shakeY 0) as [Ey|Ey].
  - rewrite (Reqb_true _ _ Ex), (Reqb_true _ _ Ey). simpl.
    split; [apply Hnew; reflexivity|].
    split; [intros [N|N]; contradiction | intros _; exact Hstack].
  - rewrite (Reqb_true _ _ Ex), (Reqb_false _ _ Ey). simpl. rewrite Hres.
    split; [apply Hnew; reflexivity|].
    split; [intros _; split; reflexivity | intros [_ N]; contradiction].
  - rewrite (Reqb_false _ _ Ex). simpl. rewrite Hres.
    split; [apply Hnew; reflexivity|].
    split; [intros _; split; reflexivity | intros [N _]; contradiction].
  - rewrite (Reqb_false _ _ Ex). simpl. rewrite Hres.
    split; [apply Hnew; reflexivity|].
    split; [intros _; split; reflexivity | intros [N _]; contradiction].
Qed.

End FrameShake.

(** C8 (the code at the failing draws): with the shake armed at amplitude 3
    and both random draws equal to 0.5, the offset is (0, 0), the offset is
    saved, and the final restore is skipped: [drawFrame] returns with one
    more saved state than it was called with. *)
Theorem drawFrame_shake_save_unmatched :
  amplitude {| amplitude := 3 |} > SHAKE_MIN_AMPLITUDE /\
  stack Sample.blank = [] /\
  stack (fst (Frame.drawFrame Sample.layout Sample.palette
                (Sample.frameOptions 1 3) 0.5 0.5 Sample.blank))
  = [cur Sample.blank].
Proof.
  assert (Ha : amplitude {| amplitude := 3 |} > SHAKE_MIN_AMPLITUDE).
  { unfold SHAKE_MIN_AMPLITUDE; simpl; lra. }
  split; [exact Ha|]. split; [reflexivity|].
  destruct (drawFrame_shake Sample.layout Sample.palette
              (Sample.frameOptions 1 3) 0.5 0.5 {| amplitude := 3 |}
              Sample.blank eq_refl Ha) as (_ & _ & H).
  apply H. simpl. split; lra.
Qed.

(* ------------------------------------------------------------------ *)
(** ** [drawCandleFrame]: what the layers log *)

Section CandleLayers.

Context {E : Externals}.
Variables (layout : ChartLayout) (palette : LivelinePalette)
          (opts : CandleFrame.CandleDrawOptions).
Variable Q : Call -> Prop.

Ltac allowed H := apply H; simpl; tauto.

Lemma candle_grid_emits (c : Ctx) :
  allows Q ["drawGrid"%string] ->
  emits Q c (CandleFrame.gridLayer layout palette opts c).
Proof. intros H. unfold CandleFrame.gridLayer; cbv zeta. peel; allowed H. Qed.

Lemma candle_line_emits (c : Ctx) :
  allows Q ["drawLine"%string] ->
  emits Q c (snd (CandleFrame.lineLayer layout palette opts c)).
Proof.
  intros H. unfold CandleFrame.lineLayer, drawLine; cbv zeta.
  destruct (Rgtb _ 0.01 && _); simpl; [|apply emits_refl].
  peel; allowed H.
Qed.

Lemma candle_closePrice_emits (c : Ctx) :
  allows Q ["ctx"; "drawClosePrice"]%string ->
  emits Q c (CandleFrame.closePriceLayer layout palette opts c).
Proof. intros H. unfold CandleFrame.closePriceLayer; cbv zeta. peel; allowed H. Qed.

Lemma candle_candles_emits (c : Ctx) :
  allows Q ["ctx"; "drawCandlesticks"]%string ->
  emits Q c (CandleFrame.candlesLayer layout palette opts c).
Proof. intros H. unfold CandleFrame.candlesLayer; cbv zeta. peel; allowed H. Qed.

Lemma candle_liveDot_emits linePts (c : Ctx) :
  allows Q ["drawDot"%string] ->
  emits Q c (CandleFrame.liveDotLayer palette opts linePts c).
Proof. intros H. unfold CandleFrame.liveDotLayer; cbv zeta. peel; allowed H. Qed.

Lemma candle_timeAxis_emits (c : Ctx) :
  allows Q ["drawTimeAxis"%string] ->
  emits Q c (CandleFrame.timeAxisLayer layout palette opts c).
Proof. intros H. unfold CandleFrame.timeAxisLayer; cbv zeta. peel; allowed H. Qed.

Lemma candle_empty_emits (c : Ctx) :
  allows Q ["drawEmpty"%string] ->
  emits Q c (CandleFrame.emptyOverlayLayer layout palette opts c).
Proof. intros H. unfold CandleFrame.emptyOverlayLayer; cbv zeta. peel; allowed H. Qed.

Lemma candle_crosshair_emits (c : Ctx) :
  allows Q ["drawLineModeCrosshair"; "drawCandleCrosshair"]%string ->
  emits Q c (CandleFrame.crosshairLayer layout palette opts c).
Proof. intros H. unfold CandleFrame.crosshairLayer; cbv zeta. peel; allowed H. Qed.

(** The composer, around the line layer, the edge fade and the crosshair. *)
Lemma candle_frame_split (c : Ctx) :
  allows Q candle_other_callees ->
  (forall c, emits Q c (CandleFrame.gridLayer layout palette opts c)) ->
  (forall c, emits Q c (CandleFrame.candlesLayer layout palette opts c)) ->
  (forall pts c, emits Q c (CandleFrame.liveDotLayer palette opts pts c)) ->
  exists c2 c8,
    emits Q c c2 /\
    emits Q (snd (CandleFrame.lineLayer layout palette opts c2)) c8 /\
    emits Q (leftEdgeFade layout c8)
            (CandleFrame.emptyOverlayLayer layout palette opts
               (leftEdgeFade layout c8)) /\
    CandleFrame.drawCandleFrame layout palette opts c
    = CandleFrame.crosshairLayer layout palette opts
        (CandleFrame.emptyOverlayLayer layout palette opts
           (leftEdgeFade layout c8)).
Proof.
  intros HQ Hgrid Hcandles Hdot.
  assert (Hctx : allows Q ["ctx"%string]).
  { intros k Hk. apply HQ. simpl in *. tauto. }
  unfold CandleFrame.drawCandleFrame; cbv zeta.
  set (c2 := CandleFrame.barsOverlayLayer layout palette opts
               (CandleFrame.gridLayer layout palette opts c)).
  exists c2.
  destruct (CandleFrame.lineLayer layout palette opts c2) as [linePts c3].
  simpl.
  eexists. split; [|split; [|split; [|reflexivity]]].
  - unfold c2. eapply emits_trans; [apply Hgrid|].
    unfold CandleFrame.barsOverlayLayer. apply barsOverlay_emits; exact Hctx.
  - eapply emits_trans; [|apply candle_timeAxis_emits].
    eapply emits_trans; [|apply Hdot].
    eapply emits_trans;
      [|unfold CandleFrame.barsDefaultLayer; apply barsDefault_emits; exact Hctx].
    eapply emits_trans; [|apply Hcandles].
    apply candle_closePrice_emits.
    all: intros k Hk; apply HQ; simpl in *; tauto.
  - apply candle_empty_emits. intros k Hk; apply HQ; simpl in *; tauto.
Qed.

End CandleLayers.

(* ------------------------------------------------------------------ *)
(** ** What a frame draws *)

Section FrameCalls.

Context {E : Externals}.
Variables (layout : ChartLayout) (palette : LivelinePalette)
          (opts : Frame.DrawOptions).
Variable Q : Call -> Prop.

(** The calls of a [drawFrame]: all in [Q] when [Q] holds of the calls the
    layers can make; one of them is the [drawLine] call, and the edge fade
    is among them. *)
Lemma drawFrame_calls (random1 random2 : R) (c : Ctx) :
  allows Q ("drawLine"%string :: frame_other_callees) ->
  (forall c, emits Q c (Frame.gridLayer layout palette opts c)) ->
  (forall p c, emits Q c (Frame.dotLayer layout palette opts p c)) ->
  (forall pts c, emits Q c (Frame.crosshairLayer layout palette opts pts c)) ->
  let l := newCalls c (fst (Frame.drawFrame layout palette opts
                              random1 random2 c)) in
  Forall (fun e => Q (snd e)) l /\
  someCallTo "drawLine" l /\
  hasCall (SetCompositeOperation "destination-out") l.
Proof.
  intros HQ Hgrid Hdot Hcross l.
  destruct (drawFrame_log layout palette opts random1 random2 c)
    as (c0 & shake & L0 & LF).
  assert (El : l = newCalls c0 (fst (Frame.layers layout palette opts shake c0))).
  { unfold l, newCalls. rewrite LF, L0. reflexivity. }
  rewrite El. clear El l LF.
  assert (HQ' : allows Q frame_other_callees).
  { intros k Hk. apply HQ. right. exact Hk. }
  assert (Hctx : allows Q ["ctx"%string]).
  { intros k Hk. apply HQ. simpl in *. tauto. }
  destruct (frame_layers_split layout palette opts Q shake c0 HQ' Hgrid Hdot
              Hcross)
    as (c1 & c3 & H1 & H3 & H4 & _).
  set (cF := fst (Frame.layers layout palette opts shake c0)) in *.
  set (c2 := call (DrawLine (Frame.lineArgs layout palette opts)) c1) in *.
  assert (H2 : emits Q c0 c2).
  { apply emits_call; [exact H1|]. apply HQ. simpl. tauto. }
  assert (H5 : emits Q c3 (leftEdgeFade layout c3))
    by (apply leftEdgeFade_emits; exact Hctx).
  split; [|split].
  - apply (emits_newCalls Q).
    eapply emits_trans; [exact H2|].
    eapply emits_trans; [exact H3|].
    eapply emits_trans; [exact H5 | exact H4].
  - apply Exists_newCalls_between with (c1 := c1) (c2 := c2).
    + eapply emits_extendsLog; exact H1.
    + apply extendsLog_call.
    + eapply extendsLog_trans; [eapply emits_extendsLog; exact H3|].
      eapply extendsLog_trans; eapply emits_extendsLog; eassumption.
    + unfold c2. rewrite newCalls_call. left. reflexivity.
  - apply Exists_newCalls_between with (c1 := c3) (c2 := leftEdgeFade layout c3).
    + eapply extendsLog_trans; [eapply emits_extendsLog; exact H2|].
      eapply emits_extendsLog; exact H3.
    + apply leftEdgeFade_applied.
    + eapply emits_extendsLog; exact H4.
    + apply leftEdgeFade_applied.
Qed.

End FrameCalls.

Section CandleCalls.

Context {E : Externals}.
Variables (layout : ChartLayout) (palette : LivelinePalette)
          (opts : CandleFrame.CandleDrawOptions).

Lemma revealLine_at_0 (m : R) : revealLine m 0 = 1.
Proof. unfold revealLine. destruct (fullLineMode m); ring. Qed.

Lemma lp_at_0 (m : R) : 1 <= lp m 0.
Proof. unfold lp. rewrite revealLine_at_0. apply Rmax_r. Qed.

Lemma candle_grid_hidden (c : Ctx) :
  CandleFrame.chartReveal opts = 0 ->
  CandleFrame.gridLayer layout palette opts c = c.
Proof.
  intros H0. unfold CandleFrame.gridLayer, CandleFrame.reveal; cbv zeta.
  rewrite H0, revealRamp_before by lra.
  rewrite Rgtb_false by lra. rewrite andb_false_r. reflexivity.
Qed.

Lemma candle_liveDot_hidden linePts (c : Ctx) :
  CandleFrame.chartReveal opts = 0 ->
  CandleFrame.liveDotLayer palette opts linePts c = c.
Proof.
  intros H0. unfold CandleFrame.liveDotLayer, CandleFrame.reveal; cbv zeta.
  rewrite H0. rewrite (Rgtb_false 0 0.3) by lra. rewrite andb_false_r.
  destruct linePts as [ps|]; [destruct (lastOf ps)|]; reflexivity.
Qed.

(** No candle is drawn when the candle alpha is 0. *)
Lemma candle_candles_hidden (c : Ctx) :
  CandleFrame.candleAlphaOf opts = 0 ->
  CandleFrame.candlesLayer layout palette opts c = c.
Proof.
  intros H0. unfold CandleFrame.candlesLayer; cbv zeta.
  rewrite H0. rewrite Rgtb_false by lra. reflexivity.
Qed.

Lemma candleAlpha_at_0 :
  CandleFrame.chartReveal opts = 0 -> CandleFrame.candleAlphaOf opts = 0.
Proof.
  intros H0. unfold CandleFrame.candleAlphaOf, candleAlpha, CandleFrame.reveal.
  rewrite H0. ring.
Qed.

(** The line layer calls [drawLine] when [lp > 0.01] and the line has two
    points or more. *)
Lemma candle_line_drawn (c : Ctx) :
  CandleFrame.lpOf opts > 0.01 ->
  (2 <= List.length (CandleFrame.lineVisible opts))%nat ->
  extendsLog c (snd (CandleFrame.lineLayer layout palette opts c)) /\
  someCallTo "drawLine"
    (newCalls c (snd (CandleFrame.lineLayer layout palette opts c))).
Proof.
  intros Hlp Hlen.
  assert (L : exists st,
    log (snd (CandleFrame.lineLayer layout palette opts c))
    = log c ++ [(st, DrawLine (CandleFrame.lineArgs layout palette opts))]).
  { unfold CandleFrame.lineLayer, drawLine; cbv zeta.
    rewrite (Rgtb_true _ _ Hlp).
    apply Nat.leb_le in Hlen. rewrite Hlen. simpl.
    unfold restore. simpl.
    unfold setGlobalAlpha.
    destruct (Rleb 0 _ && Rleb _ 1); simpl; eexists; reflexivity. }
  destruct L as [st L]. split.
  - eexists. exact L.
  - rewrite (newCalls_app _ _ _ L). left. reflexivity.
Qed.

Variable Q : Call -> Prop.

(** The calls of a [drawCandleFrame]. *)
Lemma drawCandleFrame_calls (c : Ctx) :
  allows Q ("drawLine"%string :: candle_other_callees) ->
  (forall c, emits Q c (CandleFrame.gridLayer layout palette opts c)) ->
  (forall c, emits Q c (CandleFrame.candlesLayer layout palette opts c)) ->
  (forall pts c, emits Q c (CandleFrame.liveDotLayer palette opts pts c)) ->
  (forall c, emits Q c (CandleFrame.crosshairLayer layout palette opts c)) ->
  let l := newCalls c (CandleFrame.drawCandleFrame layout palette opts c) in
  Forall (fun e => Q (snd e)) l /\
  hasCall (SetCompositeOperation "destination-out") l /\
  (CandleFrame.lpOf opts > 0.01 ->
   (2 <= List.length (CandleFrame.lineVisible opts))%nat ->
   someCallTo "drawLine" l) /\
  (exists c10, extendsLog c c10 /\
     CandleFrame.drawCandleFrame layout palette opts c
     = CandleFrame.crosshairLayer layout palette opts c10).
Proof.
  intros HQ Hgrid Hcandles Hdot Hcross l.
  assert (HQ' : allows Q candle_other_callees).
  { intros k Hk. apply HQ. right. exact Hk. }
  assert (Hctx : allows Q ["ctx"%string]).
  { intros k Hk. apply HQ. simpl in *. tauto. }
  destruct (candle_frame_split layout palette opts Q c HQ' Hgrid Hcandles Hdot)
    as (c2 & c8 & H2 & H8 & H9 & EF).
  unfold l. rewrite EF. clear l.
  set (c3 := snd (CandleFrame.lineLayer layout palette opts c2)) in *.
  set (c9 := leftEdgeFade layout c8) in *.
  set (c10 := CandleFrame.emptyOverlayLayer layout palette opts c9) in *.
  assert (H3 : emits Q c2 c3).
  { apply candle_line_emits. intros k Hk. apply HQ. simpl in *. tauto. }
  assert (H89 : emits Q c8 c9) by (apply leftEdgeFade_emits; exact Hctx).
  assert (H11 : emits Q c10 (CandleFrame.crosshairLayer layout palette opts c10))
    by apply Hcross.
  assert (H10 : emits Q c c10).
  { eapply emits_trans; [exact H2|].
    eapply emits_trans; [exact H3|].
    eapply emits_trans; [exact H8|].
    eapply emits_trans; [exact H89 | exact H9]. }
  split; [|split; [|split]].
  - apply (emits_newCalls Q).
    eapply emits_trans; [exact H10 | exact H11].
  - apply Exists_newCalls_between with (c1 := c8) (c2 := c9).
    + eapply extendsLog_trans; [eapply emits_extendsLog; exact H2|].
      eapply extendsLog_trans; eapply emits_extendsLog; eassumption.
    + apply leftEdgeFade_applied.
    + eapply extendsLog_trans; eapply emits_extendsLog; eassumption.
    + apply leftEdgeFade_applied.
  - intros Hlp Hlen.
    destruct (candle_line_drawn c2 Hlp Hlen) as [X1 X2].
    apply Exists_newCalls_between with (c1 := c2) (c2 := c3).
    + eapply emits_extendsLog; exact H2.
    + exact X1.
    + eapply extendsLog_trans; [eapply emits_extendsLog; exact H8|].
      eapply extendsLog_trans; [eapply emits_extendsLog; exact H89|].
      eapply extendsLog_trans; eapply emits_extendsLog; eassumption.
    + exact X2.
  - exists c10. split; [eapply emits_extendsLog; exact H10 | reflexivity].
Qed.

End CandleCalls.

(* ------------------------------------------------------------------ *)
(** ** Scenario B: reveal = 0 *)

Section RevealZero.

Context {E : Externals}.

Lemma noCallTo_of_Forall (names : list string) (l : list (DrawState * Call)) :
  Forall (fun e => (fun k => ~ In (callee k) names) (snd e)) l ->
  noCallTo names l.
Proof. intros H. exact H. Qed.

Lemma allows_not_in (names allowed : list string) :
  (forall n, In n allowed -> ~ In n names) ->
  allows (fun k : Call => ~ In (callee k) names) allowed.
Proof. intros H k Hk. apply H. exact Hk. Qed.

Ltac names_disjoint :=
  apply allows_not_in; intros n Hn Hin; simpl in Hn, Hin;
  repeat match goal with
  | H : _ \/ _ |- _ => destruct H
  | H : False |- _ => contradiction
  end; subst; discriminate.

(** *** The layers at reveal 0 *)

Lemma bars_blocks_hidden (layout : ChartLayout) (palette : LivelinePalette)
    obars obarLayout obarWidthSecs obarMode obarFillColor obarShowLabels
    (oscrubAmount : R) (ohoverX : option R) (c : Ctx) :
  Bars.barsOverlay layout palette obars obarLayout obarWidthSecs obarMode
    obarFillColor obarShowLabels oscrubAmount ohoverX 0 c = c /\
  Bars.barsDefault layout palette obars obarLayout obarWidthSecs obarMode
    obarFillColor obarShowLabels oscrubAmount ohoverX 0 c = c.
Proof.
  unfold Bars.barsOverlay, Bars.barsDefault. split.
  - destruct (Bars.barsEnabled _ _ _ _ _ _) as [[[[bs bl] ws] fc]|];
      [|reflexivity].
    cbv zeta. rewrite (Rltb_true 0 1) by lra.
    rewrite revealRamp_before by lra. rewrite Rgtb_false by lra. reflexivity.
  - destruct (Bars.barsEnabled _ _ _ _ _ _) as [[[[bs bl] ws] fc]|];
      [|reflexivity].
    cbv zeta. rewrite (Rltb_true 0 1) by lra.
    rewrite revealRamp_before by lra. rewrite Rgtb_false by lra. reflexivity.
Qed.

Lemma leftEdgeFade_log (layout : ChartLayout) (c : Ctx) :
  log (leftEdgeFade layout c)
  = log c ++ map (fun k => (cur c, k)) (leftEdgeFadeCalls layout).
Proof.
  unfold leftEdgeFade, leftEdgeFadeCalls; cbv zeta. unfold restore. simpl.
  rewrite <- !app_assoc. reflexivity.
Qed.

Section FrameRevealZero.

Variables (layout : ChartLayout) (palette : LivelinePalette)
          (opts : Frame.DrawOptions).
Hypothesis H0 : Frame.chartReveal opts = 0.

Lemma frame_referenceLine_hidden (c : Ctx) :
  Frame.referenceLineLayer layout palette opts c = c.
Proof.
  unfold Frame.referenceLineLayer, Frame.reveal. rewrite H0.
  destruct (Frame.referenceLine opts); [|reflexivity].
  rewrite Rgtb_false by lra. reflexivity.
Qed.

Lemma frame_orderbook_hidden (c : Ctx) :
  Frame.orderbookLayer layout palette opts c = c.
Proof.
  unfold Frame.orderbookLayer, Frame.reveal. rewrite H0.
  destruct (Frame.orderbookData opts), (Frame.orderbookState opts);
    try reflexivity.
  rewrite Rgtb_false by lra. reflexivity.
Qed.

Lemma frame_bars_hidden (c : Ctx) :
  Frame.barsOverlayLayer layout palette opts c = c /\
  Frame.barsDefaultLayer layout palette opts c = c.
Proof.
  unfold Frame.barsOverlayLayer, Frame.barsDefaultLayer, Frame.reveal.
  rewrite H0. apply bars_blocks_hidden.
Qed.

Lemma frame_timeAxis_hidden (c : Ctx) :
  Frame.timeAxisLayer layout palette opts c = c.
Proof.
  unfold Frame.timeAxisLayer, Frame.reveal; cbv zeta. rewrite H0.
  rewrite (Rltb_true 0 1) by lra.
  rewrite revealRamp_before by lra. rewrite Rgtb_false by lra. reflexivity.
Qed.

Lemma frame_arrows_hidden (lastPt : Point) (c : Ctx) :
  Frame.arrowsLayer palette opts lastPt c = c.
Proof.
  unfold Frame.arrowsLayer, Frame.reveal; cbv zeta. rewrite H0.
  destruct (Frame.showMomentum opts); [|reflexivity].
  rewrite (Rltb_true 0 1) by lra.
  rewrite revealRamp_before by lra. rewrite Rgtb_false by lra. reflexivity.
Qed.

Lemma frame_particles_hidden (lastPt : Point) shake (c : Ctx) :
  Frame.particlesLayer palette opts lastPt shake c = (c, shake).
Proof.
  unfold Frame.particlesLayer, Frame.reveal. rewrite H0.
  destruct (Frame.particleState opts); [|reflexivity].
  rewrite Rgtb_false by lra. reflexivity.
Qed.

(** At reveal 0 the stages of [drawFrame] are the line, the edge fade and
    the crosshair. *)
Lemma frame_layers_reveal_zero shake (c : Ctx) :
  Frame.layers layout palette opts shake c
  = (Frame.crosshairLayer layout palette opts
       (drawLine_pts (Frame.lineArgs layout palette opts))
       (leftEdgeFade layout
          (call (DrawLine (Frame.lineArgs layout palette opts)) c)),
     shake).
Proof.
  unfold Frame.layers, Frame.lineLayer, drawLine; cbv zeta.
  rewrite frame_referenceLine_hidden, (frame_grid_hidden layout palette opts c H0),
    frame_orderbook_hidden, (proj1 (frame_bars_hidden c)).
  cbv beta iota. rewrite frame_timeAxis_hidden.
  destruct (drawLine_pts _) as [ps|].
  - destruct (lastOf ps) as [lastPt|].
    + rewrite (frame_dot_hidden layout palette opts lastPt _ H0),
        frame_arrows_hidden, frame_particles_hidden.
      rewrite (proj2 (frame_bars_hidden _)). reflexivity.
    + rewrite (proj2 (frame_bars_hidden _)). reflexivity.
  - rewrite (proj2 (frame_bars_hidden _)). reflexivity.
Qed.

(** What the crosshair stage logs. *)
Lemma frame_crosshair_log (pts : option (list Point)) (c : Ctx) :
  exists crosshair,
    log (Frame.crosshairLayer layout palette opts pts c)
    = log c ++ map (fun k => (cur c, k)) crosshair /\
    (crosshair = [] \/
     exists hx hv ht ps lastPt,
       Frame.hoverX opts = Some hx /\ Frame.hoverValue opts = Some hv /\
       Frame.hoverTime opts = Some ht /\ pts = Some ps /\
       lastOf ps = Some lastPt /\
       Frame.scrubOpacityOf layout opts lastPt hx > 0.01 /\
       crosshair
       = [ DrawCrosshair layout palette hx hv ht
             (Frame.formatValue opts) (Frame.formatTime opts)
             (Frame.scrubOpacityOf layout opts lastPt hx)
             (Frame.tooltipY opts) (fst lastPt) (Frame.tooltipOutline opts) ]).
Proof.
  assert (Hnone : forall c', c' = c ->
            exists crosshair,
              log c' = log c ++ map (fun k => (cur c, k)) crosshair /\
              (crosshair = [] \/
               exists hx hv ht ps lastPt,
                 Frame.hoverX opts = Some hx /\
                 Frame.hoverValue opts = Some hv /\
                 Frame.hoverTime opts = Some ht /\ pts = Some ps /\
                 lastOf ps = Some lastPt /\
                 Frame.scrubOpacityOf layout opts lastPt hx > 0.01 /\
                 crosshair
                 = [ DrawCrosshair layout palette hx hv ht
                       (Frame.formatValue opts) (Frame.formatTime opts)
                       (Frame.scrubOpacityOf layout opts lastPt hx)
                       (Frame.tooltipY opts) (fst lastPt)
                       (Frame.tooltipOutline opts) ])).
  { intros c' ->. exists []. simpl. rewrite app_nil_r. auto. }
  unfold Frame.crosshairLayer.
  destruct (Frame.hoverX opts) as [hx|] eqn:Hx; [|apply Hnone; reflexivity].
  destruct (Frame.hoverValue opts) as [hv|] eqn:Hv; [|apply Hnone; reflexivity].
  destruct (Frame.hoverTime opts) as [ht|] eqn:Ht; [|apply Hnone; reflexivity].
  destruct pts as [ps|]; [|apply Hnone; reflexivity].
  destruct (lastOf ps) as [lastPt|] eqn:Hl; [|apply Hnone; reflexivity].
  cbv zeta.
  destruct (Rgtb (Frame.scrubOpacityOf layout opts lastPt hx) 0.01) eqn:Hs;
    [|apply Hnone; reflexivity].
  apply Rgtb_spec in Hs.
  exists [ DrawCrosshair layout palette hx hv ht
             (Frame.formatValue opts) (Frame.formatTime opts)
             (Frame.scrubOpacityOf layout opts lastPt hx)
             (Frame.tooltipY opts) (fst lastPt) (Frame.tooltipOutline opts) ].
  split; [reflexivity|]. right.
  exists hx, hv, ht, ps, lastPt. repeat split; auto.
Qed.

(** The calls of [drawFrame] at reveal 0. *)
Lemma drawFrame_reveal_zero_log (random1 random2 : R) (c : Ctx) :
  exists crosshair,
    map snd (newCalls c (fst (Frame.drawFrame layout palette opts
                                random1 random2 c)))
    = DrawLine (Frame.lineArgs layout palette opts)
      :: leftEdgeFadeCalls layout ++ crosshair /\
    (crosshair = [] \/
     exists hx hv ht ps lastPt,
       Frame.hoverX opts = Some hx /\ Frame.hoverValue opts = Some hv /\
       Frame.hoverTime opts = Some ht /\
       drawLine_pts (Frame.lineArgs layout palette opts) = Some ps /\
       lastOf ps = Some lastPt /\
       Frame.scrubOpacityOf layout opts lastPt hx > 0.01 /\
       crosshair
       = [ DrawCrosshair layout palette hx hv ht
             (Frame.formatValue opts) (Frame.formatTime opts)
             (Frame.scrubOpacityOf layout opts lastPt hx)
             (Frame.tooltipY opts) (fst lastPt) (Frame.tooltipOutline opts) ]).
Proof.
  destruct (drawFrame_log layout palette opts random1 random2 c)
    as (c0 & shake & L0 & LF).
  rewrite frame_layers_reveal_zero in LF. cbn [fst] in LF.
  destruct (frame_crosshair_log
              (drawLine_pts (Frame.lineArgs layout palette opts))
              (leftEdgeFade layout
                 (call (DrawLine (Frame.lineArgs layout palette opts)) c0)))
    as (crosshair & LX & HX).
  exists crosshair. split; [|exact HX].
  rewrite LX, leftEdgeFade_log in LF. cbn [log call] in LF.
  rewrite L0, <- !app_assoc in LF.
  rewrite (newCalls_app _ _ _ LF).
  rewrite !map_app, !map_map. simpl. rewrite !map_id. reflexivity.
Qed.

End FrameRevealZero.

Section CandleRevealZero.

Variables (layout : ChartLayout) (palette : LivelinePalette)
          (opts : CandleFrame.CandleDrawOptions).
Hypothesis H0 : CandleFrame.chartReveal opts = 0.

Lemma candle_bars_hidden (c : Ctx) :
  CandleFrame.barsOverlayLayer layout palette opts c = c /\
  CandleFrame.barsDefaultLayer layout palette opts c = c.
Proof.
  unfold CandleFrame.barsOverlayLayer, CandleFrame.barsDefaultLayer,
    CandleFrame.reveal.
  rewrite H0. apply bars_blocks_hidden.
Qed.

Lemma candle_closePrice_hidden (c : Ctx) :
  CandleFrame.closePriceLayer layout palette opts c = c.
Proof.
  unfold CandleFrame.closePriceLayer, CandleFrame.reveal; cbv zeta.
  rewrite H0, revealRamp_before by lra. rewrite Rgtb_false by lra.
  destruct (match CandleFrame.closePriceCandle opts with
            | Some cc => Some cc
            | None => CandleFrame.liveCandle opts end); reflexivity.
Qed.

Lemma candle_timeAxis_hidden (c : Ctx) :
  CandleFrame.timeAxisLayer layout palette opts c = c.
Proof.
  unfold CandleFrame.timeAxisLayer, CandleFrame.reveal; cbv zeta.
  rewrite H0, revealRamp_before by lra. rewrite Rgtb_false by lra.
  reflexivity.
Qed.

Lemma candle_crosshair_reveal_zero (c : Ctx) :
  CandleFrame.crosshairLayer layout palette opts c = c.
Proof.
  unfold CandleFrame.crosshairLayer. rewrite H0.
  rewrite (Rgtb_false 0 0.7) by lra. simpl.
  destruct (CandleFrame.hoveredCandle opts), (CandleFrame.hoverX opts);
    reflexivity.
Qed.

Lemma candle_line_reveal_zero_log (c : Ctx) :
  log (snd (CandleFrame.lineLayer layout palette opts c))
  = log c
    ++ map (fun k => (cur (setGlobalAlpha (CandleFrame.lpOf opts) c), k))
         (if (2 <=? List.length (CandleFrame.lineVisible opts))%nat
          then [DrawLine (CandleFrame.lineArgs layout palette opts)]
          else []) /\
  cur (snd (CandleFrame.lineLayer layout palette opts c)) = cur c.
Proof.
  assert (Hlp : CandleFrame.lpOf opts > 0.01).
  { unfold CandleFrame.lpOf, CandleFrame.reveal. rewrite H0.
    pose proof (lp_at_0 (CandleFrame.lineModeProg opts)). lra. }
  unfold CandleFrame.lineLayer, drawLine; cbv zeta.
  rewrite (Rgtb_true _ _ Hlp), andb_true_l.
  destruct (2 <=? List.length (CandleFrame.lineVisible opts))%nat.
  - cbn [snd]. unfold restore, setGlobalAlpha.
    destruct (Rleb 0 _ && Rleb _ 1); simpl; auto.
  - simpl. rewrite app_nil_r. auto.
Qed.

Lemma candle_empty_reveal_zero_log (c : Ctx) :
  log (CandleFrame.emptyOverlayLayer layout palette opts c)
  = log c
    ++ map (fun k => (cur c, k))
         (if CandleFrame.showEmptyOverlay opts
             && Rgtb (1 - CandleFrame.loadingAlpha opts) 0.01
          then [ DrawEmpty (w layout) (h layout) (pad layout) palette
                   (1 - CandleFrame.loadingAlpha opts)
                   (CandleFrame.now_ms opts) true (CandleFrame.emptyText opts) ]
          else []).
Proof.
  unfold CandleFrame.emptyOverlayLayer; cbv zeta. rewrite H0.
  destruct (CandleFrame.showEmptyOverlay opts);
    [|simpl; rewrite app_nil_r; reflexivity].
  rewrite (Rgtb_true (1 - 0) 0.01) by lra.
  replace ((1 - CandleFrame.loadingAlpha opts) * (1 - 0))
    with (1 - CandleFrame.loadingAlpha opts) by ring.
  simpl andb.
  destruct (Rgtb (1 - CandleFrame.loadingAlpha opts) 0.01);
    simpl; rewrite ?app_nil_r; reflexivity.
Qed.

(** The calls of [drawCandleFrame] at reveal 0. *)
Lemma drawCandleFrame_reveal_zero_log (c : Ctx) :
  map snd (newCalls c (CandleFrame.drawCandleFrame layout palette opts c))
  = (if (2 <=? List.length (CandleFrame.lineVisible opts))%nat
     then [DrawLine (CandleFrame.lineArgs layout palette opts)]
     else [])
    ++ leftEdgeFadeCalls layout
    ++ (if CandleFrame.showEmptyOverlay opts
           && Rgtb (1 - CandleFrame.loadingAlpha opts) 0.01
        then [ DrawEmpty (w layout) (h layout) (pad layout) palette
                 (1 - CandleFrame.loadingAlpha opts)
                 (CandleFrame.now_ms opts) true (CandleFrame.emptyText opts) ]
        else []).
Proof.
  unfold CandleFrame.drawCandleFrame; cbv zeta.
  rewrite (candle_grid_hidden layout palette opts c H0),
    (proj1 (candle_bars_hidden c)).
  destruct (candle_line_reveal_zero_log c) as [LL CL].
  destruct (CandleFrame.lineLayer layout palette opts c) as [linePts c3].
  cbn [snd] in LL, CL.
  rewrite candle_closePrice_hidden.
  rewrite (candle_candles_hidden layout palette opts c3
             (candleAlpha_at_0 opts H0)).
  rewrite (proj2 (candle_bars_hidden c3)).
  rewrite (candle_liveDot_hidden palette opts linePts c3 H0).
  rewrite candle_timeAxis_hidden, candle_crosshair_reveal_zero.
  assert (L : log (CandleFrame.emptyOverlayLayer layout palette opts
                     (leftEdgeFade layout c3))
              = log c
                ++ (map (fun k => (cur (setGlobalAlpha (CandleFrame.lpOf opts)
                                          c), k))
                      (if (2 <=? List.length
                                   (CandleFrame.lineVisible opts))%nat
                       then [DrawLine
                               (CandleFrame.lineArgs layout palette opts)]
                       else [])
                    ++ map (fun k => (cur c3, k)) (leftEdgeFadeCalls layout)
                    ++ map (fun k => (cur (leftEdgeFade layout c3), k))
                         (if CandleFrame.showEmptyOverlay opts
                             && Rgtb (1 - CandleFrame.loadingAlpha opts) 0.01
                          then [ DrawEmpty (w layout) (h layout) (pad layout)
                                   palette
                                   (1 - CandleFrame.loadingAlpha opts)
                                   (CandleFrame.now_ms opts) true
                                   (CandleFrame.emptyText opts) ]
                          else []))).
  { rewrite candle_empty_reveal_zero_log, leftEdgeFade_log, LL.
    rewrite <- !app_assoc. reflexivity. }
  rewrite (newCalls_app _ _ _ L).
  rewrite !map_app, !map_map. simpl. rewrite !map_id. reflexivity.
Qed.

End CandleRevealZero.

Lemma noCallTo_map (names : list string) (l : list (DrawState * Call))
    (ks : list Call) :
  map snd l = ks ->
  Forall (fun k => ~ In (callee k) names) ks ->
  noCallTo names l.
Proof.
  intros <- H. unfold noCallTo. rewrite Forall_map in H. exact H.
Qed.

(** C3 (as amended): with [chartReveal = 0], [drawFrame] makes exactly these
    calls: [drawLine], the three calls of the left-edge fade, and then at most
    one [drawCrosshair] call (the one its own gate lets through);
    [drawCandleFrame] makes exactly these: [drawLine] when the line has two
    points or more, the three calls of the left-edge fade, and then
    [drawEmpty] when the empty overlay is flagged and
    [1 - loadingAlpha > 0.01].  So no grid, dot, candle, reference line, order
    book, bars, time axis, arrows, particles, close price or candle crosshair
    is drawn, and the left-edge fade is applied by both. *)
Theorem reveal_zero_hides_grid_dot_candles
    (layout : ChartLayout) (palette : LivelinePalette)
    (fopts : Frame.DrawOptions) (copts : CandleFrame.CandleDrawOptions)
    (random1 random2 : R) (c : Ctx) :
  Frame.chartReveal fopts = 0 ->
  CandleFrame.chartReveal copts = 0 ->
  let lf := newCalls c (fst (Frame.drawFrame layout palette fopts
                               random1 random2 c)) in
  let lc := newCalls c (CandleFrame.drawCandleFrame layout palette copts c) in
  ((exists crosshair,
      map snd lf
      = DrawLine (Frame.lineArgs layout palette fopts)
        :: leftEdgeFadeCalls layout ++ crosshair /\
      (crosshair = [] \/
       exists hx hv ht ps lastPt,
         Frame.hoverX fopts = Some hx /\ Frame.hoverValue fopts = Some hv /\
         Frame.hoverTime fopts = Some ht /\
         drawLine_pts (Frame.lineArgs layout palette fopts) = Some ps /\
         lastOf ps = Some lastPt /\
         Frame.scrubOpacityOf layout fopts lastPt hx > 0.01 /\
         crosshair
         = [ DrawCrosshair layout palette hx hv ht
               (Frame.formatValue fopts) (Frame.formatTime fopts)
               (Frame.scrubOpacityOf layout fopts lastPt hx)
               (Frame.tooltipY fopts) (fst lastPt)
               (Frame.tooltipOutline fopts) ])) /\
   noCallTo ["drawGrid"; "drawDot"; "drawReferenceLine"; "drawOrderbook";
             "drawTimeAxis"; "drawArrows"; "spawnOnSwing";
             "drawParticles"]%string lf /\
   hasCall (SetCompositeOperation "destination-out") lf /\
   someCallTo "drawLine" lf) /\
  (map snd lc
   = (if (2 <=? List.length (CandleFrame.lineVisible copts))%nat
      then [DrawLine (CandleFrame.lineArgs layout palette copts)]
      else [])
     ++ leftEdgeFadeCalls layout
     ++ (if CandleFrame.showEmptyOverlay copts
            && Rgtb (1 - CandleFrame.loadingAlpha copts) 0.01
         then [ DrawEmpty (w layout) (h layout) (pad layout) palette
                  (1 - CandleFrame.loadingAlpha copts)
                  (CandleFrame.now_ms copts) true
                  (CandleFrame.emptyText copts) ]
         else []) /\
   noCallTo ["drawGrid"; "drawCandlesticks"; "drawDot"; "drawClosePrice";
             "drawTimeAxis"; "drawCandleCrosshair";
             "drawLineModeCrosshair"]%string lc /\
   hasCall (SetCompositeOperation "destination-out") lc /\
   ((2 <= List.length (CandleFrame.lineVisible copts))%nat ->
    someCallTo "drawLine" lc)).
Proof.
  intros Hf Hc lf lc. split.
  - destruct (drawFrame_reveal_zero_log layout palette fopts Hf
                random1 random2 c) as (crosshair & Hlog & Hx).
    fold lf in Hlog.
    assert (Hin : forall k, In k (map snd lf) ->
                  exists st, In (st, k) lf).
    { intros k Hk. apply in_map_iff in Hk. destruct Hk as ([st k'] & <- & Hk).
      exists st. exact Hk. }
    split; [exists crosshair; split; assumption|]. split; [|split].
    + apply (noCallTo_map _ _ _ Hlog).
      apply Forall_cons; [simpl; intuition discriminate|].
      apply Forall_app. split.
      * unfold leftEdgeFadeCalls.
        repeat (apply Forall_cons; [simpl; intuition discriminate|]).
        apply Forall_nil.
      * destruct Hx as [->|(hx & hv & ht & ps & lastPt & _ & _ & _ & _ & _ & _
                            & ->)]; [apply Forall_nil|].
        apply Forall_cons; [simpl; intuition discriminate|apply Forall_nil].
    + destruct (Hin (SetCompositeOperation "destination-out")) as [st Hst].
      { rewrite Hlog. right. left. reflexivity. }
      apply Exists_exists. exists (st, SetCompositeOperation "destination-out").
      split; [exact Hst|reflexivity].
    + destruct (Hin (DrawLine (Frame.lineArgs layout palette fopts)))
        as [st Hst].
      { rewrite Hlog. left. reflexivity. }
      apply Exists_exists.
      exists (st, DrawLine (Frame.lineArgs layout palette fopts)).
      split; [exact Hst|reflexivity].
  - pose proof (drawCandleFrame_reveal_zero_log layout palette copts Hc c)
      as Hlog.
    fold lc in Hlog.
    assert (Hin : forall k, In k (map snd lc) ->
                  exists st, In (st, k) lc).
    { intros k Hk. apply in_map_iff in Hk. destruct Hk as ([st k'] & <- & Hk).
      exists st. exact Hk. }
    split; [exact Hlog|]. split; [|split].
    + apply (noCallTo_map _ _ _ Hlog).
      apply Forall_app. split.
      * destruct (2 <=? _)%nat; [|apply Forall_nil].
        apply Forall_cons; [simpl; intuition discriminate|apply Forall_nil].
      * apply Forall_app. split.
        -- unfold leftEdgeFadeCalls.
           repeat (apply Forall_cons; [simpl; intuition discriminate|]).
           apply Forall_nil.
        -- destruct (_ && _); [|apply Forall_nil].
           apply Forall_cons; [simpl; intuition discriminate|apply Forall_nil].
    + destruct (Hin (SetCompositeOperation "destination-out")) as [st Hst].
      { rewrite Hlog. apply in_or_app. right. left. reflexivity. }
      apply Exists_exists. exists (st, SetCompositeOperation "destination-out").
      split; [exact Hst|reflexivity].
    + intros Hlen. apply Nat.leb_le in Hlen.
      destruct (Hin (DrawLine (CandleFrame.lineArgs layout palette copts)))
        as [st Hst].
      { rewrite Hlog, Hlen. left. reflexivity. }
      apply Exists_exists.
      exists (st, DrawLine (CandleFrame.lineArgs layout palette copts)).
      split; [exact Hst|reflexivity].
Qed.

End RevealZero.

Lemma reveal_zero_hides_grid_dot_candles_witness :
  map snd
    (newCalls Sample.blank
       (CandleFrame.drawCandleFrame Sample.layout Sample.palette
          (Sample.candleOptions 0 0) Sample.blank))
  = DrawLine (CandleFrame.lineArgs Sample.layout Sample.palette
                (Sample.candleOptions 0 0))
    :: leftEdgeFadeCalls Sample.layout.
Proof.
  destruct (reveal_zero_hides_grid_dot_candles
              Sample.layout Sample.palette
              (Sample.frameOptions 0 0) (Sample.candleOptions 0 0)
              0 0 Sample.blank eq_refl eq_refl) as (_ & H & _).
  rewrite H. simpl. reflexivity.
Defined.

(** C3, the claim as stated, refuted: with [chartReveal = 0] the sample
    frame still calls [drawLine]. *)
Lemma drawFrame_reveal_zero_calls_drawLine :
  Frame.chartReveal (Sample.frameOptions 0 0) = 0 /\
  someCallTo "drawLine"
    (newCalls Sample.blank
       (fst (Frame.drawFrame Sample.layout Sample.palette
               (Sample.frameOptions 0 0) 0 0 Sample.blank))).
Proof.
  split; [reflexivity|].
  destruct (drawFrame_calls Sample.layout Sample.palette
              (Sample.frameOptions 0 0) (fun _ => True) 0 0 Sample.blank)
    as (_ & H & _).
  - apply allows_True.
  - intros c0. apply frame_grid_emits, allows_True.
  - intros p c0. apply frame_dot_emits, allows_True.
  - intros p c0. apply frame_crosshair_emits, allows_True.
  - exact H.
Qed.

(* ------------------------------------------------------------------ *)
(** ** Scenario C: full line mode *)

Section LineMode.

Context {E : Externals}.
Variables (layout : ChartLayout) (palette : LivelinePalette)
          (opts : CandleFrame.CandleDrawOptions).

Lemma lp_line_mode (reveal : R) : 0 <= reveal <= 1 -> lp 1 reveal = 1.
Proof.
  intros [H0 H1]. unfold lp, revealLine, fullLineMode.
  rewrite Rgeb_true by lra. unfold Rmax.
  destruct (Rle_dec 1 (1 - reveal)); lra.
Qed.

Lemma colorBlend_line_mode (reveal : R) :
  0 <= reveal <= 1 -> colorBlend 1 reveal = 1.
Proof.
  intros H. unfold colorBlend. rewrite (lp_line_mode reveal H).
  rewrite Rgtb_true by lra. field.
Qed.

Lemma candleAlpha_line_mode (reveal : R) :
  0 <= reveal <= 1 -> candleAlpha 1 reveal = 0.
Proof. intros H. unfold candleAlpha. rewrite (lp_line_mode reveal H). ring. Qed.

Variable Q : Call -> Prop.

(** With [lineModeProg > 0.5] the crosshair stage can only call
    [drawLineModeCrosshair]. *)
Lemma candle_crosshair_line_mode (c : Ctx) :
  CandleFrame.lineModeProg opts > 0.5 ->
  allows Q ["drawLineModeCrosshair"%string] ->
  emits Q c (CandleFrame.crosshairLayer layout palette opts c).
Proof.
  intros Hm H. unfold CandleFrame.crosshairLayer; cbv zeta.
  rewrite (Rgtb_true _ _ Hm). peel. apply H; simpl; tauto.
Qed.

Lemma candle_crosshair_hidden (c : Ctx) :
  ~ CandleFrame.chartReveal opts > 0.7 ->
  CandleFrame.crosshairLayer layout palette opts c = c.
Proof.
  intros Hr. unfold CandleFrame.crosshairLayer; cbv zeta.
  rewrite (Rgtb_false _ _ Hr). simpl.
  destruct (CandleFrame.hoveredCandle opts), (CandleFrame.hoverX opts);
    reflexivity.
Qed.

Lemma candle_crosshair_line_mode_drawn (c : Ctx) (hc : CandlePoint) (hx : R) :
  CandleFrame.lineModeProg opts > 0.5 ->
  CandleFrame.chartReveal opts > 0.7 ->
  CandleFrame.hoveredCandle opts = Some hc ->
  CandleFrame.hoverX opts = Some hx ->
  CandleFrame.scrubAmount opts > 0.01 ->
  CandleFrame.crosshairLayer layout palette opts c
  = call (DrawLineModeCrosshair layout palette hx (close hc)
            (match CandleFrame.hoverTime opts with Some t => t | None => 0 end)
            (CandleFrame.formatValue opts) (CandleFrame.formatTime opts)
            (CandleFrame.scrubAmount opts)) c.
Proof.
  intros Hm Hr Hc Hx Hs. unfold CandleFrame.crosshairLayer; cbv zeta.
  rewrite Hc, Hx, (Rgtb_true _ _ Hm), (Rgtb_true _ _ Hr), (Rgtb_true _ _ Hs).
  reflexivity.
Qed.

(** Without a hovered candle, without a hover x, or at
    [scrubAmount <= 0.01], the crosshair stage does nothing. *)
Lemma candle_crosshair_unhovered (c : Ctx) :
  CandleFrame.hoveredCandle opts = None \/ CandleFrame.hoverX opts = None \/
  ~ CandleFrame.scrubAmount opts > 0.01 ->
  CandleFrame.crosshairLayer layout palette opts c = c.
Proof.
  intros H. unfold CandleFrame.crosshairLayer.
  destruct (CandleFrame.hoveredCandle opts) as [hc|]; [|reflexivity].
  destruct (CandleFrame.hoverX opts) as [hx|]; [|reflexivity].
  destruct H as [H|[H|H]]; try discriminate H.
  rewrite (Rgtb_false _ _ H), andb_false_r. reflexivity.
Qed.

End LineMode.

Section LineModeScenario.

Context {E : Externals}.

Ltac names_disjoint :=
  apply allows_not_in; intros n Hn Hin; simpl in Hn, Hin;
  repeat match goal with
  | H : _ \/ _ |- _ => destruct H
  | H : False |- _ => contradiction
  end; subst; discriminate.

(** C6 (as amended): with [lineModeProg = 1] and [reveal] in [0,1], [lp]
    is 1, [colorBlend] is 1, the candle alpha is 0 and [drawCandlesticks] is
    not called; the crosshair stage never calls [drawCandleCrosshair]; it
    calls [drawLineModeCrosshair], at the hovered candle's close, once
    [reveal > 0.7] with a hovered candle, a hover x and
    [scrubAmount > 0.01]; it draws no crosshair while [reveal <= 0.7], nor
    without a hovered candle, without a hover x, or at
    [scrubAmount <= 0.01]. *)
Theorem line_mode_scenario
    (layout : ChartLayout) (palette : LivelinePalette)
    (opts : CandleFrame.CandleDrawOptions) (c : Ctx) :
  CandleFrame.lineModeProg opts = 1 ->
  0 <= CandleFrame.chartReveal opts <= 1 ->
  let l := newCalls c (CandleFrame.drawCandleFrame layout palette opts c) in
  CandleFrame.lpOf opts = 1 /\
  CandleFrame.colorBlendOf opts = 1 /\
  CandleFrame.candleAlphaOf opts = 0 /\
  noCallTo ["drawCandlesticks"; "drawCandleCrosshair"]%string l /\
  (forall hc hx,
     CandleFrame.chartReveal opts > 0.7 ->
     CandleFrame.hoveredCandle opts = Some hc ->
     CandleFrame.hoverX opts = Some hx ->
     CandleFrame.scrubAmount opts > 0.01 ->
     hasCall (DrawLineModeCrosshair layout palette hx (close hc)
                (match CandleFrame.hoverTime opts with
                 | Some t => t | None => 0 end)
                (CandleFrame.formatValue opts) (CandleFrame.formatTime opts)
                (CandleFrame.scrubAmount opts)) l) /\
  (~ CandleFrame.chartReveal opts > 0.7 ->
   noCallTo ["drawLineModeCrosshair"]%string l) /\
  (CandleFrame.hoveredCandle opts = None \/ CandleFrame.hoverX opts = None \/
   ~ CandleFrame.scrubAmount opts > 0.01 ->
   noCallTo ["drawLineModeCrosshair"]%string l).
Proof.
  intros Hm Hr l.
  assert (Hm' : CandleFrame.lineModeProg opts > 0.5) by (rewrite Hm; lra).
  assert (Ha : CandleFrame.candleAlphaOf opts = 0).
  { unfold CandleFrame.candleAlphaOf, CandleFrame.reveal. rewrite Hm.
    apply candleAlpha_line_mode. exact Hr. }
  assert (Hoff : (forall c0, CandleFrame.crosshairLayer layout palette opts c0
                             = c0) ->
                 noCallTo ["drawLineModeCrosshair"]%string l).
  { intros Hid.
    destruct (drawCandleFrame_calls layout palette opts
                (fun k => ~ In (callee k) ["drawLineModeCrosshair"]%string)
                c) as (H1 & _).
    + unfold candle_other_callees. names_disjoint.
    + intros c0. apply candle_grid_emits. names_disjoint.
    + intros c0. rewrite candle_candles_hidden by exact Ha. apply emits_refl.
    + intros p c0. apply candle_liveDot_emits. names_disjoint.
    + intros c0. rewrite Hid. apply emits_refl.
    + exact H1. }
  split; [|split; [|split; [exact Ha|split; [|split; [|split]]]]].
  - unfold CandleFrame.lpOf, CandleFrame.reveal. rewrite Hm.
    apply lp_line_mode. exact Hr.
  - unfold CandleFrame.colorBlendOf, CandleFrame.reveal. rewrite Hm.
    apply colorBlend_line_mode. exact Hr.
  - destruct (drawCandleFrame_calls layout palette opts
                (fun k => ~ In (callee k)
                            ["drawCandlesticks"; "drawCandleCrosshair"]%string)
                c) as (H1 & _).
    + unfold candle_other_callees. names_disjoint.
    + intros c0. apply candle_grid_emits. names_disjoint.
    + intros c0. rewrite candle_candles_hidden by exact Ha. apply emits_refl.
    + intros p c0. apply candle_liveDot_emits. names_disjoint.
    + intros c0. apply candle_crosshair_line_mode; [exact Hm'|]. names_disjoint.
    + exact H1.
  - intros hc hx Hrev Hc Hx Hs.
    destruct (drawCandleFrame_calls layout palette opts (fun _ => True) c)
      as (_ & _ & _ & c10 & X & EF).
    + apply allows_True.
    + intros c0. apply candle_grid_emits, allows_True.
    + intros c0. apply candle_candles_emits, allows_True.
    + intros p c0. apply candle_liveDot_emits, allows_True.
    + intros c0. apply candle_crosshair_emits, allows_True.
    + unfold l. rewrite EF.
      rewrite (candle_crosshair_line_mode_drawn layout palette opts c10 hc hx
                 Hm' Hrev Hc Hx Hs).
      eapply Exists_newCalls_between with (c1 := c10);
        [exact X | apply extendsLog_call | apply extendsLog_refl |].
      rewrite newCalls_call. left. reflexivity.
  - intros Hrev. apply Hoff. intros c0.
    apply candle_crosshair_hidden. exact Hrev.
  - intros Hun. apply Hoff. intros c0.
    apply candle_crosshair_unhovered. exact Hun.
Qed.

End LineModeScenario.

Lemma line_mode_scenario_witness :
  hasCall (DrawLineModeCrosshair Sample.layout Sample.palette 200 4 1
             (fun _ => "v"%string) (fun _ => "t"%string) 1)
    (newCalls Sample.blank
       (CandleFrame.drawCandleFrame Sample.layout Sample.palette
          (Sample.candleOptions 0.8 1) Sample.blank)).
Proof.
  assert (Hr : 0 <= 0.8 <= 1) by lra.
  destruct (line_mode_scenario Sample.layout Sample.palette
              (Sample.candleOptions 0.8 1) Sample.blank eq_refl Hr)
    as (_ & _ & _ & _ & H & _).
  apply (H Sample.candle 200); simpl; try reflexivity; lra.
Defined.

(** C6, the claim as stated, refuted: in full line mode at reveal 0.8, with
    a hovered candle and a full scrub but no hover x, the candle composer
    calls neither crosshair function. *)
Lemma line_mode_crosshair_needs_hover_x :
  CandleFrame.lineModeProg Sample2.unhoveredCandleOptions = 1 /\
  0 <= CandleFrame.chartReveal Sample2.unhoveredCandleOptions <= 1 /\
  CandleFrame.chartReveal Sample2.unhoveredCandleOptions > 0.7 /\
  CandleFrame.hoveredCandle Sample2.unhoveredCandleOptions
  = Some Sample.candle /\
  CandleFrame.scrubAmount Sample2.unhoveredCandleOptions > 0.01 /\
  noCallTo ["drawLineModeCrosshair"; "drawCandleCrosshair"]%string
    (newCalls Sample.blank
       (CandleFrame.drawCandleFrame Sample.layout Sample.palette
          Sample2.unhoveredCandleOptions Sample.blank)).
Proof.
  split; [reflexivity|]. split; [simpl; lra|]. split; [simpl; lra|].
  split; [reflexivity|]. split; [simpl; lra|].
  destruct (drawCandleFrame_calls Sample.layout Sample.palette
              Sample2.unhoveredCandleOptions
              (fun k => ~ In (callee k)
                          ["drawLineModeCrosshair"; "drawCandleCrosshair"]%string)
              Sample.blank) as (H1 & _).
  - unfold candle_other_callees.
    apply allows_not_in; intros n Hn Hin; simpl in Hn, Hin;
      repeat match goal with
      | H : _ \/ _ |- _ => destruct H
      | H : False |- _ => contradiction
      end; subst; discriminate.
  - intros c0. apply candle_grid_emits.
    apply allows_not_in; intros n Hn Hin; simpl in Hn, Hin;
      repeat match goal with
      | H : _ \/ _ |- _ => destruct H
      | H : False |- _ => contradiction
      end; subst; discriminate.
  - intros c0. apply candle_candles_emits.
    apply allows_not_in; intros n Hn Hin; simpl in Hn, Hin;
      repeat match goal with
      | H : _ \/ _ |- _ => destruct H
      | H : False |- _ => contradiction
      end; subst; discriminate.
  - intros p c0. apply candle_liveDot_emits.
    apply allows_not_in; intros n Hn Hin; simpl in Hn, Hin;
      repeat match goal with
      | H : _ \/ _ |- _ => destruct H
      | H : False |- _ => contradiction
      end; subst; discriminate.
  - intros c0. rewrite candle_crosshair_unhovered; [apply emits_refl|].
    right. left. reflexivity.
  - exact H1.
Qed.

(* ------------------------------------------------------------------ *)
(** ** [drawMultiFrame]: what the layers log *)

Section MultiLayers.

Context {E : Externals}.
Variables (layout : ChartLayout) (opts : MultiFrame.MultiSeriesDrawOptions).
Variable Q : Call -> Prop.

Ltac allowed H := apply H; simpl; tauto.

Lemma multi_referenceLine_emits (c : Ctx) :
  allows Q ["drawReferenceLine"%string] ->
  emits Q c (MultiFrame.referenceLineLayer layout opts c).
Proof. intros H. unfold MultiFrame.referenceLineLayer; cbv zeta. peel; allowed H. Qed.

Lemma multi_grid_emits (c : Ctx) :
  allows Q ["drawGrid"%string] ->
  emits Q c (MultiFrame.gridLayer layout opts c).
Proof. intros H. unfold MultiFrame.gridLayer; cbv zeta. peel; allowed H. Qed.

Lemma multi_timeAxis_emits (c : Ctx) :
  allows Q ["drawTimeAxis"%string] ->
  emits Q c (MultiFrame.timeAxisLayer layout opts c).
Proof. intros H. unfold MultiFrame.timeAxisLayer; cbv zeta. peel; allowed H. Qed.

Lemma multi_drawSeries_emits si s (c : Ctx) acc :
  allows Q ["drawLine"%string] ->
  emits Q c (fst (MultiFrame.drawSeries layout opts si s (c, acc))).
Proof.
  intros H. unfold MultiFrame.drawSeries, drawLine; cbv zeta.
  destruct (Rltb _ 0.01); [apply emits_refl|].
  cbv beta iota.
  assert (X : forall (r : Ctx * list MultiFrame.SeriesPts) (c' : Ctx),
            fst r = c' -> emits Q c c' -> emits Q c (fst r)).
  { intros r c' <- Hc. exact Hc. }
  eapply X.
  - destruct (drawLine_pts _) as [[|p ps]|]; reflexivity.
  - cbn [fst]. peel; allowed H.
Qed.

Lemma multi_seriesLoop_emits ss : forall si (c : Ctx) acc,
  allows Q ["drawLine"%string] ->
  emits Q c (fst (MultiFrame.seriesLoop layout opts si ss (c, acc))).
Proof.
  induction ss as [|s rest IH]; intros si c acc H.
  - apply emits_refl.
  - change (MultiFrame.seriesLoop layout opts si (s :: rest) (c, acc))
      with (MultiFrame.seriesLoop layout opts (S si) rest
              (MultiFrame.drawSeries layout opts si s (c, acc))).
    pose proof (multi_drawSeries_emits si s c acc H) as H1.
    destruct (MultiFrame.drawSeries layout opts si s (c, acc)) as [c1 acc1].
    simpl in H1. eapply emits_trans; [exact H1|]. apply IH. exact H.
Qed.

Lemma fold_emits {A : Type} (f : A -> Ctx -> Ctx) (l : list A) :
  (forall a c, emits Q c (f a c)) ->
  forall c, emits Q c (fold_left (fun c a => f a c) l c).
Proof.
  intros Hf. induction l as [|a l IH]; intros c; simpl.
  - apply emits_refl.
  - eapply emits_trans; [apply Hf | apply IH].
Qed.

Lemma multi_drawEndpoint_emits dotAlpha showPulse entry (c : Ctx) :
  allows Q ["ctx"; "drawMultiDot"; "drawSimpleDot"]%string ->
  emits Q c (MultiFrame.drawEndpoint opts dotAlpha showPulse entry c).
Proof. intros H. unfold MultiFrame.drawEndpoint; cbv zeta. peel; allowed H. Qed.

Lemma multi_endpoints_emits allPts (c : Ctx) :
  allows Q ["ctx"; "drawMultiDot"; "drawSimpleDot"]%string ->
  emits Q c (MultiFrame.endpointsLayer opts allPts c).
Proof.
  intros H. unfold MultiFrame.endpointsLayer; cbv zeta.
  destruct allPts as [|e es]; [apply emits_refl|].
  destruct (Rgtb _ 0.3); [|apply emits_refl].
  apply fold_emits. intros a c0. apply multi_drawEndpoint_emits. exact H.
Qed.

Lemma multi_crosshair_emits allPts (c : Ctx) :
  allows Q ["drawMultiCrosshair"%string] ->
  emits Q c (MultiFrame.crosshairLayer layout opts allPts c).
Proof. intros H. unfold MultiFrame.crosshairLayer; cbv zeta. peel; allowed H. Qed.

(** The composer around the loop over the series. *)
Lemma multi_frame_split (c : Ctx) :
  allows Q multi_other_callees ->
  (forall c',
     emits Q c'
       (MultiFrame.crosshairLayer layout opts
          (snd (MultiFrame.seriesLoop layout opts 0 (MultiFrame.series opts)
                  (MultiFrame.gridLayer layout opts
                     (MultiFrame.referenceLineLayer layout opts c), [])))
          c')) ->
  exists c2 c3,
    emits Q c c2 /\
    c2 = MultiFrame.gridLayer layout opts
           (MultiFrame.referenceLineLayer layout opts c) /\
    c3 = fst (MultiFrame.seriesLoop layout opts 0 (MultiFrame.series opts)
                (c2, [])) /\
    emits Q c3 (MultiFrame.drawMultiFrame layout opts c).
Proof.
  intros HQ Hcross.
  assert (Hctx : allows Q ["ctx"%string]).
  { intros k Hk. apply HQ. simpl in *. tauto. }
  unfold MultiFrame.drawMultiFrame; cbv zeta.
  eexists. eexists. split; [|split; [reflexivity|split; [reflexivity|]]].
  - eapply emits_trans; [apply multi_referenceLine_emits|apply multi_grid_emits].
    all: intros k Hk; apply HQ; simpl in *; tauto.
  - destruct (MultiFrame.seriesLoop layout opts 0 _ _) as [c3 allPts].
    simpl in *.
    eapply emits_trans; [|apply Hcross].
    eapply emits_trans; [|apply leftEdgeFade_emits; exact Hctx].
    eapply emits_trans; [apply multi_timeAxis_emits|apply multi_endpoints_emits].
    all: intros k Hk; apply HQ; simpl in *; tauto.
Qed.

Lemma multi_frame_emits (c : Ctx) :
  allows Q ("drawLine"%string :: multi_other_callees) ->
  (forall c',
     emits Q c'
       (MultiFrame.crosshairLayer layout opts
          (snd (MultiFrame.seriesLoop layout opts 0 (MultiFrame.series opts)
                  (MultiFrame.gridLayer layout opts
                     (MultiFrame.referenceLineLayer layout opts c), [])))
          c')) ->
  emits Q c (MultiFrame.drawMultiFrame layout opts c).
Proof.
  intros HQ Hcross.
  destruct (multi_frame_split c) as (c2 & c3 & H2 & _ & E3 & H3).
  - intros k Hk. apply HQ. right. exact Hk.
  - exact Hcross.
  - eapply emits_trans; [exact H2|].
    eapply emits_trans; [|exact H3].
    rewrite E3. apply multi_seriesLoop_emits.
    intros k Hk. apply HQ. simpl in *. tauto.
Qed.

(** The points collected by the loop do not depend on the context. *)
Lemma multi_allPts_indep ss : forall si (c c' : Ctx) acc,
  snd (MultiFrame.seriesLoop layout opts si ss (c, acc))
  = snd (MultiFrame.seriesLoop layout opts si ss (c', acc)).
Proof.
  induction ss as [|s rest IH]; intros si c c' acc; [reflexivity|].
  change (MultiFrame.seriesLoop layout opts si (s :: rest) (c, acc))
    with (MultiFrame.seriesLoop layout opts (S si) rest
            (MultiFrame.drawSeries layout opts si s (c, acc))).
  change (MultiFrame.seriesLoop layout opts si (s :: rest) (c', acc))
    with (MultiFrame.seriesLoop layout opts (S si) rest
            (MultiFrame.drawSeries layout opts si s (c', acc))).
  assert (Hs : snd (MultiFrame.drawSeries layout opts si s (c, acc))
               = snd (MultiFrame.drawSeries layout opts si s (c', acc))).
  { unfold MultiFrame.drawSeries, drawLine; cbv zeta.
    destruct (Rltb _ 0.01); [reflexivity|]. cbv beta iota.
    destruct (drawLine_pts _) as [[|p ps]|]; reflexivity. }
  destruct (MultiFrame.drawSeries layout opts si s (c, acc)) as [c1 a1].
  destruct (MultiFrame.drawSeries layout opts si s (c', acc)) as [c1' a1'].
  simpl in Hs. subst a1'. apply IH.
Qed.

End MultiLayers.

(* ------------------------------------------------------------------ *)
(** ** The crosshair proximity fade *)

Section FadeFormula.

Variables fadeStart scrub : R.
Hypothesis Hfs : fadeStart > 5.

Lemma crosshairFade_clamp (d : R) :
  crosshairFade d fadeStart scrub
  = scrub * Rmax 0 (Rmin 1 ((d - 5) / (fadeStart - 5))).
Proof.
  unfold crosshairFade, Rltb, Rgeb.
  assert (Hpos : 0 < fadeStart - 5) by lra.
  destruct (Rlt_dec d 5) as [H5|H5].
  - assert ((d - 5) / (fadeStart - 5) <= 0).
    { pose proof (ramp_ratio_le 5 fadeStart Hfs d 5 (Rlt_le _ _ H5)) as H.
      replace ((5 - 5) / (fadeStart - 5)) with 0 in H by (field; lra).
      exact H. }
    replace (Rmax 0 (Rmin 1 ((d - 5) / (fadeStart - 5)))) with 0
      by (case_minmax; lra).
    ring.
  - destruct (Rge_dec d fadeStart) as [HF|HF].
    + assert (1 <= (d - 5) / (fadeStart - 5)).
      { pose proof (ramp_ratio_le 5 fadeStart Hfs fadeStart d (Rge_le _ _ HF))
          as H.
        replace ((fadeStart - 5) / (fadeStart - 5)) with 1 in H by (field; lra).
        exact H. }
      replace (Rmax 0 (Rmin 1 ((d - 5) / (fadeStart - 5)))) with 1
        by (case_minmax; lra).
      ring.
    + assert (0 <= (d - 5) / (fadeStart - 5) <= 1).
      { split.
        - pose proof (ramp_ratio_le 5 fadeStart Hfs 5 d ltac:(lra)) as H.
          replace ((5 - 5) / (fadeStart - 5)) with 0 in H by (field; lra).
          exact H.
        - pose proof (ramp_ratio_le 5 fadeStart Hfs d fadeStart ltac:(lra)) as H.
          replace ((fadeStart - 5) / (fadeStart - 5)) with 1 in H
            by (field; lra).
          exact H. }
      replace (Rmax 0 (Rmin 1 ((d - 5) / (fadeStart - 5))))
        with ((d - 5) / (fadeStart - 5)) by (case_minmax; lra).
      unfold Rdiv. ring.
Qed.

Lemma crosshairFade_lipschitz (x y : R) :
  Rabs (crosshairFade y fadeStart scrub - crosshairFade x fadeStart scrub)
  <= (Rabs scrub + 1) / (fadeStart - 5) * Rabs (y - x).
Proof.
  rewrite !crosshairFade_clamp.
  set (g := fun d => Rmax 0 (Rmin 1 ((d - 5) / (fadeStart - 5)))).
  assert (Hg : Rabs (g y - g x) <= 1 / (fadeStart - 5) * Rabs (y - x)).
  { apply (mono_step_lipschitz g).
    - intros p q Hpq. unfold g. apply clamp_mono.
      apply ramp_ratio_le; assumption.
    - intros p q Hpq. unfold g.
      pose proof (clamp_lipschitz _ _ (ramp_ratio_le 5 fadeStart Hfs p q Hpq))
        as H.
      rewrite ramp_ratio_diff in H by exact Hfs.
      unfold Rdiv in *. lra. }
  fold (g y) (g x).
  replace (scrub * g y - scrub * g x) with (scrub * (g y - g x)) by ring.
  rewrite Rabs_mult.
  pose proof (Rabs_pos scrub) as Hs.
  pose proof (Rabs_pos (g y - g x)) as Hgy.
  pose proof (Rabs_pos (y - x)) as Hyx.
  assert (Hinv : 0 < / (fadeStart - 5)) by (apply Rinv_0_lt_compat; lra).
  unfold Rdiv in *.
  assert (Hk : 0 <= / (fadeStart - 5) * Rabs (y - x))
    by (apply Rmult_le_pos; lra).
  assert (Rabs scrub * Rabs (g y - g x)
          <= Rabs scrub * (/ (fadeStart - 5) * Rabs (y - x))).
  { apply Rmult_le_compat_l; lra. }
  nra.
Qed.

Lemma crosshairFade_continuity :
  continuity (fun d => crosshairFade d fadeStart scrub).
Proof.
  intros x.
  apply lipschitz_continuity_pt with (k := (Rabs scrub + 1) / (fadeStart - 5)).
  - apply Rdiv_lt_0_compat; [|lra]. pose proof (Rabs_pos scrub). lra.
  - intros y. apply crosshairFade_lipschitz.
Qed.

Lemma crosshairFade_at_min : crosshairFade 5 fadeStart scrub = 0.
Proof.
  unfold crosshairFade. rewrite Rltb_false by lra.
  rewrite Rgeb_false by lra. unfold Rdiv. ring.
Qed.

Lemma crosshairFade_at_start : crosshairFade fadeStart fadeStart scrub = scrub.
Proof.
  unfold crosshairFade. rewrite Rltb_false by lra.
  rewrite Rgeb_true by lra. reflexivity.
Qed.

End FadeFormula.

Section FadeSites.

Context {E : Externals}.
Variable layout : ChartLayout.

Lemma frame_scrubOpacity_fade (opts : Frame.DrawOptions) (lastPt : Point) (hx : R) :
  Frame.scrubOpacityOf layout opts lastPt hx
  = crosshairFade (fst lastPt - hx) (fadeStartOf (chartW layout))
      (Frame.scrubAmount opts).
Proof.
  unfold Frame.scrubOpacityOf, crosshairFade, fadeStartOf,
    CROSSHAIR_FADE_MIN_PX; cbv zeta.
  destruct (Rltb _ 5); [reflexivity|].
  destruct (Rgeb _ _); [reflexivity|]. unfold Rdiv. ring.
Qed.

Lemma frame_dotScrub_fade (opts : Frame.DrawOptions) (lastPt : Point) (hx : R) :
  Frame.hoverX opts = Some hx ->
  0 <= Frame.scrubAmount opts ->
  Frame.dotScrubOf layout opts lastPt
  = crosshairFade (fst lastPt - hx) (fadeStartOf (chartW layout))
      (Frame.scrubAmount opts).
Proof.
  intros Hx Hs. unfold Frame.dotScrubOf; cbv zeta. rewrite Hx.
  unfold Rgtb. destruct (Rgt_dec (Frame.scrubAmount opts) 0) as [Hp|Hp].
  - apply frame_scrubOpacity_fade.
  - assert (E0 : Frame.scrubAmount opts = 0) by lra.
    unfold crosshairFade. rewrite E0.
    destruct (Rltb _ 5); [reflexivity|].
    destruct (Rgeb _ _); [reflexivity|]. unfold Rdiv. ring.
Qed.

Lemma multi_scrubOpacity_fade (opts : MultiFrame.MultiSeriesDrawOptions)
    (maxLiveDotX hx : R) :
  MultiFrame.scrubOpacityOf layout opts maxLiveDotX hx
  = crosshairFade (maxLiveDotX - hx) (fadeStartOf (chartW layout))
      (MultiFrame.scrubAmount opts).
Proof.
  unfold MultiFrame.scrubOpacityOf, crosshairFade, fadeStartOf,
    CROSSHAIR_FADE_MIN_PX; cbv zeta.
  destruct (Rltb _ 5); [reflexivity|].
  destruct (Rgeb _ _); [reflexivity|]. unfold Rdiv. ring.
Qed.

End FadeSites.

(** The loop for the rightmost live dot: an upper bound of the last x of
    every visible series, and either its start value or one of them. *)
Lemma maxLiveDotX_loop (allPts : list MultiFrame.SeriesPts) : forall m0 : R,
  let step := fun (maxLiveDotX : R) (entry : MultiFrame.SeriesPts) =>
    if Rltb (MultiFrame.sp_alpha entry) 0.01 then maxLiveDotX else
    match lastOf (MultiFrame.sp_pts entry) with
    | Some lastPt =>
        let lastX := fst lastPt in
        if Rgtb lastX maxLiveDotX then lastX else maxLiveDotX
    | None => maxLiveDotX
    end in
  let m := fold_left step allPts m0 in
  m0 <= m /\
  (forall entry p, In entry allPts ->
     ~ MultiFrame.sp_alpha entry < 0.01 ->
     lastOf (MultiFrame.sp_pts entry) = Some p -> fst p <= m) /\
  (m = m0 \/
   exists entry p, In entry allPts /\
     ~ MultiFrame.sp_alpha entry < 0.01 /\
     lastOf (MultiFrame.sp_pts entry) = Some p /\ fst p = m).
Proof.
  induction allPts as [|e rest IH]; intros m0 step m.
  - simpl in m. unfold m. split; [lra|]. split; [intros ? ? []|left; reflexivity].
  - specialize (IH (step m0 e)). cbv zeta in IH. fold step in IH.
    change (fold_left step (e :: rest) m0) with (fold_left step rest (step m0 e))
      in m.
    fold m in IH. destruct IH as (Hge & Hub & Hatt).
    assert (Hstep : m0 <= step m0 e /\
              (~ MultiFrame.sp_alpha e < 0.01 ->
               forall p, lastOf (MultiFrame.sp_pts e) = Some p ->
                         fst p <= step m0 e) /\
              (step m0 e = m0 \/
               exists p, ~ MultiFrame.sp_alpha e < 0.01 /\
                 lastOf (MultiFrame.sp_pts e) = Some p /\ fst p = step m0 e)).
    { unfold step, Rltb, Rgtb.
      destruct (Rlt_dec (MultiFrame.sp_alpha e) 0.01) as [Ha|Ha].
      - split; [lra|]. split; [intros N; contradiction | left; reflexivity].
      - destruct (lastOf (MultiFrame.sp_pts e)) as [lastPt|].
        + cbv zeta. destruct (Rgt_dec (fst lastPt) m0) as [Hg|Hg].
          * split; [lra|]. split.
            -- intros _ p Hp. inversion Hp; subst. lra.
            -- right. exists lastPt. repeat split; auto.
          * split; [lra|]. split.
            -- intros _ p Hp. inversion Hp; subst. lra.
            -- left. reflexivity.
        + split; [lra|]. split; [intros _ p Hp; discriminate | left; reflexivity]. }
    destruct Hstep as (S1 & S2 & S3).
    split; [lra|]. split.
    + intros entry p [He|He] Ha Hp.
      * subst entry. pose proof (S2 Ha p Hp). lra.
      * eapply Hub; eassumption.
    + destruct Hatt as [Hm|(entry & p & Hin & Ha & Hp & Hx)].
      * destruct S3 as [S3|(p & Ha & Hp & Hx)].
        -- left. congruence.
        -- right. exists e, p. repeat split; auto; [left; reflexivity | congruence].
      * right. exists entry, p. repeat split; auto. right. exact Hin.
Qed.

(** When one visible series has its last x at 0 or right of it, the loop
    ends at the last x of one of them: the rightmost. *)
Lemma maxLiveDotX_attained (allPts : list MultiFrame.SeriesPts) :
  (exists entry p, In entry allPts /\
     ~ MultiFrame.sp_alpha entry < 0.01 /\
     lastOf (MultiFrame.sp_pts entry) = Some p /\ 0 <= fst p) ->
  exists entry p, In entry allPts /\
    ~ MultiFrame.sp_alpha entry < 0.01 /\
    lastOf (MultiFrame.sp_pts entry) = Some p /\
    fst p = MultiFrame.maxLiveDotXOf allPts.
Proof.
  intros (e0 & p0 & Hin0 & Ha0 & Hp0 & Hx0).
  destruct (maxLiveDotX_loop allPts 0) as (_ & Hub & Hatt).
  destruct Hatt as [Hm|Hatt]; [|exact Hatt].
  pose proof (Hub e0 p0 Hin0 Ha0 Hp0) as Hle.
  exists e0, p0. repeat split; auto.
  unfold MultiFrame.maxLiveDotXOf. lra.
Qed.

Section FadeCalls.

Context {E : Externals}.
Variables (layout : ChartLayout) (palette : LivelinePalette).

(** A call made by the layers is made by the frame. *)
Lemma drawFrame_hasCall (opts : Frame.DrawOptions) (k : Call)
    (random1 random2 : R) (c : Ctx) :
  (forall shake c0,
     hasCall k (newCalls c0 (fst (Frame.layers layout palette opts shake c0)))) ->
  hasCall k (newCalls c (fst (Frame.drawFrame layout palette opts
                                random1 random2 c))).
Proof.
  intros H.
  destruct (drawFrame_log layout palette opts random1 random2 c)
    as (c0 & shake & L0 & LF).
  specialize (H shake c0). unfold newCalls in *.
  rewrite LF, <- L0. exact H.
Qed.

(** The dot stage calls [drawDot] once [reveal > 0.307]. *)
Lemma frame_layers_dot_called (opts : Frame.DrawOptions) shake (c : Ctx)
    (ps : list Point) (lastPt : Point) :
  drawLine_pts (Frame.lineArgs layout palette opts) = Some ps ->
  lastOf ps = Some lastPt ->
  Frame.chartReveal opts > 0.307 ->
  hasCall (DrawDot (fst lastPt) (snd lastPt) palette
             (Frame.showPulse opts && Rgtb (Frame.chartReveal opts) 0.6
              && Rltb (Frame.pauseProgress opts) 0.5)
             (Frame.dotScrubOf layout opts lastPt) (Frame.now_ms opts))
    (newCalls c (fst (Frame.layers layout palette opts shake c))).
Proof.
  intros Hpts Hlast Hr.
  unfold Frame.layers, Frame.lineLayer, drawLine; cbv zeta.
  cbv beta iota. rewrite Hpts, Hlast.
  set (c1 := Frame.barsOverlayLayer layout palette opts
               (Frame.orderbookLayer layout palette opts
                  (Frame.gridLayer layout palette opts
                     (Frame.referenceLineLayer layout palette opts c)))).
  set (c3 := Frame.timeAxisLayer layout palette opts
               (call (DrawLine (Frame.lineArgs layout palette opts)) c1)).
  set (c4 := Frame.dotLayer layout palette opts lastPt c3).
  pose proof (frame_particles_emits palette opts (fun _ => True) lastPt shake
                (Frame.arrowsLayer palette opts lastPt c4) (allows_True _))
    as Hpart.
  destruct (Frame.particlesLayer palette opts lastPt shake
              (Frame.arrowsLayer palette opts lastPt c4)) as [c6 s6].
  cbn [fst] in Hpart |- *.
  assert (X03 : extendsLog c c3).
  { apply (emits_extendsLog (fun _ => True)). unfold c3, c1.
    eapply emits_trans; [|apply frame_timeAxis_emits, allows_True].
    apply emits_call; [|exact I].
    eapply emits_trans;
      [|unfold Frame.barsOverlayLayer; apply barsOverlay_emits, allows_True].
    eapply emits_trans; [|apply frame_orderbook_emits, allows_True].
    eapply emits_trans; [|apply frame_grid_emits, allows_True].
    apply frame_referenceLine_emits, allows_True. }
  assert (X4 : extendsLog c4
                 (Frame.crosshairLayer layout palette opts (Some ps)
                    (leftEdgeFade layout
                       (Frame.barsDefaultLayer layout palette opts c6)))).
  { apply (emits_extendsLog (fun _ => True)).
    eapply emits_trans; [|apply frame_crosshair_emits, allows_True].
    eapply emits_trans; [|apply leftEdgeFade_emits, allows_True].
    eapply emits_trans;
      [|unfold Frame.barsDefaultLayer; apply barsDefault_emits, allows_True].
    eapply emits_trans; [|exact Hpart].
    apply frame_arrows_emits, allows_True. }
  assert (L : exists st,
            log c4
            = log c3
              ++ [(st, DrawDot (fst lastPt) (snd lastPt) palette
                         (Frame.showPulse opts
                          && Rgtb (Frame.chartReveal opts) 0.6
                          && Rltb (Frame.pauseProgress opts) 0.5)
                         (Frame.dotScrubOf layout opts lastPt)
                         (Frame.now_ms opts))]).
  { unfold c4, Frame.dotLayer, Frame.reveal, Frame.pause; cbv zeta.
    rewrite (Rltb_false (Frame.chartReveal opts) 0.3) by lra.
    rewrite (Rgtb_true _ 0.01) by lra.
    unfold restore. simpl.
    destruct (Rltb _ 1); [unfold setGlobalAlpha;
                          destruct (Rleb 0 _ && Rleb _ 1)|];
      simpl; eexists; reflexivity. }
  destruct L as [st L].
  apply Exists_newCalls_between with (c1 := c3) (c2 := c4).
  - exact X03.
  - eexists. exact L.
  - exact X4.
  - rewrite (newCalls_app _ _ _ L). left. reflexivity.
Qed.

(** The crosshair stage calls [drawCrosshair] once the opacity is above
    0.01. *)
Lemma frame_layers_crosshair_called (opts : Frame.DrawOptions) shake (c : Ctx)
    (hx hv ht : R) (ps : list Point) (lastPt : Point) :
  Frame.hoverX opts = Some hx ->
  Frame.hoverValue opts = Some hv ->
  Frame.hoverTime opts = Some ht ->
  drawLine_pts (Frame.lineArgs layout palette opts) = Some ps ->
  lastOf ps = Some lastPt ->
  Frame.scrubOpacityOf layout opts lastPt hx > 0.01 ->
  hasCall (DrawCrosshair layout palette hx hv ht
             (Frame.formatValue opts) (Frame.formatTime opts)
             (Frame.scrubOpacityOf layout opts lastPt hx)
             (Frame.tooltipY opts) (fst lastPt) (Frame.tooltipOutline opts))
    (newCalls c (fst (Frame.layers layout palette opts shake c))).
Proof.
  intros Hx Hv Ht Hpts Hlast Hs.
  destruct (frame_layers_split layout palette opts (fun _ => True) shake c)
    as (c1 & c3 & H1 & H3 & _ & EF).
  - apply allows_True.
  - intros c0. apply frame_grid_emits, allows_True.
  - intros p c0. apply frame_dot_emits, allows_True.
  - intros p c0. apply frame_crosshair_emits, allows_True.
  - rewrite EF. unfold Frame.crosshairLayer.
    rewrite Hx, Hv, Ht, Hpts, Hlast. cbv zeta. rewrite (Rgtb_true _ _ Hs).
    eapply Exists_newCalls_between with (c1 := leftEdgeFade layout c3);
      [|apply extendsLog_call | apply extendsLog_refl|].
    + apply (emits_extendsLog (fun _ => True)).
      eapply emits_trans; [|apply leftEdgeFade_emits, allows_True].
      eapply emits_trans; [|exact H3].
      apply emits_call; [exact H1 | exact I].
    + rewrite newCalls_call. left. reflexivity.
Qed.

(** The crosshair stage of the multi-series composer calls
    [drawMultiCrosshair] once the opacity is above 0.01. *)
Lemma multi_crosshair_called (opts : MultiFrame.MultiSeriesDrawOptions)
    (c : Ctx) (hx ht : R) :
  let allPts := snd (MultiFrame.seriesLoop layout opts 0
                       (MultiFrame.series opts) (c, [])) in
  MultiFrame.hoverX opts = Some hx ->
  MultiFrame.hoverTime opts = Some ht ->
  MultiFrame.hoverEntries opts <> [] ->
  allPts <> [] ->
  MultiFrame.scrubAmount opts > 0.01 ->
  MultiFrame.scrubOpacityOf layout opts (MultiFrame.maxLiveDotXOf allPts) hx
  > 0.01 ->
  hasCall (DrawMultiCrosshair layout (MultiFrame.primaryPalette opts) hx ht
             (MultiFrame.hoverEntries opts) (MultiFrame.formatValue opts)
             (MultiFrame.formatTime opts)
             (MultiFrame.scrubOpacityOf layout opts
                (MultiFrame.maxLiveDotXOf allPts) hx)
             (MultiFrame.tooltipY opts) (MultiFrame.tooltipOutline opts)
             (MultiFrame.maxLiveDotXOf allPts))
    (newCalls c (MultiFrame.drawMultiFrame layout opts c)).
Proof.
  intros allPts Hx Ht He Hp Hs Ho.
  unfold MultiFrame.drawMultiFrame; cbv zeta.
  set (c2 := MultiFrame.gridLayer layout opts
               (MultiFrame.referenceLineLayer layout opts c)).
  pose proof (multi_seriesLoop_emits layout opts (fun _ => True)
                (MultiFrame.series opts) 0%nat c2 [] (allows_True _)) as H3.
  pose proof (multi_allPts_indep layout opts (MultiFrame.series opts) 0%nat
                c2 c []) as Hind.
  fold allPts in Hind.
  destruct (MultiFrame.seriesLoop layout opts 0 (MultiFrame.series opts)
              (c2, [])) as [c3 pts3].
  cbn [fst snd] in H3, Hind. subst pts3.
  set (c6 := leftEdgeFade layout
               (MultiFrame.endpointsLayer opts allPts
                  (MultiFrame.timeAxisLayer layout opts c3))).
  assert (X : extendsLog c c6).
  { apply (emits_extendsLog (fun _ => True)). unfold c6.
    eapply emits_trans; [|apply leftEdgeFade_emits, allows_True].
    eapply emits_trans; [|apply multi_endpoints_emits, allows_True].
    eapply emits_trans; [|apply multi_timeAxis_emits, allows_True].
    eapply emits_trans; [|exact H3].
    unfold c2.
    eapply emits_trans; [|apply multi_grid_emits, allows_True].
    apply multi_referenceLine_emits, allows_True. }
  unfold MultiFrame.crosshairLayer. rewrite Hx, Ht.
  destruct (MultiFrame.hoverEntries opts) as [|he hes] eqn:Hhe; [congruence|].
  destruct allPts as [|a0 as0] eqn:Ha; [congruence|].
  rewrite (Rgtb_true _ _ Hs). cbv zeta. rewrite (Rgtb_true _ _ Ho).
  eapply Exists_newCalls_between with (c1 := c6);
    [exact X | apply extendsLog_call | apply extendsLog_refl|].
  rewrite newCalls_call. left. reflexivity.
Qed.

End FadeCalls.

Section FadeTheorem.

Context {E : Externals}.

(** C1: the proximity fade is one function at its three sites.  The three
    inline copies of the code (the dot's scrub dimming, the opacity of the
    single-series crosshair and that of the multi-series crosshair) are the
    formula, with [fadeStart = min(80, chartW * 0.3)].  Every [drawDot] call
    of [drawFrame] gets the fade at [x - hoverX] as its scrub dimming; every
    [drawCrosshair] call of [drawFrame] and every [drawMultiCrosshair] call
    of [drawMultiFrame] gets the fade at [liveDotX - hoverX] as its opacity;
    and these calls are made: [drawDot] once [reveal > 0.307], the
    crosshairs once the hover is set and the fade is above 0.01.  For the
    multi-series composer [liveDotX] is the result of the loop over the
    collected series: at least the last x of every visible series, and the
    last x of one of them (the rightmost) as soon as one is at 0 or right of
    it.  For [fadeStart > 5] the fade is 0 at 5, [scrub] at [fadeStart], and
    continuous at both points. *)
Theorem crosshair_fade_shared_and_continuous
    (layout : ChartLayout) (palette : LivelinePalette)
    (fopts : Frame.DrawOptions) (mopts : MultiFrame.MultiSeriesDrawOptions)
    (random1 random2 hx fadeStart scrub : R) (c : Ctx) :
  Frame.hoverX fopts = Some hx ->
  0 <= Frame.scrubAmount fopts ->
  fadeStart > 5 ->
  let lf := newCalls c (fst (Frame.drawFrame layout palette fopts
                               random1 random2 c)) in
  let lm := newCalls c (MultiFrame.drawMultiFrame layout mopts c) in
  let allPts := snd (MultiFrame.seriesLoop layout mopts 0
                       (MultiFrame.series mopts) (c, [])) in
  let fs := fadeStartOf (chartW layout) in
  (* the three copies of the code are the formula *)
  (forall lastPt,
     Frame.dotScrubOf layout fopts lastPt
     = crosshairFade (fst lastPt - hx) fs (Frame.scrubAmount fopts)) /\
  (forall lastPt hx',
     Frame.scrubOpacityOf layout fopts lastPt hx'
     = crosshairFade (fst lastPt - hx') fs (Frame.scrubAmount fopts)) /\
  (forall liveX hx',
     MultiFrame.scrubOpacityOf layout mopts liveX hx'
     = crosshairFade (liveX - hx') fs (MultiFrame.scrubAmount mopts)) /\
  (* every call gets it *)
  Forall (fun e => forall x y p sp d nm,
            snd e = DrawDot x y p sp d nm ->
            d = crosshairFade (x - hx) fs (Frame.scrubAmount fopts)) lf /\
  Forall (fun e => forall l p hx' hv ht fv ft so ty ldx tout,
            snd e = DrawCrosshair l p hx' hv ht fv ft so ty ldx tout ->
            so = crosshairFade (ldx - hx') fs (Frame.scrubAmount fopts)) lf /\
  Forall (fun e => forall l p hx' ht en fv ft so ty tout ldx,
            snd e = DrawMultiCrosshair l p hx' ht en fv ft so ty tout ldx ->
            ldx = MultiFrame.maxLiveDotXOf allPts /\
            so = crosshairFade (ldx - hx') fs
                   (MultiFrame.scrubAmount mopts)) lm /\
  (* and the calls are made *)
  (forall ps lastPt,
     drawLine_pts (Frame.lineArgs layout palette fopts) = Some ps ->
     lastOf ps = Some lastPt ->
     Frame.chartReveal fopts > 0.307 ->
     exists sp,
       hasCall (DrawDot (fst lastPt) (snd lastPt) palette sp
                  (crosshairFade (fst lastPt - hx) fs
                     (Frame.scrubAmount fopts))
                  (Frame.now_ms fopts)) lf) /\
  (forall hv ht ps lastPt,
     Frame.hoverValue fopts = Some hv ->
     Frame.hoverTime fopts = Some ht ->
     drawLine_pts (Frame.lineArgs layout palette fopts) = Some ps ->
     lastOf ps = Some lastPt ->
     crosshairFade (fst lastPt - hx) fs (Frame.scrubAmount fopts) > 0.01 ->
     hasCall (DrawCrosshair layout palette hx hv ht
                (Frame.formatValue fopts) (Frame.formatTime fopts)
                (crosshairFade (fst lastPt - hx) fs (Frame.scrubAmount fopts))
                (Frame.tooltipY fopts) (fst lastPt)
                (Frame.tooltipOutline fopts)) lf) /\
  (forall hx' ht,
     MultiFrame.hoverX mopts = Some hx' ->
     MultiFrame.hoverTime mopts = Some ht ->
     MultiFrame.hoverEntries mopts <> [] ->
     allPts <> [] ->
     MultiFrame.scrubAmount mopts > 0.01 ->
     crosshairFade (MultiFrame.maxLiveDotXOf allPts - hx') fs
       (MultiFrame.scrubAmount mopts) > 0.01 ->
     hasCall (DrawMultiCrosshair layout (MultiFrame.primaryPalette mopts)
                hx' ht (MultiFrame.hoverEntries mopts)
                (MultiFrame.formatValue mopts) (MultiFrame.formatTime mopts)
                (crosshairFade (MultiFrame.maxLiveDotXOf allPts - hx') fs
                   (MultiFrame.scrubAmount mopts))
                (MultiFrame.tooltipY mopts) (MultiFrame.tooltipOutline mopts)
                (MultiFrame.maxLiveDotXOf allPts)) lm) /\
  (* the live x of the multi-series crosshair *)
  (forall entry p, In entry allPts ->
     ~ MultiFrame.sp_alpha entry < 0.01 ->
     lastOf (MultiFrame.sp_pts entry) = Some p ->
     fst p <= MultiFrame.maxLiveDotXOf allPts) /\
  (MultiFrame.maxLiveDotXOf allPts = 0 \/
   exists entry p, In entry allPts /\
     ~ MultiFrame.sp_alpha entry < 0.01 /\
     lastOf (MultiFrame.sp_pts entry) = Some p /\
     fst p = MultiFrame.maxLiveDotXOf allPts) /\
  ((exists entry p, In entry allPts /\
      ~ MultiFrame.sp_alpha entry < 0.01 /\
      lastOf (MultiFrame.sp_pts entry) = Some p /\ 0 <= fst p) ->
   exists entry p, In entry allPts /\
     ~ MultiFrame.sp_alpha entry < 0.01 /\
     lastOf (MultiFrame.sp_pts entry) = Some p /\
     fst p = MultiFrame.maxLiveDotXOf allPts) /\
  (* continuity *)
  crosshairFade 5 fadeStart scrub = 0 /\
  crosshairFade fadeStart fadeStart scrub = scrub /\
  continuity_pt (fun d => crosshairFade d fadeStart scrub) 5 /\
  continuity_pt (fun d => crosshairFade d fadeStart scrub) fadeStart.
Proof.
  intros Hx Hs Hfs lf lm allPts fs.
  set (Qd := fun k : Call => forall x y p sp d nm,
            k = DrawDot x y p sp d nm ->
            d = crosshairFade (x - hx) (fadeStartOf (chartW layout))
                  (Frame.scrubAmount fopts)).
  set (Qc := fun k : Call => forall l p hx' hv ht fv ft so ty ldx tout,
            k = DrawCrosshair l p hx' hv ht fv ft so ty ldx tout ->
            so = crosshairFade (ldx - hx') (fadeStartOf (chartW layout))
                   (Frame.scrubAmount fopts)).
  set (Qm := fun k : Call => forall l p hx' ht en fv ft so ty tout ldx,
            k = DrawMultiCrosshair l p hx' ht en fv ft so ty tout ldx ->
            ldx = MultiFrame.maxLiveDotXOf allPts /\
            so = crosshairFade (ldx - hx') (fadeStartOf (chartW layout))
                   (MultiFrame.scrubAmount mopts)).
  assert (Hframe : Forall (fun e => (fun k => Qd k /\ Qc k) (snd e)) lf).
  { destruct (drawFrame_calls layout palette fopts (fun k => Qd k /\ Qc k)
                random1 random2 c) as (H & _).
    - unfold frame_other_callees. intros k Hk.
      split; intros until 1; subst k; simpl in Hk;
        repeat (destruct Hk as [Hk|Hk]; try discriminate Hk); contradiction.
    - intros c0. apply frame_grid_emits. intros k Hk.
      split; intros until 1; subst k; simpl in Hk;
        repeat (destruct Hk as [Hk|Hk]; try discriminate Hk); contradiction.
    - intros p0 c0. unfold Frame.dotLayer; cbv zeta. peel.
      split; intros until 1; [|discriminate].
      match goal with H : DrawDot _ _ _ _ _ _ = _ |- _ => inversion H; subst end.
      apply frame_dotScrub_fade; assumption.
    - intros pts c0. unfold Frame.crosshairLayer; cbv zeta. peel.
      split; intros until 1; [discriminate|].
      match goal with
      | H : DrawCrosshair _ _ _ _ _ _ _ _ _ _ _ = _ |- _ => inversion H; subst
      end.
      apply frame_scrubOpacity_fade.
    - exact H. }
  assert (Hmulti : Forall (fun e => Qm (snd e)) lm).
  { apply (emits_newCalls Qm). apply multi_frame_emits.
    - unfold multi_other_callees. intros k Hk.
      intros until 1; subst k; simpl in Hk;
        repeat (destruct Hk as [Hk|Hk]; try discriminate Hk); contradiction.
    - intros c'.
      rewrite (multi_allPts_indep layout mopts (MultiFrame.series mopts) 0
                 _ c []).
      fold allPts.
      unfold MultiFrame.crosshairLayer; cbv zeta. peel.
      intros until 1.
      match goal with
      | H : DrawMultiCrosshair _ _ _ _ _ _ _ _ _ _ _ = _ |- _ =>
          inversion H; subst
      end.
      split; [reflexivity | apply multi_scrubOpacity_fade]. }
  destruct (maxLiveDotX_loop allPts 0) as (_ & Hub & Hatt).
  split; [intros lastPt; apply frame_dotScrub_fade; assumption|].
  split; [intros lastPt hx'; apply frame_scrubOpacity_fade|].
  split; [intros liveX hx'; apply multi_scrubOpacity_fade|].
  split; [eapply Forall_impl; [|exact Hframe]; intros e [H _]; exact H|].
  split; [eapply Forall_impl; [|exact Hframe]; intros e [_ H]; exact H|].
  split; [exact Hmulti|].
  split.
  { intros ps lastPt Hpts Hlast Hr. eexists.
    unfold fs. rewrite <- (frame_dotScrub_fade layout fopts lastPt hx Hx Hs).
    apply drawFrame_hasCall. intros shake c0.
    apply (frame_layers_dot_called layout palette fopts shake c0 ps lastPt
             Hpts Hlast Hr). }
  split.
  { intros hv ht ps lastPt Hv Ht Hpts Hlast Ho.
    unfold fs in *. rewrite <- (frame_scrubOpacity_fade layout fopts lastPt hx)
      in Ho |- *.
    apply drawFrame_hasCall. intros shake c0.
    apply (frame_layers_crosshair_called layout palette fopts shake c0
             hx hv ht ps lastPt Hx Hv Ht Hpts Hlast Ho). }
  split.
  { intros hx' ht Hx' Ht He Hp Hsm Ho.
    unfold fs in *.
    rewrite <- (multi_scrubOpacity_fade layout mopts
                  (MultiFrame.maxLiveDotXOf allPts) hx') in Ho |- *.
    exact (multi_crosshair_called layout mopts c hx' ht Hx' Ht He Hp Hsm Ho). }
  split; [exact Hub|]. split; [exact Hatt|].
  split; [apply maxLiveDotX_attained|].
  split; [apply crosshairFade_at_min; exact Hfs|].
  split; [apply crosshairFade_at_start; exact Hfs|].
  split; apply crosshairFade_continuity; exact Hfs.
Qed.

End FadeTheorem.

Lemma crosshair_fade_shared_and_continuous_witness :
  hasCall (DrawCrosshair Sample.layout Sample.palette 200 70 1
             (fun _ => "v"%string) (fun _ => "t"%string)
             (crosshairFade (300 - 200) (fadeStartOf 380) 1) 14 300 true)
    (newCalls Sample.blank
       (fst (Frame.drawFrame Sample.layout Sample.palette
               (Sample.hoveredFrameOptions 200) 0 0 Sample.blank))).
Proof.
  assert (H0 : 0 <= 1) by lra.
  assert (H5 : 80 > 5) by lra.
  destruct (crosshair_fade_shared_and_continuous
              Sample.layout Sample.palette
              (Sample.hoveredFrameOptions 200) (Sample.multiOptions 1)
              0 0 200 80 1 Sample.blank eq_refl H0 H5)
    as (_ & _ & _ & _ & _ & _ & _ & H & _).
  apply (H 70 1 [(120, 80); (300, 60)] (300, 60) eq_refl eq_refl eq_refl
           eq_refl).
  unfold crosshairFade, fadeStartOf. simpl.
  rewrite Rltb_false by lra.
  rewrite Rgeb_true; [lra|].
  unfold Rmin. destruct (Rle_dec 80 (380 * 0.3)); lra.
Defined.

(* ------------------------------------------------------------------ *)
(** ** The secondary fade of the multi-series composer *)

Section SecondaryFade.

Context {E : Externals}.
Variables (layout : ChartLayout) (opts : MultiFrame.MultiSeriesDrawOptions).

Lemma secondaryFade_first : MultiFrame.secondaryFade opts 0 = 1.
Proof. reflexivity. Qed.

Lemma secondaryFade_revealed (si : nat) :
  MultiFrame.chartReveal opts >= 1 -> MultiFrame.secondaryFade opts si = 1.
Proof.
  intros H. unfold MultiFrame.secondaryFade, MultiFrame.reveal.
  rewrite Rltb_false by lra. rewrite andb_false_r. reflexivity.
Qed.

Lemma secondaryFade_later (si : nat) :
  (0 < si)%nat -> MultiFrame.chartReveal opts < 1 ->
  MultiFrame.secondaryFade opts si = Rmin 1 (MultiFrame.chartReveal opts * 2).
Proof.
  intros Hsi H. unfold MultiFrame.secondaryFade, MultiFrame.reveal.
  rewrite (Rltb_true _ _ H). apply Nat.ltb_lt in Hsi. rewrite Hsi. reflexivity.
Qed.

Lemma secondaryFade_range (si : nat) :
  0 <= MultiFrame.chartReveal opts ->
  0 <= MultiFrame.secondaryFade opts si <= 1.
Proof.
  intros H. unfold MultiFrame.secondaryFade, MultiFrame.reveal.
  destruct ((0 <? si)%nat && Rltb _ 1); [|lra].
  unfold Rmin. destruct (Rle_dec 1 _); lra.
Qed.

Lemma Rltb_false_inv (x y : R) : Rltb x y = false -> ~ x < y.
Proof. unfold Rltb. destruct (Rlt_dec x y); [discriminate|tauto]. Qed.

Lemma withAlpha_same (st : DrawState) :
  withAlpha (globalAlpha st) st = st.
Proof. destruct st; reflexivity. Qed.

(** One turn of the loop over the series. *)
Lemma multi_drawSeries_log si s (c : Ctx) acc :
  globalAlpha (cur c) = 1 ->
  0 <= MultiFrame.chartReveal opts ->
  0 <= MultiFrame.seriesAlphaOf s <= 1 ->
  let eff := MultiFrame.seriesAlphaOf s * MultiFrame.secondaryFade opts si in
  let c1 := fst (MultiFrame.drawSeries layout opts si s (c, acc)) in
  cur c1 = cur c /\ stack c1 = stack c /\
  log c1 = log c ++
    (if Rltb eff 0.01 then []
     else [(withAlpha eff (cur c),
            DrawLine (MultiFrame.seriesLineArgs layout opts s))]).
Proof.
  intros Ha Hr Hs eff c1. unfold c1.
  pose proof (secondaryFade_range si Hr) as Hf.
  assert (Heff : 0 <= eff <= 1) by (unfold eff; nra).
  unfold MultiFrame.drawSeries, drawLine; cbv zeta.
  rewrite (Rmult_comm (MultiFrame.secondaryFade opts si)). fold eff.
  destruct (Rltb eff 0.01) eqn:Hlow.
  - cbn [fst]. rewrite app_nil_r. repeat split; reflexivity.
  - cbv beta iota.
    assert (Hc : forall c2,
      c2 = restore (call (DrawLine (MultiFrame.seriesLineArgs layout opts s))
                      (if Rltb eff 1 then setGlobalAlpha eff (save c)
                       else save c)) ->
      cur c2 = cur c /\ stack c2 = stack c /\
      log c2 = log c ++ [(withAlpha eff (cur c),
                          DrawLine (MultiFrame.seriesLineArgs layout opts s))]).
    { intros c2 ->. destruct (Rltb eff 1) eqn:H1.
      - unfold restore, setGlobalAlpha.
        rewrite Rleb_true by lra. rewrite Rleb_true by lra. simpl.
        repeat split; reflexivity.
      - apply Rltb_false_inv in H1.
        assert (E1 : eff = 1) by lra.
        unfold restore. simpl. rewrite E1, <- Ha, withAlpha_same.
        repeat split; reflexivity. }
    destruct (drawLine_pts _) as [[|p ps]|]; cbn [fst]; apply Hc; reflexivity.
Qed.

(** The loop over the series logs the calls of [seriesLineCalls]. *)
Lemma multi_seriesLoop_log ss : forall si (c : Ctx) acc,
  globalAlpha (cur c) = 1 ->
  0 <= MultiFrame.chartReveal opts ->
  Forall (fun s => 0 <= MultiFrame.seriesAlphaOf s <= 1) ss ->
  let c' := fst (MultiFrame.seriesLoop layout opts si ss (c, acc)) in
  cur c' = cur c /\ stack c' = stack c /\
  log c' = log c ++ seriesLineCalls layout opts (cur c) si ss.
Proof.
  induction ss as [|s rest IH]; intros si c acc Ha Hr Hall c'.
  - unfold c'. simpl. rewrite app_nil_r. repeat split; reflexivity.
  - inversion Hall as [|s0 r0 Hs Hrest]; subst.
    unfold c'.
    change (MultiFrame.seriesLoop layout opts si (s :: rest) (c, acc))
      with (MultiFrame.seriesLoop layout opts (S si) rest
              (MultiFrame.drawSeries layout opts si s (c, acc))).
    pose proof (multi_drawSeries_log si s c acc Ha Hr Hs) as Hstep.
    cbv zeta in Hstep.
    destruct (MultiFrame.drawSeries layout opts si s (c, acc)) as [c1 acc1].
    cbn [fst] in Hstep. destruct Hstep as (C1 & S1 & L1).
    assert (Ha1 : globalAlpha (cur c1) = 1) by (rewrite C1; exact Ha).
    destruct (IH (S si) c1 acc1 Ha1 Hr Hrest) as (C2 & S2 & L2).
    split; [congruence|]. split; [congruence|].
    rewrite L2, L1, C1, <- app_assoc. reflexivity.
Qed.

(** Membership in [seriesLineCalls]. *)
Lemma seriesLineCalls_In (st : DrawState) ss : forall si e,
  In e (seriesLineCalls layout opts st si ss) <->
  exists j s,
    nth_error ss j = Some s /\
    ~ MultiFrame.seriesAlphaOf s * MultiFrame.secondaryFade opts (si + j) < 0.01 /\
    e = (withAlpha (MultiFrame.seriesAlphaOf s
                    * MultiFrame.secondaryFade opts (si + j)) st,
         DrawLine (MultiFrame.seriesLineArgs layout opts s)).
Proof.
  induction ss as [|s rest IH]; intros si e.
  - simpl. split; [intros []|]. intros (j & s & H & _). destruct j; discriminate.
  - cbn [seriesLineCalls]. cbv zeta. rewrite in_app_iff, IH. split.
    + intros [H|(j & s' & Hn & Hlow & He)].
      * destruct (Rltb _ 0.01) eqn:Hl; [contradiction|].
        destruct H as [H|[]]. exists 0%nat, s.
        rewrite Nat.add_0_r. split; [reflexivity|].
        split; [apply Rltb_false_inv; exact Hl | symmetry; exact H].
      * exists (S j), s'. rewrite Nat.add_succ_r. simpl in *. auto.
    + intros (j & s' & Hn & Hlow & He). destruct j as [|j].
      * left. simpl in Hn. inversion Hn; subst s'.
        rewrite Nat.add_0_r in *. rewrite (Rltb_false _ _ Hlow).
        left. symmetry. exact He.
      * right. exists j, s'. rewrite Nat.add_succ_r in *. simpl in *. auto.
Qed.

End SecondaryFade.

Section SeriesAlpha.

Context {E : Externals}.

(** C7: in [drawMultiFrame], on a context at alpha 1, with [reveal >= 0]
    and every series alpha in [0,1], the [drawLine] calls are those of
    [seriesLineCalls]: in series order, the series at index [si] is drawn
    under global alpha [seriesAlpha * f] with [f = secondaryFade si], and is
    not drawn when that product is below 0.01.  [f] is 1 for the first
    series and whenever [reveal >= 1], and [min(1, reveal * 2)] for a later
    series when [reveal < 1]: 1 at reveal 0.5, 0.2 at reveal 0.1. *)
Theorem multi_series_effective_alpha
    (layout : ChartLayout) (opts : MultiFrame.MultiSeriesDrawOptions) (c : Ctx) :
  globalAlpha (cur c) = 1 ->
  0 <= MultiFrame.chartReveal opts ->
  Forall (fun s => 0 <= MultiFrame.seriesAlphaOf s <= 1)
         (MultiFrame.series opts) ->
  let f := MultiFrame.secondaryFade opts in
  let drawn := seriesLineCalls layout opts (cur c) 0 (MultiFrame.series opts) in
  (exists before after,
     newCalls c (MultiFrame.drawMultiFrame layout opts c)
     = before ++ drawn ++ after /\
     noCallTo ["drawLine"%string] before /\
     noCallTo ["drawLine"%string] after) /\
  (forall e, In e drawn <->
     exists si s,
       nth_error (MultiFrame.series opts) si = Some s /\
       ~ MultiFrame.seriesAlphaOf s * f si < 0.01 /\
       globalAlpha (fst e) = MultiFrame.seriesAlphaOf s * f si /\
       e = (withAlpha (MultiFrame.seriesAlphaOf s * f si) (cur c),
            DrawLine (MultiFrame.seriesLineArgs layout opts s))) /\
  f 0%nat = 1 /\
  (forall si, MultiFrame.chartReveal opts >= 1 -> f si = 1) /\
  (forall si, (0 < si)%nat -> MultiFrame.chartReveal opts < 1 ->
              f si = Rmin 1 (MultiFrame.chartReveal opts * 2)) /\
  (forall si, (0 < si)%nat -> MultiFrame.chartReveal opts = 0.5 -> f si = 1) /\
  (forall si, (0 < si)%nat -> MultiFrame.chartReveal opts = 0.1 -> f si = 0.2).
Proof.
  intros Ha Hr Hall f drawn.
  split; [|split; [|split; [|split; [|split; [|split]]]]].
  - set (Q := fun k : Call => ~ In (callee k) ["drawLine"%string]).
    destruct (multi_frame_split layout opts Q c) as (c2 & c3 & H2 & _ & E3 & H3).
    + unfold multi_other_callees. apply allows_not_in.
      intros n Hn Hin. simpl in Hn, Hin.
      repeat (destruct Hn as [Hn|Hn]; [subst n; destruct Hin as [Hin|[]];
                                       discriminate Hin|]).
      contradiction.
    + intros c'. apply multi_crosshair_emits. apply allows_not_in.
      intros n Hn Hin. simpl in Hn, Hin.
      destruct Hn as [Hn|[]]. subst n. destruct Hin as [Hin|[]]. discriminate Hin.
    + assert (Ha2 : globalAlpha (cur c2) = 1).
      { destruct H2 as (C2 & _). rewrite C2. exact Ha. }
      destruct (multi_seriesLoop_log layout opts (MultiFrame.series opts) 0 c2 []
                  Ha2 Hr Hall) as (_ & _ & L3).
      rewrite <- E3 in L3.
      assert (C2 : cur c2 = cur c) by (destruct H2 as (C2 & _); exact C2).
      rewrite C2 in L3. fold drawn in L3.
      exists (newCalls c c2), (newCalls c3 (MultiFrame.drawMultiFrame layout opts c)).
      split; [|split].
      * apply newCalls_app.
        rewrite (emits_log Q _ _ H3), L3, (emits_log Q _ _ H2).
        rewrite <- !app_assoc. reflexivity.
      * apply (emits_newCalls Q). exact H2.
      * apply (emits_newCalls Q). exact H3.
  - intros e. unfold drawn. rewrite seriesLineCalls_In. simpl.
    split; intros (si & s & Hn & Hlow & He).
    + exists si, s. split; [exact Hn|]. split; [exact Hlow|].
      split; [rewrite He; reflexivity | exact He].
    + destruct He as [_ He]. exists si, s. auto.
  - apply secondaryFade_first.
  - intros si. apply secondaryFade_revealed.
  - intros si. apply secondaryFade_later.
  - intros si Hsi H5. unfold f. rewrite secondaryFade_later by (rewrite ?H5; lra || exact Hsi).
    rewrite H5. unfold Rmin. destruct (Rle_dec 1 (0.5 * 2)); lra.
  - intros si Hsi H1. unfold f. rewrite secondaryFade_later by (rewrite ?H1; lra || exact Hsi).
    rewrite H1. unfold Rmin. destruct (Rle_dec 1 (0.1 * 2)); lra.
Qed.

End SeriesAlpha.

Lemma multi_series_effective_alpha_witness :
  MultiFrame.secondaryFade (Sample.multiOptions 0.1) 1 = 0.2.
Proof.
  assert (Hr : 0 <= 0.1) by lra.
  assert (Hall : Forall (fun s => 0 <= MultiFrame.seriesAlphaOf s <= 1)
                        (MultiFrame.series (Sample.multiOptions 0.1))).
  { simpl. apply Forall_cons; [unfold MultiFrame.seriesAlphaOf; simpl; lra|].
    apply Forall_cons; [unfold MultiFrame.seriesAlphaOf; simpl; lra|].
    apply Forall_nil. }
  destruct (multi_series_effective_alpha Sample.layout
              (Sample.multiOptions 0.1) Sample.blank eq_refl Hr Hall)
    as (_ & _ & _ & _ & _ & _ & H).
  apply H; [apply Nat.lt_0_succ | reflexivity].
Defined.

(* ------------------------------------------------------------------ *)
(** ** [drawBars]: the geometry of the bars *)

Section BarGeometry.

Context {E : Externals}.
Variables (layout : ChartLayout) (bl : BarLayout) (o : Bars.BarDrawOptions).

(** The calls of one turn of the bar loop, all under one state. *)
Lemma drawBar_log (baseAlpha : R) (b : BarPoint) (c : Ctx) :
  exists st,
    log (Bars.drawBar layout bl o baseAlpha b c)
    = log c ++ map (fun k => (st, k)) (barCalls layout bl o b).
Proof.
  unfold Bars.drawBar, barCalls, barDrawn, barShape, barHeight, barLeft;
    cbv zeta.
  destruct (Rleb (bar_value b) 0);
    [exists (cur c); simpl; rewrite app_nil_r; reflexivity|].
  destruct (Rltb _ _ || Rgtb _ _);
    [exists (cur c); simpl; rewrite app_nil_r; reflexivity|].
  destruct (Rltb _ 0.5);
    [exists (cur c); simpl; rewrite app_nil_r; reflexivity|].
  match goal with
  | |- context [call BeginPath ?c0] => set (c' := c0)
  end.
  assert (Hlog : log c' = log c).
  { unfold c'. destruct (Bars.scrubX o); [|reflexivity].
    destruct (Rgtb (Bars.scrubAmount o) 0.05); [|reflexivity].
    destruct (Rgtb _ _); unfold setGlobalAlpha;
      destruct (Rleb 0 _ && Rleb _ 1); reflexivity. }
  exists (cur c'). simpl.
  destruct (Rgtb _ 0 && Rgtb _ _); simpl; rewrite Hlog;
    rewrite <- ?app_assoc; reflexivity.
Qed.

Lemma fold_log {A : Type} (f : A -> Ctx -> Ctx) (g : A -> list Call)
    (l : list A) :
  (forall a c, exists st, log (f a c) = log c ++ map (fun k => (st, k)) (g a)) ->
  forall c, exists l',
    log (fold_left (fun c a => f a c) l c) = log c ++ l' /\
    map snd l' = flat_map g l.
Proof.
  intros Hf. induction l as [|a l IH]; intros c; simpl.
  - exists []. split; [symmetry; apply app_nil_r | reflexivity].
  - destruct (Hf a c) as [st Ha].
    destruct (IH (f a c)) as (l' & Hl & Hm).
    exists (map (fun k => (st, k)) (g a) ++ l'). split.
    + rewrite Hl, Ha, app_assoc. reflexivity.
    + rewrite map_app, Hm, map_map. simpl. rewrite map_id. reflexivity.
Qed.

Lemma drawBarLabel_log (fontSize : R) (b : BarPoint) (c : Ctx) :
  exists l, log (Bars.drawBarLabel layout bl o fontSize b c) = log c ++ l /\
            Forall (fun e => isShapeCall (snd e) = false) l.
Proof.
  unfold Bars.drawBarLabel; cbv zeta.
  destruct (Rleb _ 0); [exists []; split; [symmetry; apply app_nil_r|constructor]|].
  destruct (Rltb _ _ || Rgtb _ _);
    [exists []; split; [symmetry; apply app_nil_r|constructor]|].
  destruct (Rltb _ _);
    [exists []; split; [symmetry; apply app_nil_r|constructor]|].
  eexists. split; [reflexivity|]. constructor; [reflexivity|constructor].
Qed.

Lemma fold_labels_log (fontSize : R) (l : list BarPoint) : forall c,
  exists l',
    log (fold_left (fun c b => Bars.drawBarLabel layout bl o fontSize b c) l c)
    = log c ++ l' /\
    Forall (fun e => isShapeCall (snd e) = false) l'.
Proof.
  induction l as [|b l IH]; intros c; simpl.
  - exists []. split; [symmetry; apply app_nil_r | constructor].
  - destruct (drawBarLabel_log fontSize b c) as (l1 & H1 & F1).
    destruct (IH (Bars.drawBarLabel layout bl o fontSize b c)) as (l2 & H2 & F2).
    exists (l1 ++ l2). split.
    + rewrite H2, H1, app_assoc. reflexivity.
    + apply Forall_app. split; assumption.
Qed.

Lemma log_restore (c : Ctx) : log (restore c) = log c.
Proof. unfold restore. destruct (stack c); reflexivity. Qed.

Lemma log_setGlobalAlpha (a : R) (c : Ctx) : log (setGlobalAlpha a c) = log c.
Proof. unfold setGlobalAlpha. destruct (Rleb 0 a && Rleb a 1); reflexivity. Qed.

(** The calls of [drawBars]: the fill style, the bars in order, then the
    labels. *)
Lemma drawBars_log (c : Ctx) :
  Bars.bars o <> [] -> maxValue bl > 0 ->
  exists labels,
    map snd (newCalls c (Bars.drawBars layout bl o c))
    = SetFillStyle (Color (Bars.fillColor o))
      :: flat_map (barCalls layout bl o) (Bars.bars o) ++ labels /\
    Forall (fun k => isShapeCall k = false) labels.
Proof.
  intros Hne Hmax.
  unfold Bars.drawBars; cbv zeta.
  destruct (Bars.bars o) as [|b0 bs] eqn:Hbars; [congruence|].
  rewrite Rleb_false by lra.
  set (c0 := call (SetFillStyle (Color (Bars.fillColor o))) c).
  destruct (fold_log (Bars.drawBar layout bl o (globalAlpha (cur c)))
              (barCalls layout bl o) (b0 :: bs)
              (drawBar_log (globalAlpha (cur c))) c0) as (lb & Lb & Mb).
  set (c1 := fold_left _ (b0 :: bs) c0) in *.
  assert (L0 : log c0 = log c ++ [(cur c, SetFillStyle (Color (Bars.fillColor o)))])
    by reflexivity.
  destruct (Bars.showLabels o && Rgtb (Bars.revealProgress o) 0.5).
  - match goal with
    | |- context [fold_left ?f (b0 :: bs) ?cx] =>
        match cx with
        | c0 => fail 1
        | _ => destruct (fold_labels_log
                           (if Rgtb (w layout) 500 then 9 else 8) (b0 :: bs) cx)
                 as (ll & Ll & Fl)
        end
    end.
    eexists. split.
    + erewrite newCalls_app; [|rewrite log_setGlobalAlpha, log_restore, Ll,
                                 log_setGlobalAlpha; simpl; rewrite Lb, L0;
                                 rewrite <- !app_assoc; simpl; reflexivity].
      cbn [map snd]. rewrite map_app. cbn [map snd]. rewrite Mb. reflexivity.
    + repeat (constructor; [reflexivity|]).
      rewrite Forall_forall. intros k Hk.
      apply in_map_iff in Hk. destruct Hk as (e & <- & He).
      rewrite Forall_forall in Fl. apply Fl. exact He.
  - exists []. split; [|constructor].
    erewrite newCalls_app; [|rewrite log_setGlobalAlpha, Lb, L0;
                              rewrite <- !app_assoc; simpl; reflexivity].
    simpl. rewrite Mb, app_nil_r. reflexivity.
Qed.

End BarGeometry.

Section BarGeometryTheorem.

Context {E : Externals}.
Variables (layout : ChartLayout) (bl : BarLayout) (o : Bars.BarDrawOptions).

Lemma barDrawn_height (b : BarPoint) :
  barDrawn layout bl o b = true -> barHeight bl o b >= 0.5.
Proof.
  unfold barDrawn. intros H.
  apply andb_true_iff in H. destruct H as [_ H].
  apply negb_true_iff, Rltb_false_inv in H. lra.
Qed.

Lemma barCalls_span (b : BarPoint) (k : Call) (y : R) :
  In k (barCalls layout bl o b) -> In y (callYs k) ->
  bottom bl - barHeight bl o b <= y <= bottom bl.
Proof.
  unfold barCalls. destruct (barDrawn layout bl o b) eqn:Hd; [|intros []].
  pose proof (barDrawn_height b Hd) as Hh.
  unfold barShape; cbv zeta.
  destruct (Rgtb _ 0 && Rgtb _ _) eqn:Hr.
  - apply andb_true_iff in Hr. destruct Hr as [Hr0 Hr2].
    apply Rgtb_spec in Hr0. apply Rgtb_spec in Hr2.
    intros Hk Hy. simpl in Hk.
    repeat (destruct Hk as [Hk|Hk];
            [subst k; simpl in Hy;
             repeat (destruct Hy as [Hy|Hy]; [subst y; lra|]); contradiction|]).
    contradiction.
  - intros [Hk|[]] Hy. subst k. simpl in Hy.
    repeat (destruct Hy as [Hy|Hy]; [subst y; lra|]). contradiction.
Qed.

Lemma barCalls_anchored (b : BarPoint) :
  barCalls layout bl o b <> [] ->
  (exists k, In k (barCalls layout bl o b) /\ In (bottom bl) (callYs k)) /\
  (exists k, In k (barCalls layout bl o b) /\
             In (bottom bl - barHeight bl o b) (callYs k)).
Proof.
  unfold barCalls. destruct (barDrawn layout bl o b); [|congruence].
  intros _. unfold barShape; cbv zeta.
  destruct (Rgtb _ 0 && Rgtb _ _).
  - split.
    + exists (MoveTo (barLeft layout o b) (bottom bl)).
      split; [simpl; tauto | left; reflexivity].
    + eexists (LineTo _ (bottom bl - barHeight bl o b)).
      split; [simpl; right; right; right; right; left; reflexivity
             | left; reflexivity].
  - split.
    + eexists. split; [left; reflexivity|]. simpl. right. left. ring.
    + eexists. split; [left; reflexivity|]. simpl. left. reflexivity.
Qed.

(** C9: the bars that [drawBars] draws.  Its calls are the fill style, then
    for each bar in order the calls of [barCalls], then the labels; a bar
    that is drawn is the shape of height
    [(value / maxValue) * maxHeight * revealProgress] standing on
    [barLayout.bottom]: every y it touches lies between [bottom - height]
    and [bottom], and both are touched.  The height is linear in
    [revealProgress]; at [revealProgress = 0] it is 0 for every bar and no
    shape is drawn. *)
Theorem drawBars_bar_geometry (c : Ctx) :
  Bars.bars o <> [] ->
  maxValue bl > 0 ->
  let drawn := newCalls c (Bars.drawBars layout bl o c) in
  (exists labels,
     map snd drawn
     = SetFillStyle (Color (Bars.fillColor o))
       :: flat_map (barCalls layout bl o) (Bars.bars o) ++ labels /\
     Forall (fun k => isShapeCall k = false) labels) /\
  (forall b,
     barCalls layout bl o b = [] \/
     (barHeight bl o b
      = (bar_value b / maxValue bl) * maxHeight bl * Bars.revealProgress o /\
      barCalls layout bl o b
      = barShape (barLeft layout o b) (bottom bl) (Bars.barPxWidth layout o)
          (barHeight bl o b) (Bars.cornerR layout o))) /\
  (forall b k y,
     In k (barCalls layout bl o b) -> In y (callYs k) ->
     bottom bl - barHeight bl o b <= y <= bottom bl) /\
  (forall b,
     barCalls layout bl o b <> [] ->
     (exists k, In k (barCalls layout bl o b) /\ In (bottom bl) (callYs k)) /\
     (exists k, In k (barCalls layout bl o b) /\
                In (bottom bl - barHeight bl o b) (callYs k))) /\
  (forall (o' : Bars.BarDrawOptions) (k : R) b,
     Bars.revealProgress o' = k * Bars.revealProgress o ->
     barHeight bl o' b = k * barHeight bl o b) /\
  (Bars.revealProgress o = 0 ->
   (forall b, barHeight bl o b = 0 /\ barCalls layout bl o b = []) /\
   Forall (fun e => isShapeCall (snd e) = false) drawn).
Proof.
  intros Hne Hmax drawn.
  pose proof (drawBars_log layout bl o c Hne Hmax) as Hlog. fold drawn in Hlog.
  split; [exact Hlog|]. split; [|split; [|split; [|split]]].
  - intros b. unfold barCalls. destruct (barDrawn layout bl o b); [right|left].
    + split; reflexivity.
    + reflexivity.
  - apply barCalls_span.
  - apply barCalls_anchored.
  - intros o' k b Hk. unfold barHeight. rewrite Hk. ring.
  - intros H0.
    assert (Hb : forall b, barHeight bl o b = 0 /\ barCalls layout bl o b = []).
    { intros b.
      assert (Hh : barHeight bl o b = 0) by (unfold barHeight; rewrite H0; ring).
      split; [exact Hh|].
      unfold barCalls, barDrawn. rewrite Hh. rewrite (Rltb_true 0 0.5) by lra.
      rewrite andb_false_r. reflexivity. }
    split; [exact Hb|].
    destruct Hlog as (labels & Hl & Fl).
    assert (Hnil : flat_map (barCalls layout bl o) (Bars.bars o) = []).
    { generalize (Bars.bars o). intros bs.
      induction bs as [|b bs IH]; [reflexivity|].
      simpl. rewrite (proj2 (Hb b)), IH. reflexivity. }
    rewrite Hnil in Hl. simpl in Hl.
    assert (Hall : Forall (fun k => isShapeCall k = false) (map snd drawn)).
    { rewrite Hl. constructor; [reflexivity | exact Fl]. }
    rewrite Forall_map in Hall. exact Hall.
Qed.

End BarGeometryTheorem.

Lemma drawBars_bar_geometry_witness :
  barHeight Sample.barLayout (Sample.barOptions 0.5)
    {| bar_time := 10; bar_value := 50 |}
  = 0.5 * barHeight Sample.barLayout (Sample.barOptions 1)
            {| bar_time := 10; bar_value := 50 |}.
Proof.
  assert (Hne : Bars.bars (Sample.barOptions 1) <> []) by discriminate.
  assert (Hmax : maxValue Sample.barLayout > 0) by (simpl; lra).
  destruct (drawBars_bar_geometry (E := Sample.externals) Sample.layout
              Sample.barLayout (Sample.barOptions 1) Sample.blank Hne Hmax)
    as (_ & _ & _ & _ & H & _).
  apply H. simpl. lra.
Defined.

(* ================================================================== *)
(** * Part III.  Further properties of the code                        *)
(* ================================================================== *)

(** ** The shake state across ticks *)

(** X1: one decay tick leaves the amplitude at 0 or at least at the
    threshold, never in between, and never raises it. *)
Theorem decayShake_floor_and_bound (dt : R) (s : ShakeState) :
  0 <= dt ->
  0 <= amplitude s ->
  (amplitude (decayShake dt s) = 0 \/
   SHAKE_MIN_AMPLITUDE <= amplitude (decayShake dt s)) /\
  0 <= amplitude (decayShake dt s) <= amplitude s.
Proof.
  intros Hdt Ha. rewrite decayShake_amplitude. unfold decayedOver; cbv zeta.
  pose proof (decay_rate_pos (dt / 1000)) as Hp.
  assert (H1 : Rpower SHAKE_DECAY_RATE (dt / 1000) <= 1)
    by (apply decay_rate_le_1; lra).
  set (r := Rpower SHAKE_DECAY_RATE (dt / 1000)) in *.
  unfold Rltb, SHAKE_MIN_AMPLITUDE.
  destruct (Rlt_dec (amplitude s * r) 0.2) as [Hl|Hl].
  - split; [left; reflexivity | lra].
  - split; [right; lra | nra].
Qed.

Lemma decayShake_floor_and_bound_witness :
  0 <= amplitude (decayShake 16 {| amplitude := 10 |}) <= 10.
Proof.
  refine (proj2 (decayShake_floor_and_bound 16 {| amplitude := 10 |} _ _));
    simpl; lra.
Defined.

Lemma decay_rate_after_second (x : R) :
  1 <= x -> Rpower SHAKE_DECAY_RATE x <= SHAKE_DECAY_RATE.
Proof.
  intros Hx. pose proof ln_decay_rate_neg as Hln.
  rewrite <- (Rpower_1 SHAKE_DECAY_RATE) at 2 by (unfold SHAKE_DECAY_RATE; lra).
  unfold Rpower.
  destruct (Req_dec_T x 1) as [->|Hne]; [lra|].
  left. apply exp_increasing. nra.
Qed.

(** X2: a shake below 100 px is over after ticks that total one second or
    more, however the second is cut into ticks. *)
Theorem shake_over_after_one_second (s : ShakeState) (dts : list R) :
  Forall (fun dt => 0 < dt) dts ->
  1000 <= sumR dts ->
  amplitude s < 100 ->
  amplitude (decayTicks dts s) = 0.
Proof.
  intros Hpos Hsum Ha.
  assert (Hne : dts <> []).
  { intros ->. simpl in Hsum. lra. }
  rewrite decayTicks_closed_form by assumption.
  unfold decayedOver; cbv zeta.
  assert (Hr : Rpower SHAKE_DECAY_RATE (sumR dts / 1000) <= SHAKE_DECAY_RATE).
  { apply decay_rate_after_second. lra. }
  pose proof (decay_rate_pos (sumR dts / 1000)) as Hp.
  unfold SHAKE_DECAY_RATE in Hr at 2.
  rewrite Rltb_true; [reflexivity|].
  unfold SHAKE_MIN_AMPLITUDE.
  destruct (Rle_lt_dec (amplitude s) 0); nra.
Qed.

Lemma shake_over_after_one_second_witness :
  amplitude (decayTicks [400; 600] {| amplitude := 10 |}) = 0.
Proof.
  apply shake_over_after_one_second.
  - apply Forall_cons; [lra|]. apply Forall_cons; [lra | apply Forall_nil].
  - simpl. lra.
  - simpl. lra.
Defined.

(* ------------------------------------------------------------------ *)
(** ** [drawFrame]: the shake offset and the shake state *)

Section FrameShakeState.

Context {E : Externals}.
Variables (layout : ChartLayout) (palette : LivelinePalette)
          (opts : Frame.DrawOptions).

(** Without an armed shake [drawFrame] is its layers. *)
Lemma drawFrame_unarmed_eq (random1 random2 : R) (c : Ctx) :
  (forall s, Frame.shakeState opts = Some s ->
             ~ amplitude s > SHAKE_MIN_AMPLITUDE) ->
  Frame.drawFrame layout palette opts random1 random2 c
  = Frame.layers layout palette opts
      (match Frame.shakeState opts with
       | Some s => Some (decayShake (Frame.dt opts) s)
       | None => None
       end) c.
Proof.
  intros Hun. unfold Frame.drawFrame; cbv zeta.
  destruct (Frame.shakeState opts) as [s|] eqn:Hs.
  - rewrite (Rgtb_false _ _ (Hun s eq_refl)). cbv beta iota.
    destruct (Frame.layers layout palette opts _ c) as [cL sL].
    rewrite (Reqb_true 0 0) by reflexivity. reflexivity.
  - cbv beta iota.
    destruct (Frame.layers layout palette opts None c) as [cL sL]. reflexivity.
Qed.

(** X3: with no shake state, or one at or below the threshold, [drawFrame]
    does not read the random draws, makes every call under the translation
    it was entered with, and returns with the save stack and the
    translation as it found them. *)
Theorem drawFrame_unarmed_untranslated (random1 random2 : R) (c : Ctx) :
  (forall s, Frame.shakeState opts = Some s ->
             ~ amplitude s > SHAKE_MIN_AMPLITUDE) ->
  let c' := fst (Frame.drawFrame layout palette opts random1 random2 c) in
  stack c' = stack c /\
  sameTransform (cur c') (cur c) /\
  Forall (fun e => sameTransform (fst e) (cur c)) (newCalls c c') /\
  (forall r1 r2,
     Frame.drawFrame layout palette opts r1 r2 c
     = Frame.drawFrame layout palette opts random1 random2 c).
Proof.
  intros Hun c'. unfold c'.
  rewrite (drawFrame_unarmed_eq random1 random2 c Hun).
  pose proof (frame_layers_neutral layout palette opts
                (match Frame.shakeState opts with
                 | Some s => Some (decayShake (Frame.dt opts) s)
                 | None => None
                 end) c) as Hn.
  destruct Hn as (Hc & Hs & l & Hl & Hf).
  split; [exact Hs|]. split; [rewrite Hc; apply sameTransform_refl|].
  split.
  - rewrite (newCalls_app _ _ _ Hl).
    eapply Forall_impl; [|exact Hf]. intros e [H _]. exact H.
  - intros r1 r2. rewrite (drawFrame_unarmed_eq r1 r2 c Hun). reflexivity.
Qed.

(** The shake state handed back by the layers. *)
Lemma frame_layers_shake (shake : option ShakeState) (c : Ctx) :
  snd (Frame.layers layout palette opts shake c)
  = match drawLine_pts (Frame.lineArgs layout palette opts) with
    | Some ps =>
        match lastOf ps, Frame.particleState opts with
        | Some lastPt, Some pst =>
            if Rgtb (Frame.chartReveal opts) 0.9 then
              match shake with
              | Some s =>
                  if Rgtb (spawnOnSwing_burst pst (Frame.momentum opts)
                             (fst lastPt) (snd lastPt)
                             (Frame.swingMagnitude opts) (line palette)
                             (Frame.dt opts) (Frame.particleOptions opts)) 0
                  then Some {| amplitude :=
                                 (3 + Frame.swingMagnitude opts * 4)
                                 * spawnOnSwing_burst pst (Frame.momentum opts)
                                     (fst lastPt) (snd lastPt)
                                     (Frame.swingMagnitude opts) (line palette)
                                     (Frame.dt opts) (Frame.particleOptions opts) |}
                  else Some s
              | None => None
              end
            else shake
        | _, _ => shake
        end
    | None => shake
    end.
Proof.
  unfold Frame.layers, Frame.lineLayer, drawLine, Frame.particlesLayer,
    Frame.reveal; cbv zeta. cbv beta iota.
  destruct (drawLine_pts _) as [ps|]; [|reflexivity].
  destruct (lastOf ps) as [lastPt|]; [|reflexivity].
  destruct (Frame.particleState opts) as [pst|]; [|reflexivity].
  destruct (Rgtb (Frame.chartReveal opts) 0.9); reflexivity.
Qed.

Lemma drawFrame_shake_result (random1 random2 : R) (c : Ctx) :
  exists c0,
    snd (Frame.drawFrame layout palette opts random1 random2 c)
    = snd (Frame.layers layout palette opts
             (match Frame.shakeState opts with
              | Some s => Some (decayShake (Frame.dt opts) s)
              | None => None
              end) c0).
Proof.
  unfold Frame.drawFrame; cbv zeta.
  match goal with
  | |- context [Frame.layers layout palette opts ?s ?c0] =>
      exists c0; destruct (Frame.layers layout palette opts s c0) as [cL sL]
  end.
  reflexivity.
Qed.

(** X4: a burst re-arms the shake.  With a shake state and a particle
    state, past [reveal > 0.9], when the line has a last point and
    [spawnOnSwing] returns a positive intensity, the amplitude after the
    frame is [(3 + swingMagnitude * 4) * burstIntensity], whatever it was
    before and whatever the tick length. *)
Theorem drawFrame_burst_rearms_shake
    (random1 random2 : R) (c : Ctx)
    (s : ShakeState) (pst : ParticleState) (ps : list Point) (lastPt : Point) :
  Frame.shakeState opts = Some s ->
  Frame.particleState opts = Some pst ->
  Frame.chartReveal opts > 0.9 ->
  drawLine_pts (Frame.lineArgs layout palette opts) = Some ps ->
  lastOf ps = Some lastPt ->
  let burstIntensity :=
    spawnOnSwing_burst pst (Frame.momentum opts) (fst lastPt) (snd lastPt)
      (Frame.swingMagnitude opts) (line palette) (Frame.dt opts)
      (Frame.particleOptions opts) in
  burstIntensity > 0 ->
  snd (Frame.drawFrame layout palette opts random1 random2 c)
  = Some {| amplitude := (3 + Frame.swingMagnitude opts * 4) * burstIntensity |}.
Proof.
  intros Hs Hp Hr Hpts Hlast burst Hb.
  destruct (drawFrame_shake_result random1 random2 c) as [c0 ->].
  rewrite frame_layers_shake, Hpts, Hlast, Hp, (Rgtb_true _ _ Hr), Hs.
  fold burst. rewrite (Rgtb_true _ _ Hb). reflexivity.
Qed.

(** X5: otherwise the shake state only decays.  [drawFrame] never makes a
    shake state out of none; and with no particle state, or at
    [reveal <= 0.9], or when [drawLine] hands back no point, or when
    [spawnOnSwing] returns no positive intensity, the state after the frame
    is the state decayed by one tick. *)
Theorem drawFrame_shake_only_decays (random1 random2 : R) (c : Ctx) :
  (Frame.shakeState opts = None ->
   snd (Frame.drawFrame layout palette opts random1 random2 c) = None) /\
  (Frame.particleState opts = None \/
   ~ Frame.chartReveal opts > 0.9 \/
   match drawLine_pts (Frame.lineArgs layout palette opts) with
   | Some ps => lastOf ps = None
   | None => True
   end \/
   (forall pst x y,
      ~ spawnOnSwing_burst pst (Frame.momentum opts) x y
          (Frame.swingMagnitude opts) (line palette) (Frame.dt opts)
          (Frame.particleOptions opts) > 0) ->
   snd (Frame.drawFrame layout palette opts random1 random2 c)
   = match Frame.shakeState opts with
     | Some s => Some (decayShake (Frame.dt opts) s)
     | None => None
     end).
Proof.
  destruct (drawFrame_shake_result random1 random2 c) as [c0 ->].
  rewrite frame_layers_shake. split.
  - intros ->.
    destruct (drawLine_pts _) as [ps|]; [|reflexivity].
    destruct (lastOf ps) as [lastPt|]; [|reflexivity].
    destruct (Frame.particleState opts) as [pst|]; [|reflexivity].
    destruct (Rgtb (Frame.chartReveal opts) 0.9); reflexivity.
  - intros H.
    destruct (drawLine_pts _) as [ps|]; [|reflexivity].
    destruct (lastOf ps) as [lastPt|]; [|reflexivity].
    destruct (Frame.particleState opts) as [pst|]; [|reflexivity].
    destruct H as [H|[H|[H|H]]]; [discriminate H | | discriminate H |].
    + rewrite (Rgtb_false _ _ H). reflexivity.
    + destruct (Rgtb (Frame.chartReveal opts) 0.9); [|reflexivity].
      destruct (Frame.shakeState opts) as [s|]; [|reflexivity].
      rewrite (Rgtb_false _ _ (H pst (fst lastPt) (snd lastPt))).
      reflexivity.
Qed.

End FrameShakeState.

Lemma drawFrame_unarmed_untranslated_witness :
  stack (fst (Frame.drawFrame Sample.layout Sample.palette
                (Sample.frameOptions 1 0) 0 0 Sample.blank))
  = stack Sample.blank.
Proof.
  refine (proj1 (drawFrame_unarmed_untranslated Sample.layout Sample.palette
                   (Sample.frameOptions 1 0) 0 0 Sample.blank _)).
  intros s Hs. inversion Hs; subst. unfold SHAKE_MIN_AMPLITUDE. simpl. lra.
Defined.

Lemma drawFrame_burst_rearms_shake_witness :
  snd (Frame.drawFrame Sample.layout Sample.palette Sample2.frameOptions
         0 0 Sample2.blank)
  = Some {| amplitude := (3 + 1 * 4) * (1 / 2) |}.
Proof.
  apply (drawFrame_burst_rearms_shake Sample.layout Sample.palette
           Sample2.frameOptions 0 0 Sample2.blank
           {| amplitude := 0 |} tt [(120, 80); (300, 60)] (300, 60));
    try reflexivity; simpl; lra.
Defined.

Lemma drawFrame_shake_only_decays_witness :
  snd (Frame.drawFrame Sample.layout Sample.palette
         (Sample.frameOptions 1 10) 0 0 Sample.blank)
  = Some (decayShake 16 {| amplitude := 10 |}).
Proof.
  apply (proj2 (drawFrame_shake_only_decays Sample.layout Sample.palette
                  (Sample.frameOptions 1 10) 0 0 Sample.blank)).
  left. reflexivity.
Defined.

(* ------------------------------------------------------------------ *)
(** ** [drawFrame]: which layers are drawn *)

Ltac names_apart :=
  apply allows_not_in; intros n Hn Hin; simpl in Hn, Hin;
  repeat match goal with
  | H : _ \/ _ |- _ => destruct H
  | H : False |- _ => contradiction
  end; subst; discriminate.

Section FrameGating.

Context {E : Externals}.
Variables (layout : ChartLayout) (palette : LivelinePalette)
          (opts : Frame.DrawOptions).
Variable Q : Call -> Prop.

(** The layers log calls in [Q] when each layer does. *)
Lemma frame_layers_emits_by_layer shake (c : Ctx) :
  allows Q ["ctx"; "drawLine"]%string ->
  (forall c, emits Q c (Frame.referenceLineLayer layout palette opts c)) ->
  (forall c, emits Q c (Frame.gridLayer layout palette opts c)) ->
  (forall c, emits Q c (Frame.orderbookLayer layout palette opts c)) ->
  (forall c, emits Q c (Frame.timeAxisLayer layout palette opts c)) ->
  (forall ps p c,
     drawLine_pts (Frame.lineArgs layout palette opts) = Some ps ->
     lastOf ps = Some p ->
     emits Q c (Frame.dotLayer layout palette opts p c)) ->
  (forall ps p c,
     drawLine_pts (Frame.lineArgs layout palette opts) = Some ps ->
     lastOf ps = Some p ->
     emits Q c (Frame.arrowsLayer palette opts p c)) ->
  (forall ps p s c,
     drawLine_pts (Frame.lineArgs layout palette opts) = Some ps ->
     lastOf ps = Some p ->
     emits Q c (fst (Frame.particlesLayer palette opts p s c))) ->
  (forall c,
     emits Q c (Frame.crosshairLayer layout palette opts
                  (drawLine_pts (Frame.lineArgs layout palette opts)) c)) ->
  emits Q c (fst (Frame.layers layout palette opts shake c)).
Proof.
  intros HQ Href Hgrid Hbook Htime Hdot Harrows Hpart Hcross.
  assert (Hctx : allows Q ["ctx"%string]).
  { intros k Hk. apply HQ. simpl in *. tauto. }
  unfold Frame.layers, Frame.lineLayer, drawLine; cbv zeta. cbv beta iota.
  set (c1 := Frame.barsOverlayLayer layout palette opts _).
  assert (H1 : emits Q c c1).
  { unfold c1.
    eapply emits_trans;
      [|unfold Frame.barsOverlayLayer; apply barsOverlay_emits; exact Hctx].
    eapply emits_trans; [|apply Hbook].
    eapply emits_trans; [apply Href | apply Hgrid]. }
  set (c2 := call _ c1).
  assert (H2 : emits Q c c2).
  { apply emits_call; [exact H1|]. apply HQ. simpl. tauto. }
  assert (H3 : emits Q c (Frame.timeAxisLayer layout palette opts c2)).
  { eapply emits_trans; [exact H2 | apply Htime]. }
  assert (Hend : forall c4, emits Q c c4 ->
    emits Q c (Frame.crosshairLayer layout palette opts
                 (drawLine_pts (Frame.lineArgs layout palette opts))
                 (leftEdgeFade layout
                    (Frame.barsDefaultLayer layout palette opts c4)))).
  { intros c4 H4.
    eapply emits_trans; [|apply Hcross].
    eapply emits_trans; [|apply leftEdgeFade_emits; exact Hctx].
    eapply emits_trans; [exact H4|].
    unfold Frame.barsDefaultLayer. apply barsDefault_emits; exact Hctx. }
  destruct (drawLine_pts (Frame.lineArgs layout palette opts)) as [ps|] eqn:Hpts;
    [destruct (lastOf ps) as [lastPt|] eqn:Hlast|].
  - pose proof (Hpart ps lastPt shake
                  (Frame.arrowsLayer palette opts lastPt
                     (Frame.dotLayer layout palette opts lastPt
                        (Frame.timeAxisLayer layout palette opts c2)))
                  eq_refl Hlast) as Hp.
    destruct (Frame.particlesLayer palette opts lastPt shake _) as [c4 s4].
    simpl in *. apply Hend.
    eapply emits_trans; [exact H3|].
    eapply emits_trans; [apply (Hdot ps lastPt _ eq_refl Hlast)|].
    eapply emits_trans; [apply (Harrows ps lastPt _ eq_refl Hlast) | exact Hp].
  - simpl. apply Hend. exact H3.
  - simpl. apply Hend. exact H3.
Qed.

Lemma drawFrame_newCalls (random1 random2 : R) (c : Ctx) :
  (forall shake c0, emits Q c0 (fst (Frame.layers layout palette opts shake c0))) ->
  Forall (fun e => Q (snd e))
    (newCalls c (fst (Frame.drawFrame layout palette opts random1 random2 c))).
Proof.
  intros H.
  destruct (drawFrame_log layout palette opts random1 random2 c)
    as (c0 & shake & L0 & LF).
  assert (El : newCalls c (fst (Frame.drawFrame layout palette opts
                                  random1 random2 c))
               = newCalls c0 (fst (Frame.layers layout palette opts shake c0))).
  { unfold newCalls. rewrite LF, L0. reflexivity. }
  rewrite El. apply (emits_newCalls Q). apply H.
Qed.

End FrameGating.

Section FrameGatingTheorems.

Context {E : Externals}.
Variables (layout : ChartLayout) (palette : LivelinePalette)
          (opts : Frame.DrawOptions).

Ltac generic_layer :=
  intros;
  first
    [ apply frame_referenceLine_emits; names_apart
    | apply frame_grid_emits; names_apart
    | apply frame_orderbook_emits; names_apart
    | apply frame_timeAxis_emits; names_apart
    | apply frame_dot_emits; names_apart
    | apply frame_arrows_emits; names_apart
    | apply frame_particles_emits; names_apart
    | apply frame_crosshair_emits; names_apart ].

Lemma frame_crosshair_no_points (pts : option (list Point)) (c : Ctx) :
  pts = None \/ pts = Some [] ->
  Frame.crosshairLayer layout palette opts pts c = c.
Proof.
  intros [->| ->]; unfold Frame.crosshairLayer;
    destruct (Frame.hoverX opts), (Frame.hoverValue opts),
      (Frame.hoverTime opts); reflexivity.
Qed.

(** X6: when [drawLine] hands back no point (undefined or an empty array),
    [drawFrame] calls none of [drawDot], [drawArrows], [spawnOnSwing],
    [drawParticles] and [drawCrosshair]. *)
Theorem drawFrame_without_points (random1 random2 : R) (c : Ctx) :
  drawLine_pts (Frame.lineArgs layout palette opts) = None \/
  drawLine_pts (Frame.lineArgs layout palette opts) = Some [] ->
  noCallTo ["drawDot"; "drawArrows"; "spawnOnSwing"; "drawParticles";
            "drawCrosshair"]%string
    (newCalls c (fst (Frame.drawFrame layout palette opts random1 random2 c))).
Proof.
  intros Hpts.
  apply (drawFrame_newCalls layout palette opts
           (fun k => ~ In (callee k)
                       ["drawDot"; "drawArrows"; "spawnOnSwing";
                        "drawParticles"; "drawCrosshair"]%string)).
  intros shake c0.
  assert (Hno : forall ps p,
            drawLine_pts (Frame.lineArgs layout palette opts) = Some ps ->
            lastOf ps = Some p -> False).
  { intros ps p H1 H2. destruct Hpts as [H|H]; rewrite H in H1.
    - discriminate.
    - inversion H1; subst. discriminate. }
  apply frame_layers_emits_by_layer; try generic_layer.
  - names_apart.
  - intros ps p c1 H1 H2. destruct (Hno ps p H1 H2).
  - intros ps p c1 H1 H2. destruct (Hno ps p H1 H2).
  - intros ps p s c1 H1 H2. destruct (Hno ps p H1 H2).
  - intros c1. rewrite frame_crosshair_no_points by exact Hpts.
    apply emits_refl.
Qed.

Lemma frame_scrubOpacity_small (lastPt : Point) (hx : R) :
  ~ Frame.scrubAmount opts > 0.01 ->
  ~ Frame.scrubOpacityOf layout opts lastPt hx > 0.01.
Proof.
  intros Hs. unfold Frame.scrubOpacityOf, CROSSHAIR_FADE_MIN_PX; cbv zeta.
  unfold Rltb, Rgeb.
  destruct (Rlt_dec (fst lastPt - hx) 5) as [H5|H5]; [lra|].
  destruct (Rge_dec (fst lastPt - hx) (Rmin 80 (chartW layout * 0.3)))
    as [HF|HF]; [exact Hs|].
  set (d := fst lastPt - hx) in *.
  set (F := Rmin 80 (chartW layout * 0.3)) in *.
  assert (Hpos : 0 < F - 5) by lra.
  assert (Hr : 0 <= (d - 5) / (F - 5) < 1).
  { split.
    - apply Rmult_le_pos; [lra|]. left. apply Rinv_0_lt_compat. exact Hpos.
    - apply Rmult_lt_reg_r with (F - 5); [exact Hpos|].
      unfold Rdiv. rewrite Rmult_assoc, Rinv_l by lra. lra. }
  destruct (Rle_lt_dec (Frame.scrubAmount opts) 0); nra.
Qed.

(** X7: the single-series crosshair is suppressed when a hover field is
    null, when [scrubAmount <= 0.01], and when the hover x is less than 5 px
    left of the live point (or right of it). *)
Theorem drawFrame_crosshair_suppressed (random1 random2 : R) (c : Ctx) :
  Frame.hoverX opts = None \/
  Frame.hoverValue opts = None \/
  Frame.hoverTime opts = None \/
  ~ Frame.scrubAmount opts > 0.01 \/
  (forall hx ps p,
     Frame.hoverX opts = Some hx ->
     drawLine_pts (Frame.lineArgs layout palette opts) = Some ps ->
     lastOf ps = Some p ->
     fst p - hx < CROSSHAIR_FADE_MIN_PX) ->
  noCallTo ["drawCrosshair"%string]
    (newCalls c (fst (Frame.drawFrame layout palette opts random1 random2 c))).
Proof.
  intros H.
  apply (drawFrame_newCalls layout palette opts
           (fun k => ~ In (callee k) ["drawCrosshair"%string])).
  intros shake c0.
  apply frame_layers_emits_by_layer; try generic_layer.
  - names_apart.
  - intros c1.
    assert (Hid : Frame.crosshairLayer layout palette opts
                    (drawLine_pts (Frame.lineArgs layout palette opts)) c1 = c1).
    { unfold Frame.crosshairLayer.
      destruct (Frame.hoverX opts) as [hx|] eqn:Hx; [|reflexivity].
      destruct (Frame.hoverValue opts) as [hv|] eqn:Hv; [|reflexivity].
      destruct (Frame.hoverTime opts) as [ht|] eqn:Ht; [|reflexivity].
      destruct (drawLine_pts _) as [ps|] eqn:Hpts; [|reflexivity].
      destruct (lastOf ps) as [p|] eqn:Hp; [|reflexivity].
      cbv zeta. rewrite Rgtb_false; [reflexivity|].
      destruct H as [H|[H|[H|[H|H]]]]; try discriminate H.
      - apply frame_scrubOpacity_small. exact H.
      - pose proof (H hx ps p eq_refl eq_refl Hp) as H5.
        unfold Frame.scrubOpacityOf; cbv zeta.
        rewrite (Rltb_true _ _ H5). lra. }
    rewrite Hid. apply emits_refl.
Qed.

Lemma revealRamp_unit (reveal start end_ : R) :
  0 <= revealRamp reveal start end_ <= 1.
Proof.
  unfold revealRamp; cbv zeta.
  pose proof (clamp_bounds ((reveal - start) / (end_ - start))) as [H0 H1].
  set (t := Rmax 0 (Rmin 1 ((reveal - start) / (end_ - start)))) in *.
  split; [nra|].
  pose proof (smooth_mono t 1 H0 H1 (Rle_refl 1)). lra.
Qed.

(** X8: the live decorations of [drawFrame].  No arrow is drawn when
    momentum is off or the chart is paused to 0.99 or more; the particle
    system is touched only with a particle state and past [reveal > 0.9];
    the dot is not drawn up to [reveal = 0.307], and the pulse flag passed to
    [drawDot] is off whenever the pulse option is off, [reveal <= 0.6] or
    [pause >= 0.5]. *)
Theorem drawFrame_live_decorations (random1 random2 : R) (c : Ctx) :
  let l := newCalls c (fst (Frame.drawFrame layout palette opts
                              random1 random2 c)) in
  (Frame.showMomentum opts = false \/ Frame.pauseProgress opts >= 0.99 ->
   noCallTo ["drawArrows"%string] l) /\
  (Frame.particleState opts = None \/ ~ Frame.chartReveal opts > 0.9 ->
   noCallTo ["spawnOnSwing"; "drawParticles"]%string l) /\
  (Frame.chartReveal opts <= 0.307 -> noCallTo ["drawDot"%string] l) /\
  (Frame.showPulse opts = false \/ ~ Frame.chartReveal opts > 0.6 \/
   ~ Frame.pauseProgress opts < 0.5 ->
   Forall (fun e => forall x y p sp d nm,
             snd e = DrawDot x y p sp d nm -> sp = false) l).
Proof.
  intros l. unfold l. split; [|split; [|split]].
  - intros H.
    apply (drawFrame_newCalls layout palette opts
             (fun k => ~ In (callee k) ["drawArrows"%string])).
    intros shake c0.
    apply frame_layers_emits_by_layer; try generic_layer.
    + names_apart.
    + intros ps p c1 _ _.
      assert (Hid : Frame.arrowsLayer palette opts p c1 = c1).
      { unfold Frame.arrowsLayer, Frame.reveal, Frame.pause; cbv zeta.
        destruct (Frame.showMomentum opts) eqn:Hm; [|reflexivity].
        destruct H as [H|H]; [discriminate H|].
        rewrite Rgtb_false; [reflexivity|].
        assert (Hr : 0 <= (if Rltb (Frame.chartReveal opts) 1
                           then revealRamp (Frame.chartReveal opts) 0.6 1
                           else 1) <= 1).
        { destruct (Rltb _ 1); [apply revealRamp_unit | lra]. }
        destruct (Rle_lt_dec (1 - Frame.pauseProgress opts) 0); nra. }
      rewrite Hid. apply emits_refl.
  - intros H.
    apply (drawFrame_newCalls layout palette opts
             (fun k => ~ In (callee k) ["spawnOnSwing"; "drawParticles"]%string)).
    intros shake c0.
    apply frame_layers_emits_by_layer; try generic_layer.
    + names_apart.
    + intros ps p s c1 _ _.
      assert (Hid : fst (Frame.particlesLayer palette opts p s c1) = c1).
      { unfold Frame.particlesLayer, Frame.reveal.
        destruct (Frame.particleState opts) as [pst|]; [|reflexivity].
        destruct H as [H|H]; [discriminate H|].
        rewrite (Rgtb_false _ _ H). reflexivity. }
      rewrite Hid. apply emits_refl.
  - intros H.
    apply (drawFrame_newCalls layout palette opts
             (fun k => ~ In (callee k) ["drawDot"%string])).
    intros shake c0.
    apply frame_layers_emits_by_layer; try generic_layer.
    + names_apart.
    + intros ps p c1 _ _.
      assert (Hid : Frame.dotLayer layout palette opts p c1 = c1).
      { unfold Frame.dotLayer, Frame.reveal; cbv zeta.
        rewrite Rgtb_false; [reflexivity|].
        unfold Rltb. destruct (Rlt_dec (Frame.chartReveal opts) 0.3); lra. }
      rewrite Hid. apply emits_refl.
  - intros H.
    apply (drawFrame_newCalls layout palette opts
             (fun k => forall x y p sp d nm,
                         k = DrawDot x y p sp d nm -> sp = false)).
    intros shake c0.
    assert (Hother : forall names,
              ~ In "drawDot"%string names ->
              allows (fun k : Call => forall x y p sp d nm,
                         k = DrawDot x y p sp d nm -> sp = false) names).
    { intros names Hn k Hk x y p sp d nm ->. simpl in Hk. contradiction. }
    apply frame_layers_emits_by_layer.
    + apply Hother. simpl. intuition discriminate.
    + intros. apply frame_referenceLine_emits, Hother. simpl. intuition discriminate.
    + intros. apply frame_grid_emits, Hother. simpl. intuition discriminate.
    + intros. apply frame_orderbook_emits, Hother. simpl. intuition discriminate.
    + intros. apply frame_timeAxis_emits, Hother. simpl. intuition discriminate.
    + intros ps p c1 _ _. unfold Frame.dotLayer, Frame.reveal, Frame.pause;
        cbv zeta. peel.
      intros x y p0 sp d nm Hk. inversion Hk; subst.
      destruct H as [H|[H|H]].
      * rewrite H. reflexivity.
      * rewrite (Rgtb_false _ _ H). apply andb_false_iff. left.
        apply andb_false_r.
      * rewrite (Rltb_false _ _ H). apply andb_false_r.
    + intros. apply frame_arrows_emits, Hother. simpl. intuition discriminate.
    + intros. apply frame_particles_emits, Hother. simpl. intuition discriminate.
    + intros. apply frame_crosshair_emits, Hother. simpl. intuition discriminate.
Qed.

End FrameGatingTheorems.

Lemma drawFrame_without_points_witness :
  noCallTo ["drawDot"; "drawArrows"; "spawnOnSwing"; "drawParticles";
            "drawCrosshair"]%string
    (newCalls Sample2.noLineBlank
       (fst (Frame.drawFrame Sample.layout Sample.palette
               Sample2.noLineOptions 0 0 Sample2.noLineBlank))).
Proof.
  apply drawFrame_without_points. left. reflexivity.
Defined.

Lemma drawFrame_crosshair_suppressed_witness :
  noCallTo ["drawCrosshair"%string]
    (newCalls Sample.blank
       (fst (Frame.drawFrame Sample.layout Sample.palette
               (Sample.frameOptions 1 0) 0 0 Sample.blank))).
Proof.
  apply drawFrame_crosshair_suppressed. left. reflexivity.
Defined.

(* ------------------------------------------------------------------ *)
(** ** [drawMultiFrame] and [drawCandleFrame]: stack and translation *)

Section ComposerBalance.

Context {E : Externals}.

Lemma emits_balance (c c' : Ctx) :
  emits (fun _ => True) c c' ->
  stack c' = stack c /\
  sameTransform (cur c') (cur c) /\
  Forall (fun e => sameTransform (fst e) (cur c)) (newCalls c c').
Proof.
  intros (Hc & Hs & l & Hl & Hf).
  split; [exact Hs|]. split; [rewrite Hc; apply sameTransform_refl|].
  rewrite (newCalls_app _ _ _ Hl).
  eapply Forall_impl; [|exact Hf]. intros e [H _]. exact H.
Qed.

(** X9: [drawMultiFrame] and [drawCandleFrame] undo every save they do:
    they return with the save stack and the translation they were entered
    with, and every call of theirs is made under that translation. *)
Theorem multi_and_candle_frames_balanced
    (layout : ChartLayout) (palette : LivelinePalette)
    (mopts : MultiFrame.MultiSeriesDrawOptions)
    (copts : CandleFrame.CandleDrawOptions) (c : Ctx) :
  let cm := MultiFrame.drawMultiFrame layout mopts c in
  let cc := CandleFrame.drawCandleFrame layout palette copts c in
  (stack cm = stack c /\ sameTransform (cur cm) (cur c) /\
   Forall (fun e => sameTransform (fst e) (cur c)) (newCalls c cm)) /\
  (stack cc = stack c /\ sameTransform (cur cc) (cur c) /\
   Forall (fun e => sameTransform (fst e) (cur c)) (newCalls c cc)).
Proof.
  intros cm cc. split; apply emits_balance.
  - apply multi_frame_emits; [apply allows_True|].
    intros c'. apply multi_crosshair_emits, allows_True.
  - destruct (candle_frame_split layout palette copts (fun _ => True) c)
      as (c2 & c8 & H2 & H8 & H9 & EF).
    + apply allows_True.
    + intros c0. apply candle_grid_emits, allows_True.
    + intros c0. apply candle_candles_emits, allows_True.
    + intros p c0. apply candle_liveDot_emits, allows_True.
    + unfold cc. rewrite EF.
      eapply emits_trans; [|apply candle_crosshair_emits, allows_True].
      eapply emits_trans; [|exact H9].
      eapply emits_trans; [|apply leftEdgeFade_emits, allows_True].
      eapply emits_trans; [|exact H8].
      eapply emits_trans; [exact H2|].
      apply candle_line_emits, allows_True.
Qed.

End ComposerBalance.

(* ------------------------------------------------------------------ *)
(** ** [drawMultiFrame]: the collected series *)

Section MultiCollectedFacts.

Context {E : Externals}.
Variables (layout : ChartLayout) (opts : MultiFrame.MultiSeriesDrawOptions).
Hypothesis Hreveal : 0 <= MultiFrame.chartReveal opts.

Lemma collectedFrom_incl ss ss' e :
  incl ss ss' -> collectedFrom layout opts ss e -> collectedFrom layout opts ss' e.
Proof.
  intros Hi (H1 & H2 & s & Hs & H3). split; [exact H1|]. split; [exact H2|].
  exists s. split; [apply Hi; exact Hs | exact H3].
Qed.

Lemma multi_drawSeries_collects si s (c : Ctx) acc :
  exists new,
    snd (MultiFrame.drawSeries layout opts si s (c, acc)) = acc ++ new /\
    Forall (collectedFrom layout opts [s]) new /\
    (List.length new <= 1)%nat.
Proof.
  unfold MultiFrame.drawSeries, drawLine; cbv zeta.
  destruct (Rltb _ 0.01) eqn:Hlow.
  - exists []. cbn [snd]. rewrite app_nil_r.
    split; [reflexivity|]. split; [constructor | simpl; auto].
  - cbv beta iota.
    destruct (drawLine_pts _) as [[|p ps]|] eqn:Hpts; cbn [snd].
    + exists []. rewrite app_nil_r.
      split; [reflexivity|]. split; [constructor | simpl; auto].
    + eexists. split; [reflexivity|]. split; [|simpl; auto].
      constructor; [|constructor].
      split; [simpl; discriminate|]. split.
      * simpl. apply Rltb_false_inv in Hlow.
        pose proof (secondaryFade_range opts si Hreveal) as Hf.
        intros Ha. apply Hlow.
        destruct (Rle_lt_dec (MultiFrame.seriesAlphaOf s) 0); nra.
      * exists s. simpl. repeat split; auto.
    + exists []. rewrite app_nil_r.
      split; [reflexivity|]. split; [constructor | simpl; auto].
Qed.

Lemma multi_seriesLoop_collects ss : forall si (c : Ctx) acc,
  exists new,
    snd (MultiFrame.seriesLoop layout opts si ss (c, acc)) = acc ++ new /\
    Forall (collectedFrom layout opts ss) new /\
    (List.length new <= List.length ss)%nat.
Proof.
  induction ss as [|s rest IH]; intros si c acc.
  - exists []. simpl. rewrite app_nil_r.
    split; [reflexivity|]. split; [constructor | auto].
  - change (MultiFrame.seriesLoop layout opts si (s :: rest) (c, acc))
      with (MultiFrame.seriesLoop layout opts (S si) rest
              (MultiFrame.drawSeries layout opts si s (c, acc))).
    destruct (multi_drawSeries_collects si s c acc) as (n1 & E1 & F1 & L1).
    destruct (MultiFrame.drawSeries layout opts si s (c, acc)) as [c1 acc1].
    cbn [snd] in E1. subst acc1.
    destruct (IH (S si) c1 (acc ++ n1)) as (n2 & E2 & F2 & L2).
    exists (n1 ++ n2). split; [rewrite E2, app_assoc; reflexivity|]. split.
    + apply Forall_app. split.
      * eapply Forall_impl; [|exact F1].
        intros e. apply collectedFrom_incl. intros x [->|[]]. left. reflexivity.
      * eapply Forall_impl; [|exact F2].
        intros e. apply collectedFrom_incl. intros x Hx. right. exact Hx.
    + rewrite length_app. simpl. lia.
Qed.

End MultiCollectedFacts.

(** X10: the series collected by [drawMultiFrame].  With [reveal >= 0],
    every element of [allPts] has at least one point and a series alpha of
    0.01 or more, and carries the alpha, palette, label and pixel points of
    one of the series of the options; there are at most as many as series;
    each has a last point, and the rightmost live dot x is at least the last
    x of every collected series. *)
Theorem multi_collected_series_visible {E : Externals}
    (layout : ChartLayout) (opts : MultiFrame.MultiSeriesDrawOptions) (c : Ctx) :
  0 <= MultiFrame.chartReveal opts ->
  let allPts := snd (MultiFrame.seriesLoop layout opts 0
                       (MultiFrame.series opts) (c, [])) in
  Forall (collectedFrom layout opts (MultiFrame.series opts)) allPts /\
  (List.length allPts <= List.length (MultiFrame.series opts))%nat /\
  Forall (fun e => exists p, lastOf (MultiFrame.sp_pts e) = Some p /\
                             fst p <= MultiFrame.maxLiveDotXOf allPts) allPts.
Proof.
  intros Hr allPts.
  destruct (multi_seriesLoop_collects layout opts Hr (MultiFrame.series opts)
              0 c []) as (new & En & F & L).
  simpl in En. fold allPts in En. rewrite <- En in F, L.
  split; [exact F|]. split; [exact L|].
  destruct (maxLiveDotX_loop allPts 0) as (_ & Hub & _).
  rewrite Forall_forall in *. intros e He.
  destruct (F e He) as (Hne & Hvis & _).
  destruct (lastOf (MultiFrame.sp_pts e)) as [p|] eqn:Hp.
  - exists p. split; [reflexivity|]. eapply Hub; eassumption.
  - exfalso. unfold lastOf in Hp.
    destruct (rev (MultiFrame.sp_pts e)) eqn:Hrev; [|discriminate].
    apply Hne. rewrite <- (rev_involutive (MultiFrame.sp_pts e)), Hrev.
    reflexivity.
Qed.

Lemma multi_collected_series_visible_witness :
  (List.length (snd (MultiFrame.seriesLoop Sample.layout (Sample.multiOptions 1) 0
                       (MultiFrame.series (Sample.multiOptions 1))
                       (Sample.blank, []))) <= 2)%nat.
Proof.
  assert (Hr : 0 <= MultiFrame.chartReveal (Sample.multiOptions 1))
    by (simpl; lra).
  exact (proj1 (proj2 (multi_collected_series_visible Sample.layout
                         (Sample.multiOptions 1) Sample.blank Hr))).
Defined.

(* ------------------------------------------------------------------ *)
(** ** [drawMultiFrame]: which layers are drawn *)

Section MultiGating.

Context {E : Externals}.
Variables (layout : ChartLayout) (opts : MultiFrame.MultiSeriesDrawOptions).

Lemma multi_frame_emits_by_layer (Q : Call -> Prop) (c : Ctx) :
  allows Q ["ctx"; "drawReferenceLine"; "drawGrid"; "drawLine";
            "drawTimeAxis"]%string ->
  (forall c', emits Q c'
     (MultiFrame.endpointsLayer opts
        (snd (MultiFrame.seriesLoop layout opts 0 (MultiFrame.series opts)
                (c, []))) c')) ->
  (forall c', emits Q c'
     (MultiFrame.crosshairLayer layout opts
        (snd (MultiFrame.seriesLoop layout opts 0 (MultiFrame.series opts)
                (c, []))) c')) ->
  emits Q c (MultiFrame.drawMultiFrame layout opts c).
Proof.
  intros HQ Hend Hcross.
  assert (Hctx : allows Q ["ctx"%string]).
  { intros k Hk. apply HQ. simpl in *. tauto. }
  unfold MultiFrame.drawMultiFrame; cbv zeta.
  set (c2 := MultiFrame.gridLayer layout opts
               (MultiFrame.referenceLineLayer layout opts c)).
  assert (H2 : emits Q c c2).
  { unfold c2.
    eapply emits_trans; [apply multi_referenceLine_emits|apply multi_grid_emits].
    all: intros k Hk; apply HQ; simpl in *; tauto. }
  pose proof (multi_seriesLoop_emits layout opts Q (MultiFrame.series opts)
                0 c2 []) as H3.
  pose proof (multi_allPts_indep layout opts (MultiFrame.series opts) 0 c2 c [])
    as Hind.
  destruct (MultiFrame.seriesLoop layout opts 0 (MultiFrame.series opts) (c2, []))
    as [c3 allPts].
  cbn [fst snd] in *. rewrite <- Hind in Hend, Hcross.
  eapply emits_trans; [|apply Hcross].
  eapply emits_trans; [|apply leftEdgeFade_emits; exact Hctx].
  eapply emits_trans; [|apply Hend].
  eapply emits_trans; [|apply multi_timeAxis_emits].
  eapply emits_trans; [exact H2 | apply H3].
  all: intros k Hk; apply HQ; simpl in *; tauto.
Qed.

Lemma multi_seriesLoop_nil (c : Ctx) :
  MultiFrame.series opts = [] ->
  snd (MultiFrame.seriesLoop layout opts 0 (MultiFrame.series opts) (c, [])) = [].
Proof. intros ->. reflexivity. Qed.

(** X11: the hover and dot layers of [drawMultiFrame].  The crosshair is
    not drawn when the hover x or time is null, when there is no hover
    entry, when [scrubAmount <= 0.01], or when there is no series; no
    endpoint dot is drawn at [reveal <= 0.3] or without series; and the
    pulsing dot is never used when the pulse option is off, at
    [reveal <= 0.6], or at [pause >= 0.5]. *)
Theorem drawMultiFrame_hover_and_dots (c : Ctx) :
  let l := newCalls c (MultiFrame.drawMultiFrame layout opts c) in
  (MultiFrame.hoverX opts = None \/ MultiFrame.hoverTime opts = None \/
   MultiFrame.hoverEntries opts = [] \/
   ~ MultiFrame.scrubAmount opts > 0.01 \/
   MultiFrame.series opts = [] ->
   noCallTo ["drawMultiCrosshair"%string] l) /\
  (~ MultiFrame.chartReveal opts > 0.3 \/ MultiFrame.series opts = [] ->
   noCallTo ["drawMultiDot"; "drawSimpleDot"]%string l) /\
  (MultiFrame.showPulse opts = false \/
   ~ MultiFrame.chartReveal opts > 0.6 \/
   ~ MultiFrame.pauseProgress opts < 0.5 ->
   noCallTo ["drawMultiDot"%string] l).
Proof.
  intros l. unfold l. split; [|split].
  - intros H.
    apply (emits_newCalls
             (fun k => ~ In (callee k) ["drawMultiCrosshair"%string])).
    apply multi_frame_emits_by_layer.
    + names_apart.
    + intros c'. apply multi_endpoints_emits. names_apart.
    + intros c'.
      assert (Hid : MultiFrame.crosshairLayer layout opts
                (snd (MultiFrame.seriesLoop layout opts 0
                        (MultiFrame.series opts) (c, []))) c' = c').
      { unfold MultiFrame.crosshairLayer.
        destruct (MultiFrame.hoverX opts) as [hx|]; [|reflexivity].
        destruct (MultiFrame.hoverTime opts) as [ht|]; [|reflexivity].
        destruct (MultiFrame.hoverEntries opts) as [|he hes]; [reflexivity|].
        destruct H as [H|[H|[H|[H|H]]]]; try discriminate H.
        - rewrite (Rgtb_false _ _ H).
          destruct (snd _); reflexivity.
        - rewrite (multi_seriesLoop_nil c H). reflexivity. }
      rewrite Hid. apply emits_refl.
  - intros H.
    apply (emits_newCalls
             (fun k => ~ In (callee k) ["drawMultiDot"; "drawSimpleDot"]%string)).
    apply multi_frame_emits_by_layer.
    + names_apart.
    + intros c'.
      assert (Hid : MultiFrame.endpointsLayer opts
                (snd (MultiFrame.seriesLoop layout opts 0
                        (MultiFrame.series opts) (c, []))) c' = c').
      { unfold MultiFrame.endpointsLayer, MultiFrame.reveal.
        destruct H as [H|H].
        - rewrite (Rgtb_false _ _ H). destruct (snd _); reflexivity.
        - rewrite (multi_seriesLoop_nil c H). reflexivity. }
      rewrite Hid. apply emits_refl.
    + intros c'. apply multi_crosshair_emits. names_apart.
  - intros H.
    apply (emits_newCalls (fun k => ~ In (callee k) ["drawMultiDot"%string])).
    apply multi_frame_emits_by_layer.
    + names_apart.
    + intros c'. unfold MultiFrame.endpointsLayer, MultiFrame.reveal; cbv zeta.
      destruct (snd _) as [|e0 es]; [apply emits_refl|].
      destruct (Rgtb (MultiFrame.chartReveal opts) 0.3); [|apply emits_refl].
      apply fold_emits. intros entry c0.
      assert (Hp : MultiFrame.showPulse opts
                   && Rgtb (MultiFrame.chartReveal opts) 0.6
                   && Rltb (MultiFrame.pauseProgress opts) 0.5 = false).
      { destruct H as [H|[H|H]].
        - rewrite H. reflexivity.
        - rewrite (Rgtb_false _ _ H). rewrite andb_false_r. reflexivity.
        - rewrite (Rltb_false _ _ H). apply andb_false_r. }
      rewrite Hp. unfold MultiFrame.drawEndpoint; cbv zeta.
      cbn [andb]. peel; intros Hin; simpl in Hin;
        repeat (destruct Hin as [Hin|Hin]; try discriminate Hin); contradiction.
    + intros c'. apply multi_crosshair_emits. names_apart.
Qed.

End MultiGating.

(* ------------------------------------------------------------------ *)
(** ** The candle composer: blend factors *)

Lemma lp_candleAlpha_range (lineModeProg reveal : R) :
  0 <= lineModeProg <= 1 -> 0 <= reveal <= 1 ->
  0 <= lp lineModeProg reveal <= 1 /\
  0 <= candleAlpha lineModeProg reveal <= 1.
Proof.
  intros Hm Hr.
  assert (Hrl : 0 <= revealLine lineModeProg reveal <= 1).
  { unfold revealLine. destruct (fullLineMode lineModeProg); [lra|].
    assert (0 <= (1 - reveal) * (1 - reveal) <= 1) by nra. nra. }
  assert (Hlp : 0 <= lp lineModeProg reveal <= 1).
  { unfold lp, Rmax. destruct (Rle_dec _ _); lra. }
  split; [exact Hlp|]. unfold candleAlpha. split; nra.
Qed.

(** X12: the line presence and the candle alpha are alphas.  For
    [lineModeProg] and [reveal] in [0,1]: [lp] lies in [0,1] and is at least
    [lineModeProg]; it is 1 at [reveal = 0] and [lineModeProg] at
    [reveal = 1]; in pure candle mode it is [(1 - reveal)^3]; the candle
    alpha [reveal * (1 - lp)] lies in [0,1] and is at most [reveal] and at
    most [1 - lineModeProg]. *)
Theorem lp_and_candleAlpha_are_alphas (lineModeProg reveal : R) :
  0 <= lineModeProg <= 1 ->
  0 <= reveal <= 1 ->
  0 <= lp lineModeProg reveal <= 1 /\
  lineModeProg <= lp lineModeProg reveal /\
  lp lineModeProg 0 = 1 /\
  lp lineModeProg 1 = lineModeProg /\
  lp 0 reveal = (1 - reveal) * (1 - reveal) * (1 - reveal) /\
  0 <= candleAlpha lineModeProg reveal <= 1 /\
  candleAlpha lineModeProg reveal <= reveal /\
  candleAlpha lineModeProg reveal <= 1 - lineModeProg.
Proof.
  intros Hm Hr.
  assert (Hrl : 0 <= revealLine lineModeProg reveal <= 1).
  { unfold revealLine. destruct (fullLineMode lineModeProg); [lra|].
    assert (0 <= (1 - reveal) * (1 - reveal) <= 1) by nra. nra. }
  assert (Hlp : 0 <= lp lineModeProg reveal <= 1 /\
                lineModeProg <= lp lineModeProg reveal).
  { unfold lp, Rmax. destruct (Rle_dec _ _); lra. }
  destruct Hlp as [Hlp Hge].
  split; [exact Hlp|]. split; [exact Hge|]. split; [|split; [|split]].
  - unfold lp. rewrite revealLine_at_0. unfold Rmax.
    destruct (Rle_dec lineModeProg 1); lra.
  - unfold lp, revealLine. unfold Rmax.
    destruct (fullLineMode lineModeProg); destruct (Rle_dec _ _); lra.
  - unfold lp, revealLine, fullLineMode. rewrite Rgeb_false by lra.
    assert (0 <= (1 - reveal) * (1 - reveal)) by nra.
    unfold Rmax. destruct (Rle_dec _ _); nra.
  - unfold candleAlpha. split; [split|split]; nra.
Qed.

Lemma lp_and_candleAlpha_are_alphas_witness :
  0 <= candleAlpha 0.5 0.5 <= 1.
Proof.
  assert (H : 0 <= 0.5 <= 1) by lra.
  destruct (lp_and_candleAlpha_are_alphas 0.5 0.5 H H)
    as (_ & _ & _ & _ & _ & X & _).
  exact X.
Defined.

(** X13: the OHLC collapse is an interpolation toward the close.  For
    [ohlcScale] in [0,1], each of open, high and low of the collapsed candle
    lies between the close and its value before; at scale 0 the candle is
    flat at its close, from scale 0.99 on it is untouched; and a candle that
    closes at or above its open still does, as does one that closes at or
    below. *)
Theorem collapseC_interpolates (s : R) (c : CandlePoint) :
  0 <= s <= 1 ->
  let c' := collapseC s c in
  Rmin (close c) (open c) <= open c' <= Rmax (close c) (open c) /\
  Rmin (close c) (high c) <= high c' <= Rmax (close c) (high c) /\
  Rmin (close c) (low c) <= low c' <= Rmax (close c) (low c) /\
  (s = 0 -> open c' = close c /\ high c' = close c /\ low c' = close c) /\
  (s >= 0.99 -> c' = c) /\
  (open c <= close c -> open c' <= close c') /\
  (close c <= open c -> close c' <= open c').
Proof.
  intros Hs c'. unfold c', collapseC, Rgeb.
  destruct (Rge_dec s 0.99) as [Hb|Hb].
  - repeat split; try (intros; reflexivity); try assumption;
      try apply Rmin_r; try apply Rmax_r; intros; lra.
  - simpl.
    assert (B : forall v, Rmin (close c) v
                          <= close c + (v - close c) * s
                          <= Rmax (close c) v).
    { intros v. unfold Rmin, Rmax. destruct (Rle_dec (close c) v); split; nra. }
    split; [apply B|]. split; [apply B|]. split; [apply B|].
    split; [|split; [|split]].
    + intros ->. repeat split; ring.
    + intros Hge. contradiction.
    + intros H. nra.
    + intros H. nra.
Qed.

Lemma collapseC_interpolates_witness :
  open (collapseC 0.5 Sample.candle) <= close (collapseC 0.5 Sample.candle).
Proof.
  assert (Hs : 0 <= 0.5 <= 1) by lra.
  destruct (collapseC_interpolates 0.5 Sample.candle Hs)
    as (_ & _ & _ & _ & _ & H & _).
  apply H. simpl. lra.
Defined.

(** ** Assigning the alpha *)

Section AlphaFacts.

Context {E : Externals}.

Lemma cur_setGlobalAlpha (a : R) (c : Ctx) :
  0 <= a <= 1 -> cur (setGlobalAlpha a c) = withAlpha a (cur c).
Proof.
  intros [H0 H1]. unfold setGlobalAlpha.
  rewrite (Rleb_true _ _ H0), (Rleb_true _ _ H1). reflexivity.
Qed.

Lemma stack_setGlobalAlpha (a : R) (c : Ctx) :
  stack (setGlobalAlpha a c) = stack c.
Proof. unfold setGlobalAlpha. destruct (Rleb 0 a && Rleb a 1); reflexivity. Qed.

Lemma withAlpha_withAlpha (a a' : R) (st : DrawState) :
  withAlpha a (withAlpha a' st) = withAlpha a st.
Proof. reflexivity. Qed.

End AlphaFacts.

(* ------------------------------------------------------------------ *)
(** ** [drawCandleFrame]: which layers are drawn *)

Section CandleGating.

Context {E : Externals}.
Variables (layout : ChartLayout) (palette : LivelinePalette)
          (opts : CandleFrame.CandleDrawOptions).

(** The points handed to the live dot do not depend on the context. *)
Lemma candle_linePts_indep (c c' : Ctx) :
  fst (CandleFrame.lineLayer layout palette opts c)
  = fst (CandleFrame.lineLayer layout palette opts c').
Proof.
  unfold CandleFrame.lineLayer, drawLine; cbv zeta.
  destruct (Rgtb _ 0.01 && _); reflexivity.
Qed.

Lemma candle_frame_emits_by_layer (Q : Call -> Prop) (c : Ctx) :
  allows Q ["ctx"%string] ->
  (forall c, emits Q c (CandleFrame.gridLayer layout palette opts c)) ->
  (forall c, emits Q c (snd (CandleFrame.lineLayer layout palette opts c))) ->
  (forall c, emits Q c (CandleFrame.closePriceLayer layout palette opts c)) ->
  (forall c, emits Q c (CandleFrame.candlesLayer layout palette opts c)) ->
  (forall c', emits Q c'
     (CandleFrame.liveDotLayer palette opts
        (fst (CandleFrame.lineLayer layout palette opts c)) c')) ->
  (forall c, emits Q c (CandleFrame.timeAxisLayer layout palette opts c)) ->
  (forall c, emits Q c (CandleFrame.emptyOverlayLayer layout palette opts c)) ->
  (forall c, emits Q c (CandleFrame.crosshairLayer layout palette opts c)) ->
  emits Q c (CandleFrame.drawCandleFrame layout palette opts c).
Proof.
  intros Hctx Hgrid Hline Hclose Hcandles Hdot Htime Hempty Hcross.
  unfold CandleFrame.drawCandleFrame; cbv zeta.
  set (c2 := CandleFrame.barsOverlayLayer layout palette opts
               (CandleFrame.gridLayer layout palette opts c)).
  assert (H2 : emits Q c c2).
  { unfold c2. eapply emits_trans; [apply Hgrid|].
    unfold CandleFrame.barsOverlayLayer. apply barsOverlay_emits; exact Hctx. }
  pose proof (Hline c2) as H3.
  pose proof (candle_linePts_indep c2 c) as Hind.
  destruct (CandleFrame.lineLayer layout palette opts c2) as [linePts c3].
  cbn [fst snd] in *. rewrite <- Hind in Hdot.
  eapply emits_trans; [|apply Hcross].
  eapply emits_trans; [|apply Hempty].
  eapply emits_trans; [|apply leftEdgeFade_emits; exact Hctx].
  eapply emits_trans; [|apply Htime].
  eapply emits_trans; [|apply Hdot].
  eapply emits_trans;
    [|unfold CandleFrame.barsDefaultLayer; apply barsDefault_emits; exact Hctx].
  eapply emits_trans; [|apply Hcandles].
  eapply emits_trans; [|apply Hclose].
  eapply emits_trans; [exact H2 | exact H3].
Qed.

Ltac generic_layer :=
  intros;
  first
    [ apply candle_grid_emits; names_apart
    | apply candle_line_emits; names_apart
    | apply candle_closePrice_emits; names_apart
    | apply candle_candles_emits; names_apart
    | apply candle_liveDot_emits; names_apart
    | apply candle_timeAxis_emits; names_apart
    | apply candle_empty_emits; names_apart
    | apply candle_crosshair_emits; names_apart ].

(** X14: the crosshair of the candle composer.  No crosshair is drawn
    without a hovered candle, without a hover x, at [reveal <= 0.7] or at
    [scrubAmount <= 0.01].  With [lineModeProg <= 0.5] the line-mode
    crosshair is never called, and the candle crosshair is called with the
    hovered candle once [reveal > 0.7] and [scrubAmount > 0.01]. *)
Theorem drawCandleFrame_crosshair_dispatch (c : Ctx) :
  let l := newCalls c (CandleFrame.drawCandleFrame layout palette opts c) in
  (CandleFrame.hoveredCandle opts = None \/ CandleFrame.hoverX opts = None \/
   ~ CandleFrame.chartReveal opts > 0.7 \/
   ~ CandleFrame.scrubAmount opts > 0.01 ->
   noCallTo ["drawLineModeCrosshair"; "drawCandleCrosshair"]%string l) /\
  (~ CandleFrame.lineModeProg opts > 0.5 ->
   noCallTo ["drawLineModeCrosshair"%string] l /\
   forall hc hx,
     CandleFrame.chartReveal opts > 0.7 ->
     CandleFrame.hoveredCandle opts = Some hc ->
     CandleFrame.hoverX opts = Some hx ->
     CandleFrame.scrubAmount opts > 0.01 ->
     hasCall (DrawCandleCrosshair layout palette hx hc
                (match CandleFrame.hoverTime opts with
                 | Some t => t | None => 0 end)
                (CandleFrame.formatValue opts) (CandleFrame.formatTime opts)
                (CandleFrame.scrubAmount opts)) l).
Proof.
  intros l. unfold l. split.
  - intros H.
    apply (emits_newCalls
             (fun k => ~ In (callee k)
                         ["drawLineModeCrosshair"; "drawCandleCrosshair"]%string)).
    apply candle_frame_emits_by_layer; try generic_layer.
    + names_apart.
    + intros c1.
      assert (Hid : CandleFrame.crosshairLayer layout palette opts c1 = c1).
      { unfold CandleFrame.crosshairLayer.
        destruct (CandleFrame.hoveredCandle opts) as [hc|]; [|reflexivity].
        destruct (CandleFrame.hoverX opts) as [hx|]; [|reflexivity].
        destruct H as [H|[H|[H|H]]]; try discriminate H.
        - rewrite (Rgtb_false _ _ H). reflexivity.
        - rewrite (Rgtb_false _ _ H). rewrite andb_false_r. reflexivity. }
      rewrite Hid. apply emits_refl.
  - intros Hm. split.
    + apply (emits_newCalls
               (fun k => ~ In (callee k) ["drawLineModeCrosshair"%string])).
      apply candle_frame_emits_by_layer; try generic_layer.
      * names_apart.
      * intros c1. unfold CandleFrame.crosshairLayer; cbv zeta.
        rewrite (Rgtb_false _ _ Hm). peel.
        intros Hin. simpl in Hin. destruct Hin as [Hin|[]]. discriminate Hin.
    + intros hc hx Hrev Hc Hx Hs.
      destruct (drawCandleFrame_calls layout palette opts (fun _ => True) c)
        as (_ & _ & _ & c10 & X & EF).
      * apply allows_True.
      * intros c0. apply candle_grid_emits, allows_True.
      * intros c0. apply candle_candles_emits, allows_True.
      * intros p c0. apply candle_liveDot_emits, allows_True.
      * intros c0. apply candle_crosshair_emits, allows_True.
      * rewrite EF.
        assert (Hcall : CandleFrame.crosshairLayer layout palette opts c10
                  = call (DrawCandleCrosshair layout palette hx hc
                            (match CandleFrame.hoverTime opts with
                             | Some t => t | None => 0 end)
                            (CandleFrame.formatValue opts)
                            (CandleFrame.formatTime opts)
                            (CandleFrame.scrubAmount opts)) c10).
        { unfold CandleFrame.crosshairLayer; cbv zeta.
          rewrite Hc, Hx, (Rgtb_true _ _ Hrev), (Rgtb_true _ _ Hs),
            (Rgtb_false _ _ Hm). reflexivity. }
        rewrite Hcall.
        eapply Exists_newCalls_between with (c1 := c10);
          [exact X | apply extendsLog_call | apply extendsLog_refl |].
        rewrite newCalls_call. left. reflexivity.
Qed.

(** X15: the line, the dot, the close price and the empty overlay of the
    candle composer.  With fewer than two line points, or [lp <= 0.01],
    neither the line nor the dot is drawn; the dot needs [lp > 0.5] and
    [reveal > 0.3]; the close-price line is not drawn without a live or
    close-price candle, up to [reveal = 0.4], or from [lp >= 0.99]; the
    empty overlay is drawn only when flagged, and not from [reveal >= 0.99],
    nor from [loadingAlpha >= 0.99] when [reveal >= 0]. *)
Theorem drawCandleFrame_layer_gates (c : Ctx) :
  let l := newCalls c (CandleFrame.drawCandleFrame layout palette opts c) in
  ((List.length (CandleFrame.lineVisible opts) < 2)%nat \/
   ~ CandleFrame.lpOf opts > 0.01 ->
   noCallTo ["drawLine"; "drawDot"]%string l) /\
  (~ CandleFrame.lpOf opts > 0.5 \/ ~ CandleFrame.chartReveal opts > 0.3 ->
   noCallTo ["drawDot"%string] l) /\
  ((CandleFrame.closePriceCandle opts = None /\
    CandleFrame.liveCandle opts = None) \/
   CandleFrame.chartReveal opts <= 0.4 \/
   CandleFrame.lpOf opts >= 0.99 ->
   noCallTo ["drawClosePrice"%string] l) /\
  (CandleFrame.showEmptyOverlay opts = false \/
   CandleFrame.chartReveal opts >= 0.99 \/
   (CandleFrame.loadingAlpha opts >= 0.99 /\
    0 <= CandleFrame.chartReveal opts) ->
   noCallTo ["drawEmpty"%string] l).
Proof.
  intros l. unfold l. split; [|split; [|split]].
  - intros H.
    assert (Hoff : Rgtb (CandleFrame.lpOf opts) 0.01
                   && (2 <=? List.length (CandleFrame.lineVisible opts))%nat
                   = false).
    { destruct H as [H|H].
      - apply andb_false_iff. right. apply Nat.leb_gt. exact H.
      - rewrite (Rgtb_false _ _ H). reflexivity. }
    apply (emits_newCalls
             (fun k => ~ In (callee k) ["drawLine"; "drawDot"]%string)).
    apply candle_frame_emits_by_layer; try generic_layer.
    + names_apart.
    + intros c1. unfold CandleFrame.lineLayer. rewrite Hoff. apply emits_refl.
    + intros c1. unfold CandleFrame.lineLayer. rewrite Hoff. apply emits_refl.
  - intros H.
    apply (emits_newCalls (fun k => ~ In (callee k) ["drawDot"%string])).
    apply candle_frame_emits_by_layer; try generic_layer.
    + names_apart.
    + intros c1.
      assert (Hid : forall pts, CandleFrame.liveDotLayer palette opts pts c1 = c1).
      { intros pts. unfold CandleFrame.liveDotLayer, CandleFrame.reveal.
        destruct pts as [ps|]; [|reflexivity].
        destruct (lastOf ps); [|reflexivity].
        destruct H as [H|H]; rewrite (Rgtb_false _ _ H);
          rewrite ?andb_false_r; reflexivity. }
      rewrite Hid. apply emits_refl.
  - intros H.
    apply (emits_newCalls (fun k => ~ In (callee k) ["drawClosePrice"%string])).
    apply candle_frame_emits_by_layer; try generic_layer.
    + names_apart.
    + intros c1. unfold CandleFrame.closePriceLayer, CandleFrame.reveal;
        cbv zeta.
      destruct H as [[H1 H2]|[H|H]].
      * rewrite H1, H2. apply emits_refl.
      * rewrite revealRamp_before by lra. rewrite Rgtb_false by lra.
        destruct (match CandleFrame.closePriceCandle opts with
                  | Some cc => Some cc
                  | None => CandleFrame.liveCandle opts end);
          apply emits_refl.
      * rewrite (Rltb_false (CandleFrame.lpOf opts) 0.99) by lra.
        peel; intros Hin; simpl in Hin;
          repeat (destruct Hin as [Hin|Hin]; try discriminate Hin);
          contradiction.
  - intros H.
    apply (emits_newCalls (fun k => ~ In (callee k) ["drawEmpty"%string])).
    apply candle_frame_emits_by_layer; try generic_layer.
    + names_apart.
    + intros c1.
      assert (Hid : CandleFrame.emptyOverlayLayer layout palette opts c1 = c1).
      { unfold CandleFrame.emptyOverlayLayer; cbv zeta.
        destruct (CandleFrame.showEmptyOverlay opts) eqn:Hflag; [|reflexivity].
        destruct H as [H|[H|[H1 H2]]]; [discriminate H| |].
        - rewrite Rgtb_false by lra. reflexivity.
        - destruct (Rgtb (1 - CandleFrame.chartReveal opts) 0.01) eqn:Hb;
            [|reflexivity].
          apply Rgtb_spec in Hb.
          rewrite Rgtb_false; [reflexivity|].
          destruct (Rle_lt_dec (1 - CandleFrame.loadingAlpha opts) 0); nra. }
      rewrite Hid. apply emits_refl.
Qed.

(** Collapsing is the identity from [ohlcScale >= 0.99], so both branches of
    the source's conditional are one [map]. *)
Lemma collapse_all (s : R) (guard : bool) (l : list CandlePoint) :
  (guard = false -> Rltb s 0.99 = true -> l = []) ->
  (if Rltb s 0.99 && guard then map (collapseC s) l else l)
  = map (collapseC s) l.
Proof.
  intros Hg. destruct (Rltb s 0.99) eqn:Hs.
  - destruct guard; [reflexivity|]. simpl.
    rewrite (Hg eq_refl eq_refl). reflexivity.
  - simpl. apply Rltb_false_inv in Hs.
    rewrite <- (map_id l) at 1. apply map_ext. intros cp.
    unfold collapseC. rewrite Rgeb_true by lra. reflexivity.
Qed.

(** X16: the candles of [drawCandleFrame] during a width morph.  With
    [lineModeProg] and [chartReveal] in [0,1] and [candleAlpha > 0.01], the
    candle block clips to the plot area and then, when [0 <= morphT <= 1] and
    there are old candles, draws the old candles under
    [(1 - morphT) * candleAlpha] and the current ones under
    [morphT * candleAlpha] (the two alphas add up to [candleAlpha]); when
    [morphT < 0] or there are no old candles it draws the current candles
    once, under [candleAlpha] (at [candleAlpha = 1] the alpha is not
    assigned and the entry alpha stays in force).  Both lists are collapsed
    toward the close by [ohlcScale], and the context is left as it was
    entered. *)
Theorem candles_cross_dissolve (c : Ctx) :
  0 <= CandleFrame.lineModeProg opts <= 1 ->
  0 <= CandleFrame.chartReveal opts <= 1 ->
  CandleFrame.candleAlphaOf opts > 0.01 ->
  let a := CandleFrame.candleAlphaOf opts in
  let s := ohlcScale (CandleFrame.chartReveal opts) in
  let hx := match CandleFrame.hoverX opts with Some x => x | None => 0 end in
  let accent := if Rgtb (CandleFrame.lpOf opts) 0.01
                then Some (line palette) else None in
  let clip := [ (cur c, BeginPath);
                (cur c, Rect (pad_left (pad layout) - 1) (pad_top (pad layout))
                          (chartW layout + 2) (chartH layout));
                (cur c, Clip) ] in
  let old := DrawCandlesticks layout
               (map (collapseC s) (CandleFrame.oldCandles opts))
               (CandleFrame.oldWidth opts) (-1) (CandleFrame.now_ms opts) hx
               (CandleFrame.scrubAmount opts) 1 (-1) accent
               (CandleFrame.lpOf opts) in
  let current := DrawCandlesticks layout
                   (map (collapseC s) (CandleFrame.candles opts))
                   (CandleFrame.displayCandleWidth opts)
                   (match CandleFrame.liveCandle opts with
                    | Some lc => time lc | None => -1 end)
                   (CandleFrame.now_ms opts) hx
                   (CandleFrame.scrubAmount opts)
                   (CandleFrame.liveBirthAlpha opts)
                   (CandleFrame.liveBullBlend opts) accent
                   (CandleFrame.lpOf opts) in
  let c' := CandleFrame.candlesLayer layout palette opts c in
  cur c' = cur c /\ stack c' = stack c /\
  (0 <= CandleFrame.morphT opts <= 1 -> CandleFrame.oldCandles opts <> [] ->
   newCalls c c'
   = clip ++ [ (withAlpha ((1 - CandleFrame.morphT opts) * a) (cur c), old);
               (withAlpha (CandleFrame.morphT opts * a) (cur c), current) ] /\
   (1 - CandleFrame.morphT opts) * a + CandleFrame.morphT opts * a = a) /\
  (CandleFrame.morphT opts < 0 \/ CandleFrame.oldCandles opts = [] ->
   newCalls c c' = clip ++ [ (withAlpha a (cur c), current) ] \/
   (a = 1 /\ newCalls c c' = clip ++ [ (cur c, current) ])).
Proof.
  intros Hm Hr Ha a s hx accent clip old current c'.
  assert (Hlp : 0 <= CandleFrame.lpOf opts <= 1 /\ a <= 1).
  { destruct (lp_candleAlpha_range (CandleFrame.lineModeProg opts)
                (CandleFrame.chartReveal opts) Hm Hr) as (H1 & H2).
    split; [exact H1|]. apply H2. }
  destruct Hlp as [Hlp Ha1].
  destruct (candle_candles_emits layout palette opts (fun _ => True) c
              (allows_True _)) as (Hc & Hst & _).
  split; [exact Hc|]. split; [exact Hst|]. clear Hc Hst.
  unfold c', CandleFrame.candlesLayer; cbv zeta.
  fold a. change (a > 0.01) in Ha. rewrite (Rgtb_true a 0.01 Ha).
  unfold CandleFrame.reveal. fold s.
  pose proof (collapse_all s true (CandleFrame.candles opts)) as Hcur.
  rewrite andb_true_r in Hcur. rewrite Hcur by discriminate.
  rewrite (collapse_all s (0 <? List.length (CandleFrame.oldCandles opts))%nat
             (CandleFrame.oldCandles opts)).
  2:{ intros Hz _. apply Nat.ltb_ge in Hz.
      destruct (CandleFrame.oldCandles opts); [reflexivity|simpl in Hz; lia]. }
  rewrite length_map.
  fold hx accent.
  split.
  - intros Hmt Hold. split; [|ring].
    rewrite Rgeb_true by lra.
    assert (Hlen : (0 <? List.length (CandleFrame.oldCandles opts))%nat = true).
    { apply Nat.ltb_lt. destruct (CandleFrame.oldCandles opts);
        [congruence|simpl; lia]. }
    rewrite Hlen. simpl andb.
    apply newCalls_app. rewrite log_restore, log_setGlobalAlpha. 
    assert (H1 : 0 <= (1 - CandleFrame.morphT opts) * a <= 1) by (split; nra).
    assert (H2 : 0 <= CandleFrame.morphT opts * a <= 1) by (split; nra).
    unfold call at 1. cbn [log].
    rewrite (cur_setGlobalAlpha _ _ H2), log_setGlobalAlpha.
    unfold call at 1. cbn [log cur].
    rewrite !(cur_setGlobalAlpha _ _ H1), log_setGlobalAlpha.
    simpl. rewrite ?(cur_setGlobalAlpha _ _ H1). simpl.
    rewrite <- !app_assoc. reflexivity.
  - intros Hno.
    assert (Hoff : Rgeb (CandleFrame.morphT opts) 0
                   && (0 <? List.length (CandleFrame.oldCandles opts))%nat
                   = false).
    { destruct Hno as [H|H].
      - rewrite Rgeb_false by lra. reflexivity.
      - rewrite H. apply andb_false_r. }
    rewrite Hoff.
    destruct (Rltb a 1) eqn:Hlt.
    + left. apply newCalls_app. rewrite log_restore.
      assert (H1 : 0 <= a <= 1) by lra.
      unfold call at 1. cbn [log].
      rewrite (cur_setGlobalAlpha _ _ H1), log_setGlobalAlpha.
      simpl. rewrite <- !app_assoc. reflexivity.
    + right. apply Rltb_false_inv in Hlt. split; [lra|].
      apply newCalls_app. rewrite log_restore.
      simpl. rewrite <- !app_assoc. reflexivity.
Qed.

End CandleGating.

Lemma candles_cross_dissolve_witness :
  List.length
    (newCalls Sample.blank
       (CandleFrame.candlesLayer Sample.layout Sample.palette
          Sample2.morphingOptions Sample.blank)) = 5%nat.
Proof.
  assert (Hm : 0 <= CandleFrame.lineModeProg Sample2.morphingOptions <= 1)
    by (simpl; lra).
  assert (Hr : 0 <= CandleFrame.chartReveal Sample2.morphingOptions <= 1)
    by (simpl; lra).
  assert (Ha : CandleFrame.candleAlphaOf Sample2.morphingOptions > 0.01).
  { unfold CandleFrame.candleAlphaOf, CandleFrame.reveal, candleAlpha, lp,
      revealLine, fullLineMode. simpl.
    rewrite Rgeb_false by lra. unfold Rmax.
    destruct (Rle_dec 0 ((1 - 1) * (1 - 1) * (1 - 1))); lra. }
  assert (Hmt : 0 <= CandleFrame.morphT Sample2.morphingOptions <= 1)
    by (simpl; lra).
  assert (Hold : CandleFrame.oldCandles Sample2.morphingOptions <> [])
    by discriminate.
  destruct (candles_cross_dissolve Sample.layout Sample.palette
              Sample2.morphingOptions Sample.blank Hm Hr Ha)
    as (_ & _ & H & _).
  destruct (H Hmt Hold) as [Hcalls _]. rewrite Hcalls. reflexivity.
Defined.

(* ------------------------------------------------------------------ *)
(** ** [drawBars]: alpha, labels and what is left behind *)

Section BarStampsFacts.

Context {E : Externals}.
Variables (layout : ChartLayout) (bl : BarLayout) (o : Bars.BarDrawOptions).

(** [scrubbing]: the scrub dimming is in force. *)
Local Abbreviation scrubbing :=
  (exists sx, Bars.scrubX o = Some sx /\ Bars.scrubAmount o > 0.05).

(** One turn of the bar loop: its calls, and the state they are made under. *)
Lemma drawBar_stamped (baseAlpha : R) (st0 : DrawState) (b : BarPoint)
    (c : Ctx) :
  0 <= baseAlpha <= 1 -> 0 <= Bars.scrubAmount o <= 1 ->
  cur c = withAlpha (globalAlpha (cur c)) st0 ->
  globalAlpha (cur c) = baseAlpha \/ scrubbing ->
  cur (Bars.drawBar layout bl o baseAlpha b c)
  = withAlpha (globalAlpha (cur (Bars.drawBar layout bl o baseAlpha b c))) st0 /\
  (globalAlpha (cur (Bars.drawBar layout bl o baseAlpha b c)) = baseAlpha
   \/ scrubbing) /\
  stack (Bars.drawBar layout bl o baseAlpha b c) = stack c /\
  log (Bars.drawBar layout bl o baseAlpha b c)
  = log c ++ map (fun k => (withAlpha (barFillAlpha layout o baseAlpha b) st0, k))
               (barCalls layout bl o b).
Proof.
  intros Hb Hs Hcur Hinv.
  assert (Hin : forall sx, Bars.scrubX o = Some sx ->
                           Bars.scrubAmount o > 0.05 -> scrubbing)
    by (intros sx H1 H2; exists sx; auto).
  assert (Hout : scrubbing ->
                 Bars.scrubX o <> None /\ Bars.scrubAmount o > 0.05).
  { intros (sx & H1 & H2). split; [congruence|exact H2]. }
  set (P := scrubbing) in *.
  unfold Bars.drawBar, barCalls, barDrawn, barShape, barHeight, barLeft;
    cbv zeta.
  destruct (Rleb (bar_value b) 0);
    [simpl; rewrite app_nil_r; auto|].
  destruct (Rltb _ _ || Rgtb _ _);
    [simpl; rewrite app_nil_r; auto|].
  destruct (Rltb _ 0.5);
    [simpl; rewrite app_nil_r; auto|].
  match goal with
  | |- context [call BeginPath ?c0] => set (c' := c0)
  end.
  assert (Hc' : cur c' = withAlpha (barFillAlpha layout o baseAlpha b) st0 /\
                stack c' = stack c /\ log c' = log c /\
                (globalAlpha (cur c') = baseAlpha \/ P)).
  { unfold c', barFillAlpha.
    destruct (Bars.scrubX o) as [sx|].
    - destruct (Rgtb (Bars.scrubAmount o) 0.05) eqn:Hsa.
      + assert (Hscr : P).
        { apply (Hin sx); [reflexivity|]. apply Rgtb_spec. exact Hsa. }
        simpl andb.
        destruct (Rgtb _ sx).
        * assert (Hr : 0 <= baseAlpha * (1 - Bars.scrubAmount o * 0.6) <= 1)
            by (split; nra).
          rewrite (cur_setGlobalAlpha _ _ Hr), stack_setGlobalAlpha,
            log_setGlobalAlpha, Hcur.
          repeat split; auto.
        * rewrite (cur_setGlobalAlpha _ _ Hb), stack_setGlobalAlpha,
            log_setGlobalAlpha, Hcur.
          repeat split; auto.
      + simpl andb. destruct Hinv as [Ha|HP].
        * rewrite Hcur, Ha. repeat split; auto.
        * destruct (Hout HP) as [_ Hgt].
          apply Rgtb_true in Hgt. congruence.
    - destruct Hinv as [Ha|HP].
      + rewrite Hcur, Ha. repeat split; auto.
      + destruct (Hout HP) as [Hn _]. congruence. }
  destruct Hc' as (C & S & L & I).
  destruct (Rgtb _ 0 && Rgtb _ _); simpl; rewrite ?L, ?C, ?S;
    rewrite <- ?app_assoc; simpl; repeat split; auto;
    rewrite C in I; exact I.
Qed.

Lemma fold_drawBar_stamped (baseAlpha : R) (st0 : DrawState)
    (l : list BarPoint) : forall c : Ctx,
  0 <= baseAlpha <= 1 -> 0 <= Bars.scrubAmount o <= 1 ->
  cur c = withAlpha (globalAlpha (cur c)) st0 ->
  globalAlpha (cur c) = baseAlpha \/ scrubbing ->
  let c' := fold_left (fun c b => Bars.drawBar layout bl o baseAlpha b c) l c in
  cur c' = withAlpha (globalAlpha (cur c')) st0 /\
  stack c' = stack c /\
  log c'
  = log c ++ flat_map
               (fun b => map (fun k => (withAlpha
                                          (barFillAlpha layout o baseAlpha b)
                                          st0, k))
                             (barCalls layout bl o b)) l.
Proof.
  induction l as [|b l IH]; intros c Hb Hs Hcur Hinv; simpl.
  - rewrite app_nil_r. auto.
  - destruct (drawBar_stamped baseAlpha st0 b c Hb Hs Hcur Hinv)
      as (C & I & S & L).
    destruct (IH _ Hb Hs C I) as (C' & S' & L').
    split; [exact C'|]. split; [congruence|].
    rewrite L', L, <- app_assoc. reflexivity.
Qed.

(** One turn of the label loop. *)
Lemma drawBarLabel_stamped (fontSize : R) (b : BarPoint) (c : Ctx) :
  cur (Bars.drawBarLabel layout bl o fontSize b c) = cur c /\
  stack (Bars.drawBarLabel layout bl o fontSize b c) = stack c /\
  exists l,
    log (Bars.drawBarLabel layout bl o fontSize b c) = log c ++ l /\
    Forall (fun e =>
              fst e = cur c /\
              bar_value b > 0 /\
              snd e = FillText (BarValueText (bar_value b))
                        (toX layout (bar_time b + Bars.barWidthSecs o / 2))
                        (bottom bl - 3) /\
              pad_left (pad layout)
              <= toX layout (bar_time b + Bars.barWidthSecs o / 2)
              <= pad_left (pad layout) + chartW layout /\
              barHeight bl o b >= fontSize + 6) l.
Proof.
  unfold Bars.drawBarLabel, barHeight; cbv zeta.
  unfold Rleb, Rltb, Rgtb.
  destruct (Rle_dec (bar_value b) 0) as [Hv|Hv];
    [repeat split; exists []; rewrite app_nil_r; auto|].
  destruct (Rlt_dec _ (pad_left (pad layout))) as [Hl|Hl];
    [repeat split; exists []; rewrite app_nil_r; auto|].
  destruct (Rgt_dec _ (pad_left (pad layout) + chartW layout)) as [Hr|Hr];
    [repeat split; exists []; rewrite app_nil_r; auto|].
  simpl orb.
  destruct (Rlt_dec _ (fontSize + 6)) as [Hh|Hh];
    [repeat split; exists []; rewrite app_nil_r; auto|].
  split; [reflexivity|]. split; [reflexivity|].
  eexists. split; [reflexivity|].
  apply Forall_cons; [|apply Forall_nil]. simpl.
  split; [reflexivity|]. split; [lra|]. split; [reflexivity|].
  split; [lra|lra].
Qed.

Lemma fold_drawBarLabel_stamped (fontSize : R) (l : list BarPoint) :
  forall c : Ctx,
  let c' := fold_left (fun c b => Bars.drawBarLabel layout bl o fontSize b c)
              l c in
  cur c' = cur c /\ stack c' = stack c /\
  exists l',
    log c' = log c ++ l' /\
    Forall (fun e =>
              fst e = cur c /\
              exists b, In b l /\
              bar_value b > 0 /\
              snd e = FillText (BarValueText (bar_value b))
                        (toX layout (bar_time b + Bars.barWidthSecs o / 2))
                        (bottom bl - 3) /\
              pad_left (pad layout)
              <= toX layout (bar_time b + Bars.barWidthSecs o / 2)
              <= pad_left (pad layout) + chartW layout /\
              barHeight bl o b >= fontSize + 6) l'.
Proof.
  induction l as [|b l IH]; intros c; simpl.
  - repeat split. exists []. rewrite app_nil_r. auto.
  - destruct (drawBarLabel_stamped fontSize b c) as (C & S & l1 & L1 & F1).
    destruct (IH (Bars.drawBarLabel layout bl o fontSize b c))
      as (C' & S' & l2 & L2 & F2).
    split; [congruence|]. split; [congruence|].
    exists (l1 ++ l2). split; [rewrite L2, L1, app_assoc; reflexivity|].
    apply Forall_app. split.
    + eapply Forall_impl; [|exact F1]. intros e (A & B).
      split; [exact A|]. exists b. split; [left; reflexivity|exact B].
    + eapply Forall_impl; [|exact F2]. intros e (A & b' & Hin & B).
      split; [congruence|]. exists b'. split; [right; exact Hin|exact B].
Qed.

(** A bar that passes the three tests of the label loop gets its label. *)
Lemma fold_drawBarLabel_present (fontSize : R) (l : list BarPoint) :
  forall (c : Ctx) (b : BarPoint),
  In b l -> bar_value b > 0 ->
  pad_left (pad layout)
  <= toX layout (bar_time b + Bars.barWidthSecs o / 2)
  <= pad_left (pad layout) + chartW layout ->
  barHeight bl o b >= fontSize + 6 ->
  exists l1 l2,
    log (fold_left (fun c b => Bars.drawBarLabel layout bl o fontSize b c) l c)
    = log c ++ l1
      ++ (cur c, FillText (BarValueText (bar_value b))
                   (toX layout (bar_time b + Bars.barWidthSecs o / 2))
                   (bottom bl - 3)) :: l2.
Proof.
  induction l as [|a l IH]; intros c b Hin Hv Hx Hh; [destruct Hin|].
  simpl.
  destruct (drawBarLabel_stamped fontSize a c) as (Ca & Sa & la & La & _).
  destruct Hin as [->|Hin].
  - pose proof (fold_drawBarLabel_stamped fontSize l
                  (Bars.drawBarLabel layout bl o fontSize b c)) as H.
    cbv zeta in H. destruct H as (_ & _ & l' & L' & _).
    exists [], l'. rewrite L'. simpl.
    assert (Lb : log (Bars.drawBarLabel layout bl o fontSize b c)
                 = log c ++ [(cur c, FillText (BarValueText (bar_value b))
                                       (toX layout (bar_time b
                                                    + Bars.barWidthSecs o / 2))
                                       (bottom bl - 3))]).
    { unfold Bars.drawBarLabel; cbv zeta. unfold barHeight in Hh.
      rewrite Rleb_false by lra.
      rewrite (Rltb_false _ (pad_left (pad layout))) by lra.
      rewrite (Rgtb_false _ (pad_left (pad layout) + chartW layout)) by lra.
      simpl orb. rewrite Rltb_false by lra. reflexivity. }
    rewrite Lb, <- app_assoc. reflexivity.
  - destruct (IH (Bars.drawBarLabel layout bl o fontSize a c) b Hin Hv Hx Hh)
      as (l1 & l2 & L).
    exists (la ++ l1), l2. rewrite L, La, Ca, <- !app_assoc. reflexivity.
Qed.

Lemma barCalls_shapes (b : BarPoint) :
  Forall (fun k => isShapeCall k = true) (barCalls layout bl o b).
Proof.
  unfold barCalls, barShape; cbv zeta.
  destruct (barDrawn layout bl o b); [|apply Forall_nil].
  destruct (Rgtb _ 0 && Rgtb _ _);
    repeat (apply Forall_cons; [reflexivity|]); apply Forall_nil.
Qed.

(** The whole log of [drawBars]: the fill style, the bars in order, each
    under its alpha, then the label block. *)
Lemma drawBars_stamped_log (c : Ctx) :
  Bars.bars o <> [] -> maxValue bl > 0 ->
  0 <= globalAlpha (cur c) <= 1 -> 0 <= Bars.scrubAmount o <= 1 ->
  exists labels,
    newCalls c (Bars.drawBars layout bl o c)
    = (cur c, SetFillStyle (Color (Bars.fillColor o)))
      :: flat_map
           (fun b => map (fun k => (withAlpha
                                      (barFillAlpha layout o
                                         (globalAlpha (cur c)) b)
                                      (cur c), k))
                         (barCalls layout bl o b)) (Bars.bars o)
      ++ labels /\
    Forall (fun e =>
      isShapeCall (snd e) = false /\
      forall t x y, snd e = FillText t x y ->
        Bars.showLabels o = true /\ Bars.revealProgress o > 0.5 /\
        fst e = withAlpha (globalAlpha (cur c)
                           * Rmin 1 ((Bars.revealProgress o - 0.5) * 4))
                  (cur c) /\
        y = bottom bl - 3 /\
        exists b, In b (Bars.bars o) /\ bar_value b > 0 /\
          t = BarValueText (bar_value b) /\
          x = toX layout (bar_time b + Bars.barWidthSecs o / 2) /\
          pad_left (pad layout) <= x <= pad_left (pad layout) + chartW layout /\
          barHeight bl o b >= (if Rgtb (w layout) 500 then 9 else 8) + 6)
      labels /\
    (Bars.showLabels o = true -> Bars.revealProgress o > 0.5 ->
     forall b, In b (Bars.bars o) -> bar_value b > 0 ->
       pad_left (pad layout)
       <= toX layout (bar_time b + Bars.barWidthSecs o / 2)
       <= pad_left (pad layout) + chartW layout ->
       barHeight bl o b >= (if Rgtb (w layout) 500 then 9 else 8) + 6 ->
       In (withAlpha (globalAlpha (cur c)
                      * Rmin 1 ((Bars.revealProgress o - 0.5) * 4)) (cur c),
           FillText (BarValueText (bar_value b))
             (toX layout (bar_time b + Bars.barWidthSecs o / 2))
             (bottom bl - 3)) labels).
Proof.
  intros Hne Hmax Ha Hs.
  unfold Bars.drawBars; cbv zeta.
  destruct (Bars.bars o) as [|b0 bs] eqn:Hbars; [congruence|].
  rewrite Rleb_false by lra.
  set (baseAlpha := globalAlpha (cur c)) in *.
  set (c0 := call (SetFillStyle (Color (Bars.fillColor o))) c).
  assert (Hc0 : cur c0 = withAlpha (globalAlpha (cur c0)) (cur c)).
  { simpl. symmetry. apply withAlpha_same. }
  pose proof (fold_drawBar_stamped baseAlpha (cur c) (b0 :: bs) c0 Ha Hs Hc0
                (or_introl eq_refl)) as H1.
  cbv zeta in H1. destruct H1 as (C1 & S1 & L1).
  set (c1 := fold_left _ (b0 :: bs) c0) in *.
  set (F := flat_map _ (b0 :: bs)) in *.
  assert (L0 : log c0
               = log c ++ [(cur c, SetFillStyle (Color (Bars.fillColor o)))])
    by reflexivity.
  rewrite L0 in L1.
  destruct (Bars.showLabels o) eqn:Hshow; simpl andb.
  - destruct (Rgtb (Bars.revealProgress o) 0.5) eqn:Hrp.
    + apply Rgtb_spec in Hrp.
      set (fs := if Rgtb (w layout) 500 then 9 else 8).
      set (la := baseAlpha * Rmin 1 ((Bars.revealProgress o - 0.5) * 4)).
      assert (Hla : 0 <= la <= 1).
      { unfold la, Rmin.
        destruct (Rle_dec 1 ((Bars.revealProgress o - 0.5) * 4)); split; nra. }
      match goal with
      | |- context [fold_left ?f (b0 :: bs) ?cx] =>
          match cx with
          | c0 => fail 1
          | _ => set (c2 := cx)
          end
      end.
      pose proof (fold_drawBarLabel_stamped fs (b0 :: bs) c2) as H3.
      cbv zeta in H3. destruct H3 as (C3 & S3 & l' & L3 & F3).
      set (c3 := fold_left _ (b0 :: bs) c2) in *.
      assert (C2 : cur c2 = withAlpha la (cur c)).
      { unfold c2. rewrite (cur_setGlobalAlpha _ _ Hla). simpl.
        rewrite C1. reflexivity. }
      assert (L2 : log c2
                   = log c1 ++ [ (cur c1, SetFont (BarLabelFont fs));
                                 (cur c1, SetTextAlign "center");
                                 (cur c1, SetTextBaseline "bottom");
                                 (cur c1, SetFillStyle
                                            (Color (Bars.labelColor o))) ]).
      { unfold c2. rewrite log_setGlobalAlpha. simpl.
        rewrite <- !app_assoc. reflexivity. }
      exists ([ (cur c1, SetFont (BarLabelFont fs));
                (cur c1, SetTextAlign "center"%string);
                (cur c1, SetTextBaseline "bottom"%string);
                (cur c1, SetFillStyle (Color (Bars.labelColor o))) ] ++ l').
      split; [|split].
      * apply newCalls_app.
        rewrite log_setGlobalAlpha, log_restore, L3, L2, L1.
        rewrite <- !app_assoc. reflexivity.
      * apply Forall_app. split.
        -- repeat (apply Forall_cons;
                   [split; [reflexivity|intros t x y Hk; discriminate Hk]|]).
           apply Forall_nil.
        -- eapply Forall_impl; [|exact F3].
           intros e (He & b & Hin & Hv & Hk & Hx & Hh).
           split; [rewrite Hk; reflexivity|].
           intros t x y Hk'. rewrite Hk in Hk'. inversion Hk'; subst t x y.
           split; [reflexivity|]. split; [exact Hrp|].
           split; [rewrite He; exact C2|]. split; [reflexivity|].
           exists b. repeat split; auto; apply Hx.
      * intros _ _ b Hin Hv Hx Hh.
        destruct (fold_drawBarLabel_present fs (b0 :: bs) c2 b Hin Hv Hx Hh)
          as (l1 & l2 & Lp).
        fold c3 in Lp. rewrite L3 in Lp. apply app_inv_head in Lp.
        rewrite Lp, <- C2. apply in_or_app. right.
        apply in_or_app. right. left. reflexivity.
    + exists []. split; [|split; [apply Forall_nil|]].
      * apply newCalls_app. rewrite log_setGlobalAlpha, L1.
        rewrite <- !app_assoc, app_nil_r. reflexivity.
      * intros _ Hgt. apply Rgtb_true in Hgt. congruence.
  - exists []. split; [|split; [apply Forall_nil|]].
    + apply newCalls_app. rewrite log_setGlobalAlpha, L1.
      rewrite <- !app_assoc, app_nil_r. reflexivity.
    + intros Hf. discriminate Hf.
Qed.

(** X17: scrub dimming in [drawBars].  With an entry alpha in [0,1] and
    [scrubAmount] in [0,1], the calls are the fill style, then the shape of
    each bar in order, then calls that draw no shape; the shape of a bar is
    drawn under the entry alpha, or under that alpha times
    [1 - 0.6 * scrubAmount] when [scrubX] is set, [scrubAmount > 0.05] and the
    bar's centre lies right of [scrubX].  The dimmed alpha is never above
    the entry alpha and at least 0.4 of it. *)
Theorem drawBars_scrub_dimming (c : Ctx) :
  Bars.bars o <> [] -> maxValue bl > 0 ->
  0 <= globalAlpha (cur c) <= 1 -> 0 <= Bars.scrubAmount o <= 1 ->
  (exists labels,
     newCalls c (Bars.drawBars layout bl o c)
     = (cur c, SetFillStyle (Color (Bars.fillColor o)))
       :: flat_map
            (fun b => map (fun k => (withAlpha
                                       (barFillAlpha layout o
                                          (globalAlpha (cur c)) b)
                                       (cur c), k))
                          (barCalls layout bl o b)) (Bars.bars o)
       ++ labels /\
     Forall (fun e => isShapeCall (snd e) = false) labels) /\
  (forall b,
     0.4 * globalAlpha (cur c)
     <= barFillAlpha layout o (globalAlpha (cur c)) b
     <= globalAlpha (cur c)) /\
  (forall b sx,
     Bars.scrubX o = Some sx -> Bars.scrubAmount o > 0.05 ->
     (toX layout (bar_time b + Bars.barWidthSecs o / 2) > sx ->
      barFillAlpha layout o (globalAlpha (cur c)) b
      = globalAlpha (cur c) * (1 - Bars.scrubAmount o * 0.6)) /\
     (toX layout (bar_time b + Bars.barWidthSecs o / 2) <= sx ->
      barFillAlpha layout o (globalAlpha (cur c)) b = globalAlpha (cur c))) /\
  (Bars.scrubX o = None \/ Bars.scrubAmount o <= 0.05 ->
   forall b, barFillAlpha layout o (globalAlpha (cur c)) b
             = globalAlpha (cur c)).
Proof.
  intros Hne Hmax Ha Hs.
  split; [|split; [|split]].
  - destruct (drawBars_stamped_log c Hne Hmax Ha Hs) as (labels & Hl & Fl & _).
    exists labels. split; [exact Hl|].
    eapply Forall_impl; [|exact Fl]. intros e [H _]. exact H.
  - intros b. unfold barFillAlpha.
    destruct (Bars.scrubX o); [|lra].
    destruct (Rgtb _ 0.05 && Rgtb _ _); [nra|lra].
  - intros b sx Hsx Hgt. unfold barFillAlpha. rewrite Hsx.
    rewrite (Rgtb_true _ _ Hgt). simpl andb. split; intros Hx.
    + rewrite (Rgtb_true _ _ Hx). reflexivity.
    + rewrite Rgtb_false by lra. reflexivity.
  - intros H b. unfold barFillAlpha.
    destruct (Bars.scrubX o) as [sx|]; [|reflexivity].
    destruct H as [H|H]; [discriminate H|].
    rewrite Rgtb_false by lra. reflexivity.
Qed.

(** X18: the value labels of [drawBars], entered under an alpha in [0,1]
    and with [scrubAmount] in [0,1].
    Every [fillText] it makes is a label: labels are on and
    [revealProgress > 0.5]; the text is the value of a bar of positive value,
    at the bar's centre x (which lies within the plot area) and at
    [bottom - 3]; the bar is at least [fontSize + 6] high, with font size 9
    for a chart wider than 500 px and 8 otherwise; and the label is drawn
    under the entry alpha times [min 1 ((revealProgress - 0.5) * 4)].
    Conversely, with labels on and [revealProgress > 0.5], every such bar
    gets its label. *)
Theorem drawBars_labels (c : Ctx) :
  Bars.bars o <> [] -> maxValue bl > 0 ->
  0 <= globalAlpha (cur c) <= 1 -> 0 <= Bars.scrubAmount o <= 1 ->
  let drawn := newCalls c (Bars.drawBars layout bl o c) in
  let fontSize := if Rgtb (w layout) 500 then 9 else 8 in
  let labelAlpha :=
    globalAlpha (cur c) * Rmin 1 ((Bars.revealProgress o - 0.5) * 4) in
  (forall st t x y,
     In (st, FillText t x y) drawn ->
     Bars.showLabels o = true /\ Bars.revealProgress o > 0.5 /\
     st = withAlpha labelAlpha (cur c) /\
     y = bottom bl - 3 /\
     exists b, In b (Bars.bars o) /\ bar_value b > 0 /\
       t = BarValueText (bar_value b) /\
       x = toX layout (bar_time b + Bars.barWidthSecs o / 2) /\
       pad_left (pad layout) <= x <= pad_left (pad layout) + chartW layout /\
       barHeight bl o b >= fontSize + 6) /\
  (Bars.showLabels o = true -> Bars.revealProgress o > 0.5 ->
   forall b, In b (Bars.bars o) -> bar_value b > 0 ->
     pad_left (pad layout)
     <= toX layout (bar_time b + Bars.barWidthSecs o / 2)
     <= pad_left (pad layout) + chartW layout ->
     barHeight bl o b >= fontSize + 6 ->
     In (withAlpha labelAlpha (cur c),
         FillText (BarValueText (bar_value b))
           (toX layout (bar_time b + Bars.barWidthSecs o / 2))
           (bottom bl - 3)) drawn).
Proof.
  intros Hne Hmax Ha Hs drawn fontSize labelAlpha.
  unfold drawn, fontSize, labelAlpha.
  destruct (drawBars_stamped_log c Hne Hmax Ha Hs) as (labels & Hl & Fl & Pl).
  rewrite Hl. split.
  - intros st t x y Hin.
    destruct Hin as [Hin|Hin]; [discriminate Hin|].
    apply in_app_or in Hin. destruct Hin as [Hin|Hin].
    + apply in_flat_map in Hin. destruct Hin as (b & _ & Hin).
      apply in_map_iff in Hin. destruct Hin as (k & Hk & Hin).
      pose proof (barCalls_shapes b) as Hsh.
      rewrite Forall_forall in Hsh. specialize (Hsh k Hin).
      inversion Hk; subst k. discriminate Hsh.
    + rewrite Forall_forall in Fl. destruct (Fl _ Hin) as [_ H].
      exact (H t x y eq_refl).
  - intros Hshow Hrp b Hin Hv Hx Hh.
    right. apply in_or_app. right.
    exact (Pl Hshow Hrp b Hin Hv Hx Hh).
Qed.

(** X19: [drawBars] leaves the context as it found it.  With no bars, or
    [maxValue <= 0], it returns at once; otherwise, entered under an alpha in
    [0,1], it ends with the alpha, the translation and the save stack of its
    entry, although it dims the alpha while it draws. *)
Theorem drawBars_restores_context (c : Ctx) :
  (Bars.bars o = [] \/ maxValue bl <= 0 -> Bars.drawBars layout bl o c = c) /\
  (0 <= globalAlpha (cur c) <= 1 ->
   cur (Bars.drawBars layout bl o c) = cur c /\
   stack (Bars.drawBars layout bl o c) = stack c).
Proof.
  split.
  - intros [H|H]; unfold Bars.drawBars; cbv zeta.
    + rewrite H. reflexivity.
    + destruct (Bars.bars o); [reflexivity|].
      rewrite (Rleb_true _ _ H). reflexivity.
  - intros Ha.
    destruct (drawBars_steps (fun _ => True) (fun _ _ => I) layout bl o c)
      as ((Tx & Ty) & S & _).
    split; [|exact S].
    assert (Hg : globalAlpha (cur (Bars.drawBars layout bl o c))
                 = globalAlpha (cur c)).
    { unfold Bars.drawBars; cbv zeta.
      destruct (Bars.bars o); [reflexivity|].
      destruct (Rleb (maxValue bl) 0); [reflexivity|].
      rewrite (cur_setGlobalAlpha _ _ Ha). reflexivity. }
    destruct (cur (Bars.drawBars layout bl o c)), (cur c). simpl in *.
    congruence.
Qed.

End BarStampsFacts.

Lemma drawBars_scrub_dimming_witness :
  barFillAlpha Sample.layout Sample2.scrubbedBars
    (globalAlpha (cur Sample.blank)) {| bar_time := 20; bar_value := 100 |}
  = globalAlpha (cur Sample.blank)
    * (1 - Bars.scrubAmount Sample2.scrubbedBars * 0.6).
Proof.
  assert (H1 : Bars.bars Sample2.scrubbedBars <> []) by discriminate.
  assert (H2 : maxValue Sample.barLayout > 0) by (simpl; lra).
  assert (H3 : 0 <= globalAlpha (cur Sample.blank) <= 1) by (simpl; lra).
  assert (H4 : 0 <= Bars.scrubAmount Sample2.scrubbedBars <= 1)
    by (simpl; lra).
  destruct (drawBars_scrub_dimming Sample.layout Sample.barLayout
              Sample2.scrubbedBars Sample.blank H1 H2 H3 H4)
    as (_ & _ & H & _).
  apply (H _ 100 eq_refl); simpl; lra.
Defined.

Lemma drawBars_labels_witness :
  In (withAlpha
        (globalAlpha (cur Sample.blank)
         * Rmin 1 ((Bars.revealProgress Sample2.scrubbedBars - 0.5) * 4))
        (cur Sample.blank),
      FillText (BarValueText 50)
        (toX Sample.layout (10 + Bars.barWidthSecs Sample2.scrubbedBars / 2))
        (bottom Sample.barLayout - 3))
     (newCalls Sample.blank
        (Bars.drawBars Sample.layout Sample.barLayout Sample2.scrubbedBars
           Sample.blank)).
Proof.
  assert (H1 : Bars.bars Sample2.scrubbedBars <> []) by discriminate.
  assert (H2 : maxValue Sample.barLayout > 0) by (simpl; lra).
  assert (H3 : 0 <= globalAlpha (cur Sample.blank) <= 1) by (simpl; lra).
  assert (H4 : 0 <= Bars.scrubAmount Sample2.scrubbedBars <= 1)
    by (simpl; lra).
  destruct (drawBars_labels Sample.layout Sample.barLayout
              Sample2.scrubbedBars Sample.blank H1 H2 H3 H4) as [Hall Hsome].
  assert (Hin : In {| bar_time := 10; bar_value := 50 |}
                   (Bars.bars Sample2.scrubbedBars)) by (left; reflexivity).
  assert (Hv : bar_value {| bar_time := 10; bar_value := 50 |} > 0)
    by (simpl; lra).
  assert (Hrp : Bars.revealProgress Sample2.scrubbedBars > 0.5)
    by (simpl; lra).
  assert (Hx : pad_left (pad Sample.layout)
               <= toX Sample.layout
                    (bar_time {| bar_time := 10; bar_value := 50 |}
                     + Bars.barWidthSecs Sample2.scrubbedBars / 2)
               <= pad_left (pad Sample.layout) + chartW Sample.layout)
    by (simpl; lra).
  assert (Hh : barHeight Sample.barLayout Sample2.scrubbedBars
                 {| bar_time := 10; bar_value := 50 |}
               >= (if Rgtb (w Sample.layout) 500 then 9 else 8) + 6).
  { unfold barHeight. simpl. rewrite Rgtb_false by lra. lra. }
  exact (Hsome eq_refl Hrp _ Hin Hv Hx Hh).
Defined.

Lemma drawBars_restores_context_witness :
  cur (Bars.drawBars Sample.layout Sample.barLayout Sample2.scrubbedBars
         Sample.blank) = cur Sample.blank.
Proof.
  assert (H3 : 0 <= globalAlpha (cur Sample.blank) <= 1) by (simpl; lra).
  destruct (drawBars_restores_context Sample.layout Sample.barLayout
              Sample2.scrubbedBars Sample.blank) as [_ H].
  destruct (H H3) as [Hc _]. exact Hc.
Defined.

(* ------------------------------------------------------------------ *)
(** ** The crosshair module *)

Section CrosshairFacts.

Variables (layout : ChartLayout) (palette : LivelinePalette)
          (textWidth : string -> R).

Import Crosshair.

Lemma xh_state_setGlobalAlpha (a : R) (c : Canvas) :
  0 <= a <= 1 -> state (setGlobalAlpha a c) = withAlpha a (state c).
Proof.
  intros [H0 H1]. unfold setGlobalAlpha.
  rewrite (Rleb_true _ _ H0), (Rleb_true _ _ H1). reflexivity.
Qed.

Lemma xh_saved_setGlobalAlpha (a : R) (c : Canvas) :
  saved (setGlobalAlpha a c) = saved c.
Proof. unfold setGlobalAlpha. destruct (Rleb 0 a && Rleb a 1); reflexivity. Qed.

Lemma xh_ops_setGlobalAlpha (a : R) (c : Canvas) :
  ops (setGlobalAlpha a c) = ops c.
Proof. unfold setGlobalAlpha. destruct (Rleb 0 a && Rleb a 1); reflexivity. Qed.

Lemma xh_transform_setGlobalAlpha (a : R) (c : Canvas) :
  sameTransform (state (setGlobalAlpha a c)) (state c).
Proof.
  unfold setGlobalAlpha. destruct (Rleb 0 a && Rleb a 1); split; reflexivity.
Qed.

(** The vertical line: six calls under one state, the context left as it
    was. *)
Lemma verticalLine_log (hoverX scrubOpacity : R) (c : Canvas) :
  state (verticalLine layout palette hoverX scrubOpacity c) = state c /\
  saved (verticalLine layout palette hoverX scrubOpacity c) = saved c /\
  ops (verticalLine layout palette hoverX scrubOpacity c)
  = ops c ++ map (fun k => (state (setGlobalAlpha (scrubOpacity * 0.5) c), k))
               [ SetStrokeStyle (crosshairLine palette);
                 SetLineWidth 1;
                 BeginPath;
                 MoveTo hoverX (pad_top (pad layout));
                 LineTo hoverX (h layout - pad_bottom (pad layout));
                 Stroke ].
Proof.
  unfold verticalLine; cbv zeta. unfold restore. simpl.
  rewrite !xh_saved_setGlobalAlpha. simpl.
  rewrite xh_ops_setGlobalAlpha. simpl.
  split; [reflexivity|]. split; [reflexivity|].
  assert (Hs : state (setGlobalAlpha (scrubOpacity * 0.5) (save c))
               = state (setGlobalAlpha (scrubOpacity * 0.5) c)).
  { unfold setGlobalAlpha. destruct (Rleb 0 _ && Rleb _ 1); reflexivity. }
  rewrite Hs, <- !app_assoc. reflexivity.
Qed.

(** The dot radius: at most 4, above 0.5 exactly from [scrubOpacity > 1/24],
    and 4 from [scrubOpacity >= 1/3]. *)
Lemma dotRadius_facts (s : R) :
  dotRadius s <= 4 /\
  (dotRadius s > 0.5 <-> s > 1 / 24) /\
  (s >= 1 / 3 -> dotRadius s = 4) /\
  (s <= 1 / 3 -> dotRadius s = 12 * s).
Proof.
  unfold dotRadius, Rmin.
  destruct (Rle_dec (s * 3) 1); repeat split; intros; lra.
Qed.

(** The tooltip x: the clamp at the right is applied last. *)
Lemma tooltipX_facts (hoverX totalW : R) (liveDotX : option R) :
  let minX := pad_left (pad layout) + 4 in
  let dotRightEdge := match liveDotX with
                      | Some x => x + 7
                      | None => w layout - pad_right (pad layout)
                      end in
  let tx := tooltipX layout hoverX totalW liveDotX in
  tx + totalW <= dotRightEdge /\
  (minX + totalW <= dotRightEdge -> minX <= tx) /\
  (minX <= hoverX - totalW / 2 -> hoverX + totalW / 2 <= dotRightEdge ->
   tx = hoverX - totalW / 2) /\
  (hoverX - totalW / 2 < minX -> minX + totalW <= dotRightEdge -> tx = minX) /\
  (dotRightEdge < minX + totalW -> tx <= dotRightEdge - totalW /\
     (hoverX - totalW / 2 >= dotRightEdge - totalW ->
      tx = dotRightEdge - totalW)).
Proof.
  cbv zeta. unfold tooltipX; cbv zeta. unfold Rltb, Rgtb.
  destruct liveDotX as [x|];
    destruct (Rlt_dec _ _); destruct (Rgt_dec _ _);
    repeat split; intros; lra.
Qed.

(** The calls of [drawCrosshair], for a scrub opacity between 0.01 and 1:
    the line, then the dot, then the text. *)
Lemma drawCrosshair_log (hoverX hoverValue hoverTime : R)
    (formatValue formatTime : R -> string) (scrubOpacity : R)
    (tooltipY liveDotX : option R) (tooltipOutline : option bool)
    (c : Canvas) :
  0.01 <= scrubOpacity <= 1 ->
  let c' := drawCrosshair layout palette textWidth hoverX hoverValue hoverTime
              formatValue formatTime scrubOpacity tooltipY liveDotX
              tooltipOutline c in
  let valueText := formatValue hoverValue in
  let timeText := formatTime hoverTime in
  let valueW := textWidth valueText in
  let tx := tooltipX layout hoverX
              (valueW + textWidth separator + textWidth timeText) liveDotX in
  let ty := tooltipTextY layout tooltipY in
  state c' = (if Rgtb (dotRadius scrubOpacity) 0.5
              then withAlpha 1 (state c) else state c) /\
  saved c' = saved c /\
  ops c'
  = ops c
    ++ map (fun k => (withAlpha (scrubOpacity * 0.5) (state c), k))
         [ SetStrokeStyle (crosshairLine palette);
           SetLineWidth 1;
           BeginPath;
           MoveTo hoverX (pad_top (pad layout));
           LineTo hoverX (h layout - pad_bottom (pad layout));
           Stroke ]
    ++ (if Rgtb (dotRadius scrubOpacity) 0.5
        then map (fun k => (withAlpha 1 (state c), k))
               [ BeginPath;
                 Arc hoverX (toY layout hoverValue) (dotRadius scrubOpacity)
                   0 (PI * 2);
                 SetFillStyle (line palette);
                 Fill ]
        else [])
    ++ (if Rltb scrubOpacity 0.1 || Rltb (w layout) 300 then []
        else map (fun k => (withAlpha scrubOpacity (state c), k))
               ([ SetFont tooltipFont; SetTextAlign "left" ]
                ++ match tooltipOutline with
                   | Some true =>
                       [ SetStrokeStyle (tooltipBg palette);
                         SetLineWidth 3;
                         SetLineJoin "round";
                         StrokeText valueText tx ty;
                         StrokeText (separator ++ timeText) (tx + valueW) ty ]
                   | _ => []
                   end
                ++ [ SetFillStyle (tooltipText palette);
                     FillText valueText tx ty;
                     SetFillStyle (gridLabel palette);
                     FillText (separator ++ timeText) (tx + valueW) ty ])).
Proof.
  intros Hs. cbv zeta.
  unfold drawCrosshair; cbv zeta.
  rewrite Rltb_false by lra.
  destruct (verticalLine_log hoverX scrubOpacity c) as (S1 & V1 & L1).
  rewrite xh_state_setGlobalAlpha in L1 by lra.
  set (c1 := verticalLine layout palette hoverX scrubOpacity c) in *.
  assert (H1 : 0 <= 1 <= 1) by lra.
  assert (Hs' : 0 <= scrubOpacity <= 1) by lra.
  destruct (Rgtb (dotRadius scrubOpacity) 0.5);
    destruct (Rltb scrubOpacity 0.1 || Rltb (w layout) 300).
  - cbn [state saved ops op]. rewrite xh_saved_setGlobalAlpha,
      xh_ops_setGlobalAlpha, (xh_state_setGlobalAlpha _ _ H1), S1, V1, L1.
    split; [reflexivity|]. split; [reflexivity|].
    rewrite app_nil_r, <- !app_assoc. reflexivity.
  - set (c2 := op Fill _).
    assert (S2 : state c2 = withAlpha 1 (state c)).
    { unfold c2. cbn [state op].
      rewrite (xh_state_setGlobalAlpha _ _ H1), S1. reflexivity. }
    assert (V2 : saved c2 = saved c).
    { unfold c2. cbn [saved op]. rewrite xh_saved_setGlobalAlpha. exact V1. }
    assert (L2 : ops c2
                 = ops c1 ++ map (fun k => (withAlpha 1 (state c), k))
                     [ BeginPath;
                       Arc hoverX (toY layout hoverValue)
                         (dotRadius scrubOpacity) 0 (PI * 2);
                       SetFillStyle (line palette);
                       Fill ]).
    { unfold c2. cbn [ops state op].
      rewrite (xh_state_setGlobalAlpha _ _ H1), xh_ops_setGlobalAlpha, S1.
      rewrite <- !app_assoc. reflexivity. }
    clearbody c2.
    assert (ST : state (setGlobalAlpha scrubOpacity (save c2))
                 = withAlpha scrubOpacity (state c)).
    { rewrite (xh_state_setGlobalAlpha _ _ Hs'). cbn [state save].
      rewrite S2. reflexivity. }
    destruct tooltipOutline as [[|]|]; unfold restore;
      cbn [state saved ops op]; rewrite ?xh_saved_setGlobalAlpha;
      cbn [state saved ops op save]; rewrite ?ST, ?xh_ops_setGlobalAlpha;
      cbn [state saved ops op save]; rewrite S2, V2, L2, L1;
      (split; [reflexivity|]); (split; [reflexivity|]);
      rewrite <- !app_assoc; reflexivity.
  - rewrite S1, V1, L1. split; [reflexivity|]. split; [reflexivity|].
    rewrite app_nil_r. reflexivity.
  - assert (ST : state (setGlobalAlpha scrubOpacity (save c1))
                 = withAlpha scrubOpacity (state c)).
    { rewrite (xh_state_setGlobalAlpha _ _ Hs'). cbn [state save].
      rewrite S1. reflexivity. }
    clearbody c1.
    destruct tooltipOutline as [[|]|]; unfold restore;
      cbn [state saved ops op]; rewrite ?xh_saved_setGlobalAlpha;
      cbn [state saved ops op save]; rewrite ?ST, ?xh_ops_setGlobalAlpha;
      cbn [state saved ops op save]; rewrite S1, V1, L1;
      (split; [reflexivity|]); (split; [reflexivity|]);
      rewrite <- !app_assoc; reflexivity.
Qed.

Ltac in_log H :=
  repeat match type of H with
  | In _ (_ ++ _) => apply in_app_or in H; destruct H as [H|H]
  | In _ (if ?b then _ else _) => destruct b eqn:?
  | In _ (map _ (_ ++ _)) => rewrite map_app in H
  | In _ (map _ (match ?o with _ => _ end)) =>
      destruct o as [[|]|] eqn:?
  | In _ (map _ _) => simpl in H
  | In _ (_ :: _) => destruct H as [H|H]
  | In _ [] => destruct H
  | _ \/ _ => destruct H as [H|H]
  | False => destruct H
  | _ = _ => first [discriminate H | inversion H; clear H]
  end.

(** X20: the dot of [drawCrosshair], for a scrub opacity in [0,1].  An arc
    is drawn exactly when [scrubOpacity > 1/24]; it is the one dot at the hover
    x and the y of the hover value, a full circle of radius
    [4 * min (3 * scrubOpacity) 1] (between 0.5 and 4, and 4 from
    [scrubOpacity >= 1/3]), drawn under alpha 1 whatever the scrub opacity. *)
Theorem drawCrosshair_dot (hoverX hoverValue hoverTime : R)
    (formatValue formatTime : R -> string) (scrubOpacity : R)
    (tooltipY liveDotX : option R) (tooltipOutline : option bool)
    (c : Canvas) :
  0 <= scrubOpacity <= 1 ->
  exists l,
    ops (drawCrosshair layout palette textWidth hoverX hoverValue hoverTime
           formatValue formatTime scrubOpacity tooltipY liveDotX
           tooltipOutline c) = ops c ++ l /\
    (forall st x y r a0 a1,
       In (st, Arc x y r a0 a1) l ->
       scrubOpacity > 1 / 24 /\
       st = withAlpha 1 (state c) /\
       x = hoverX /\ y = toY layout hoverValue /\
       r = 4 * Rmin (scrubOpacity * 3) 1 /\ 0.5 < r <= 4 /\
       a0 = 0 /\ a1 = PI * 2) /\
    (scrubOpacity > 1 / 24 ->
     In (withAlpha 1 (state c),
         Arc hoverX (toY layout hoverValue) (4 * Rmin (scrubOpacity * 3) 1)
           0 (PI * 2)) l) /\
    (scrubOpacity >= 1 / 3 -> 4 * Rmin (scrubOpacity * 3) 1 = 4).
Proof.
  intros Hs.
  destruct (dotRadius_facts scrubOpacity) as (R4 & Riff & Rfull & _).
  destruct (Rlt_dec scrubOpacity 0.01) as [Hlow|Hlow].
  - exists []. unfold drawCrosshair. rewrite (Rltb_true _ _ Hlow).
    rewrite app_nil_r. split; [reflexivity|]. split; [|split].
    + intros st x y r a0 a1 [].
    + intros H. lra.
    + exact Rfull.
  - assert (Hs' : 0.01 <= scrubOpacity <= 1) by lra.
    pose proof (drawCrosshair_log hoverX hoverValue hoverTime formatValue
                  formatTime scrubOpacity tooltipY liveDotX tooltipOutline c
                  Hs') as H.
    cbv zeta in H. destruct H as (_ & _ & L).
    eexists. split; [exact L|]. split; [|split].
    + intros st x y r a0 a1 Hin. in_log Hin. subst.
      match goal with
      | Hd : Rgtb (dotRadius scrubOpacity) 0.5 = true |- _ =>
          apply Rgtb_spec in Hd; pose proof (proj1 Riff Hd) as H24
      end.
      unfold dotRadius in *. repeat split; auto; lra.
    + intros H24. apply in_or_app. right. apply in_or_app. left.
      rewrite (Rgtb_true _ _ (proj2 Riff H24)).
      right. left. reflexivity.
    + exact Rfull.
Qed.

(** X21: the tooltip of [drawCrosshair], for a scrub opacity in [0,1].
    Text is drawn exactly when [scrubOpacity >= 0.1] and the chart is at
    least 300 px wide: the value at the tooltip x and, right after it, the
    separator and the time, both at [pad.top + (tooltipY ?? 14) + 10] and
    under alpha [scrubOpacity].  The outline strokes the same texts at the
    same places, and only when [tooltipOutline] is true.  The tooltip is
    centred on the hover x when it fits; its right end never passes the
    live dot's right edge ([liveDotX + 7], or the right padding), even when
    that pushes its left end below [pad.left + 4]. *)
Theorem drawCrosshair_tooltip (hoverX hoverValue hoverTime : R)
    (formatValue formatTime : R -> string) (scrubOpacity : R)
    (tooltipY liveDotX : option R) (tooltipOutline : option bool)
    (c : Canvas) :
  0 <= scrubOpacity <= 1 ->
  let valueText := formatValue hoverValue in
  let timeText := formatTime hoverTime in
  let valueW := textWidth valueText in
  let totalW := valueW + textWidth separator + textWidth timeText in
  let tx := tooltipX layout hoverX totalW liveDotX in
  let ty := pad_top (pad layout)
            + (match tooltipY with Some y => y | None => 14 end) + 10 in
  let minX := pad_left (pad layout) + 4 in
  let dotRightEdge := match liveDotX with
                      | Some x => x + 7
                      | None => w layout - pad_right (pad layout)
                      end in
  exists l,
    ops (drawCrosshair layout palette textWidth hoverX hoverValue hoverTime
           formatValue formatTime scrubOpacity tooltipY liveDotX
           tooltipOutline c) = ops c ++ l /\
    (forall st t x y,
       In (st, FillText t x y) l <->
       scrubOpacity >= 0.1 /\ w layout >= 300 /\
       st = withAlpha scrubOpacity (state c) /\ y = ty /\
       ((t = valueText /\ x = tx) \/
        (t = (separator ++ timeText)%string /\ x = tx + valueW))) /\
    (forall st t x y,
       In (st, StrokeText t x y) l <->
       tooltipOutline = Some true /\ In (st, FillText t x y) l) /\
    tx + totalW <= dotRightEdge /\
    (minX + totalW <= dotRightEdge -> minX <= tx) /\
    (minX <= hoverX - totalW / 2 -> hoverX + totalW / 2 <= dotRightEdge ->
     tx = hoverX - totalW / 2).
Proof.
  intros Hs valueText timeText valueW totalW tx ty minX dotRightEdge.
  destruct (tooltipX_facts hoverX totalW liveDotX) as (T1 & T2 & T3 & _).
  fold tx in T1, T2, T3.
  destruct (Rlt_dec scrubOpacity 0.01) as [Hlow|Hlow].
  - exists []. unfold drawCrosshair. rewrite (Rltb_true _ _ Hlow).
    rewrite app_nil_r. split; [reflexivity|].
    split; [|split; [|split; [exact T1|split; [exact T2|exact T3]]]].
    + intros st t x y. split; [intros []|]. intros (H & _). lra.
    + intros st t x y. split; [intros []|]. intros (_ & []).
  - assert (Hs' : 0.01 <= scrubOpacity <= 1) by lra.
    pose proof (drawCrosshair_log hoverX hoverValue hoverTime formatValue
                  formatTime scrubOpacity tooltipY liveDotX tooltipOutline c
                  Hs') as H.
    cbv zeta in H. destruct H as (_ & _ & L).
    fold valueText timeText valueW totalW tx in L.
    unfold tooltipTextY in L. fold ty in L.
    eexists. split; [exact L|].
    assert (Hfill : forall st t x y,
      In (st, FillText t x y)
         (map (fun k => (withAlpha (scrubOpacity * 0.5) (state c), k))
            [ SetStrokeStyle (crosshairLine palette);
              SetLineWidth 1;
              BeginPath;
              MoveTo hoverX (pad_top (pad layout));
              LineTo hoverX (h layout - pad_bottom (pad layout));
              Stroke ]
          ++ (if Rgtb (dotRadius scrubOpacity) 0.5
              then map (fun k => (withAlpha 1 (state c), k))
                     [ BeginPath;
                       Arc hoverX (toY layout hoverValue)
                         (dotRadius scrubOpacity) 0 (PI * 2);
                       SetFillStyle (line palette);
                       Fill ]
              else [])
          ++ (if Rltb scrubOpacity 0.1 || Rltb (w layout) 300 then []
              else map (fun k => (withAlpha scrubOpacity (state c), k))
                     ([ SetFont tooltipFont; SetTextAlign "left" ]
                      ++ match tooltipOutline with
                         | Some true =>
                             [ SetStrokeStyle (tooltipBg palette);
                               SetLineWidth 3;
                               SetLineJoin "round";
                               StrokeText valueText tx ty;
                               StrokeText (separator ++ timeText)
                                 (tx + valueW) ty ]
                         | _ => []
                         end
                      ++ [ SetFillStyle (tooltipText palette);
                           FillText valueText tx ty;
                           SetFillStyle (gridLabel palette);
                           FillText (separator ++ timeText) (tx + valueW) ty ])))
      <->
      scrubOpacity >= 0.1 /\ w layout >= 300 /\
      st = withAlpha scrubOpacity (state c) /\ y = ty /\
      ((t = valueText /\ x = tx) \/
       (t = (separator ++ timeText)%string /\ x = tx + valueW))).
    { intros st t x y. split.
      - intros Hin. in_log Hin; subst;
          match goal with
          | Hg : Rltb scrubOpacity 0.1 || Rltb (w layout) 300 = false |- _ =>
              apply orb_false_iff in Hg; destruct Hg as [Hg1 Hg2];
              apply Rltb_false_inv in Hg1; apply Rltb_false_inv in Hg2
          end;
          (split; [lra|]); (split; [lra|]); (split; [reflexivity|]);
          (split; [reflexivity|]); auto.
      - intros (H1 & H2 & -> & -> & Ht).
        apply in_or_app. right. apply in_or_app. right.
        rewrite (Rltb_false scrubOpacity 0.1) by lra.
        rewrite (Rltb_false (w layout) 300) by lra. simpl orb.
        rewrite map_app, map_app. apply in_or_app. right.
        apply in_or_app. right.
        destruct Ht as [[-> ->]|[-> ->]]; simpl; auto 10. }
    split; [exact Hfill|].
    split; [|split; [exact T1|split; [exact T2|exact T3]]].
    intros st t x y. rewrite Hfill. split.
    + intros Hin. in_log Hin; subst;
        match goal with
        | Hg : Rltb scrubOpacity 0.1 || Rltb (w layout) 300 = false |- _ =>
            apply orb_false_iff in Hg; destruct Hg as [Hg1 Hg2];
            apply Rltb_false_inv in Hg1; apply Rltb_false_inv in Hg2
        end;
        (split; [reflexivity|]);
        (split; [lra|]); (split; [lra|]); (split; [reflexivity|]);
        (split; [reflexivity|]); auto.
    + intros (-> & H1 & H2 & -> & -> & Ht).
      apply in_or_app. right. apply in_or_app. right.
      rewrite (Rltb_false scrubOpacity 0.1) by lra.
      rewrite (Rltb_false (w layout) 300) by lra. simpl orb.
      rewrite map_app, map_app. apply in_or_app. right.
      apply in_or_app. left.
      destruct Ht as [[-> ->]|[-> ->]]; simpl; auto 10.
Qed.

(** *** The multi-series crosshair *)

(** The dots of the series: four calls an entry, under one state. *)
Lemma entryDots_log (hoverX radius : R) (entries : list MultiSeriesHoverEntry) :
  forall c : Canvas,
  let c' := fold_left (entryDot layout hoverX radius) entries c in
  state c' = state c /\ saved c' = saved c /\
  ops c'
  = ops c
    ++ flat_map
         (fun e => map (fun k => (state c, k))
                     [ BeginPath;
                       Arc hoverX (toY layout (he_value e)) radius 0 (PI * 2);
                       SetFillStyle (he_color e);
                       Fill ]) entries.
Proof.
  induction entries as [|e es IH]; intros c; cbv zeta; simpl.
  - rewrite app_nil_r. auto.
  - specialize (IH (entryDot layout hoverX radius c e)). cbv zeta in IH.
    destruct IH as (S & V & L). rewrite S, V, L.
    split; [reflexivity|]. split; [reflexivity|].
    simpl. rewrite <- !app_assoc. reflexivity.
Qed.

(** A loop over the segments that moves the running x by the segment width
    and makes the calls [g x seg] for the segment at [x]: a call is made
    exactly for a segment of the list, at the start x plus the widths
    before it. *)
Lemma segment_loop (step : R * Canvas -> Seg * R -> R * Canvas)
    (g : R -> Seg -> list Op) :
  (forall ox c seg wd,
     fst (step (ox, c) (seg, wd)) = ox + wd /\
     state (snd (step (ox, c) (seg, wd))) = state c /\
     saved (snd (step (ox, c) (seg, wd))) = saved c /\
     ops (snd (step (ox, c) (seg, wd)))
     = ops c ++ map (fun k => (state c, k)) (g ox seg)) ->
  forall (sws : list (Seg * R)) (ox : R) (c : Canvas),
  state (snd (fold_left step sws (ox, c))) = state c /\
  saved (snd (fold_left step sws (ox, c))) = saved c /\
  exists l,
    ops (snd (fold_left step sws (ox, c))) = ops c ++ l /\
    forall e,
      In e l <->
      exists pre seg wd post k,
        sws = pre ++ (seg, wd) :: post /\
        In k (g (fold_left Rplus (map snd pre) ox) seg) /\
        e = (state c, k).
Proof.
  intros Hstep. induction sws as [|[seg wd] sws IH]; intros ox c.
  - simpl. split; [reflexivity|]. split; [reflexivity|].
    exists []. rewrite app_nil_r. split; [reflexivity|].
    intros e. split; [intros []|].
    intros (pre & s0 & w0 & post & k & H & _).
    destruct pre; discriminate H.
  - simpl fold_left.
    destruct (Hstep ox c seg wd) as (X & S & V & L).
    destruct (step (ox, c) (seg, wd)) as [ox1 c1] eqn:Hst.
    cbn [fst snd] in X, S, V, L. subst ox1.
    destruct (IH (ox + wd) c1) as (S' & V' & l' & L' & Hl').
    split; [congruence|]. split; [congruence|].
    exists (map (fun k => (state c, k)) (g ox seg) ++ l').
    split; [rewrite L', L, <- app_assoc; reflexivity|].
    intros e. rewrite in_app_iff, Hl'. split.
    + intros [Hin|(pre & s0 & w0 & post & k & Hsws & Hk & He)].
      * apply in_map_iff in Hin. destruct Hin as (k & <- & Hk).
        exists [], seg, wd, sws, k. simpl. auto.
      * exists ((seg, wd) :: pre), s0, w0, post, k. simpl.
        rewrite Hsws, He, S. auto.
    + intros (pre & s0 & w0 & post & k & Hsws & Hk & He).
      destruct pre as [|p pre].
      * simpl in Hsws, Hk. inversion Hsws; subst. left.
        apply in_map. exact Hk.
      * simpl in Hsws, Hk. inversion Hsws; subst. right.
        exists pre, s0, w0, post, k. simpl. rewrite S. auto.
Qed.

Lemma outlineSeg_step (ty : R) (ox : R) (c : Canvas) (seg : Seg) (wd : R) :
  fst (outlineSeg ty (ox, c) (seg, wd)) = ox + wd /\
  state (snd (outlineSeg ty (ox, c) (seg, wd))) = state c /\
  saved (snd (outlineSeg ty (ox, c) (seg, wd))) = saved c /\
  ops (snd (outlineSeg ty (ox, c) (seg, wd)))
  = ops c ++ map (fun k => (state c, k)) (segOutline ty ox seg).
Proof.
  unfold outlineSeg, segOutline. destruct (seg_isDot seg); simpl;
    rewrite ?app_nil_r; auto.
Qed.

Lemma fillSeg_step (ty : R) (ox : R) (c : Canvas) (seg : Seg) (wd : R) :
  fst (fillSeg ty (ox, c) (seg, wd)) = ox + wd /\
  state (snd (fillSeg ty (ox, c) (seg, wd))) = state c /\
  saved (snd (fillSeg ty (ox, c) (seg, wd))) = saved c /\
  ops (snd (fillSeg ty (ox, c) (seg, wd)))
  = ops c ++ map (fun k => (state c, k)) (segFill ty ox seg).
Proof.
  unfold fillSeg, segFill. destruct (seg_isDot seg); simpl;
    rewrite <- ?app_assoc; auto.
Qed.

(** A place in the segments paired with their widths is a place in the
    segments. *)
Lemma combine_widths_split (segs : list Seg) pre seg wd post :
  combine segs (map (segWidth textWidth) segs) = pre ++ (seg, wd) :: post ->
  exists pre' post',
    segs = pre' ++ seg :: post' /\
    map snd pre = map (segWidth textWidth) pre'.
Proof.
  revert pre. induction segs as [|s0 segs IH]; intros pre H.
  - destruct pre; discriminate H.
  - simpl in H. destruct pre as [|p pre].
    + inversion H; subst. exists [], segs. auto.
    + inversion H; subst. destruct (IH pre H2) as (pre' & post' & Hs & Hm).
      exists (s0 :: pre'), post'. simpl. rewrite Hs at 1. rewrite Hm. auto.
Qed.

Lemma combine_widths_place (pre' : list Seg) seg post' :
  combine (pre' ++ seg :: post')
    (map (segWidth textWidth) (pre' ++ seg :: post'))
  = combine pre' (map (segWidth textWidth) pre')
    ++ (seg, segWidth textWidth seg)
    :: combine post' (map (segWidth textWidth) post') /\
  map snd (combine pre' (map (segWidth textWidth) pre'))
  = map (segWidth textWidth) pre'.
Proof.
  induction pre' as [|s0 pre' [IH1 IH2]]; simpl; [auto|].
  rewrite IH1, IH2. auto.
Qed.

Lemma segment_places (segs : list Seg) (g : R -> Seg -> list Op) (ox : R)
    (st : DrawState) (e : DrawState * Op) :
  (exists pre seg wd post k,
     combine segs (map (segWidth textWidth) segs) = pre ++ (seg, wd) :: post /\
     In k (g (fold_left Rplus (map snd pre) ox) seg) /\ e = (st, k))
  <->
  (exists pre seg post k,
     segs = pre ++ seg :: post /\
     In k (g (fold_left Rplus (map (segWidth textWidth) pre) ox) seg) /\
     e = (st, k)).
Proof.
  split.
  - intros (pre & seg & wd & post & k & Hc & Hk & He).
    destruct (combine_widths_split segs pre seg wd post Hc)
      as (pre' & post' & Hs & Hm).
    exists pre', seg, post', k. rewrite <- Hm. auto.
  - intros (pre & seg & post & k & Hs & Hk & He).
    destruct (combine_widths_place pre seg post) as [Hc Hm].
    exists (combine pre (map (segWidth textWidth) pre)), seg,
      (segWidth textWidth seg),
      (combine post (map (segWidth textWidth) post)), k.
    rewrite Hm, Hs. auto.
Qed.

(** The calls of [drawMultiCrosshair], for a scrub opacity between 0.01 and
    1 and at least one entry: the line, the dots of the series, then the
    text (outline pass [lo], fill pass [lf]). *)
Lemma drawMultiCrosshair_log (hoverX hoverTime : R)
    (entries : list MultiSeriesHoverEntry)
    (formatValue formatTime : R -> string) (scrubOpacity : R)
    (tooltipY : option R) (tooltipOutline : option bool)
    (liveDotX : option R) (c : Canvas) :
  0.01 <= scrubOpacity <= 1 -> entries <> [] ->
  let c' := drawMultiCrosshair layout palette textWidth hoverX hoverTime
              entries formatValue formatTime scrubOpacity tooltipY
              tooltipOutline liveDotX c in
  let segs := segmentsOf palette formatValue formatTime hoverTime entries in
  let totalW := fold_left Rplus (map (segWidth textWidth) segs) 0 in
  let tx := tooltipX layout hoverX totalW liveDotX in
  let ty := tooltipTextY layout tooltipY in
  let stT := withAlpha scrubOpacity (state c) in
  state c' = (if Rgtb (dotRadius scrubOpacity) 0.5
              then withAlpha 1 (state c) else state c) /\
  saved c' = saved c /\
  exists text,
    ops c'
    = ops c
      ++ map (fun k => (withAlpha (scrubOpacity * 0.5) (state c), k))
           [ SetStrokeStyle (crosshairLine palette);
             SetLineWidth 1;
             BeginPath;
             MoveTo hoverX (pad_top (pad layout));
             LineTo hoverX (h layout - pad_bottom (pad layout));
             Stroke ]
      ++ (if Rgtb (dotRadius scrubOpacity) 0.5
          then flat_map
                 (fun e => map (fun k => (withAlpha 1 (state c), k))
                             [ BeginPath;
                               Arc hoverX (toY layout (he_value e))
                                 (dotRadius scrubOpacity) 0 (PI * 2);
                               SetFillStyle (he_color e);
                               Fill ]) entries
          else [])
      ++ text /\
    (Rltb scrubOpacity 0.1 || Rltb (w layout) 300 = true -> text = []) /\
    (Rltb scrubOpacity 0.1 || Rltb (w layout) 300 = false ->
     exists lo lf,
       text
       = map (fun k => (stT, k)) [ SetFont tooltipFont; SetTextAlign "left" ]
         ++ match tooltipOutline with
            | Some false => []
            | _ => map (fun k => (stT, k))
                     [ SetStrokeStyle (tooltipBg palette);
                       SetLineWidth 3;
                       SetLineJoin "round" ]
                   ++ lo
            end
         ++ lf /\
       (forall e,
          In e lo <->
          exists pre seg post k,
            segs = pre ++ seg :: post /\
            In k (segOutline ty
                    (fold_left Rplus (map (segWidth textWidth) pre) tx) seg) /\
            e = (stT, k)) /\
       (forall e,
          In e lf <->
          exists pre seg post k,
            segs = pre ++ seg :: post /\
            In k (segFill ty
                    (fold_left Rplus (map (segWidth textWidth) pre) tx) seg) /\
            e = (stT, k))).
Proof.
  intros Hs Hne c' segs totalW tx ty stT.
  unfold c', drawMultiCrosshair; cbv zeta.
  rewrite Rltb_false by lra.
  assert (Hlen : (List.length entries =? 0)%nat = false).
  { destruct entries; [congruence|reflexivity]. }
  rewrite Hlen. simpl orb.
  destruct (verticalLine_log hoverX scrubOpacity c) as (S1 & V1 & L1).
  rewrite xh_state_setGlobalAlpha in L1 by lra.
  set (c1 := verticalLine layout palette hoverX scrubOpacity c) in *.
  assert (H1 : 0 <= 1 <= 1) by lra.
  assert (Hs' : 0 <= scrubOpacity <= 1) by lra.
  (* the dots *)
  set (c2 := if Rgtb (dotRadius scrubOpacity) 0.5
             then fold_left (entryDot layout hoverX (dotRadius scrubOpacity))
                    entries (setGlobalAlpha 1 c1)
             else c1).
  assert (H2 : state c2 = (if Rgtb (dotRadius scrubOpacity) 0.5
                           then withAlpha 1 (state c) else state c) /\
               saved c2 = saved c /\
               ops c2
               = ops c1
                 ++ (if Rgtb (dotRadius scrubOpacity) 0.5
                     then flat_map
                            (fun e => map (fun k => (withAlpha 1 (state c), k))
                               [ BeginPath;
                                 Arc hoverX (toY layout (he_value e))
                                   (dotRadius scrubOpacity) 0 (PI * 2);
                                 SetFillStyle (he_color e);
                                 Fill ]) entries
                     else [])).
  { unfold c2. destruct (Rgtb (dotRadius scrubOpacity) 0.5).
    - pose proof (entryDots_log hoverX (dotRadius scrubOpacity) entries
                    (setGlobalAlpha 1 c1)) as H.
      cbv zeta in H. destruct H as (S & V & L).
      rewrite S, V, L, (xh_state_setGlobalAlpha _ _ H1),
        xh_saved_setGlobalAlpha, xh_ops_setGlobalAlpha, S1, V1.
      auto.
    - rewrite app_nil_r. auto. }
  destruct H2 as (S2 & V2 & L2). clearbody c2.
  assert (ST : state (setGlobalAlpha scrubOpacity (save c2)) = stT).
  { rewrite (xh_state_setGlobalAlpha _ _ Hs'). cbn [state save].
    rewrite S2. unfold stT.
    destruct (Rgtb (dotRadius scrubOpacity) 0.5); reflexivity. }
  destruct (Rltb scrubOpacity 0.1 || Rltb (w layout) 300).
  - split; [exact S2|]. split; [exact V2|].
    exists []. split; [|split; [reflexivity|discriminate]].
    rewrite L2, L1, app_nil_r, <- !app_assoc. reflexivity.
  - fold segs. fold totalW. fold tx. fold ty.
    set (c3 := op (SetTextAlign "left")
                 (op (SetFont tooltipFont)
                    (setGlobalAlpha scrubOpacity (save c2)))).
    assert (S3 : state c3 = stT) by (unfold c3; cbn [state op]; exact ST).
    assert (V3 : saved c3 = state c2 :: saved c2).
    { unfold c3. cbn [saved op]. rewrite xh_saved_setGlobalAlpha.
      reflexivity. }
    assert (L3 : ops c3
                 = ops c2 ++ map (fun k => (stT, k))
                               [ SetFont tooltipFont; SetTextAlign "left" ]).
    { unfold c3. cbn [ops op state]. rewrite ST, xh_ops_setGlobalAlpha.
      cbn [ops save]. rewrite <- !app_assoc. reflexivity. }
    clearbody c3.
    set (sws := combine segs (map (segWidth textWidth) segs)).
    (* outline pass *)
    set (c4 := match tooltipOutline with
               | Some false => c3
               | _ => snd (fold_left (outlineSeg ty) sws
                             (tx, op (SetLineJoin "round")
                                    (op (SetLineWidth 3)
                                       (op (SetStrokeStyle (tooltipBg palette))
                                          c3))))
               end).
    assert (H4 : state c4 = stT /\ saved c4 = state c2 :: saved c2 /\
                 exists lo,
                   ops c4
                   = ops c3
                     ++ match tooltipOutline with
                        | Some false => []
                        | _ => map (fun k => (stT, k))
                                 [ SetStrokeStyle (tooltipBg palette);
                                   SetLineWidth 3;
                                   SetLineJoin "round" ]
                               ++ lo
                        end /\
                   (forall e,
                      In e lo <->
                      exists pre seg post k,
                        segs = pre ++ seg :: post /\
                        In k (segOutline ty
                                (fold_left Rplus
                                   (map (segWidth textWidth) pre) tx) seg) /\
                        e = (stT, k))).
    { set (c3' := op (SetLineJoin "round")
                    (op (SetLineWidth 3)
                       (op (SetStrokeStyle (tooltipBg palette)) c3))).
      destruct (segment_loop (outlineSeg ty) (segOutline ty)
                  (outlineSeg_step ty) sws tx c3') as (S & V & lo & L & Hlo).
      assert (S3' : state c3' = stT) by (unfold c3'; cbn [state op]; exact S3).
      assert (Hchar : forall e,
                In e lo <->
                exists pre seg post k,
                  segs = pre ++ seg :: post /\
                  In k (segOutline ty
                          (fold_left Rplus
                             (map (segWidth textWidth) pre) tx) seg) /\
                  e = (stT, k)).
      { intros e. rewrite Hlo, S3'. apply segment_places. }
      assert (Hon : state (snd (fold_left (outlineSeg ty) sws (tx, c3'))) = stT
                    /\ saved (snd (fold_left (outlineSeg ty) sws (tx, c3')))
                       = state c2 :: saved c2
                    /\ ops (snd (fold_left (outlineSeg ty) sws (tx, c3')))
                       = ops c3
                         ++ (map (fun k => (stT, k))
                               [ SetStrokeStyle (tooltipBg palette);
                                 SetLineWidth 3;
                                 SetLineJoin "round" ] ++ lo)).
      { rewrite S, V, L. unfold c3'. cbn [state saved ops op].
        rewrite S3, V3. split; [reflexivity|]. split; [reflexivity|].
        rewrite <- !app_assoc. reflexivity. }
      destruct Hon as (So & Vo & Lo).
      unfold c4. destruct tooltipOutline as [[|]|].
      - split; [exact So|]. split; [exact Vo|]. exists lo. auto.
      - split; [exact S3|]. split; [exact V3|]. exists lo.
        rewrite app_nil_r. auto.
      - split; [exact So|]. split; [exact Vo|]. exists lo. auto. }
    destruct H4 as (S4 & V4 & lo & L4 & Hlo).
    assert (Hc4 : match tooltipOutline with
                  | Some false => c3
                  | _ => snd (fold_left (outlineSeg ty) sws
                                (tx, op (SetLineJoin "round")
                                       (op (SetLineWidth 3)
                                          (op (SetStrokeStyle
                                                 (tooltipBg palette)) c3))))
                  end = c4) by reflexivity.
    clearbody c4.
    match goal with
    | |- context [fold_left (fillSeg ty) sws (tx, ?cx)] =>
        replace cx with c4
          by (rewrite <- Hc4; destruct tooltipOutline as [[|]|]; reflexivity)
    end.
    destruct (segment_loop (fillSeg ty) (segFill ty) (fillSeg_step ty)
                sws tx c4) as (S5 & V5 & lf & L5 & Hlf).
    unfold restore. rewrite V5, V4. cbn [state saved ops].
    split; [exact S2|]. split; [exact V2|].
    eexists. split.
    + rewrite L5, L4, L3, L2, L1, <- !app_assoc. reflexivity.
    + split; [discriminate|]. intros _. exists lo, lf.
      split; [reflexivity|]. split; [exact Hlo|].
      intros e. rewrite Hlf, S4. apply segment_places.
Qed.

Lemma fold_Rplus_shift (l : list R) (a : R) :
  fold_left Rplus l a = a + fold_left Rplus l 0.
Proof.
  revert a. induction l as [|x l IH]; intros a; simpl; [lra|].
  rewrite (IH (a + x)), (IH (0 + x)). lra.
Qed.

Lemma fold_Rplus_nonneg (l : list R) :
  Forall (fun x => 0 <= x) l -> 0 <= fold_left Rplus l 0.
Proof.
  induction 1 as [|x l Hx _ IH]; simpl; [lra|].
  rewrite fold_Rplus_shift. lra.
Qed.

Lemma segWidth_nonneg (seg : Seg) :
  (forall t, 0 <= textWidth t) -> 0 <= segWidth textWidth seg.
Proof.
  intros H. unfold segWidth. destruct (seg_isDot seg); [lra|apply H].
Qed.

(** A segment lies within the tooltip. *)
Lemma segment_within (pre : list Seg) (seg : Seg) (post : list Seg) (tx : R) :
  (forall t, 0 <= textWidth t) ->
  tx <= fold_left Rplus (map (segWidth textWidth) pre) tx /\
  fold_left Rplus (map (segWidth textWidth) pre) tx + segWidth textWidth seg
  <= tx + fold_left Rplus (map (segWidth textWidth) (pre ++ seg :: post)) 0.
Proof.
  intros Hw.
  assert (Hall : forall l, Forall (fun x => 0 <= x)
                             (map (segWidth textWidth) l)).
  { intros l. apply Forall_forall. intros x Hx.
    apply in_map_iff in Hx. destruct Hx as (s0 & <- & _).
    apply segWidth_nonneg. exact Hw. }
  pose proof (fold_Rplus_nonneg _ (Hall pre)) as Hpre.
  pose proof (fold_Rplus_nonneg _ (Hall post)) as Hpost.
  rewrite map_app, fold_left_app. simpl.
  rewrite (fold_Rplus_shift _ tx).
  rewrite (fold_Rplus_shift (map (segWidth textWidth) post)). lra.
Qed.

(** X22: what the crosshair functions leave behind, for a scrub opacity in
    [0,1].  Both keep the save stack and the translation.  Neither restores
    the global alpha it sets for the dots: once a dot is drawn
    ([scrubOpacity > 1/24], and at least one entry for the multi-series
    crosshair) the context is left at alpha 1; otherwise the drawing state is
    as on entry. *)
Theorem crosshair_leaves_alpha_one (hoverX hoverValue hoverTime : R)
    (entries : list MultiSeriesHoverEntry)
    (formatValue formatTime : R -> string) (scrubOpacity : R)
    (tooltipY liveDotX : option R) (tooltipOutline : option bool)
    (c : Canvas) :
  0 <= scrubOpacity <= 1 ->
  let c1 := drawCrosshair layout palette textWidth hoverX hoverValue hoverTime
              formatValue formatTime scrubOpacity tooltipY liveDotX
              tooltipOutline c in
  let c2 := drawMultiCrosshair layout palette textWidth hoverX hoverTime
              entries formatValue formatTime scrubOpacity tooltipY
              tooltipOutline liveDotX c in
  (saved c1 = saved c /\
   (scrubOpacity > 1 / 24 -> state c1 = withAlpha 1 (state c)) /\
   (scrubOpacity <= 1 / 24 -> state c1 = state c)) /\
  (saved c2 = saved c /\
   (scrubOpacity > 1 / 24 -> entries <> [] ->
    state c2 = withAlpha 1 (state c)) /\
   (scrubOpacity <= 1 / 24 \/ entries = [] -> state c2 = state c)).
Proof.
  intros Hs c1 c2.
  destruct (dotRadius_facts scrubOpacity) as (_ & Riff & _).
  assert (Hdot : scrubOpacity > 1 / 24 ->
                 Rgtb (dotRadius scrubOpacity) 0.5 = true).
  { intros H. apply Rgtb_true. apply Riff. exact H. }
  assert (Hnodot : scrubOpacity <= 1 / 24 ->
                   Rgtb (dotRadius scrubOpacity) 0.5 = false).
  { intros H. apply Rgtb_false. intros Hd. apply Riff in Hd. lra. }
  destruct (Rlt_dec scrubOpacity 0.01) as [Hlow|Hlow].
  - assert (E1 : c1 = c).
    { unfold c1, drawCrosshair. rewrite (Rltb_true _ _ Hlow). reflexivity. }
    assert (E2 : c2 = c).
    { unfold c2, drawMultiCrosshair. rewrite (Rltb_true _ _ Hlow).
      reflexivity. }
    rewrite E1, E2.
    repeat split; try reflexivity; intros; lra.
  - assert (Hs' : 0.01 <= scrubOpacity <= 1) by lra.
    split.
    + pose proof (drawCrosshair_log hoverX hoverValue hoverTime formatValue
                    formatTime scrubOpacity tooltipY liveDotX tooltipOutline c
                    Hs') as H.
      cbv zeta in H. destruct H as (S & V & _). fold c1 in S, V.
      split; [exact V|]. split; intros H.
      * rewrite S, (Hdot H). reflexivity.
      * rewrite S, (Hnodot H). reflexivity.
    + destruct entries as [|e0 es] eqn:He.
      * assert (E2 : c2 = c).
        { unfold c2, drawMultiCrosshair. simpl. rewrite orb_true_r.
          reflexivity. }
        rewrite E2. repeat split; try reflexivity. intros _ H. congruence.
      * assert (Hne : e0 :: es <> []) by discriminate.
        pose proof (drawMultiCrosshair_log hoverX hoverTime (e0 :: es)
                      formatValue formatTime scrubOpacity tooltipY
                      tooltipOutline liveDotX c Hs' Hne) as H.
        cbv zeta in H. destruct H as (S & V & _). fold c2 in S, V.
        split; [exact V|]. split.
        -- intros H _. rewrite S, (Hdot H). reflexivity.
        -- intros [H|H]; [|discriminate H].
           rewrite S, (Hnodot H). reflexivity.
Qed.

(** X23: the dots of [drawMultiCrosshair], for a scrub opacity in [0,1].
    Without entries, or below [scrubOpacity = 0.01], nothing is drawn.
    Otherwise the calls are the vertical line under half the scrub opacity,
    then (from [scrubOpacity > 1/24]) one dot an entry, in the order of the
    entries: a full circle at the hover x and the y of the entry's value, of
    radius [4 * min (3 * scrubOpacity) 1], in the entry's colour and under
    alpha 1; then the text, all under alpha [scrubOpacity], whose only arcs
    are the inline dots of radius 3.5. *)
Theorem drawMultiCrosshair_dots (hoverX hoverTime : R)
    (entries : list MultiSeriesHoverEntry)
    (formatValue formatTime : R -> string) (scrubOpacity : R)
    (tooltipY : option R) (tooltipOutline : option bool)
    (liveDotX : option R) (c : Canvas) :
  0 <= scrubOpacity <= 1 ->
  let c' := drawMultiCrosshair layout palette textWidth hoverX hoverTime
              entries formatValue formatTime scrubOpacity tooltipY
              tooltipOutline liveDotX c in
  (scrubOpacity < 0.01 \/ entries = [] -> c' = c) /\
  (0.01 <= scrubOpacity -> entries <> [] ->
   exists text,
     ops c'
     = ops c
       ++ map (fun k => (withAlpha (scrubOpacity * 0.5) (state c), k))
            [ SetStrokeStyle (crosshairLine palette);
              SetLineWidth 1;
              BeginPath;
              MoveTo hoverX (pad_top (pad layout));
              LineTo hoverX (h layout - pad_bottom (pad layout));
              Stroke ]
       ++ (if Rgtb scrubOpacity (1 / 24)
           then flat_map
                  (fun e => map (fun k => (withAlpha 1 (state c), k))
                              [ BeginPath;
                                Arc hoverX (toY layout (he_value e))
                                  (4 * Rmin (scrubOpacity * 3) 1) 0 (PI * 2);
                                SetFillStyle (he_color e);
                                Fill ]) entries
           else [])
       ++ text /\
     (scrubOpacity < 0.1 \/ w layout < 300 -> text = []) /\
     Forall (fun e => fst e = withAlpha scrubOpacity (state c)) text /\
     (forall st x y r a0 a1,
        In (st, Arc x y r a0 a1) text ->
        r = 3.5 /\
        y = pad_top (pad layout)
            + (match tooltipY with Some y => y | None => 14 end) + 10 - 4)).
Proof.
  intros Hs c'. split.
  - intros [H|H]; unfold c', drawMultiCrosshair.
    + rewrite (Rltb_true _ _ H). reflexivity.
    + rewrite H. simpl. rewrite orb_true_r. reflexivity.
  - intros Hlow Hne.
    assert (Hs' : 0.01 <= scrubOpacity <= 1) by lra.
    pose proof (drawMultiCrosshair_log hoverX hoverTime entries
                  formatValue formatTime scrubOpacity tooltipY
                  tooltipOutline liveDotX c Hs' Hne) as H.
    cbv zeta in H. destruct H as (_ & _ & text & L & Hoff & Hon).
    fold c' in L.
    destruct (dotRadius_facts scrubOpacity) as (_ & Riff & _).
    assert (Hd : Rgtb (dotRadius scrubOpacity) 0.5
                 = Rgtb scrubOpacity (1 / 24)).
    { destruct (Rgt_dec scrubOpacity (1 / 24)) as [Hg|Hg].
      - rewrite (Rgtb_true _ _ Hg). apply Rgtb_true. apply Riff. exact Hg.
      - rewrite (Rgtb_false _ _ Hg). apply Rgtb_false. intros Hr.
        apply Hg. apply Riff. exact Hr. }
    rewrite Hd in L. unfold dotRadius in L.
    exists text. split; [exact L|].
    destruct (Rltb scrubOpacity 0.1 || Rltb (w layout) 300) eqn:Hgate.
    + rewrite (Hoff eq_refl).
      split; [reflexivity|]. split; [apply Forall_nil|].
      intros st x y r a0 a1 [].
    + destruct (Hon eq_refl) as (lo & lf & Htext & Hlo & Hlf).
      apply orb_false_iff in Hgate. destruct Hgate as [Hg1 Hg2].
      apply Rltb_false_inv in Hg1. apply Rltb_false_inv in Hg2.
      split; [intros [H|H]; lra|].
      assert (Hstamp : forall e, In e text ->
                fst e = withAlpha scrubOpacity (state c)).
      { intros e Hin. rewrite Htext in Hin.
        apply in_app_or in Hin. destruct Hin as [Hin|Hin].
        - simpl in Hin. destruct Hin as [<-|[<-|[]]]; reflexivity.
        - apply in_app_or in Hin. destruct Hin as [Hin|Hin].
          + destruct tooltipOutline as [[|]|];
              try (apply in_app_or in Hin; destruct Hin as [Hin|Hin];
                   [simpl in Hin; destruct Hin as [<-|[<-|[<-|[]]]];
                    reflexivity
                   |apply Hlo in Hin;
                    destruct Hin as (? & ? & ? & ? & _ & _ & ->);
                    reflexivity]).
            destruct Hin.
          + apply Hlf in Hin. destruct Hin as (? & ? & ? & ? & _ & _ & ->).
            reflexivity. }
      split; [apply Forall_forall; exact Hstamp|].
      intros st x y r a0 a1 Hin. rewrite Htext in Hin.
      apply in_app_or in Hin. destruct Hin as [Hin|Hin].
      * simpl in Hin. destruct Hin as [Hin|[Hin|[]]]; discriminate Hin.
      * apply in_app_or in Hin. destruct Hin as [Hin|Hin].
        -- assert (Hnone : forall e, In e lo -> e <> (st, Arc x y r a0 a1)).
           { intros e He Heq. apply Hlo in He.
             destruct He as (pre & seg & post & k & _ & Hk & ->).
             unfold segOutline in Hk. destruct (seg_isDot seg); [destruct Hk|].
             destruct Hk as [<-|[]]. discriminate Heq. }
           destruct tooltipOutline as [[|]|];
             try (apply in_app_or in Hin; destruct Hin as [Hin|Hin];
                  [simpl in Hin; destruct Hin as [Hin|[Hin|[Hin|[]]]];
                   discriminate Hin
                  |exfalso; exact (Hnone _ Hin eq_refl)]).
           destruct Hin.
        -- apply Hlf in Hin.
           destruct Hin as (pre & seg & post & k & _ & Hk & Heq).
           inversion Heq; subst k; clear Heq.
           unfold segFill in Hk. destruct (seg_isDot seg).
           ++ destruct Hk as [Hk|[Hk|[Hk|[Hk|[]]]]]; try discriminate Hk.
              inversion Hk. unfold tooltipTextY. split; [reflexivity|].
              reflexivity.
           ++ destruct Hk as [Hk|[Hk|[]]]; discriminate Hk.
Qed.

(** X24: the tooltip of [drawMultiCrosshair], for a scrub opacity in [0,1],
    at least one entry and text widths that are not negative.  Text is drawn
    exactly when [scrubOpacity >= 0.1] and the chart is at least 300 px wide:
    each segment that is not an inline dot (the time, then for each entry the
    separator, the label followed by a space when it is not empty, and the
    value) is filled at the tooltip x plus the widths of the segments before
    it (12 px for an inline dot), at [pad.top + (tooltipY ?? 14) + 10] and
    under alpha [scrubOpacity].  The outline strokes the same texts at the
    same places unless [tooltipOutline] is false (so also when it is not
    given).  Every text lies between the tooltip x and that x plus the
    total width, which never passes the live dot's right edge. *)
Theorem drawMultiCrosshair_tooltip (hoverX hoverTime : R)
    (entries : list MultiSeriesHoverEntry)
    (formatValue formatTime : R -> string) (scrubOpacity : R)
    (tooltipY : option R) (tooltipOutline : option bool)
    (liveDotX : option R) (c : Canvas) :
  0 <= scrubOpacity <= 1 -> entries <> [] ->
  (forall t, 0 <= textWidth t) ->
  let segs := segmentsOf palette formatValue formatTime hoverTime entries in
  let totalW := fold_left Rplus (map (segWidth textWidth) segs) 0 in
  let tx := tooltipX layout hoverX totalW liveDotX in
  let ty := pad_top (pad layout)
            + (match tooltipY with Some y => y | None => 14 end) + 10 in
  let dotRightEdge := match liveDotX with
                      | Some x => x + 7
                      | None => w layout - pad_right (pad layout)
                      end in
  exists l,
    ops (drawMultiCrosshair layout palette textWidth hoverX hoverTime
           entries formatValue formatTime scrubOpacity tooltipY
           tooltipOutline liveDotX c) = ops c ++ l /\
    (forall st t x y,
       In (st, FillText t x y) l <->
       scrubOpacity >= 0.1 /\ w layout >= 300 /\
       st = withAlpha scrubOpacity (state c) /\ y = ty /\
       exists pre seg post,
         segs = pre ++ seg :: post /\ seg_isDot seg = false /\
         t = seg_text seg /\
         x = fold_left Rplus (map (segWidth textWidth) pre) tx) /\
    (forall st t x y,
       In (st, StrokeText t x y) l <->
       tooltipOutline <> Some false /\ In (st, FillText t x y) l) /\
    (forall st t x y,
       In (st, FillText t x y) l ->
       tx <= x /\ x + textWidth t <= tx + totalW) /\
    tx + totalW <= dotRightEdge.
Proof.
  intros Hs Hne Hw segs totalW tx ty dotRightEdge.
  destruct (tooltipX_facts hoverX totalW liveDotX) as (T1 & _).
  fold tx in T1.
  (* the texts, once the text block is known *)
  assert (Hbound : forall pre seg post,
            segs = pre ++ seg :: post -> seg_isDot seg = false ->
            tx <= fold_left Rplus (map (segWidth textWidth) pre) tx /\
            fold_left Rplus (map (segWidth textWidth) pre) tx
            + textWidth (seg_text seg) <= tx + totalW).
  { intros pre seg post Hsegs Hdot.
    destruct (segment_within pre seg post tx Hw) as [B1 B2].
    unfold totalW. rewrite Hsegs.
    unfold segWidth at 2 in B2. rewrite Hdot in B2. auto. }
  destruct (Rlt_dec scrubOpacity 0.01) as [Hlow|Hlow].
  - exists []. unfold drawMultiCrosshair. rewrite (Rltb_true _ _ Hlow).
    simpl orb. cbv iota. rewrite app_nil_r. split; [reflexivity|].
    split; [|split; [|split; [|exact T1]]].
    + intros st t x y. split; [intros []|]. intros (H & _). lra.
    + intros st t x y. split; [intros []|]. intros (_ & []).
    + intros st t x y [].
  - assert (Hs' : 0.01 <= scrubOpacity <= 1) by lra.
    pose proof (drawMultiCrosshair_log hoverX hoverTime entries
                  formatValue formatTime scrubOpacity tooltipY
                  tooltipOutline liveDotX c Hs' Hne) as H.
    cbv zeta in H. destruct H as (_ & _ & text & L & Hoff & Hon).
    fold segs in Hon. fold totalW in Hon. fold tx in Hon.
    unfold tooltipTextY in Hon. fold ty in Hon.
    eexists. split; [exact L|].
    (* texts are in the text block only *)
    assert (Hpre : forall st k,
              (forall t x y, k <> Arc t x y 0 (PI * 2)) ->
              (k = BeginPath -> False) -> (k = Fill -> False) ->
              (forall css, k <> SetFillStyle css) ->
              (forall css, k <> SetStrokeStyle css) ->
              (forall wd, k <> SetLineWidth wd) ->
              (forall x y, k <> MoveTo x y) ->
              (forall x y, k <> LineTo x y) ->
              (k = Stroke -> False) ->
              (In (st, k)
                 (map (fun k => (withAlpha (scrubOpacity * 0.5) (state c), k))
                    [ SetStrokeStyle (crosshairLine palette);
                      SetLineWidth 1;
                      BeginPath;
                      MoveTo hoverX (pad_top (pad layout));
                      LineTo hoverX (h layout - pad_bottom (pad layout));
                      Stroke ]
                  ++ (if Rgtb (dotRadius scrubOpacity) 0.5
                      then flat_map
                             (fun e =>
                                map (fun k => (withAlpha 1 (state c), k))
                                  [ BeginPath;
                                    Arc hoverX (toY layout (he_value e))
                                      (dotRadius scrubOpacity) 0 (PI * 2);
                                    SetFillStyle (he_color e);
                                    Fill ]) entries
                      else [])
                  ++ text)
               <-> In (st, k) text)).
    { intros st k N1 N2 N3 N4 N5 N6 N7 N8 N9.
      rewrite !in_app_iff. split; [|auto].
      intros [Hin|[Hin|Hin]]; [| |exact Hin]; exfalso.
      - simpl in Hin.
        destruct Hin as [Hin|[Hin|[Hin|[Hin|[Hin|[Hin|[]]]]]]];
          inversion Hin; subst k;
          first [ exact (N5 _ eq_refl) | exact (N6 _ eq_refl)
                | exact (N2 eq_refl) | exact (N7 _ _ eq_refl)
                | exact (N8 _ _ eq_refl) | exact (N9 eq_refl) ].
      - destruct (Rgtb (dotRadius scrubOpacity) 0.5); [|destruct Hin].
        apply in_flat_map in Hin. destruct Hin as (e & _ & Hin).
        simpl in Hin. destruct Hin as [Hin|[Hin|[Hin|[Hin|[]]]]];
          inversion Hin; subst k;
          first [ exact (N2 eq_refl) | exact (N1 _ _ _ eq_refl)
                | exact (N4 _ eq_refl) | exact (N3 eq_refl) ]. }
    assert (HpreF : forall st t x y,
              In (st, FillText t x y) _ <-> In (st, FillText t x y) text)
      by (intros; apply Hpre; intros; discriminate).
    assert (HpreS : forall st t x y,
              In (st, StrokeText t x y) _ <-> In (st, StrokeText t x y) text)
      by (intros; apply Hpre; intros; discriminate).
    assert (Hfill : forall st t x y,
              In (st, FillText t x y) text <->
              scrubOpacity >= 0.1 /\ w layout >= 300 /\
              st = withAlpha scrubOpacity (state c) /\ y = ty /\
              exists pre seg post,
                segs = pre ++ seg :: post /\ seg_isDot seg = false /\
                t = seg_text seg /\
                x = fold_left Rplus (map (segWidth textWidth) pre) tx).
    { intros st t x y.
      destruct (Rltb scrubOpacity 0.1 || Rltb (w layout) 300) eqn:Hgate.
      - rewrite (Hoff eq_refl). split; [intros []|].
        intros (G1 & G2 & _). apply orb_true_iff in Hgate.
        destruct Hgate as [Hg|Hg]; apply Rltb_spec in Hg; lra.
      - destruct (Hon eq_refl) as (lo & lf & Htext & Hlo & Hlf).
        apply orb_false_iff in Hgate. destruct Hgate as [Hg1 Hg2].
        apply Rltb_false_inv in Hg1. apply Rltb_false_inv in Hg2.
        rewrite Htext, !in_app_iff. split.
        + intros [Hin|[Hin|Hin]].
          * simpl in Hin. destruct Hin as [Hin|[Hin|[]]]; discriminate Hin.
          * exfalso.
            assert (Hnone : forall e, In e lo -> e <> (st, FillText t x y)).
            { intros e He Heq. apply Hlo in He.
              destruct He as (pre & seg & post & k & _ & Hk & ->).
              unfold segOutline in Hk.
              destruct (seg_isDot seg); [destruct Hk|].
              destruct Hk as [<-|[]]. discriminate Heq. }
            destruct tooltipOutline as [[|]|];
              try (apply in_app_or in Hin; destruct Hin as [Hin|Hin];
                   [simpl in Hin; destruct Hin as [Hin|[Hin|[Hin|[]]]];
                    discriminate Hin
                   |exact (Hnone _ Hin eq_refl)]).
            destruct Hin.
          * apply Hlf in Hin.
            destruct Hin as (pre & seg & post & k & Hsegs & Hk & Heq).
            inversion Heq; subst st k; clear Heq.
            unfold segFill in Hk. destruct (seg_isDot seg) eqn:Hdot.
            -- destruct Hk as [Hk|[Hk|[Hk|[Hk|[]]]]]; discriminate Hk.
            -- destruct Hk as [Hk|[Hk|[]]]; [discriminate Hk|].
               inversion Hk; subst t x y.
               split; [lra|]. split; [lra|]. split; [reflexivity|].
               split; [reflexivity|]. exists pre, seg, post. auto.
        + intros (_ & _ & -> & -> & pre & seg & post & Hsegs & Hdot & -> & ->).
          right. right. apply Hlf. exists pre, seg, post,
            (FillText (seg_text seg)
               (fold_left Rplus (map (segWidth textWidth) pre) tx) ty).
          split; [exact Hsegs|]. split; [|reflexivity].
          unfold segFill. rewrite Hdot. right. left. reflexivity. }
    split; [intros st t x y; rewrite HpreF; apply Hfill|].
    split; [|split; [|exact T1]].
    + intros st t x y. rewrite HpreS, HpreF, Hfill.
      destruct (Rltb scrubOpacity 0.1 || Rltb (w layout) 300) eqn:Hgate.
      * rewrite (Hoff eq_refl). split; [intros []|].
        intros (_ & G1 & G2 & _). apply orb_true_iff in Hgate.
        destruct Hgate as [Hg|Hg]; apply Rltb_spec in Hg; lra.
      * destruct (Hon eq_refl) as (lo & lf & Htext & Hlo & Hlf).
        apply orb_false_iff in Hgate. destruct Hgate as [Hg1 Hg2].
        apply Rltb_false_inv in Hg1. apply Rltb_false_inv in Hg2.
        rewrite Htext, !in_app_iff. split.
        -- intros [Hin|[Hin|Hin]].
           ++ simpl in Hin. destruct Hin as [Hin|[Hin|[]]]; discriminate Hin.
           ++ assert (Hlo' : In (st, StrokeText t x y) lo ->
                       st = withAlpha scrubOpacity (state c) /\ y = ty /\
                       exists pre seg post,
                         segs = pre ++ seg :: post /\ seg_isDot seg = false /\
                         t = seg_text seg /\
                         x = fold_left Rplus
                               (map (segWidth textWidth) pre) tx).
              { intros He. apply Hlo in He.
                destruct He as (pre & seg & post & k & Hsegs & Hk & Heq).
                inversion Heq; subst st k; clear Heq.
                unfold segOutline in Hk.
                destruct (seg_isDot seg) eqn:Hdot; [destruct Hk|].
                destruct Hk as [Hk|[]]. inversion Hk; subst t x y.
                split; [reflexivity|]. split; [reflexivity|].
                exists pre, seg, post. auto. }
              destruct tooltipOutline as [[|]|];
                try (apply in_app_or in Hin; destruct Hin as [Hin|Hin];
                     [simpl in Hin; destruct Hin as [Hin|[Hin|[Hin|[]]]];
                      discriminate Hin
                     |destruct (Hlo' Hin) as (A & B & C);
                      split; [discriminate|];
                      split; [lra|]; split; [lra|]; auto]).
              destruct Hin.
           ++ exfalso. apply Hlf in Hin.
              destruct Hin as (pre & seg & post & k & _ & Hk & Heq).
              inversion Heq; subst st k; clear Heq.
              unfold segFill in Hk. destruct (seg_isDot seg).
              ** destruct Hk as [Hk|[Hk|[Hk|[Hk|[]]]]]; discriminate Hk.
              ** destruct Hk as [Hk|[Hk|[]]]; discriminate Hk.
        -- intros (Hout & _ & _ & -> & -> & pre & seg & post & Hsegs & Hdot
                   & -> & ->).
           right. left.
           assert (Hin : In (withAlpha scrubOpacity (state c),
                             StrokeText (seg_text seg)
                               (fold_left Rplus
                                  (map (segWidth textWidth) pre) tx) ty) lo).
           { apply Hlo. exists pre, seg, post,
               (StrokeText (seg_text seg)
                  (fold_left Rplus (map (segWidth textWidth) pre) tx) ty).
             split; [exact Hsegs|]. split; [|reflexivity].
             unfold segOutline. rewrite Hdot. left. reflexivity. }
           destruct tooltipOutline as [[|]|];
             [apply in_or_app; right; exact Hin
             |congruence
             |apply in_or_app; right; exact Hin].
    + intros st t x y Hin. rewrite HpreF, Hfill in Hin.
      destruct Hin as (_ & _ & _ & _ & pre & seg & post & Hsegs & Hdot
                       & -> & ->).
      exact (Hbound pre seg post Hsegs Hdot).
Qed.

End CrosshairFacts.

Lemma charWidth_nonneg (t : string) : 0 <= Crosshair.charWidth t.
Proof.
  unfold Crosshair.charWidth.
  pose proof (pos_INR (String.length t)). lra.
Qed.

Lemma drawCrosshair_dot_witness :
  exists l,
    Crosshair.ops
      (Crosshair.drawCrosshair Sample.layout Sample.palette
         Crosshair.charWidth 100 70 1 (fun _ => "v"%string)
         (fun _ => "t"%string) (1 / 2) None None None Crosshair.blank)
    = Crosshair.ops Crosshair.blank ++ l /\
    In (withAlpha 1 (Crosshair.state Crosshair.blank),
        Crosshair.Arc 100 (toY Sample.layout 70) (4 * Rmin (1 / 2 * 3) 1)
          0 (PI * 2)) l.
Proof.
  assert (Hs : 0 <= 1 / 2 <= 1) by lra.
  destruct (drawCrosshair_dot Sample.layout Sample.palette
              Crosshair.charWidth 100 70 1 (fun _ => "v"%string)
              (fun _ => "t"%string) (1 / 2) None None None Crosshair.blank Hs)
    as (l & L & _ & Hin & _).
  exists l. split; [exact L|]. apply Hin. lra.
Defined.

Lemma drawCrosshair_tooltip_witness :
  Crosshair.tooltipX Sample.layout 100
    (Crosshair.charWidth "v" + Crosshair.charWidth Crosshair.separator
     + Crosshair.charWidth "t") (Some 300)
  + (Crosshair.charWidth "v" + Crosshair.charWidth Crosshair.separator
     + Crosshair.charWidth "t")
  <= 300 + 7.
Proof.
  assert (Hs : 0 <= 1 / 2 <= 1) by lra.
  destruct (drawCrosshair_tooltip Sample.layout Sample.palette
              Crosshair.charWidth 100 70 1 (fun _ => "v"%string)
              (fun _ => "t"%string) (1 / 2) None (Some 300) None
              Crosshair.blank Hs)
    as (l & _ & _ & _ & H & _).
  exact H.
Defined.

Lemma crosshair_leaves_alpha_one_witness :
  Crosshair.state
    (Crosshair.drawCrosshair Sample.layout Sample.palette
       Crosshair.charWidth 100 70 1 (fun _ => "v"%string)
       (fun _ => "t"%string) (1 / 2) None None None Crosshair.blank)
  = withAlpha 1 (Crosshair.state Crosshair.blank).
Proof.
  assert (Hs : 0 <= 1 / 2 <= 1) by lra.
  destruct (crosshair_leaves_alpha_one Sample.layout Sample.palette
              Crosshair.charWidth 100 70 1 Crosshair.entries
              (fun _ => "v"%string) (fun _ => "t"%string) (1 / 2) None None
              None Crosshair.blank Hs)
    as ((_ & H & _) & _).
  apply H. lra.
Defined.

Lemma drawMultiCrosshair_dots_witness :
  exists text,
    Crosshair.ops
      (Crosshair.drawMultiCrosshair Sample.layout Sample.palette
         Crosshair.charWidth 100 1 Crosshair.entries (fun _ => "v"%string)
         (fun _ => "t"%string) (1 / 2) None None None Crosshair.blank)
    = map (fun k => (withAlpha (1 / 2 * 0.5)
                       (Crosshair.state Crosshair.blank), k))
        [ Crosshair.SetStrokeStyle (crosshairLine Sample.palette);
          Crosshair.SetLineWidth 1;
          Crosshair.BeginPath;
          Crosshair.MoveTo 100 (pad_top (pad Sample.layout));
          Crosshair.LineTo 100
            (h Sample.layout - pad_bottom (pad Sample.layout));
          Crosshair.Stroke ]
      ++ map (fun k => (withAlpha 1
                          (Crosshair.state Crosshair.blank), k))
           [ Crosshair.BeginPath;
             Crosshair.Arc 100 (toY Sample.layout 80)
               (4 * Rmin (1 / 2 * 3) 1) 0 (PI * 2);
             Crosshair.SetFillStyle "#ff0000";
             Crosshair.Fill;
             Crosshair.BeginPath;
             Crosshair.Arc 100 (toY Sample.layout 60)
               (4 * Rmin (1 / 2 * 3) 1) 0 (PI * 2);
             Crosshair.SetFillStyle "#00ff00";
             Crosshair.Fill ]
      ++ text /\
    Forall (fun e => fst e = withAlpha (1 / 2)
                               (Crosshair.state Crosshair.blank)) text.
Proof.
  assert (Hs : 0 <= 1 / 2 <= 1) by lra.
  assert (Hlow : 0.01 <= 1 / 2) by lra.
  assert (Hdot : 1 / 2 > 1 / 24) by lra.
  assert (Hne : Crosshair.entries <> []) by discriminate.
  destruct (drawMultiCrosshair_dots Sample.layout Sample.palette
              Crosshair.charWidth 100 1 Crosshair.entries
              (fun _ => "v"%string) (fun _ => "t"%string) (1 / 2) None None
              None Crosshair.blank Hs)
    as [_ H].
  destruct (H Hlow Hne) as (text & L & _ & Hall & _).
  exists text. split; [|exact Hall].
  rewrite L, (Rgtb_true _ _ Hdot). reflexivity.
Defined.

Lemma drawMultiCrosshair_tooltip_witness :
  Crosshair.tooltipX Sample.layout 100
    (fold_left Rplus
       (map (Crosshair.segWidth Crosshair.charWidth)
          (Crosshair.segmentsOf Sample.palette (fun _ => "v"%string)
             (fun _ => "t"%string) 1 Crosshair.entries)) 0) None
  + fold_left Rplus
      (map (Crosshair.segWidth Crosshair.charWidth)
         (Crosshair.segmentsOf Sample.palette (fun _ => "v"%string)
            (fun _ => "t"%string) 1 Crosshair.entries)) 0
  <= w Sample.layout - pad_right (pad Sample.layout).
Proof.
  assert (Hs : 0 <= 1 / 2 <= 1) by lra.
  assert (Hne : Crosshair.entries <> []) by discriminate.
  destruct (drawMultiCrosshair_tooltip Sample.layout Sample.palette
              Crosshair.charWidth 100 1 Crosshair.entries
              (fun _ => "v"%string) (fun _ => "t"%string) (1 / 2) None None
              None Crosshair.blank Hs Hne charWidth_nonneg)
    as (l & _ & _ & _ & _ & H).
  exact H.
Defined.

(* ------------------------------------------------------------------ *)
(** ** The bars blocks of the composers *)

Section BarsBlocksFacts.

Context {E : Externals}.
Variables (layout : ChartLayout) (palette : LivelinePalette).
Variables (obars : option (list BarPoint)) (obarLayout : option BarLayout)
          (obarWidthSecs : option R) (obarMode : option BarMode)
          (obarFillColor : option string) (obarShowLabels : option bool).
Variables (oscrubAmount : R) (ohoverX : option R) (reveal : R).

(** X25: the two bars blocks of [drawFrame] and [drawCandleFrame].  At most
    one of them draws (the mode is either overlay or default); neither
    draws when an option is missing, when [barWidthSecs] is 0 or when the
    fill colour is the empty string; the overlay bars need [reveal > 0.1]
    and the default bars [reveal > 0.15].  The options handed to [drawBars]
    have a reveal progress in [0,1] (1 from [reveal >= 0.8]), and a scrub
    position only when [scrubAmount > 0.05]. *)
Theorem bars_blocks_exclusive (c c' : Ctx) :
  let overlay := Bars.barsOverlay layout palette obars obarLayout
                   obarWidthSecs obarMode obarFillColor obarShowLabels
                   oscrubAmount ohoverX reveal in
  let default := Bars.barsDefault layout palette obars obarLayout
                   obarWidthSecs obarMode obarFillColor obarShowLabels
                   oscrubAmount ohoverX reveal in
  let options := Bars.barOptions palette obarShowLabels oscrubAmount ohoverX
                   reveal in
  (overlay c = c \/ default c' = c') /\
  (obars = None \/ obarLayout = None \/ obarWidthSecs = None \/
   obarWidthSecs = Some 0 \/ obarMode = None \/ obarFillColor = None \/
   obarFillColor = Some EmptyString ->
   overlay c = c /\ default c = c) /\
  (reveal <= 0.1 -> overlay c = c) /\
  (reveal <= 0.15 -> default c = c) /\
  (forall bs ws fc,
     0 <= Bars.revealProgress (options bs ws fc) <= 1 /\
     (0.8 <= reveal -> Bars.revealProgress (options bs ws fc) = 1) /\
     (Bars.scrubX (options bs ws fc) <> None -> oscrubAmount > 0.05)).
Proof.
  cbv zeta. split; [|split; [|split; [|split]]].
  - unfold Bars.barsOverlay, Bars.barsDefault, Bars.barsEnabled.
    destruct obars, obarLayout, obarWidthSecs, obarMode as [[|]|],
      obarFillColor as [[|]|]; auto;
      destruct (Reqb _ 0); auto.
  - intros H. unfold Bars.barsOverlay, Bars.barsDefault, Bars.barsEnabled.
    destruct H as [->|[->|[->|[->|[->|[->| ->]]]]]];
      repeat match goal with
      | |- context [match ?o with _ => _ end] =>
          is_var o; destruct o
      end; auto;
      try (rewrite Reqb_true by reflexivity; auto);
      try (destruct (Reqb _ 0); auto).
  - intros Hr. unfold Bars.barsOverlay.
    destruct (Bars.barsEnabled _ _ _ _ _ _) as [[[[bs bl] ws] fc]|];
      [|reflexivity].
    cbv zeta. rewrite Rltb_true by lra.
    rewrite revealRamp_before by lra. rewrite Rgtb_false by lra. reflexivity.
  - intros Hr. unfold Bars.barsDefault.
    destruct (Bars.barsEnabled _ _ _ _ _ _) as [[[[bs bl] ws] fc]|];
      [|reflexivity].
    cbv zeta. rewrite Rltb_true by lra.
    rewrite revealRamp_before by lra. rewrite Rgtb_false by lra. reflexivity.
  - intros bs ws fc. unfold Bars.barOptions.
    cbn [Bars.revealProgress Bars.scrubX].
    split; [|split].
    + destruct (Rltb reveal 1); [|lra]. apply revealRamp_range.
    + intros Hr. destruct (Rltb reveal 1); [|reflexivity].
      apply revealRamp_after; lra.
    + intros Hx. destruct (Rgtb oscrubAmount 0.05) eqn:Hs; [|congruence].
      apply Rgtb_spec. exact Hs.
Qed.

End BarsBlocksFacts.
